(* ===== verification/_CoqProject ===== *)
-Q . S2P
Prelude.v
Cstd.v
Rte.v
Env.v
Packet.v
Ownership.v
Sim.v
NatRewrite.v
NatPool.v
NatIo.v
NatHash.v
IpPort.v
SaveIp.v
NatV4.v
NatV5.v
NatV6.v
NatV6Props.v
NatV6Live.v
NatV6Reuse.v
LoadBalancer.v
NatV3.v
StaticNat.v
MacLearn.v
L2Fwd.v
SwapAddr.v
CtrlData.v
Lpm.v
PacketOps.v
Vxlan.v
RteAcl.v
PacketParse.v
RteGraph.v
GraphPipe.v
GraphDrop.v
GraphFw.v
Pipeline.v
AclFilter.v
MbufAlloc.v
GraphTest.v
Schedule.v
Ipc.v
RingDuplex.v
RingSingle.v
RingFifo.v
FeatureArc.v
Rcu.v
Reorder.v
BurstIo.v
Prefetch.v
Threads.v
Rss.v
Echo.v
Power.v
Telemetry.v
GraphSched.v
GraphSmall.v
EventDev.v
EventApps.v
EventWorkers.v
Messaging.v
Lcores.v
Cloning.v
FirstSteps.v
Cli.v
