(* ===== verification/Prelude.v ===== *)
(** * A verification library for the DPDK example programs

    The repository is a collection of small DPDK programs in C, one per
    directory: address translators, a load balancer, tunnels, switches,
    routers, filters, packet graphs, event devices, command lines, threads and
    processes that share rings, pointers and messages.
    Most share a shape: set up the environment, a mempool and the ports, exit if
    that fails, then loop forever over bursts of packets that are parsed,
    rewritten in place, looked up in tables, and sent or freed.  This library
    models the programs below statement by statement and proves what each of
    them does to packets, tables and buffers.

    ** The layers

    - [Prelude] (this file): machine-width integers as [Z] with their wrap-around,
      byte arrays, little-endian layout, byte swapping.
    - [Cstd]: the part of the C library the programs call: [inet_pton],
      [inet_ntop], [fgets], [sscanf] conversions, [strtoul].
    - [Rte]: DPDK as the programs see it.  DPDK is not part of the repository, so
      it is an interface: the [mbuf] record and loads and stores in its buffer,
      and one class per service with its documented laws ([Byteorder], [Cksum],
      [RteHash], [RteTimer], [Pktmbuf], [RteRing], [RteLpm]).  More are in
      files of their own: [RteAcl] (classification: of the matching rules one of
      the highest priority), [RteGraph] (nodes, streams of objects, and a walk
      that runs the nodes with objects in an order the library chooses),
      [GraphSched] (the same library with the set of the nodes that wait to run,
      for programs that enqueue nothing) and [EventDev] ([RteEventdev]: events
      wait in the queues that are linked to a port; the device chooses among
      them but keeps the order within a flow), each with the rules for
      programs over it.  A class that one program alone needs stands in its
      file: [RteQsbr], [RteReorder], [RteMbufs], [RteCmdline].
    - [Env]: effects.  A program is a function of the monad [M S]: it threads its
      own state [S] and the trace of all it did ([event]s, newest first), and it
      returns, exits ([rte_exit]) or faults ([Fault]: a NULL or dangling pointer
      is dereferenced).  What the NIC, the clock, the allocator, files and the
      user answer is an arbitrary [Env], a function of the trace with documented
      bounds (a burst is at most as long as asked, [malloc] returns NULL or a
      fresh block, ...).  [wp] is the weakest precondition; it has rules for
      every operation and for the loops, and [wp_steps] runs a program
      symbolically.
    - [Packet]: header layout (offsets and sizes of the protocol headers), loads
      after stores ([mem]), frames ([frame_but rs m m']: only the byte ranges
      [rs] may differ), the theory of one's complement checksums, and the
      programs' two checksum idioms ([recalc_ip], [recalc_l4]).
    - [Ownership]: [owned held t] says that of all buffers received or allocated
      in the trace [t] exactly [held] were not handed back, by a transmission the
      NIC accepted or by [rte_pktmbuf_free], and that none was handed back twice;
      [received] and [given] are the packets themselves, in order; [prints m ls a]
      says that a program prints the lines [ls] and does nothing else.
    - [Schedule] (two threads) and [Threads] (any number): programs that
      interleave.  A rule for invariants under every schedule, and rules for
      fair schedules: a measure that the helpful thread of each state lowers and
      no other raises reaches its end after so many rounds.
    - [BurstIo]: loops over a burst that only read, and [printed], the lines a
      trace has printed.
    - [Sim]: an executable instance of every class of [Rte] and a scripted
      environment; they show that the laws can hold, and the witnesses run on
      them.  The instances of the other classes are in the files of the classes.

    ** The programs

    - [NatV6], [NatV6Props], [NatV6Live], [NatV6Reuse]: nat_project/version6, NAPT with one entry, two keys and one
      timer per flow.  [nat_state] is the static state of static_nat.c with the
      heap of the entries; [nat_process_packet], [create_entry], [refresh],
      [nat_entry_expire], ... are the functions of that name; [process_burst]
      and [loop_body] are the loops of main.c.
    - [NatV5], [NatV4]: nat_project/version5 and version4, pools of public
      addresses given to private sources, in version5 with timers and inbound
      mappings.  [NatPool] is the pool they share, [NatRewrite] the rewriting
      with checksums, [NatIo] the identical port.c and mempool.c, the clock of the
      main loops and the line reader of config.c, [NatHash] their hash.c.
    - [NatV3]: nat_project/version3, a table of static mappings from a file or the
      user.
    - [IpPort], [SaveIp]: nat_project/version2 and sample, monitors of flows and of
      addresses.
    - [StaticNat]: NAT/static_nat.  [LoadBalancer]: Load_Balancer.
      [Vxlan]: vxlan.  [CtrlData]: control_data_segregation.
      [Lpm]: longest_prefix_match_lpm (both programs).
      [MacLearn]: hashing/mac_learning.  [L2Fwd]: l2_forwarding.
      [SwapAddr]: tranmit_packet/swap_addr.  [PacketOps]: packet_change.
    - [PacketParse]: ports/packet_parsing and ports/port_mempool, a parser of
      packets that prints what it finds, with a grammar of frames ([frame],
      [encode]) and the lines that describe one ([describe]).
    - [MbufAlloc]: tranmit_packet/packet_creation and mempool_membuff, programs that
      allocate and fill their own packets.
    - [AclFilter]: the five programs of ACL, over [RteAcl].
    - [GraphPipe]: graph/pipeline.  [GraphDrop]: graph/rx_drop_sample.
      [GraphFw]: dpdk-graph-fw, with its command line, whose thread acts between
      two steps of the walk.  [GraphTest]: graph/testing.  All over [RteGraph].
    - [Pipeline]: thread_parsing/threaded_project and nic_stats/sample, three
      threads and two rings.
    - [Ipc]: two processes over a shared heap and named rings; [RingDuplex]:
      inter_process_comm/ring_full_duplex; [RingSingle]:
      inter_process_comm/single_ring_full_duplex; [RingFifo]:
      inter_process_comm/through_rte_ring and rings/sample.  [Messaging]:
      inter_process_comm/Multi_Process_Messaging and sample_rte_mp, with the
      callbacks that a thread of the library runs.
    - [FeatureArc]: feature_arc/sample.  [GraphSmall]: graph/node_sched,
      graph/sample, graph/two_start_with_worker, graph/two_start_node and
      feature_arc/graph_arc.
    - [Rcu]: rcu/sample, a pointer that a writer replaces while a reader uses it.
    - [Reorder]: the four programs of reordering.  [Prefetch]: prefetch/demo and
      prefetch/wrong.  [Echo]: ports/begin, rxtx_callbacks and meter_dpdk.
    - [Rss]: rss_dpdk, both programs.  [Power]: power_aware_polling.
      [Telemetry]: telementry.  [Lcores]: lcore and practice.
    - [EventApps], [EventWorkers]: eventdev/01project, 02practice, practice and
      parsing_event, and inter_process_comm/eventdev, over [EventDev].
    - [Cloning]: zero_copy_cloning, over mbufs that are references.
    - [FirstSteps]: hello_world, hashing/sample, timer/sample and
      inter_process_comm/virtu_vhost_ipc.  [Cli]: cli/sample, cli/new_core and
      cli/socket_cli.

    In the concurrent programs a thread is a program counter ([rx_pc],
    [primary_pc], ...) with the variables it needs; its step function is the C
    function, cut so that a step makes at most one access to what others also
    write.  A schedule is a list of threads, [run] executes it, and the theorems
    hold for every schedule.

    Definitions have the names of the C functions.  The body of a loop is a
    definition of its own ([loop_body], [handle], [route], ...), so that the
    theorems can speak about one iteration or one packet.  A function that
    changes a packet through a pointer returns the changed packet, whose [mb_id]
    is the address of the mbuf.  Variables of [main] that the loop changes are
    the loop variable, static variables and tables the state.

    ** The theorems

    - Packets: what each program does to a packet on every branch: which fields
      change and to what, that nothing else changes ([frame_but]), and whether the
      IPv4, TCP and UDP checksums are valid afterwards ([nat_packet5_correct],
      [nat_process_packet_correct], [nat_apply_correct], [rewrite_l4_packet_correct], [vxlan_encap_correct],
      [simulate_nat_correct], [operations_correct], [acl_filter_correct],
      [fw_walk_policy], ...).
    - Tables: invariants that relate the table to the objects its data pointers
      refer to, kept by every operation and timer callback; lookups after
      updates; expiry releases exactly what is due ([nat_timer_manage_expires],
      [expiry_timer_correct], [nat_add_mapping_correct], ...).
    - End to end: an answer to a translated packet reaches the client
      ([nat_reply_reaches_client]), through any rounds of the main loop within
      the timeout ([nat_flow_lives]), and the wrong client once a port is used twice
      ([port_reuse_misdelivers]); decapsulation undoes encapsulation
      ([decap_encap]), the load is balanced ([round_robin_fair]), the bursts
      leave in the right order, the classes being told by the bytes on the wire
      ([segregate_iteration]), routes are the longest
      matches ([route_correct]), the parser prints exactly the description of
      every frame of the grammar ([parse_packet_describes]) and reads what the
      packet builder writes ([build_udp_packet_parses]), a graph does the work of
      a loop ([graph_equals_loop]) and forwards in order whatever the order of its
      nodes ([pipeline_forwards_ip]).
    - Interleavings: threads and processes keep packets and messages in order and
      account for every block under every schedule ([pipeline_fifo],
      [duplex_correct], [single_ring_correct], [simple_ring_correct],
      [pair_fifo], [processes_account], [rss_main_correct]); no memory is used
      after it was freed, or freed while a reader may use it ([rcu_main_safe]);
      fair schedules end ([pipeline_ends], [duplex_ends], [fw_main_ends],
      [rcu_main_ends], [pair_ends], [wit_correct]), or there is a schedule that
      does not ([single_ring_starves], [secondary_starves]) or that uses what was
      freed ([single_ring_use_after_free], [ring_use_after_free]), or that lets
      two lcores into one event port ([parallel_use]).
    - Libraries with freedom: what programs do whatever order an event device
      ([one_event_received], [two_consumers_correct], [parsing_keeps]), a reorder
      buffer ([reorder_main_correct]), or a graph ([node_sched_correct],
      [two_starts_correct]) chooses.
    - Data structures: the arc of nodes stays well formed under every operation
      and a dump of it prints the enabled features in order
      ([arc_operations_wf], [rebuild_dump_correct]); two mbufs over one buffer
      ([cloning_correct]); a prefetching loop does what the plain loop does
      ([prefetch_equivalent]).
    - Whole programs: for every environment and every number of iterations,
      [main] does not fault, exits only during set-up, and hands every buffer
      back exactly once; where a program loses buffers, the theorem says which
      ([..._leaks...]).
    - Errors: failing files, pools and headroom, and what happens then
      ([nat_load_from_file_correct], [null_pool_faults],
      [encap_without_headroom]).

    ** Bounds

    The packet loops never end in C.  [forever n] is the first [n] iterations,
    and the theorems hold for all [n]; loops with a quit flag ([while_running n])
    return whether the flag ended them.  The other fuel is that of [fgets_lines],
    the length of the file, which [file_lines_ok] shows to be enough; the number
    of mappings the user may type in [NatV3], for which the theorem is stated for
    every number; and [WALK_FUEL] of the graph walks, where running out is a
    fault: the theorems show that no walk faults, because every node lowers the
    number of objects weighted by their distance from the end of the graph.
    Schedules are finite lists of steps.  [duplex_ends] bounds the rounds by the
    steps that are not waiting, 101 in all; [rcu_main_ends] needs 270 rounds,
    [pair_ends] 40, [wit_correct] one per step that the lcores make.  The loops
    of [EventApps] that poll a device have a fuel; [two_consumers_correct] shows
    that ten times the rounds in which the device must act are enough.
    [dump_pipeline] has a fuel too: links that lead forward along the arc need no
    more than its nodes ([rebuild_dump_correct]), and a cycle exhausts every fuel.

    ** What is not modelled

    - Arguments that are only handed on to DPDK (socket identifiers, port
      configurations, flags of hash functions) and the text of fatal messages.
    - Signal handlers: the quit flag is read from the environment.  [rte_panic],
      which aborts, ends a program like [rte_exit].
    - Set-up by two processes at once: in inter_process_comm/eventdev the primary
      has set up the event device before the secondary takes its first step.
    - The size of headers against the length of a packet, in the programs that do
      not compare them: a packet is a buffer of the mempool's fixed size, and
      [room m n] states that [n] bytes lie inside it.  Theorems about checksums
      ask for an IPv4 header without options where the code assumes one.
    - Compiler and memory-model effects between lcores: the accesses of the
      concurrent programs are interleaved, each ring operation being one step, and
      each process of inter_process_comm sees the writes of the other in order.
    - Failing [malloc] in the programs that do not test its result: their theorems
      assume that memory does not run out ([malloc_works], [pool_yields],
      [alloc_works]).
    - What the programs rely on without a test is a hypothesis of their theorems:
      the NIC does not deliver one buffer twice in a burst ([rx_distinct]), and
      no allocation yields a buffer in use ([alloc_distinct]); the bytes read lie
      in the buffer ([rx_in_buffer], [rx_room]); the clock passes a threshold in a
      second of sleep ([fast_clock]); set-up calls succeed ([links_work],
      [starts], [works]); an event device takes and delivers within a bound
      ([takes_within], [delivers_within]); the user types a number first
      ([number_first]).
    - What the NIC writes to a buffer the program has given away: a packet that is
      transmitted again is the value it was ([simple_tx_main]).
    - graph_private_context, which calls functions the library does not have, and
      the web interface cli/websocket.  Files that are copies of each other (mempool.c, port.c,
      hash.c and mk_buff_info.c of several directories) are modelled once. *)

From Stdlib Require Export ZArith Lia Permutation.
From stdpp Require Export base list numbers gmap strings.

#[global] Open Scope Z_scope.

(** ** Machine-width integers *)

Definition u8 (x : Z) : Z := x mod 2 ^ 8.
Definition u16 (x : Z) : Z := x mod 2 ^ 16.
Definition u32 (x : Z) : Z := x mod 2 ^ 32.
Definition u64 (x : Z) : Z := x mod 2 ^ 64.

Definition is_u8 (x : Z) : Prop := 0 <= x < 256.
Definition is_u16 (x : Z) : Prop := 0 <= x < 65536.
Definition is_u32 (x : Z) : Prop := 0 <= x < 4294967296.
Definition is_u64 (x : Z) : Prop := 0 <= x < 18446744073709551616.

Create HintDb words.
#[export] Hint Unfold is_u8 is_u16 is_u32 is_u64 : words.

Ltac words := autounfold with words in *; unfold u8, u16, u32, u64 in *;
  change (2 ^ 8) with 256 in *; change (2 ^ 16) with 65536 in *;
  change (2 ^ 32) with 4294967296 in *;
  change (2 ^ 64) with 18446744073709551616 in *;
  Z.div_mod_to_equations; lia.

Lemma u8_range x : is_u8 (u8 x).  Proof. words. Qed.
Lemma u16_range x : is_u16 (u16 x). Proof. words. Qed.
Lemma u32_range x : is_u32 (u32 x). Proof. words. Qed.
Lemma u64_range x : is_u64 (u64 x). Proof. words. Qed.
Lemma u8_small x : is_u8 x -> u8 x = x. Proof. words. Qed.
Lemma u16_small x : is_u16 x -> u16 x = x. Proof. words. Qed.
Lemma u32_small x : is_u32 x -> u32 x = x. Proof. words. Qed.
Lemma u64_small x : is_u64 x -> u64 x = x. Proof. words. Qed.
#[export] Hint Resolve u8_range u16_range u32_range u64_range : words.

(** ** Byte arrays indexed by [Z]

    [get] and [upd] read and write one byte of an array; outside the array
    [get] is 0 and [upd] changes nothing, and the theorems ask for the bounds
    under which no such access happens. *)

Definition get (l : list Z) (i : Z) : Z := nth (Z.to_nat i) l 0.
Definition upd (l : list Z) (i v : Z) : list Z :=
  if i <? 0 then l else <[Z.to_nat i := v]> l.
Definition zlen {A} (l : list A) : Z := Z.of_nat (length l).

Lemma zlen_app {A} (a b : list A) : zlen (a ++ b) = zlen a + zlen b.
Proof. unfold zlen. rewrite length_app. lia. Qed.
Lemma zlen_nonneg {A} (l : list A) : 0 <= zlen l.
Proof. unfold zlen. lia. Qed.

Lemma zlen_upd l i v : zlen (upd l i v) = zlen l.
Proof. unfold upd, zlen. destruct (i <? 0); [done|]. by rewrite length_insert. Qed.

Lemma nth_insert_eq (l : list Z) n v d : (n < length l)%nat -> nth n (<[n:=v]> l) d = v.
Proof.
  intros H. apply nth_lookup_Some. by apply list_lookup_insert_eq.
Qed.

Lemma nth_insert_ne (l : list Z) n k v d : n <> k -> nth k (<[n:=v]> l) d = nth k l d.
Proof.
  intros H. rewrite !nth_lookup. by rewrite list_lookup_insert_ne.
Qed.

Lemma get_upd l i j v :
  0 <= i < zlen l -> 0 <= j ->
  get (upd l i v) j = if j =? i then v else get l j.
Proof.
  unfold get, upd, zlen. intros Hi Hj.
  destruct (Z.ltb_spec i 0); [lia|].
  destruct (Z.eqb_spec j i) as [->|Hne].
  - apply nth_insert_eq. lia.
  - apply nth_insert_ne. lia.
Qed.

Lemma get_byte l i : Forall is_u8 l -> is_u8 (get l i).
Proof.
  intros H. unfold get.
  destruct (decide (Z.to_nat i < length l)%nat) as [Hl|Hl].
  - rewrite Forall_forall in H. apply H. apply list_elem_of_In. by apply nth_In.
  - rewrite nth_overflow by lia. words.
Qed.

Lemma Forall_upd l i v : Forall is_u8 l -> is_u8 v -> Forall is_u8 (upd l i v).
Proof.
  intros Hl Hv. unfold upd. destruct (i <? 0); [done|]. by apply Forall_insert.
Qed.

(** ** Little-endian layout of native integers *)

Definition le16 (v : Z) : list Z := [v mod 256; (v / 256) mod 256].
Definition le32 (v : Z) : list Z :=
  [v mod 256; (v / 256) mod 256; (v / 65536) mod 256; (v / 16777216) mod 256].
Definition of_le16 (b0 b1 : Z) : Z := b0 + 256 * b1.
Definition of_le32 (b0 b1 b2 b3 : Z) : Z :=
  b0 + 256 * b1 + 65536 * b2 + 16777216 * b3.

Lemma split16 x : is_u16 x ->
  exists b0 b1, is_u8 b0 /\ is_u8 b1 /\ x = of_le16 b0 b1.
Proof.
  intros H. exists (x mod 256), (x / 256). unfold of_le16. words.
Qed.

Lemma split32 x : is_u32 x ->
  exists b0 b1 b2 b3,
    is_u8 b0 /\ is_u8 b1 /\ is_u8 b2 /\ is_u8 b3 /\ x = of_le32 b0 b1 b2 b3.
Proof.
  intros H.
  exists (x mod 256), ((x / 256) mod 256), ((x / 65536) mod 256), (x / 16777216).
  replace (x / 65536) with (x / 256 / 256) by (rewrite Z.div_div; [done|lia|lia]).
  replace (x / 16777216) with (x / 256 / 256 / 256)
    by (rewrite !Z.div_div; [done|lia|lia|lia|lia]).
  unfold of_le32. words.
Qed.

Lemma byte_at b q : is_u8 b -> (b + 256 * q) mod 256 = b /\ (b + 256 * q) / 256 = q.
Proof. intros H. words. Qed.

Lemma of_le16_mod b0 b1 : is_u8 b0 -> is_u8 b1 ->
  le16 (of_le16 b0 b1) = [b0; b1].
Proof.
  intros H0 H1. unfold le16, of_le16. destruct (byte_at b0 b1 H0) as [-> ->].
  rewrite (Z.mod_small b1) by words. done.
Qed.

Lemma of_le32_mod b0 b1 b2 b3 : is_u8 b0 -> is_u8 b1 -> is_u8 b2 -> is_u8 b3 ->
  le32 (of_le32 b0 b1 b2 b3) = [b0; b1; b2; b3].
Proof.
  intros H0 H1 H2 H3. unfold le32.
  replace (of_le32 b0 b1 b2 b3) with (b0 + 256 * (b1 + 256 * (b2 + 256 * b3)))
    by (unfold of_le32; ring).
  replace 65536 with (256 * 256) by done. replace 16777216 with (256 * 256 * 256) by done.
  rewrite <- !Z.div_div by lia.
  destruct (byte_at b0 (b1 + 256 * (b2 + 256 * b3)) H0) as [-> ->].
  destruct (byte_at b1 (b2 + 256 * b3) H1) as [-> ->].
  destruct (byte_at b2 b3 H2) as [-> ->].
  rewrite (Z.mod_small b3) by words. done.
Qed.

Lemma of_le16_range b0 b1 : is_u8 b0 -> is_u8 b1 -> is_u16 (of_le16 b0 b1).
Proof. unfold of_le16. autounfold with words. lia. Qed.
Lemma of_le32_range b0 b1 b2 b3 :
  is_u8 b0 -> is_u8 b1 -> is_u8 b2 -> is_u8 b3 -> is_u32 (of_le32 b0 b1 b2 b3).
Proof. unfold of_le32. autounfold with words. lia. Qed.
#[export] Hint Resolve of_le16_range of_le32_range : words.

Lemma le16_inj a b : is_u16 a -> is_u16 b -> le16 a = le16 b -> a = b.
Proof.
  intros (a0&a1&?&?&->)%split16 (b0&b1&?&?&->)%split16.
  rewrite !of_le16_mod by done. by intros [= -> ->].
Qed.
Lemma le32_inj a b : is_u32 a -> is_u32 b -> le32 a = le32 b -> a = b.
Proof.
  intros (a0&a1&a2&a3&?&?&?&?&->)%split32 (b0&b1&b2&b3&?&?&?&?&->)%split32.
  rewrite !of_le32_mod by done. by intros [= -> -> -> ->].
Qed.

Lemma Forall_le16 v : Forall is_u8 (le16 v).
Proof. unfold le16. repeat constructor; words. Qed.
Lemma Forall_le32 v : Forall is_u8 (le32 v).
Proof. unfold le32. repeat constructor; apply Z.mod_pos_bound; lia. Qed.

(** Byte reversal, what a conversion to network order does on a little-endian
    machine. *)
Definition bswap16 (x : Z) : Z :=
  match le16 x with [b0; b1] => of_le16 b1 b0 | _ => 0 end.
Definition bswap32 (x : Z) : Z :=
  match le32 x with [b0; b1; b2; b3] => of_le32 b3 b2 b1 b0 | _ => 0 end.

Lemma bswap16_bytes b0 b1 : is_u8 b0 -> is_u8 b1 ->
  bswap16 (of_le16 b0 b1) = of_le16 b1 b0.
Proof. intros. unfold bswap16. by rewrite of_le16_mod. Qed.
Lemma bswap32_bytes b0 b1 b2 b3 : is_u8 b0 -> is_u8 b1 -> is_u8 b2 -> is_u8 b3 ->
  bswap32 (of_le32 b0 b1 b2 b3) = of_le32 b3 b2 b1 b0.
Proof. intros. unfold bswap32. by rewrite of_le32_mod. Qed.

Lemma bswap16_range x : is_u16 (bswap16 x).
Proof. unfold bswap16, le16. apply of_le16_range; apply Z.mod_pos_bound; lia. Qed.
Lemma bswap32_range x : is_u32 (bswap32 x).
Proof. unfold bswap32, le32. apply of_le32_range; apply Z.mod_pos_bound; lia. Qed.
Lemma bswap16_invol x : is_u16 x -> bswap16 (bswap16 x) = x.
Proof. intros (a0&a1&?&?&->)%split16. by rewrite !bswap16_bytes. Qed.
Lemma bswap32_invol x : is_u32 x -> bswap32 (bswap32 x) = x.
Proof. intros (a0&a1&a2&a3&?&?&?&?&->)%split32. by rewrite !bswap32_bytes. Qed.
#[export] Hint Resolve bswap16_range bswap32_range : words.

Lemma bswap16_inj a b : is_u16 a -> is_u16 b -> bswap16 a = bswap16 b -> a = b.
Proof. intros Ha Hb E. rewrite <- (bswap16_invol a), <- (bswap16_invol b); congruence. Qed.
Lemma bswap32_inj a b : is_u32 a -> is_u32 b -> bswap32 a = bswap32 b -> a = b.
Proof. intros Ha Hb E. rewrite <- (bswap32_invol a), <- (bswap32_invol b); congruence. Qed.
