(* ===== verification/Cstd.v ===== *)
(** * The C library functions the programs use

    [inet_pton] and [inet_ntop] for AF_INET (arpa/inet.h), and the parts of
    [fgets] and [sscanf] (stdio.h) that the configuration readers need, as
    glibc implements them. *)

From Stdlib Require Import Ascii.
From S2P Require Import Prelude.

Abbreviation code c := (Z.of_N (Ascii.N_of_ascii c)).

Definition digit (c : Ascii.ascii) : option Z :=
  let n := code c in if (48 <=? n) && (n <=? 57) then Some (n - 48) else None.
Definition digit_char (d : Z) : Ascii.ascii := Ascii.ascii_of_N (Z.to_N (48 + d)).

(** isspace in the C locale. *)
Definition isspace (c : Ascii.ascii) : bool :=
  let n := code c in (n =? 32) || ((9 <=? n) && (n <=? 13)).

(** ** inet_ntop and inet_pton *)

(** [%u] for an octet. *)
Definition dec8 (b : Z) : string :=
  let d x := String (digit_char x) EmptyString in
  if b <? 10 then d b
  else if b <? 100 then d (b / 10) +:+ d (b mod 10)
  else d (b / 100) +:+ d ((b / 10) mod 10) +:+ d (b mod 10).

(** The address is the 32-bit word read from memory, in network byte order:
    its first octet is the lowest byte. *)
Definition inet_ntop (ip_be : Z) : string :=
  match le32 ip_be with
  | [a; b; c; d] => dec8 a +:+ "." +:+ dec8 b +:+ "." +:+ dec8 c +:+ "." +:+ dec8 d
  | _ => EmptyString
  end.

(** The scanner of glibc's inet_pton4: [octets] seen so far (most recent
    first), whether the current one has a digit. *)
Fixpoint pton4 (s : string) (octets : list Z) (saw_digit : bool) : option (list Z) :=
  match s with
  | EmptyString => if (length octets =? 4)%nat && saw_digit then Some (rev octets) else None
  | String ch s' =>
      match digit ch with
      | Some d =>
          if saw_digit then
            match octets with
            | cur :: rest =>
                if cur =? 0 then None
                else let new := cur * 10 + d in
                     if 255 <? new then None else pton4 s' (new :: rest) true
            | [] => None
            end
          else if (length octets =? 4)%nat then None else pton4 s' (d :: octets) true
      | None =>
          if (code ch =? 46) && saw_digit && negb (length octets =? 4)%nat
          then pton4 s' octets false else None
      end
  end.

(** [inet_pton(AF_INET, s, &dst)]: [Some] of the word stored on success, [None]
    when it returns 0 and leaves the destination alone. *)
Definition inet_pton (s : string) : option Z :=
  match pton4 s [] false with
  | Some [a; b; c; d] => Some (of_le32 a b c d)
  | _ => None
  end.

(** ** fgets and sscanf *)

(** [fgets(line, n + 1, f)]: at most [n] characters, up to and including the
    first newline; the rest of the file. *)
Fixpoint fgets (n : nat) (s : string) : string * string :=
  match n, s with
  | O, _ => (EmptyString, s)
  | _, EmptyString => (EmptyString, EmptyString)
  | S n', String ch s' =>
      if code ch =? 10 then (String ch EmptyString, s')
      else let r := fgets n' s' in (String ch r.1, r.2)
  end.

Fixpoint skip_space (s : string) : string :=
  match s with
  | String ch s' => if isspace ch then skip_space s' else s
  | EmptyString => EmptyString
  end.

(** The characters of a [%ns] conversion. *)
Fixpoint take_word (n : nat) (s : string) : string * string :=
  match n, s with
  | S n', String ch s' =>
      if isspace ch then (EmptyString, s)
      else let r := take_word n' s' in (String ch r.1, r.2)
  | _, _ => (EmptyString, s)
  end.
(** [%ns]: skips white space, fails on an empty match. *)
Definition scan_word (n : nat) (s : string) : option (string * string) :=
  match take_word n (skip_space s) with
  | (EmptyString, _) => None
  | r => Some r
  end.

Fixpoint take_digits (acc : Z) (seen : bool) (s : string) : option Z :=
  match s with
  | String ch s' =>
      match digit ch with
      | Some d => take_digits (acc * 10 + d) true s'
      | None => if seen then Some acc else None
      end
  | EmptyString => if seen then Some acc else None
  end.
(** [%u]: an optional sign, digits, as [strtoul] (which saturates at 2^64 - 1
    and negates modulo 2^64), then the conversion to [unsigned int]. *)
Definition scan_uint (s : string) : option Z :=
  let conv (neg : bool) (r : option Z) :=
    match r with
    | Some v => let v := Z.min v (2 ^ 64 - 1) in Some (u32 (if neg then - v else v))
    | None => None
    end in
  match skip_space s with
  | String ch s' =>
      if code ch =? 45 then conv true (take_digits 0 false s')
      else if code ch =? 43 then conv false (take_digits 0 false s')
      else conv false (take_digits 0 false (String ch s'))
  | EmptyString => None
  end.

(** ** strtoul, base 16

    White space, a sign, "0x" and the digits; [ULONG_MAX] when the value does
    not fit, 0 without digits. *)

Definition hex_digit (c : Ascii.ascii) : option Z :=
  let n := code c in
  if (48 <=? n) && (n <=? 57) then Some (n - 48)
  else if (97 <=? n) && (n <=? 102) then Some (n - 87)
  else if (65 <=? n) && (n <=? 70) then Some (n - 55)
  else None.
Fixpoint hex_digits (acc : Z) (s : string) : Z :=
  match s with
  | EmptyString => acc
  | String c s' => match hex_digit c with Some d => hex_digits (16 * acc + d) s' | None => acc end
  end.
Definition hex_prefix (s : string) : string :=
  match s with
  | String a (String b s') => if (code a =? 48) && ((code b =? 120) || (code b =? 88)) then s' else s
  | _ => s
  end.
Definition strtoul16 (s : string) : Z :=
  let s := skip_space s in
  let r := match s with
           | String c s' => if code c =? 45 then (true, s') else if code c =? 43 then (false, s') else (false, s)
           | EmptyString => (false, s)
           end in
  let v := hex_digits 0 (hex_prefix r.2) in
  if 18446744073709551616 <=? v then 18446744073709551615 else if r.1 then u64 (- v) else v.

(** [line[0] == '\n' || line[0] == '#'] *)
Definition blank_or_comment (line : string) : bool :=
  match line with
  | String ch _ => (code ch =? 10) || (code ch =? 35)
  | EmptyString => false
  end.

(** ** Round trip of addresses *)

Lemma append_String c s1 s2 : String c s1 +:+ s2 = String c (s1 +:+ s2).
Proof. done. Qed.
Lemma append_nil_l s : "" +:+ s = s.
Proof. done. Qed.
Lemma append_assoc s1 s2 s3 : (s1 +:+ s2) +:+ s3 = s1 +:+ (s2 +:+ s3).
Proof. induction s1 as [|c s1 IH]; [done|]. by rewrite !append_String, IH. Qed.
Lemma append_nil_r s : s +:+ "" = s.
Proof. induction s as [|c s IH]; [done|]. by rewrite append_String, IH. Qed.

Lemma pton4_octet b s octets :
  is_u8 b -> (length octets < 4)%nat ->
  (s = EmptyString \/ exists s', s = String "."%char s') ->
  pton4 (dec8 b +:+ s) octets false = pton4 s (b :: octets) true.
Proof.
  intros Hb Hl Hs.
  assert ((length octets =? 4)%nat = false) as Hn by (apply Nat.eqb_neq; lia).
  assert (forall d, 0 <= d < 10 -> digit (digit_char d) = Some d) as Hd.
  { intros d Hd. assert (d = 0 \/ d = 1 \/ d = 2 \/ d = 3 \/ d = 4 \/ d = 5 \/ d = 6 \/ d = 7 \/ d = 8 \/ d = 9)
      as H by lia.
    by repeat destruct H as [->|H]; subst. }
  unfold dec8. autounfold with words in Hb.
  destruct (Z.ltb_spec b 10); [|destruct (Z.ltb_spec b 100)];
    rewrite ?append_assoc, ?append_String, ?append_nil_l; cbn [pton4].
  - rewrite Hd by lia. by rewrite Hn.
  - assert (1 <= b / 10 < 10) by words. assert (0 <= b mod 10 < 10) by words.
    rewrite !Hd by lia. rewrite Hn.
    destruct (Z.eqb_spec (b / 10) 0); [lia|].
    replace (b / 10 * 10 + b mod 10) with b by words.
    destruct (Z.ltb_spec 255 b); [lia|done].
  - assert (1 <= b / 100 < 10) by words. assert (0 <= b mod 10 < 10) by words.
    assert (0 <= (b / 10) mod 10 < 10) by words.
    rewrite !Hd by lia. rewrite Hn.
    destruct (Z.eqb_spec (b / 100) 0); [lia|].
    assert (b / 100 * 10 + (b / 10) mod 10 = b / 10) as ->.
    { replace (b / 100) with (b / 10 / 10) by (rewrite Z.div_div; [done|lia|lia]). words. }
    destruct (Z.ltb_spec 255 (b / 10)); [words|].
    destruct (Z.eqb_spec (b / 10) 0); [words|].
    replace (b / 10 * 10 + b mod 10) with b by words.
    destruct (Z.ltb_spec 255 b); [lia|done].
Qed.

Lemma pton4_dot s octets :
  (length octets < 4)%nat -> pton4 (String "."%char s) octets true = pton4 s octets false.
Proof. intros H. simpl. by destruct (Nat.eqb_spec (length octets) 4); [lia|]. Qed.

(** Reading back a printed address gives the same word. *)
Lemma inet_pton_ntop ip : is_u32 ip -> inet_pton (inet_ntop ip) = Some ip.
Proof.
  intros (a&b&c&d&Ha&Hb&Hc&Hd&->)%split32.
  unfold inet_pton, inet_ntop. rewrite of_le32_mod by done.
  rewrite ?append_assoc, ?append_String, ?append_nil_l.
  do 3 (rewrite pton4_octet by (eauto || (simpl; lia)); rewrite pton4_dot by (simpl; lia)).
  rewrite <- (append_nil_r (dec8 d)), pton4_octet by (eauto || (simpl; lia)). done.
Qed.

(** What [inet_pton] stores is a 32-bit word: each octet stays below 256. *)
Lemma pton4_octets s octets saw r :
  Forall is_u8 octets -> (saw = true -> octets <> []) -> pton4 s octets saw = Some r -> Forall is_u8 r.
Proof.
  revert octets saw. induction s as [|ch s IH]; intros octets saw Ho Hs; cbn [pton4].
  - destruct (_ && _); [|done]. intros [= <-]. by apply Forall_rev.
  - destruct (digit ch) as [d|] eqn:Hd.
    + assert (0 <= d <= 9) as Hd9.
      { unfold digit in Hd. destruct (_ && _) eqn:G; [|done]. injection Hd as <-. lia. }
      destruct saw.
      * destruct octets as [|cur rest]; [done|]. inversion Ho as [|? ? Hc Hrest]; subst.
        destruct (cur =? 0); [done|]. destruct (Z.ltb_spec 255 (cur * 10 + d)); [done|].
        apply IH; [|done]. constructor; [|done]. autounfold with words in *. lia.
      * destruct (_ =? _)%nat; [done|]. apply IH; [|done]. constructor; [words|done].
    + destruct (_ && _); [|done]. by apply IH.
Qed.
Lemma inet_pton_range s v : inet_pton s = Some v -> is_u32 v.
Proof.
  unfold inet_pton. destruct (pton4 s [] false) as [r|] eqn:G; [|done].
  apply pton4_octets in G; [|done|done]. do 5 (destruct r as [|? r]; try done).
  intros [= <-]. repeat (apply Forall_cons_1 in G as [? G]). by apply of_le32_range.
Qed.
