(* ===== verification/Rte.v ===== *)
(** * The DPDK interface the programs are written against

    DPDK itself is not under src/: it is a parameter of the development.  Its
    pure services (byte order, Internet checksums, hash tables, timers) are
    type classes whose laws state their documented behaviour; its effects
    (device setup, packet I/O, clocks, allocation) are answered by an
    arbitrary environment [Env].  Programs are computations of the monad [M],
    which threads the program's own state and the trace of everything the
    program did. *)

From S2P Require Import Prelude.

(** ** Packet buffers: [struct rte_mbuf] *)

(** [mb_id] is the address of the mbuf, [mb_buf] the whole data buffer
    ([buf_addr .. buf_addr + buf_len)), the other fields are those of the C
    structure.  [rte_pktmbuf_mtod(m)] is the address of byte [data_off]. *)
Record mbuf := Mbuf {
  mb_id : Z; mb_buf : list Z; data_off : Z; data_len : Z; pkt_len : Z }.

Definition set_buf (m : mbuf) (b : list Z) : mbuf :=
  Mbuf (mb_id m) b (data_off m) (data_len m) (pkt_len m).

(** Loads and stores at offset [o] from [rte_pktmbuf_mtod(m)]; native integers
    are little-endian. *)
Definition load8 (m : mbuf) (o : Z) : Z := get (mb_buf m) (data_off m + o).
Definition load16 (m : mbuf) (o : Z) : Z := of_le16 (load8 m o) (load8 m (o + 1)).
Definition load32 (m : mbuf) (o : Z) : Z :=
  of_le32 (load8 m o) (load8 m (o + 1)) (load8 m (o + 2)) (load8 m (o + 3)).
Definition store8 (m : mbuf) (o v : Z) : mbuf :=
  set_buf m (upd (mb_buf m) (data_off m + o) v).
Fixpoint store_bytes (m : mbuf) (o : Z) (bs : list Z) : mbuf :=
  match bs with
  | [] => m
  | b :: bs' => store_bytes (store8 m o b) (o + 1) bs'
  end.
Definition store16 (m : mbuf) (o v : Z) : mbuf := store_bytes m o (le16 v).
Definition store32 (m : mbuf) (o v : Z) : mbuf := store_bytes m o (le32 v).
(** The [n] bytes at offset [o]. *)
Definition load_bytes (m : mbuf) (o : Z) (n : nat) : list Z :=
  map (fun k => load8 m (o + Z.of_nat k)) (seq 0 n).

(** [room m n]: the buffer holds at least [n] bytes from the data offset, so
    that an access below [n] stays inside the buffer. *)
Definition room (m : mbuf) (n : Z) : Prop :=
  0 <= data_off m /\ data_off m + n <= zlen (mb_buf m).
Definition bytes_ok (m : mbuf) : Prop := Forall is_u8 (mb_buf m).
#[export] Instance is_u8_dec x : Decision (is_u8 x).
Proof. unfold is_u8. apply _. Defined.
#[export] Instance bytes_ok_dec m : Decision (bytes_ok m).
Proof. unfold bytes_ok. apply _. Defined.

(** ** Byte order: rte_byteorder.h and the RTE_IPV4 macro of rte_ip4.h *)

Class Byteorder := {
  rte_cpu_to_be_16 : Z -> Z;
  rte_cpu_to_be_32 : Z -> Z;
  rte_be_to_cpu_16 : Z -> Z;
  rte_be_to_cpu_32 : Z -> Z;
  RTE_IPV4 : Z -> Z -> Z -> Z -> Z;
  cpu_to_be_16_law x : is_u16 x -> rte_cpu_to_be_16 x = bswap16 x;
  cpu_to_be_32_law x : is_u32 x -> rte_cpu_to_be_32 x = bswap32 x;
  be_to_cpu_16_law x : is_u16 x -> rte_be_to_cpu_16 x = bswap16 x;
  be_to_cpu_32_law x : is_u32 x -> rte_be_to_cpu_32 x = bswap32 x;
  RTE_IPV4_law a b c d : is_u8 a -> is_u8 b -> is_u8 c -> is_u8 d ->
    RTE_IPV4 a b c d = of_le32 d c b a
}.

(** ** Internet checksums: rte_ip4.h *)

(** A header in memory is the function from byte offsets to bytes. *)
Abbreviation ptr := (Z -> Z).
Definition at_off (m : mbuf) (o : Z) : ptr := fun i => load8 m (o + i).

(** Sum of the first [n] native 16-bit words. *)
Fixpoint word_sum (p : ptr) (n : nat) : Z :=
  match n with
  | O => 0
  | S k => word_sum p k + of_le16 (p (2 * Z.of_nat k)) (p (2 * Z.of_nat k + 1))
  end.

(** One's complement 16-bit sum: [s] with its carries folded back in. *)
Definition oc (s : Z) : Z := if s =? 0 then 0 else (s - 1) mod 65535 + 1.

Definition ihl_words (ip : ptr) : nat := Z.to_nat (2 * Z.land (ip 0) 15).
(** RFC 791: the one's complement sum of the whole header is all ones. *)
Definition ipv4_cksum_ok (ip : ptr) : Prop := oc (word_sum ip (ihl_words ip)) = 65535.

(** The L4 bytes that the IPv4 header announces, and their sum with the
    pseudo header (RFC 768, RFC 793). *)
Definition l4_len (ip : ptr) : Z := of_le16 (ip 3) (ip 2) - 4 * Z.land (ip 0) 15.
Definition l4_sum (l4 : ptr) (len : Z) : Z :=
  word_sum l4 (Z.to_nat (len / 2)) + (if Z.odd len then l4 (len - 1) else 0).
Definition phdr_sum (ip : ptr) : Z :=
  of_le16 (ip 12) (ip 13) + of_le16 (ip 14) (ip 15) + of_le16 (ip 16) (ip 17) +
  of_le16 (ip 18) (ip 19) + of_le16 0 (ip 9) + bswap16 (u16 (l4_len ip)).
Definition l4_cksum_ok (ip l4 : ptr) : Prop :=
  oc (phdr_sum ip + l4_sum l4 (l4_len ip)) = 65535.

Definition IPPROTO_ICMP := 1.
Definition IPPROTO_TCP := 6.
Definition IPPROTO_UDP := 17.

(** Offset of the checksum field in the L4 header of the protocol. *)
Definition l4_cksum_off (proto : Z) : Z := if proto =? IPPROTO_TCP then 16 else 6.

Class Cksum := {
  rte_ipv4_cksum : ptr -> Z;
  rte_ipv4_udptcp_cksum : ptr -> ptr -> Z;
  (** The complemented one's complement sum of the header. *)
  ipv4_cksum_law ip :
    rte_ipv4_cksum ip = 65535 - oc (word_sum ip (ihl_words ip));
  udptcp_cksum_range ip l4 : is_u16 (rte_ipv4_udptcp_cksum ip l4);
  (** Documented for a header whose checksum field was set to 0 by the
      caller and is part of the packet: the value to store there. *)
  udptcp_cksum_law ip l4 o :
    (ip 9 = IPPROTO_TCP \/ ip 9 = IPPROTO_UDP) -> o = l4_cksum_off (ip 9) ->
    (forall i, is_u8 (ip i)) -> (forall i, is_u8 (l4 i)) ->
    l4 o = 0 -> l4 (o + 1) = 0 -> o + 2 <= l4_len ip ->
    oc (phdr_sum ip + (l4_sum l4 (l4_len ip) + rte_ipv4_udptcp_cksum ip l4)) = 65535
}.

(** ** Hash tables: rte_hash.h *)

(** Keys are the [key_len] bytes the key pointer refers to, data are pointers.
    [hash_map] is the ghost contents of a table. *)
Class RteHash := {
  rte_hash : Type;
  hash_map : rte_hash -> gmap (list Z) Z;
  rte_hash_empty : Z -> Z -> rte_hash;      (* a table of [entries], [key_len] *)
  rte_hash_lookup_data : rte_hash -> list Z -> option Z;  (* None: ret < 0 *)
  rte_hash_add_key_data : rte_hash -> list Z -> Z -> Z * rte_hash;
  rte_hash_del_key : rte_hash -> list Z -> Z * rte_hash;
  rte_hash_reset : rte_hash -> rte_hash;
  rte_hash_entries : rte_hash -> list (list Z * Z);  (* what iterate enumerates *)
  hash_empty_law e k : hash_map (rte_hash_empty e k) = ∅;
  hash_lookup_law h k : rte_hash_lookup_data h k = hash_map h !! k;
  hash_add_ret h k v : (rte_hash_add_key_data h k v).1 <= 0;
  hash_add_law h k v :
    hash_map (rte_hash_add_key_data h k v).2 =
      if (rte_hash_add_key_data h k v).1 =? 0 then <[k:=v]> (hash_map h) else hash_map h;
  hash_del_law h k : hash_map (rte_hash_del_key h k).2 = delete k (hash_map h);
  hash_reset_law h : hash_map (rte_hash_reset h) = ∅;
  hash_entries_law h : Permutation (rte_hash_entries h) (map_to_list (hash_map h))
}.

(** ** Timers: rte_timer.h *)

(** A timer is named by its address, which the programs also pass as the
    callback argument.  [pending] is the ghost list of armed timers: the expiry
    time and the period, 0 for [SINGLE].  [rte_timer_expired] is what
    [rte_timer_manage] runs at the given time, in order. *)
Inductive timer_type := SINGLE | PERIODICAL.

Class RteTimer := {
  rte_timers : Type;
  pending : rte_timers -> gmap Z (Z * Z);
  rte_timers_init : rte_timers;
  rte_timer_reset : rte_timers -> Z -> Z -> Z -> timer_type -> rte_timers;
  rte_timer_stop : rte_timers -> Z -> rte_timers;
  rte_timer_expired : rte_timers -> Z -> list Z * rte_timers;
  timers_init_law : pending rte_timers_init = ∅;
  timer_reset_law T tim now ticks ty :
    pending (rte_timer_reset T tim now ticks ty) =
      <[tim := (now + ticks, match ty with SINGLE => 0 | PERIODICAL => ticks end)]> (pending T);
  timer_stop_law T tim : pending (rte_timer_stop T tim) = delete tim (pending T);
  timer_expired_nodup T now : NoDup (rte_timer_expired T now).1;
  timer_expired_iff T now tim :
    tim ∈ (rte_timer_expired T now).1 <->
    exists e p, pending T !! tim = Some (e, p) /\ e <= now;
  timer_expired_rest T now tim :
    pending (rte_timer_expired T now).2 !! tim =
      match pending T !! tim with
      | Some (e, p) =>
          if e <=? now then (if p =? 0 then None else Some (e + p, p)) else Some (e, p)
      | None => None
      end
}.

(** ** Growing and shrinking the data area: rte_mbuf.h *)

(** Single-segment mbufs; [None] is the NULL returned when the headroom, the
    data or the tailroom is too small, the mbuf being left alone. *)
Definition resize (m : mbuf) (off dlen plen : Z) : mbuf := Mbuf (mb_id m) (mb_buf m) off dlen plen.

Class Pktmbuf := {
  rte_pktmbuf_prepend : mbuf -> Z -> option mbuf;
  rte_pktmbuf_adj : mbuf -> Z -> option mbuf;
  rte_pktmbuf_append : mbuf -> Z -> option mbuf;
  rte_pktmbuf_trim : mbuf -> Z -> option mbuf;
  prepend_law m len : is_u16 len ->
    rte_pktmbuf_prepend m len =
      if data_off m <? len then None
      else Some (resize m (data_off m - len) (u16 (data_len m + len)) (u32 (pkt_len m + len)));
  adj_law m len : is_u16 len ->
    rte_pktmbuf_adj m len =
      if data_len m <? len then None
      else Some (resize m (data_off m + len) (u16 (data_len m - len)) (u32 (pkt_len m - len)));
  append_law m len : is_u16 len ->
    rte_pktmbuf_append m len =
      if zlen (mb_buf m) - data_off m - data_len m <? len then None
      else Some (resize m (data_off m) (u16 (data_len m + len)) (u32 (pkt_len m + len)));
  trim_law m len : is_u16 len ->
    rte_pktmbuf_trim m len =
      if data_len m <? len then None
      else Some (resize m (data_off m) (u16 (data_len m - len)) (u32 (pkt_len m - len)))
}.

(** ** Rings: rte_ring.h *)

(** Rings of pointers; an operation takes effect at once.  [ring_items] is the
    ghost contents, oldest first: what the pointers refer to.  A ring created
    for [count] slots holds [count - 1] objects. *)
Class RteRing (A : Type) := {
  rte_ring : Type;
  ring_items : rte_ring -> list A;
  ring_cap : rte_ring -> Z;
  rte_ring_empty : Z -> rte_ring;
  rte_ring_enqueue : rte_ring -> A -> Z * rte_ring;
  rte_ring_enqueue_burst : rte_ring -> list A -> Z * rte_ring;
  rte_ring_dequeue : rte_ring -> option A * rte_ring;      (* None: ret < 0 *)
  rte_ring_dequeue_burst : rte_ring -> Z -> list A * rte_ring;
  ring_empty_law count : ring_items (rte_ring_empty count) = [] /\ ring_cap (rte_ring_empty count) = count - 1;
  ring_enqueue_law r m :
    if zlen (ring_items r) <? ring_cap r
    then (rte_ring_enqueue r m).1 = 0 /\ ring_items (rte_ring_enqueue r m).2 = ring_items r ++ [m]
    else (rte_ring_enqueue r m).1 <> 0 /\ ring_items (rte_ring_enqueue r m).2 = ring_items r;
  ring_enqueue_cap r m : ring_cap (rte_ring_enqueue r m).2 = ring_cap r;
  ring_enqueue_burst_law r ms : 0 <= ring_cap r - zlen (ring_items r) ->
    let n := Z.min (zlen ms) (ring_cap r - zlen (ring_items r)) in
    (rte_ring_enqueue_burst r ms).1 = n /\
    ring_items (rte_ring_enqueue_burst r ms).2 = ring_items r ++ take (Z.to_nat n) ms /\
    ring_cap (rte_ring_enqueue_burst r ms).2 = ring_cap r;
  ring_dequeue1_law r :
    (rte_ring_dequeue r).1 = head (ring_items r) /\
    ring_items (rte_ring_dequeue r).2 = tail (ring_items r) /\
    ring_cap (rte_ring_dequeue r).2 = ring_cap r;
  ring_dequeue_law r n : 0 <= n ->
    (rte_ring_dequeue_burst r n).1 = take (Z.to_nat n) (ring_items r) /\
    ring_items (rte_ring_dequeue_burst r n).2 = drop (Z.to_nat n) (ring_items r) /\
    ring_cap (rte_ring_dequeue_burst r n).2 = ring_cap r
}.

(** ** Longest prefix match: rte_lpm.h *)

(** The first [depth] bits of an address in host order. *)
Definition prefix (ip depth : Z) : Z := Z.shiftl (Z.shiftr ip (32 - depth)) (32 - depth).

(** [lpm_rules] is the ghost rule set: prefix and depth to next hop. *)
Definition lpm_depths : list Z := rev (map Z.of_nat (seq 1 32)).
Definition lpm_match (rules : gmap (Z * Z) Z) (ip : Z) : option Z :=
  head (omap (fun d => rules !! (prefix ip d, d)) lpm_depths).

Class RteLpm := {
  rte_lpm : Type;
  lpm_rules : rte_lpm -> gmap (Z * Z) Z;
  rte_lpm_empty : Z -> rte_lpm;                            (* for max_rules *)
  rte_lpm_add : rte_lpm -> Z -> Z -> Z -> Z * rte_lpm;     (* ip, depth, next hop *)
  rte_lpm_lookup : rte_lpm -> Z -> option Z;               (* None: -ENOENT *)
  lpm_empty_law n : lpm_rules (rte_lpm_empty n) = ∅;
  lpm_add_law t ip depth hop : 1 <= depth <= 32 -> is_u32 ip -> 0 <= hop < 16777216 ->
    lpm_rules (rte_lpm_add t ip depth hop).2 =
      if (rte_lpm_add t ip depth hop).1 =? 0
      then <[(prefix ip depth, depth) := hop]> (lpm_rules t) else lpm_rules t;
  lpm_lookup_law t ip : is_u32 ip -> rte_lpm_lookup t ip = lpm_match (lpm_rules t) ip
}.
