(* ===== verification/Env.v ===== *)
(** * Effects: traces, the environment and the program monad

    A program runs in the monad [M S]: its own state [S], and the trace of all
    it did so far, newest event first.  Whatever DPDK, the NIC, the clock or
    the allocator answers is given by an arbitrary [Env], a function of the
    trace, constrained only by the documented bounds. *)

From S2P Require Import Prelude Rte.

(** ** Calls whose only visible effect is a status or a pointer *)

Inductive api :=
| rte_eal_init
| rte_eal_cleanup
| rte_eal_remote_launch (f : string) (lcore : Z)
| rte_eal_mp_wait_lcore
| rte_timer_subsystem_init
| rte_eth_dev_count_avail
| rte_eth_dev_is_valid_port (port : Z)
| rte_eth_dev_info_get (port : Z)
| rte_eth_dev_configure (port nrx ntx : Z)
| rte_eth_rx_queue_setup (port queue nb_desc mp : Z)
| rte_eth_tx_queue_setup (port queue nb_desc : Z)
| rte_eth_dev_start (port : Z)
| rte_eth_promiscuous_enable (port : Z)
| rte_eth_dev_stop (port : Z)
| rte_eth_dev_close (port : Z)
| rte_pktmbuf_pool_create (name : string) (n cache priv room : Z)
| rte_hash_create (name : string) (entries key_len : Z)
| rte_ring_create (name : string) (count flags : Z)
| rte_lpm_create (name : string) (max_rules tbl8s : Z)
| signal_handler_install (sig : string)
| api_call (f : string) (args : list Z).      (* any other call *)

(** Arguments of [printf]. *)
Inductive parg := PInt (z : Z) | PStr (s : string).

Inductive event :=
| EvApi (a : api) (ret : Z)
| EvPrintf (fmt : string) (args : list parg)
| EvRx (port queue n : Z) (bufs : list mbuf)
| EvTx (port queue : Z) (bufs : list mbuf) (sent : Z)
| EvFree (m : mbuf)                       (* rte_pktmbuf_free *)
| EvAlloc (mp : Z) (m : option mbuf)      (* rte_pktmbuf_alloc; None is NULL *)
| EvVals (what : string) (vs : list Z)    (* numbers the library reports, such as statistics *)
| EvCycles (v : Z)                        (* rte_get_timer_cycles, rte_rdtsc *)
| EvMalloc (size addr : Z)                (* malloc, rte_malloc *)
| EvMfree (addr : Z)                      (* rte_free *)
| EvIndet (bs : list Z)                   (* uninitialised memory that is read *)
| EvFopen (path : string) (content : option string)
| EvScanfInt (r : option Z)
| EvScanfWord (w : string)
| EvPorts (ports : list Z)                (* RTE_ETH_FOREACH_DEV *)
| EvQuit (b : bool).                      (* a read of the volatile quit flag *)

Abbreviation trace := (list event).

(** Blocks allocated and not freed. *)
Fixpoint live_blocks (t : trace) : gset Z :=
  match t with
  | [] => ∅
  | EvMalloc _ a :: t' => {[a]} ∪ live_blocks t'
  | EvMfree a :: t' => live_blocks t' ∖ {[a]}
  | _ :: t' => live_blocks t'
  end.

(** The data room of the mbufs of a pool, by the call that created it. *)
Fixpoint pool_room (t : trace) (mp : Z) : Z :=
  match t with
  | [] => 0
  | EvApi (rte_pktmbuf_pool_create _ _ _ _ room) r :: t' => if r =? mp then room else pool_room t' mp
  | _ :: t' => pool_room t' mp
  end.
Definition RTE_PKTMBUF_HEADROOM := 128.

Class Env := {
  env_call : trace -> api -> Z;
  env_rx : trace -> Z -> Z -> Z -> list mbuf;
  env_tx : trace -> Z -> Z -> list mbuf -> Z;
  env_alloc : trace -> Z -> option mbuf;
  env_vals : trace -> string -> Z -> list Z;
  env_cycles : trace -> Z;
  env_hz : Z;
  env_malloc : trace -> Z -> Z;
  env_indet : trace -> Z -> list Z;
  env_file : trace -> string -> option string;
  env_scanf_int : trace -> option Z;
  env_scanf_word : trace -> string;
  env_ports : trace -> list Z;
  env_quit : trace -> bool;
  env_rx_len t p q n : 0 <= n -> zlen (env_rx t p q n) <= n;
  env_rx_bytes t p q n : Forall bytes_ok (env_rx t p q n);
  env_tx_bound t p q bufs : 0 <= env_tx t p q bufs <= zlen bufs;
  env_alloc_law t mp m : env_alloc t mp = Some m ->
    bytes_ok m /\ zlen (mb_buf m) = pool_room t mp /\ data_off m = Z.min RTE_PKTMBUF_HEADROOM (pool_room t mp) /\
    data_len m = 0 /\ pkt_len m = 0;
  env_vals_law t w n : 0 <= n -> zlen (env_vals t w n) = n /\ Forall is_u64 (env_vals t w n);
  env_cycles_u64 t : is_u64 (env_cycles t);
  env_hz_u64 : 0 < env_hz < 2 ^ 64;
  env_malloc_fresh t size : env_malloc t size <> 0 -> env_malloc t size ∉ live_blocks t;
  env_indet_bytes t n : 0 <= n -> Forall is_u8 (env_indet t n) /\ zlen (env_indet t n) = n
}.

(** ** The monad *)

(** [Exit] is a call of [rte_exit] (or [rte_panic]); [Fault] is undefined
    behaviour that the model detects, such as a NULL dereference. *)
Inductive res (S A : Type) :=
| Done (a : A) (s : S) (t : trace)
| Exit (code : Z) (s : S) (t : trace)
| Fault (s : S) (t : trace).
Arguments Done {S A}.
Arguments Exit {S A}.
Arguments Fault {S A}.

Definition M (S A : Type) : Type := S -> trace -> res S A.

Definition ret {S A} (a : A) : M S A := fun s t => Done a s t.
Definition bind {S A B} (m : M S A) (f : A -> M S B) : M S B := fun s t =>
  match m s t with
  | Done a s' t' => f a s' t'
  | Exit c s' t' => Exit c s' t'
  | Fault s' t' => Fault s' t'
  end.
Definition gets {S A} (f : S -> A) : M S A := fun s t => Done (f s) s t.
Definition modify {S} (f : S -> S) : M S unit := fun s t => Done tt (f s) t.
Definition fault {S A} : M S A := fun s t => Fault s t.
Definition emit {S} (e : event) : M S unit := fun s t => Done tt s (e :: t).

Declare Scope rte_scope.
Delimit Scope rte_scope with rte.
Notation "x <-- m ;; k" := (bind m (fun x => k))
  (at level 100, m at next level, right associativity) : rte_scope.
Notation "'let*' p := m 'in' k" := (bind m (fun p => k))
  (at level 100, p pattern, m at next level, right associativity) : rte_scope.
Notation "m ;; k" := (bind m (fun _ => k))
  (at level 100, right associativity) : rte_scope.
#[global] Open Scope rte_scope.

Definition when {S} (b : bool) (m : M S unit) : M S unit := if b then m else ret tt.

(** Dereference of a pointer that may be NULL or dangling. *)
Definition deref {S A} (o : option A) : M S A :=
  match o with Some a => ret a | None => fault end.

(** [for (i = i0; n times; i++) l = body(i, l)] *)
Fixpoint for_ {S L} (n : nat) (i : Z) (body : Z -> L -> M S L) (l : L) : M S L :=
  match n with
  | O => ret l
  | Datatypes.S n' => l' <-- body i l ;; for_ n' (i + 1) body l'
  end.

(** [for (i = 0; i < nb; i++)] where the body reads and writes only [bufs[i]]. *)
Fixpoint for_each {S A B} (body : A -> M S B) (bufs : list A) : M S (list B) :=
  match bufs with
  | [] => ret []
  | m :: ms => r <-- body m ;; rs <-- for_each body ms ;; ret (r :: rs)
  end.

(** The first [n] iterations of [while (1)]. *)
Fixpoint forever {S L} (n : nat) (body : L -> M S L) (l : L) : M S L :=
  match n with
  | O => ret l
  | Datatypes.S n' => l' <-- body l ;; forever n' body l'
  end.

Section Calls.
Context {E : Env} {S : Type}.

Definition call (a : api) : M S Z := fun s t =>
  let r := env_call t a in Done r s (EvApi a r :: t).
Definition printf (fmt : string) (args : list parg) : M S unit := emit (EvPrintf fmt args).
Definition rte_exit {A} (code : Z) : M S A := fun s t => Exit code s t.
Definition rte_eth_rx_burst (port queue n : Z) : M S (list mbuf) := fun s t =>
  let bufs := env_rx t port queue n in Done bufs s (EvRx port queue n bufs :: t).
Definition rte_eth_tx_burst (port queue : Z) (bufs : list mbuf) : M S Z := fun s t =>
  let sent := env_tx t port queue bufs in Done sent s (EvTx port queue bufs sent :: t).
Definition rte_pktmbuf_free (m : mbuf) : M S unit := emit (EvFree m).
Definition rte_pktmbuf_alloc (mp : Z) : M S (option mbuf) := fun s t =>
  let m := env_alloc t mp in Done m s (EvAlloc mp m :: t).
Definition read_vals (what : string) (n : Z) : M S (list Z) := fun s t =>
  let vs := env_vals t what n in Done vs s (EvVals what vs :: t).
Definition rte_get_timer_cycles : M S Z := fun s t =>
  let v := env_cycles t in Done v s (EvCycles v :: t).
Definition rte_get_timer_hz : M S Z := ret env_hz.
Definition malloc (size : Z) : M S Z := fun s t =>
  let a := env_malloc t size in
  Done a s (if a =? 0 then t else EvMalloc size a :: t).
Definition rte_free (addr : Z) : M S unit := emit (EvMfree addr).
Definition indet (n : Z) : M S (list Z) := fun s t =>
  let bs := env_indet t n in Done bs s (EvIndet bs :: t).
Definition fopen (path : string) : M S (option string) := fun s t =>
  let c := env_file t path in Done c s (EvFopen path c :: t).
Definition scanf_int : M S (option Z) := fun s t =>
  let r := env_scanf_int t in Done r s (EvScanfInt r :: t).
Definition scanf_word : M S string := fun s t =>
  let w := env_scanf_word t in Done w s (EvScanfWord w :: t).
Definition eth_ports : M S (list Z) := fun s t =>
  let ps := env_ports t in Done ps s (EvPorts ps :: t).
Definition read_quit : M S bool := fun s t =>
  let b := env_quit t in Done b s (EvQuit b :: t).

(** [while (!force_quit) body], at most [n] iterations; the flag of the result
    says whether the loop ended. *)
Fixpoint while_running {L} (n : nat) (body : L -> M S L) (l : L) : M S (bool * L) :=
  match n with
  | O => ret (false, l)
  | Datatypes.S n' =>
      q <-- read_quit ;;
      if q : bool then ret (true, l) else l' <-- body l ;; while_running n' body l'
  end.

(** [for (i = from; i < n; i++) rte_pktmbuf_free(bufs[i])] *)
Definition free_all (ms : list mbuf) : M S unit :=
  _ <-- for_each rte_pktmbuf_free ms ;; ret tt.

End Calls.

(** ** Hoare reasoning *)

(** [wp m Q X s t]: from state [s] and trace [t], [m] does not fault, [Q] holds
    of the result if it returns and [X] if it exits. *)
Definition wp {S A} (m : M S A) (Q : A -> S -> trace -> Prop)
    (X : Z -> S -> trace -> Prop) (s : S) (t : trace) : Prop :=
  match m s t with
  | Done a s' t' => Q a s' t'
  | Exit c s' t' => X c s' t'
  | Fault _ _ => False
  end.

Abbreviation anyx := (fun _ _ _ => True).

Section Wp.
Context {S : Type}.
Implicit Types (s : S) (t : trace).

Lemma wp_bind {A B} (m : M S A) (f : A -> M S B) Q X s t :
  wp m (fun a s' t' => wp (f a) Q X s' t') X s t -> wp (bind m f) Q X s t.
Proof. unfold wp, bind. by destruct (m s t). Qed.

Lemma wp_mono {A} (m : M S A) (Q Q' : A -> S -> trace -> Prop) (X X' : Z -> S -> trace -> Prop) s t :
  wp m Q X s t -> (forall a s' t', Q a s' t' -> Q' a s' t') ->
  (forall c s' t', X c s' t' -> X' c s' t') -> wp m Q' X' s t.
Proof. unfold wp. destruct (m s t); auto. Qed.
Lemma wp_and {A} (m : M S A) (Q Q' : A -> S -> trace -> Prop) (X : Z -> S -> trace -> Prop) s t :
  wp m Q X s t -> wp m Q' X s t -> wp m (fun a s' t' => Q a s' t' /\ Q' a s' t') X s t.
Proof. unfold wp. destruct (m s t); auto. Qed.

Lemma wp_ret {A} (a : A) (Q : A -> S -> trace -> Prop) X s t : Q a s t -> wp (ret a) Q X s t.
Proof. done. Qed.
Lemma wp_emit e (Q : unit -> S -> trace -> Prop) X s t :
  Q tt s (e :: t) -> wp (emit e) Q X s t.
Proof. done. Qed.
Lemma wp_gets {A} (f : S -> A) Q X s t : Q (f s) s t -> wp (gets f) Q X s t.
Proof. done. Qed.
Lemma wp_modify (f : S -> S) Q X s t : Q tt (f s) t -> wp (modify f) Q X s t.
Proof. done. Qed.
Lemma wp_deref {A} (o : option A) a (Q : A -> S -> trace -> Prop) X s t :
  o = Some a -> Q a s t -> wp (deref o) Q X s t.
Proof. by intros ->. Qed.
Lemma wp_when (b : bool) (m : M S unit) Q X s t :
  (b = true -> wp m Q X s t) -> (b = false -> Q tt s t) -> wp (when b m) Q X s t.
Proof. destruct b; simpl; intros H1 H2; [by apply H1|by apply wp_ret, H2]. Qed.
Lemma wp_if {A} (b : bool) (m1 m2 : M S A) Q X s t :
  (b = true -> wp m1 Q X s t) -> (b = false -> wp m2 Q X s t) ->
  wp (if b then m1 else m2) Q X s t.
Proof. destruct b; auto. Qed.

(** Loop rules: an invariant of the state, the trace and the loop variable. *)
Lemma wp_for {L} (I : Z -> L -> S -> trace -> Prop) body X n i l s t :
  (forall j l s t, i <= j < i + Z.of_nat n -> I j l s t ->
     wp (body j l) (fun l' => I (j + 1) l') X s t) ->
  I i l s t -> wp (for_ n i body l) (fun l' => I (i + Z.of_nat n) l') X s t.
Proof.
  revert i l s t. induction n as [|n IH]; intros i l s t Hb HI; simpl.
  - apply wp_ret. by rewrite Z.add_0_r.
  - apply wp_bind. eapply wp_mono; [apply Hb; [lia|done]| |done].
    intros l' s' t' HI'. simpl in HI'.
    replace (i + Z.of_nat (Datatypes.S n)) with (i + 1 + Z.of_nat n) by lia.
    apply IH; [|done]. intros. apply Hb; [lia|done].
Qed.

Lemma wp_for_each {A B} (I : list A -> list B -> S -> trace -> Prop) (body : A -> M S B) X ms s t :
  (forall pre m post rs s t, ms = pre ++ m :: post -> I pre rs s t ->
     wp (body m) (fun r => I (pre ++ [m]) (rs ++ [r])) X s t) ->
  I [] [] s t -> wp (for_each body ms) (fun rs => I ms rs) X s t.
Proof.
  enough (G : forall post pre acc s t,
    (forall pre' m post' rs s t, ms = pre' ++ m :: post' -> I pre' rs s t ->
       wp (body m) (fun r => I (pre' ++ [m]) (rs ++ [r])) X s t) ->
    ms = pre ++ post -> I pre acc s t ->
    wp (for_each body post) (fun rs => I ms (acc ++ rs)) X s t).
  { intros Hb HI. apply (G ms [] []); auto. }
  induction post as [|m post IH]; intros pre acc s' t' Hb Heq HI; simpl.
  - apply wp_ret. rewrite app_nil_r in Heq. subst. by rewrite app_nil_r.
  - apply wp_bind. eapply wp_mono; [by eapply Hb| |done].
    intros r s2 t2 HI2. apply wp_bind.
    eapply wp_mono; [eapply (IH (pre ++ [m]) (acc ++ [r])); [done| |done]| |done].
    { by rewrite <- app_assoc. }
    intros rs s3 t3 H3. simpl in H3. apply wp_ret. by rewrite <- app_assoc in H3.
Qed.

Lemma wp_forever {L} (I : L -> S -> trace -> Prop) body X n l s t :
  (forall l s t, I l s t -> wp (body l) I X s t) ->
  I l s t -> wp (forever n body l) I X s t.
Proof.
  revert l s t. induction n as [|n IH]; intros l s t Hb HI; simpl; [done|].
  apply wp_bind. eapply wp_mono; [by apply Hb| |done]. intros. by apply IH.
Qed.

End Wp.

Section WpCalls.
Context {E : Env} {S : Type}.
Implicit Types (s : S) (t : trace).

Lemma wp_call a (Q : Z -> S -> trace -> Prop) X s t :
  (forall r, Q r s (EvApi a r :: t)) -> wp (call a) Q X s t.
Proof. intros H. apply H. Qed.
Lemma wp_printf fmt args (Q : unit -> S -> trace -> Prop) X s t :
  Q tt s (EvPrintf fmt args :: t) -> wp (printf fmt args) Q X s t.
Proof. done. Qed.
Lemma wp_rx p q n (Q : list mbuf -> S -> trace -> Prop) X s t :
  (forall bufs, (0 <= n -> zlen bufs <= n) -> Forall bytes_ok bufs -> Q bufs s (EvRx p q n bufs :: t)) ->
  wp (rte_eth_rx_burst p q n) Q X s t.
Proof. intros H. apply H; [apply env_rx_len|apply env_rx_bytes]. Qed.
Lemma wp_tx p q bufs (Q : Z -> S -> trace -> Prop) X s t :
  (forall k, 0 <= k <= zlen bufs -> Q k s (EvTx p q bufs k :: t)) ->
  wp (rte_eth_tx_burst p q bufs) Q X s t.
Proof. intros H. apply H. apply env_tx_bound. Qed.
Lemma wp_free m (Q : unit -> S -> trace -> Prop) X s t :
  Q tt s (EvFree m :: t) -> wp (rte_pktmbuf_free m) Q X s t.
Proof. done. Qed.
Lemma wp_alloc mp (Q : option mbuf -> S -> trace -> Prop) X s t :
  Q None s (EvAlloc mp None :: t) ->
  (forall m, bytes_ok m -> zlen (mb_buf m) = pool_room t mp ->
     data_off m = Z.min RTE_PKTMBUF_HEADROOM (pool_room t mp) -> data_len m = 0 -> pkt_len m = 0 ->
     Q (Some m) s (EvAlloc mp (Some m) :: t)) ->
  wp (rte_pktmbuf_alloc mp) Q X s t.
Proof.
  intros H0 H. unfold wp, rte_pktmbuf_alloc. pose proof (env_alloc_law t mp) as L.
  destruct (env_alloc t mp) as [m|]; [|done]. destruct (L m eq_refl) as (? & ? & ? & ? & ?). by apply H.
Qed.
Lemma wp_vals what n (Q : list Z -> S -> trace -> Prop) X s t :
  0 <= n -> (forall vs, zlen vs = n -> Forall is_u64 vs -> Q vs s (EvVals what vs :: t)) ->
  wp (read_vals what n) Q X s t.
Proof. intros Hn H. destruct (env_vals_law t what n Hn). by apply H. Qed.
Lemma wp_cycles (Q : Z -> S -> trace -> Prop) X s t :
  (forall v, is_u64 v -> Q v s (EvCycles v :: t)) -> wp rte_get_timer_cycles Q X s t.
Proof. intros H. apply H. apply env_cycles_u64. Qed.
Lemma wp_hz (Q : Z -> S -> trace -> Prop) X s t : Q env_hz s t -> wp rte_get_timer_hz Q X s t.
Proof. done. Qed.
Lemma wp_malloc size (Q : Z -> S -> trace -> Prop) X s t :
  Q 0 s t ->
  (forall a, a <> 0 -> a ∉ live_blocks t -> Q a s (EvMalloc size a :: t)) ->
  wp (malloc size) Q X s t.
Proof.
  intros H0 H. unfold wp, malloc. destruct (Z.eqb_spec (env_malloc t size) 0) as [->|Hne].
  - done.
  - apply H; [done|]. by apply env_malloc_fresh.
Qed.
Lemma wp_rte_free a (Q : unit -> S -> trace -> Prop) X s t :
  Q tt s (EvMfree a :: t) -> wp (rte_free a) Q X s t.
Proof. done. Qed.
Lemma wp_indet n (Q : list Z -> S -> trace -> Prop) X s t :
  0 <= n -> (forall bs, Forall is_u8 bs -> zlen bs = n -> Q bs s (EvIndet bs :: t)) ->
  wp (indet n) Q X s t.
Proof. intros Hn H. destruct (env_indet_bytes t n Hn). by apply H. Qed.
Lemma wp_fopen p (Q : option string -> S -> trace -> Prop) X s t :
  (forall c, Q c s (EvFopen p c :: t)) -> wp (fopen p) Q X s t.
Proof. intros H. apply H. Qed.
Lemma wp_scanf_int (Q : option Z -> S -> trace -> Prop) X s t :
  (forall c, Q c s (EvScanfInt c :: t)) -> wp scanf_int Q X s t.
Proof. intros H. apply H. Qed.
Lemma wp_scanf_word (Q : string -> S -> trace -> Prop) X s t :
  (forall c, Q c s (EvScanfWord c :: t)) -> wp scanf_word Q X s t.
Proof. intros H. apply H. Qed.
Lemma wp_ports (Q : list Z -> S -> trace -> Prop) X s t :
  (forall c, Q c s (EvPorts c :: t)) -> wp eth_ports Q X s t.
Proof. intros H. apply H. Qed.
Lemma wp_exit {A} c (Q : A -> S -> trace -> Prop) (X : Z -> S -> trace -> Prop) s t :
  X c s t -> wp (rte_exit c) Q X s t.
Proof. done. Qed.

Lemma wp_while {L} (I : L -> S -> trace -> Prop) (body : L -> M S L) X n l s t :
  (forall l s t, I l s (EvQuit false :: t) -> wp (body l) I X s (EvQuit false :: t)) ->
  (forall b l s t, I l s t -> I l s (EvQuit b :: t)) ->
  I l s t -> wp (while_running n body l) (fun r => I r.2) X s t.
Proof.
  revert l s t. induction n as [|n IH]; intros l s t Hb Hq HI; simpl; [done|].
  apply wp_bind. unfold wp, read_quit. destruct (env_quit t).
  - simpl. by apply Hq.
  - apply wp_bind. eapply wp_mono; [apply Hb; by apply Hq| |done]. intros. by apply IH.
Qed.

Lemma wp_free_all ms (Q : unit -> S -> trace -> Prop) X s t :
  Q tt s (rev (map EvFree ms) ++ t) -> wp (free_all ms) Q X s t.
Proof.
  intros H. unfold free_all. apply wp_bind.
  revert t H. induction ms as [|m ms IH]; intros t H; simpl in *; [done|].
  apply wp_bind. apply wp_free. apply wp_bind.
  eapply wp_mono; [apply IH; by rewrite <- app_assoc in H| |done]. done.
Qed.

End WpCalls.

(** One symbolic step of a program under [wp]. *)
Ltac wp_step :=
  lazymatch goal with
  | |- wp (bind _ _) _ _ _ _ => apply wp_bind
  | |- wp (ret _) _ _ _ _ => apply wp_ret
  | |- wp (printf _ _) _ _ _ _ => apply wp_printf
  | |- wp (gets _) _ _ _ _ => apply wp_gets
  | |- wp (modify _) _ _ _ _ => apply wp_modify
  | |- wp (emit _) _ _ _ _ => apply wp_emit
  | |- wp (call _) _ _ _ _ => apply wp_call; intros ?
  | |- wp (rte_pktmbuf_free _) _ _ _ _ => apply wp_free
  | |- wp rte_get_timer_cycles _ _ _ _ => apply wp_cycles; intros ? ?
  | |- wp rte_get_timer_hz _ _ _ _ => apply wp_hz
  | |- wp (rte_free _) _ _ _ _ => apply wp_rte_free
  | |- wp (rte_exit _) _ _ _ _ => apply wp_exit
  | |- wp (fopen _) _ _ _ _ => apply wp_fopen; intros ?
  | |- wp scanf_word _ _ _ _ => apply wp_scanf_word; intros ?
  | |- wp eth_ports _ _ _ _ => apply wp_ports; intros ?
  | |- wp (when _ _) _ _ _ _ => apply wp_when; intros ?
  | |- wp (match ?b with true => _ | false => _ end) _ _ _ _ => apply wp_if; intros ?
  end.
Ltac wp_steps := repeat (wp_step; cbn beta).
