(* ===== verification/Packet.v ===== *)
(** * Packet memory, header layout and checksums

    The header structures of DPDK (rte_ether.h, rte_ip4.h, rte_tcp.h,
    rte_udp.h, rte_vxlan.h) are the packed layouts of the protocols; the field
    offsets below are theirs.  The lemmas are the frame and checksum facts the
    programs' theorems share. *)

From S2P Require Import Prelude Rte.

(** ** Loads after stores *)

Lemma load8_byte m o : bytes_ok m -> is_u8 (load8 m o).
Proof. intros H. by apply get_byte. Qed.
Lemma load16_range m o : bytes_ok m -> is_u16 (load16 m o).
Proof. intros H. apply of_le16_range; by apply load8_byte. Qed.
Lemma load32_range m o : bytes_ok m -> is_u32 (load32 m o).
Proof. intros H. apply of_le32_range; by apply load8_byte. Qed.
#[export] Hint Resolve load8_byte load16_range load32_range : words.

Lemma room_le m n k : room m n -> k <= n -> room m k.
Proof. unfold room. lia. Qed.

Lemma load8_store8 m o v i n :
  room m n -> 0 <= o < n -> 0 <= i ->
  load8 (store8 m o v) i = if i =? o then v else load8 m i.
Proof.
  intros [H1 H2] Ho Hi. unfold load8, store8. simpl.
  rewrite get_upd by lia.
  destruct (Z.eqb_spec i o), (Z.eqb_spec (data_off m + i) (data_off m + o)); auto; lia.
Qed.

Lemma room_store8 m o v n : room (store8 m o v) n <-> room m n.
Proof. unfold room, store8. simpl. by rewrite zlen_upd. Qed.
Lemma room_store_bytes bs m o n : room (store_bytes m o bs) n <-> room m n.
Proof.
  revert m o. induction bs as [|b bs IH]; intros m o; simpl; [done|].
  by rewrite IH, room_store8.
Qed.
Lemma room_store16 m o v n : room (store16 m o v) n <-> room m n.
Proof. apply room_store_bytes. Qed.
Lemma room_store32 m o v n : room (store32 m o v) n <-> room m n.
Proof. apply room_store_bytes. Qed.

Lemma bytes_ok_store8 m o v : bytes_ok m -> is_u8 v -> bytes_ok (store8 m o v).
Proof. unfold bytes_ok, store8. simpl. intros. by apply Forall_upd. Qed.
Lemma bytes_ok_store_bytes bs m o :
  bytes_ok m -> Forall is_u8 bs -> bytes_ok (store_bytes m o bs).
Proof.
  revert m o. induction bs as [|b bs IH]; intros m o Hm Hbs; simpl; [done|].
  inversion Hbs; subst. apply IH; [by apply bytes_ok_store8|done].
Qed.
Lemma bytes_ok_store16 m o v : bytes_ok m -> bytes_ok (store16 m o v).
Proof. intros. by apply bytes_ok_store_bytes, Forall_le16. Qed.
Lemma bytes_ok_store32 m o v : bytes_ok m -> bytes_ok (store32 m o v).
Proof. intros. by apply bytes_ok_store_bytes, Forall_le32. Qed.

(** Reading a 32-bit word byte by byte. *)
Lemma le32_bytes_of m o b0 b1 b2 b3 :
  is_u8 b0 -> is_u8 b1 -> is_u8 b2 -> is_u8 b3 -> bytes_ok m ->
  load32 m o = of_le32 b0 b1 b2 b3 ->
  [load8 m o; load8 m (o + 1); load8 m (o + 2); load8 m (o + 3)] = [b0; b1; b2; b3].
Proof.
  intros H0 H1 H2 H3 Hb Hl. unfold load32 in Hl. apply (f_equal le32) in Hl.
  by rewrite !of_le32_mod in Hl by (done || by apply load8_byte).
Qed.

(** Everything but the bytes of the buffer. *)
Definition same_frame (m m' : mbuf) : Prop :=
  mb_id m' = mb_id m /\ data_off m' = data_off m /\ data_len m' = data_len m /\
  pkt_len m' = pkt_len m /\ zlen (mb_buf m') = zlen (mb_buf m).
Lemma same_frame_refl m : same_frame m m. Proof. done. Qed.
Lemma same_frame_trans a b c : same_frame a b -> same_frame b c -> same_frame a c.
Proof. unfold same_frame. intuition congruence. Qed.
Lemma same_frame_store_bytes bs m o : same_frame m (store_bytes m o bs).
Proof.
  revert m o. induction bs as [|b bs IH]; intros m o; simpl; [done|].
  eapply same_frame_trans; [|apply IH]. unfold same_frame, store8; simpl.
  by rewrite zlen_upd.
Qed.
Lemma same_frame_store16 m o v : same_frame m (store16 m o v).
Proof. apply same_frame_store_bytes. Qed.
Lemma same_frame_store32 m o v : same_frame m (store32 m o v).
Proof. apply same_frame_store_bytes. Qed.
Lemma id_store16 m o v : mb_id (store16 m o v) = mb_id m. Proof. done. Qed.
Lemma id_store32 m o v : mb_id (store32 m o v) = mb_id m. Proof. done. Qed.
#[export] Hint Resolve same_frame_store16 same_frame_store32 same_frame_refl : words.

Lemma load8_store_bytes bs m o i n :
  room m n -> 0 <= o -> o + zlen bs <= n -> 0 <= i ->
  load8 (store_bytes m o bs) i =
    if (o <=? i) && (i <? o + zlen bs) then get bs (i - o) else load8 m i.
Proof.
  revert m o. induction bs as [|b bs IH]; intros m o Hr Ho Hn Hi; simpl.
  - change (zlen (@nil Z)) with 0. rewrite Z.add_0_r.
    destruct (Z.leb_spec o i), (Z.ltb_spec i o); simpl; auto; lia.
  - assert (zlen (b :: bs) = 1 + zlen bs) as Hz by (unfold zlen; simpl; lia).
    pose proof (zlen_nonneg bs).
    rewrite Hz in Hn |- *. rewrite IH by (try rewrite room_store8; auto; lia).
    rewrite (load8_store8 _ _ _ _ n) by (auto; lia).
    destruct (Z.leb_spec (o+1) i), (Z.ltb_spec i (o + 1 + zlen bs)),
      (Z.leb_spec o i), (Z.ltb_spec i (o + (1 + zlen bs))), (Z.eqb_spec i o);
      simpl; auto; try lia.
    + unfold get. replace (Z.to_nat (i - o)) with (S (Z.to_nat (i - (o+1)))) by lia. done.
    + subst. unfold get. by rewrite Z.sub_diag.
Qed.

Lemma load8_store16 m o v i n :
  room m n -> 0 <= o -> o + 2 <= n -> 0 <= i ->
  load8 (store16 m o v) i =
    if i =? o then v mod 256 else if i =? o + 1 then (v / 256) mod 256 else load8 m i.
Proof.
  intros Hr Ho Hn Hi. unfold store16.
  change (zlen (le16 v)) with 2 in *.
  rewrite (load8_store_bytes _ _ _ _ n) by (auto; change (zlen (le16 v)) with 2; lia).
  change (zlen (le16 v)) with 2.
  destruct (Z.leb_spec o i), (Z.ltb_spec i (o + 2)), (Z.eqb_spec i o), (Z.eqb_spec i (o + 1));
    simpl; auto; try lia.
  - subst. by rewrite Z.sub_diag.
  - subst. by replace (o + 1 - o) with 1 by lia.
Qed.

Lemma load8_store32 m o v i n :
  room m n -> 0 <= o -> o + 4 <= n -> 0 <= i ->
  load8 (store32 m o v) i =
    if i =? o then v mod 256 else if i =? o + 1 then (v / 256) mod 256
    else if i =? o + 2 then (v / 65536) mod 256
    else if i =? o + 3 then (v / 16777216) mod 256 else load8 m i.
Proof.
  intros Hr Ho Hn Hi. unfold store32.
  rewrite (load8_store_bytes _ _ _ _ n) by (auto; change (zlen (le32 v)) with 4; lia).
  change (zlen (le32 v)) with 4.
  destruct (Z.leb_spec o i), (Z.ltb_spec i (o + 4)), (Z.eqb_spec i o), (Z.eqb_spec i (o + 1)),
    (Z.eqb_spec i (o + 2)), (Z.eqb_spec i (o + 3)); simpl; auto; try lia; subst.
  - by rewrite Z.sub_diag.
  - by replace (o + 1 - o) with 1 by lia.
  - by replace (o + 2 - o) with 2 by lia.
  - by replace (o + 3 - o) with 3 by lia.
Qed.

Lemma le16_of v : is_u16 v -> of_le16 (v mod 256) ((v / 256) mod 256) = v.
Proof.
  intros (b0&b1&H0&H1&->)%split16.
  pose proof (of_le16_mod b0 b1 H0 H1) as E. unfold le16 in E.
  injection E as E0 E1. by rewrite E0, E1.
Qed.
Lemma le32_of v : is_u32 v ->
  of_le32 (v mod 256) ((v / 256) mod 256) ((v / 65536) mod 256) ((v / 16777216) mod 256) = v.
Proof.
  intros (b0&b1&b2&b3&H0&H1&H2&H3&->)%split32.
  pose proof (of_le32_mod b0 b1 b2 b3 H0 H1 H2 H3) as E. unfold le32 in E.
  injection E as E0 E1 E2 E3. by rewrite E0, E1, E2, E3.
Qed.

Lemma load16_store16_eq m o v n :
  room m n -> 0 <= o -> o + 2 <= n -> is_u16 v -> load16 (store16 m o v) o = v.
Proof.
  intros. unfold load16. rewrite !(load8_store16 _ _ _ _ n) by (auto; lia).
  rewrite Z.eqb_refl. destruct (Z.eqb_spec (o + 1) o); [lia|]. rewrite Z.eqb_refl.
  by apply le16_of.
Qed.
Lemma load32_store32_eq m o v n :
  room m n -> 0 <= o -> o + 4 <= n -> is_u32 v -> load32 (store32 m o v) o = v.
Proof.
  intros. unfold load32. rewrite !(load8_store32 _ _ _ _ n) by (auto; lia).
  repeat match goal with |- context [?a =? ?b] => destruct (Z.eqb_spec a b); [try lia|try lia] end.
  by apply le32_of.
Qed.

(** [outside o n i w]: the access of [w] bytes at [i] misses the [n] at [o]. *)
Definition outside (o n i w : Z) : Prop := 0 <= i /\ (i + w <= o \/ o + n <= i).
Lemma load8_store_bytes_ne bs m o i n :
  room m n -> 0 <= o -> o + zlen bs <= n -> outside o (zlen bs) i 1 ->
  load8 (store_bytes m o bs) i = load8 m i.
Proof.
  unfold outside. intros. rewrite (load8_store_bytes _ _ _ _ n) by (auto; lia).
  destruct (Z.leb_spec o i), (Z.ltb_spec i (o + zlen bs)); simpl; auto; lia.
Qed.
Lemma load8_store16_ne m o v i n :
  room m n -> 0 <= o -> o + 2 <= n -> outside o 2 i 1 -> load8 (store16 m o v) i = load8 m i.
Proof. intros. by apply (load8_store_bytes_ne (le16 v) m o i n). Qed.
Lemma load8_store32_ne m o v i n :
  room m n -> 0 <= o -> o + 4 <= n -> outside o 4 i 1 -> load8 (store32 m o v) i = load8 m i.
Proof. intros. by apply (load8_store_bytes_ne (le32 v) m o i n). Qed.
Lemma load16_store16_ne m o v i n :
  room m n -> 0 <= o -> o + 2 <= n -> outside o 2 i 2 -> load16 (store16 m o v) i = load16 m i.
Proof.
  unfold outside. intros. unfold load16.
  rewrite !(load8_store16_ne _ _ _ _ n); auto; unfold outside; lia.
Qed.
Lemma load16_store32_ne m o v i n :
  room m n -> 0 <= o -> o + 4 <= n -> outside o 4 i 2 -> load16 (store32 m o v) i = load16 m i.
Proof.
  unfold outside. intros. unfold load16.
  rewrite !(load8_store32_ne _ _ _ _ n); auto; unfold outside; lia.
Qed.
Lemma load32_store16_ne m o v i n :
  room m n -> 0 <= o -> o + 2 <= n -> outside o 2 i 4 -> load32 (store16 m o v) i = load32 m i.
Proof.
  unfold outside. intros. unfold load32.
  rewrite !(load8_store16_ne _ _ _ _ n); auto; unfold outside; lia.
Qed.
Lemma load32_store32_ne m o v i n :
  room m n -> 0 <= o -> o + 4 <= n -> outside o 4 i 4 -> load32 (store32 m o v) i = load32 m i.
Proof.
  unfold outside. intros. unfold load32.
  rewrite !(load8_store32_ne _ _ _ _ n); auto; unfold outside; lia.
Qed.

Lemma load16_store_bytes_ne bs m o i n :
  room m n -> 0 <= o -> o + zlen bs <= n -> outside o (zlen bs) i 2 ->
  load16 (store_bytes m o bs) i = load16 m i.
Proof.
  unfold outside. intros. unfold load16.
  rewrite !(load8_store_bytes_ne _ _ _ _ n); auto; unfold outside; lia.
Qed.
Lemma load32_store_bytes_ne bs m o i n :
  room m n -> 0 <= o -> o + zlen bs <= n -> outside o (zlen bs) i 4 ->
  load32 (store_bytes m o bs) i = load32 m i.
Proof.
  unfold outside. intros. unfold load32.
  rewrite !(load8_store_bytes_ne _ _ _ _ n); auto; unfold outside; lia.
Qed.
Lemma load8_store8_eq m o v n : room m n -> 0 <= o -> o + 1 <= n -> load8 (store8 m o v) o = v.
Proof. intros. rewrite (load8_store8 _ _ _ _ n) by (auto; lia). by rewrite Z.eqb_refl. Qed.
Lemma load8_store8_ne m o v i n :
  room m n -> 0 <= o -> o + 1 <= n -> outside o 1 i 1 -> load8 (store8 m o v) i = load8 m i.
Proof. intros. by apply (load8_store_bytes_ne [v] m o i n). Qed.
Lemma load16_store8_ne m o v i n :
  room m n -> 0 <= o -> o + 1 <= n -> outside o 1 i 2 -> load16 (store8 m o v) i = load16 m i.
Proof. intros. by apply (load16_store_bytes_ne [v] m o i n). Qed.
Lemma load32_store8_ne m o v i n :
  room m n -> 0 <= o -> o + 1 <= n -> outside o 1 i 4 -> load32 (store8 m o v) i = load32 m i.
Proof. intros. by apply (load32_store_bytes_ne [v] m o i n). Qed.

(** [mem n]: resolve loads from stored-to buffers that have room for [n]
    bytes. *)
Ltac room_side n :=
  repeat first [rewrite room_store16 | rewrite room_store32 | rewrite room_store8
    | rewrite room_store_bytes];
  first [assumption | eapply room_le; [eassumption|lia]].
Ltac mem_side n :=
  lazymatch goal with
  | |- room _ _ => room_side n
  | |- outside _ _ _ _ => unfold outside, zlen; simpl length; lia
  | |- _ => first [assumption | unfold zlen; simpl length; lia | solve [auto with words] | words]
  end.
Ltac mem n :=
  repeat match goal with
    | |- context [load8 (store8 ?m ?o ?v) ?i] => first
        [ rewrite (load8_store8_ne m o v i n) by mem_side n | rewrite (load8_store8_eq m o v n) by mem_side n ]
    | |- context [load8 (store16 ?m ?o ?v) ?i] => rewrite (load8_store16_ne m o v i n) by mem_side n
    | |- context [load8 (store32 ?m ?o ?v) ?i] => rewrite (load8_store32_ne m o v i n) by mem_side n
    | |- context [load8 (store_bytes ?m ?o ?v) ?i] => rewrite (load8_store_bytes_ne v m o i n) by mem_side n
    | |- context [load16 (store8 ?m ?o ?v) ?i] => rewrite (load16_store8_ne m o v i n) by mem_side n
    | |- context [load16 (store16 ?m ?o ?v) ?i] => first
        [ rewrite (load16_store16_ne m o v i n) by mem_side n | rewrite (load16_store16_eq m o v n) by mem_side n ]
    | |- context [load16 (store32 ?m ?o ?v) ?i] => rewrite (load16_store32_ne m o v i n) by mem_side n
    | |- context [load16 (store_bytes ?m ?o ?v) ?i] => rewrite (load16_store_bytes_ne v m o i n) by mem_side n
    | |- context [load32 (store8 ?m ?o ?v) ?i] => rewrite (load32_store8_ne m o v i n) by mem_side n
    | |- context [load32 (store16 ?m ?o ?v) ?i] => rewrite (load32_store16_ne m o v i n) by mem_side n
    | |- context [load32 (store32 ?m ?o ?v) ?i] => first
        [ rewrite (load32_store32_ne m o v i n) by mem_side n | rewrite (load32_store32_eq m o v n) by mem_side n ]
    | |- context [load32 (store_bytes ?m ?o ?v) ?i] => rewrite (load32_store_bytes_ne v m o i n) by mem_side n
    end.

(** ** Header layout *)

Definition RTE_ETHER_TYPE_IPV4 := 2048.    (* 0x0800 *)
Definition RTE_ETHER_TYPE_VLAN := 33024.   (* 0x8100 *)
Definition RTE_ETHER_TYPE_IPV6 := 34525.   (* 0x86DD *)

Definition sizeof_ether_hdr := 14.
Definition sizeof_vlan_hdr := 4.
Definition sizeof_ipv4_hdr := 20.
Definition sizeof_ipv6_hdr := 40.
Definition sizeof_tcp_hdr := 20.
Definition sizeof_udp_hdr := 8.
Definition sizeof_icmp_hdr := 8.
Definition sizeof_vxlan_hdr := 8.

(** Offsets in a packet without VLAN tag whose IPv4 header is taken to have no
    options, as [(struct rte_ipv4_hdr * )(eth + 1)] and [ip + 1] compute them. *)
Definition ETH_DST := 0.
Definition ETH_SRC := 6.
Definition ETH_TYPE := 12.
Definition IP := 14.
Definition IP_VERSION_IHL := 14.
Definition IP_TOS := 15.
Definition IP_TOTAL_LENGTH := 16.
Definition IP_PACKET_ID := 18.
Definition IP_FRAGMENT_OFFSET := 20.
Definition IP_TTL := 22.
Definition IP_PROTO := 23.
Definition IP_CKSUM := 24.
Definition IP_SRC := 26.
Definition IP_DST := 30.
Definition L4 := 34.
Definition L4_SPORT := 34.
Definition L4_DPORT := 36.
Definition UDP_LEN := 38.
Definition UDP_CKSUM := 40.
Definition TCP_CKSUM := 50.

(** All the fixed headers up to the end of a TCP header. *)
Definition HDRS := 54.

(** ** One's complement sums *)

Lemma oc_range s : 0 <= s -> 0 <= oc s <= 65535.
Proof.
  intros H. unfold oc. destruct (Z.eqb_spec s 0); [lia|].
  pose proof (Z.mod_pos_bound (s - 1) 65535). lia.
Qed.

Lemma oc_decomp s : 0 < s -> exists q, 0 <= q /\ s = 65535 * q + oc s /\ 0 < oc s.
Proof.
  intros H. exists ((s - 1) / 65535). unfold oc.
  destruct (Z.eqb_spec s 0); [lia|].
  pose proof (Z.mod_pos_bound (s - 1) 65535). pose proof (Z.div_mod (s - 1) 65535).
  pose proof (Z.div_pos (s - 1) 65535). lia.
Qed.

Lemma oc_full s : 0 < s -> oc s = 65535 <-> s mod 65535 = 0.
Proof.
  intros H. destruct (oc_decomp s H) as (q & Hq & Hs & Hp).
  pose proof (oc_range s). split; intros G.
  - rewrite Hs, G. replace (65535 * q + 65535) with ((q + 1) * 65535) by ring.
    apply Z.mod_mul. lia.
  - apply Z.mod_divide in G; [|lia]. destruct G as [k Hk]. lia.
Qed.

Lemma oc_complement s : 0 <= s -> oc (s + (65535 - oc s)) = 65535.
Proof.
  intros H. destruct (Z.eqb_spec s 0) as [->|Hne]; [done|].
  destruct (oc_decomp s) as (q & Hq & Hs & Hp); [lia|].
  pose proof (oc_range s H). apply oc_full; [lia|].
  replace (s + (65535 - oc s)) with ((q + 1) * 65535) by lia. apply Z.mod_mul. lia.
Qed.

Lemma word_sum_ext p p' n :
  (forall i, 0 <= i < 2 * Z.of_nat n -> p i = p' i) -> word_sum p n = word_sum p' n.
Proof.
  induction n as [|n IH]; intros H; simpl; [done|].
  rewrite IH by (intros; apply H; lia). rewrite !H by lia. done.
Qed.

Lemma word_sum_nonneg p n : (forall i, is_u8 (p i)) -> 0 <= word_sum p n.
Proof.
  intros H. induction n as [|n IH]; simpl; [lia|].
  pose proof (of_le16_range _ _ (H (2 * Z.of_nat n)) (H (2 * Z.of_nat n + 1))). words.
Qed.

(** [p'] is [p] with another word at index [k]. *)
Definition agree_but (p p' : ptr) (o : Z) : Prop :=
  forall i, 0 <= i -> i <> o -> i <> o + 1 -> p' i = p i.
Definition word_at (p : ptr) (o : Z) : Z := of_le16 (p o) (p (o + 1)).

Lemma word_sum_upd p p' n k :
  agree_but p p' (2 * Z.of_nat k) -> (k < n)%nat ->
  word_sum p' n =
    word_sum p n - word_at p (2 * Z.of_nat k) + word_at p' (2 * Z.of_nat k).
Proof.
  unfold word_at. intros Ha. induction n as [|n IH]; intros Hk; [lia|].
  cbn [word_sum].
  destruct (decide (k = n)) as [->|Hne].
  - rewrite (word_sum_ext p' p n); [lia|]. intros. apply Ha; lia.
  - rewrite IH by lia. rewrite (Ha (2 * Z.of_nat n)), (Ha (2 * Z.of_nat n + 1)) by lia. lia.
Qed.

Lemma word_sum_ge p n k :
  (forall i, is_u8 (p i)) -> (k < n)%nat -> word_at p (2 * Z.of_nat k) <= word_sum p n.
Proof.
  intros H. induction n as [|n IH]; intros Hk; [lia|]. simpl.
  pose proof (word_sum_nonneg p n H).
  pose proof (of_le16_range _ _ (H (2 * Z.of_nat n)) (H (2 * Z.of_nat n + 1))).
  destruct (decide (k = n)) as [->|]; [unfold word_at; lia|].
  assert (k < n)%nat as Hk' by lia. specialize (IH Hk'). words.
Qed.

(** The header length nibble announces at least the 20 fixed bytes. *)
Definition ihl_ok (ip : ptr) : Prop := 5 <= Z.land (ip 0) 15.

Section Cksums.
Context {C : Cksum}.

(** Storing the result of [rte_ipv4_cksum], computed over a header whose field
    still holds [c], gives a valid header exactly when [c] is a representation
    of 0: the caller must clear the field first. *)
Lemma ipv4_cksum_stored ip ip' c :
  (forall i, is_u8 (ip i)) -> ihl_ok ip ->
  agree_but ip ip' 10 -> word_at ip 10 = c -> word_at ip' 10 = rte_ipv4_cksum ip ->
  ipv4_cksum_ok ip' <-> c mod 65535 = 0.
Proof.
  intros Hb Hihl Ha Hc Hw. unfold ipv4_cksum_ok, ihl_ok in *.
  assert (ihl_words ip' = ihl_words ip) as Hn by (unfold ihl_words; by rewrite Ha by lia).
  rewrite Hn. set (n := ihl_words ip) in *.
  assert (10 <= n)%nat by (unfold n, ihl_words; lia).
  assert (word_sum ip' n = word_sum ip n - c + rte_ipv4_cksum ip) as ->.
  { rewrite (word_sum_upd ip ip' n 5) by (auto; lia).
    change (2 * Z.of_nat 5) with 10. by rewrite Hc, Hw. }
  rewrite ipv4_cksum_law. fold n. set (s := word_sum ip n).
  assert (c < s) as Hlt.
  { assert (word_sum (fun i => if (i =? 10) || (i =? 11) then 0 else ip i) n = s - c) as E.
    { rewrite (word_sum_upd ip _ n 5); [|intros i ???|lia].
      - change (2 * Z.of_nat 5) with 10. rewrite Hc.
        change (word_at _ 10) with 0. unfold s. lia.
      - change (2 * Z.of_nat 5) with 10 in *.
        destruct (Z.eqb_spec i 10), (Z.eqb_spec i 11); simpl; auto; lia. }
    assert (forall i, is_u8 ((fun i => if (i =? 10) || (i =? 11) then 0 else ip i) i)) as Hb'.
    { intros i. destruct ((i =? 10) || (i =? 11)); [words|apply Hb]. }
    pose proof (word_sum_ge _ n 0%nat Hb' ltac:(lia)) as G. rewrite E in G.
    change (ip 0 + 256 * ip 1 <= s - c) in G.
    pose proof (Hb 0) as B0. pose proof (Hb 1) as B1.
    assert (ip 0 <> 0) by (intros Z0; rewrite Z0, Z.land_0_l in Hihl; lia).
    words. }
  assert (is_u16 c) as Hcr by (rewrite <- Hc; apply of_le16_range; apply Hb).
  destruct (oc_decomp s) as (q & Hq & Hs & Hp); [words|].
  pose proof (oc_range s ltac:(words)).
  rewrite oc_full by (words).
  replace (s - c + (65535 - oc s)) with (- c + (q + 1) * 65535) by lia.
  rewrite Z.mod_add by lia.
  rewrite !Z.mod_divide by lia. split; intros [k Hk]; exists (- k); lia.
Qed.

(** Only the announced header matters. *)
Lemma ipv4_cksum_ok_ext ip ip' :
  Z.land (ip 0) 15 = 5 -> (forall i, 0 <= i < 20 -> ip' i = ip i) ->
  ipv4_cksum_ok ip' <-> ipv4_cksum_ok ip.
Proof.
  intros H5 H. unfold ipv4_cksum_ok, ihl_words. rewrite (H 0) by lia. rewrite H5.
  by rewrite (word_sum_ext ip' ip).
Qed.

Lemma ipv4_cksum_range ip : (forall i, is_u8 (ip i)) -> is_u16 (rte_ipv4_cksum ip).
Proof.
  intros H. rewrite ipv4_cksum_law.
  pose proof (oc_range _ (word_sum_nonneg ip (ihl_words ip) H)). words.
Qed.

Lemma l4_sum_upd p p' o len :
  agree_but p p' o -> 0 <= o -> Z.even o = true -> o + 2 <= len ->
  l4_sum p' len = l4_sum p len - word_at p o + word_at p' o.
Proof.
  intros Ha Ho He Hl. unfold l4_sum.
  apply Z.even_spec in He as [k ->].
  replace (2 * k) with (2 * Z.of_nat (Z.to_nat k)) in * by lia.
  rewrite (word_sum_upd p p' (Z.to_nat (len / 2)) (Z.to_nat k)).
  - destruct (Z.odd len) eqn:Hodd; [|lia].
    rewrite Ha; [lia|lia| |];
      apply Z.odd_spec in Hodd as [j ->]; lia.
  - done.
  - assert (Z.of_nat (Z.to_nat k) + 1 <= len / 2); [|lia].
    apply Z.div_le_lower_bound; lia.
Qed.

(** Storing the result of [rte_ipv4_udptcp_cksum] in a cleared field gives a
    valid TCP or UDP checksum. *)
Lemma udptcp_cksum_stored ip l4 l4' o :
  (ip 9 = IPPROTO_TCP \/ ip 9 = IPPROTO_UDP) -> o = l4_cksum_off (ip 9) ->
  (forall i, is_u8 (ip i)) -> (forall i, is_u8 (l4 i)) ->
  l4 o = 0 -> l4 (o + 1) = 0 -> o + 2 <= l4_len ip ->
  agree_but l4 l4' o -> word_at l4' o = rte_ipv4_udptcp_cksum ip l4 ->
  l4_cksum_ok ip l4'.
Proof.
  intros Hp Ho Hi Hl Z0 Z1 Hlen Ha Hw. unfold l4_cksum_ok.
  assert (0 <= o /\ Z.even o = true) as [? He].
  { rewrite Ho. unfold l4_cksum_off. destruct (ip 9 =? IPPROTO_TCP); done || lia. }
  rewrite (l4_sum_upd l4 l4' o) by auto.
  unfold word_at at 1. rewrite Z0, Z1, Hw. change (of_le16 0 0) with 0. rewrite Z.sub_0_r.
  by apply (udptcp_cksum_law ip l4 o).
Qed.

Lemma l4_cksum_ok_ext ip ip' l4 l4' :
  (forall i, 0 <= i < 20 -> i <> 10 -> i <> 11 -> ip' i = ip i) ->
  (forall i, 0 <= i -> l4' i = l4 i) -> 0 < l4_len ip ->
  l4_cksum_ok ip l4 -> l4_cksum_ok ip' l4'.
Proof.
  intros Hi Hl H0. unfold l4_cksum_ok.
  assert (l4_len ip' = l4_len ip) as Hlen by (unfold l4_len; by rewrite !Hi by lia).
  assert (phdr_sum ip' = phdr_sum ip) as Hph.
  { unfold phdr_sum. rewrite Hlen. by rewrite !Hi by lia. }
  assert (l4_sum l4' (l4_len ip) = l4_sum l4 (l4_len ip)) as Hs.
  { unfold l4_sum. f_equal.
    - apply word_sum_ext. intros. apply Hl. lia.
    - destruct (Z.odd (l4_len ip)); [|done]. apply Hl. lia. }
  by rewrite Hlen, Hph, Hs.
Qed.

End Cksums.

(** ** Frames: which byte ranges an update may touch *)

Definition in_ranges (rs : list (Z * Z)) (i : Z) : bool :=
  existsb (fun r => (r.1 <=? i) && (i <? r.1 + r.2)) rs.
Definition frame_but (rs : list (Z * Z)) (m m' : mbuf) : Prop :=
  same_frame m m' /\ bytes_ok m' /\
  forall i, 0 <= i -> in_ranges rs i = false -> load8 m' i = load8 m i.

Lemma frame_but_refl m : bytes_ok m -> frame_but [] m m.
Proof. done. Qed.

Lemma frame_but_trans rs1 rs2 a b c :
  frame_but rs1 a b -> frame_but rs2 b c -> frame_but (rs1 ++ rs2) a c.
Proof.
  intros (S1 & B1 & F1) (S2 & B2 & F2). split; [by eapply same_frame_trans|].
  split; [done|]. intros i Hi Hn. unfold in_ranges in *. rewrite existsb_app in Hn.
  apply orb_false_iff in Hn as [Hn1 Hn2]. by rewrite F2, F1.
Qed.

Lemma frame_but_weaken rs rs' a b : frame_but rs a b -> rs ⊆ rs' -> frame_but rs' a b.
Proof.
  intros (S1 & B1 & F1) Hs. split; [done|]. split; [done|]. intros i Hi Hn. apply F1; [done|].
  unfold in_ranges in *. apply not_true_iff_false. intros He.
  apply existsb_exists in He as (r & Hr & Hir). apply list_elem_of_In, Hs, list_elem_of_In in Hr.
  apply not_true_iff_false in Hn. apply Hn. apply existsb_exists. eauto.
Qed.

Lemma frame_store16 m o v n :
  room m n -> bytes_ok m -> 0 <= o -> o + 2 <= n -> frame_but [(o, 2)] m (store16 m o v).
Proof.
  intros Hr Hb Ho Hn. split; [auto with words|]. split; [by apply bytes_ok_store16|].
  intros i Hi Hx. apply (load8_store16_ne _ _ _ _ n); auto.
  unfold outside. simpl in Hx. lia.
Qed.
Lemma frame_store32 m o v n :
  room m n -> bytes_ok m -> 0 <= o -> o + 4 <= n -> frame_but [(o, 4)] m (store32 m o v).
Proof.
  intros Hr Hb Ho Hn. split; [auto with words|]. split; [by apply bytes_ok_store32|].
  intros i Hi Hx. apply (load8_store32_ne _ _ _ _ n); auto.
  unfold outside. simpl in Hx. lia.
Qed.

(** One more store after a framed change. *)
Lemma frame_then16 rs m m' o v n :
  frame_but rs m m' -> room m' n -> 0 <= o -> o + 2 <= n ->
  frame_but (rs ++ [(o, 2)]) m (store16 m' o v).
Proof.
  intros F Hr Ho Hn. eapply frame_but_trans; [exact F|].
  apply (frame_store16 _ _ _ n); [done|apply F|done|done].
Qed.
Lemma frame_then32 rs m m' o v n :
  frame_but rs m m' -> room m' n -> 0 <= o -> o + 4 <= n ->
  frame_but (rs ++ [(o, 4)]) m (store32 m' o v).
Proof.
  intros F Hr Ho Hn. eapply frame_but_trans; [exact F|].
  apply (frame_store32 _ _ _ n); [done|apply F|done|done].
Qed.

(** Stores inside a region that may change anyway. *)
Lemma frame_in_bytes n bs m m' o :
  frame_but [(0, n)] m m' -> room m n -> 0 <= o -> o + zlen bs <= n -> Forall is_u8 bs ->
  frame_but [(0, n)] m (store_bytes m' o bs).
Proof.
  intros ((S1 & S2 & S3 & S4 & S5) & B & F) [R1 R2] Ho Hn Hbs.
  assert (room m' n) as R by (unfold room; rewrite S2, S5; done).
  split; [eapply same_frame_trans; [|apply same_frame_store_bytes]; by split_and!|].
  split; [by apply bytes_ok_store_bytes|].
  intros i Hi Hx. rewrite (load8_store_bytes_ne _ _ _ _ n); auto.
  unfold outside. simpl in Hx. lia.
Qed.
Lemma frame_in8 n m m' o v :
  frame_but [(0, n)] m m' -> room m n -> 0 <= o -> o + 1 <= n -> is_u8 v ->
  frame_but [(0, n)] m (store8 m' o v).
Proof. intros. apply (frame_in_bytes n [v]); auto. Qed.
Lemma frame_in16 n m m' o v :
  frame_but [(0, n)] m m' -> room m n -> 0 <= o -> o + 2 <= n ->
  frame_but [(0, n)] m (store16 m' o v).
Proof. intros. apply frame_in_bytes; auto. apply Forall_le16. Qed.
Lemma frame_in32 n m m' o v :
  frame_but [(0, n)] m m' -> room m n -> 0 <= o -> o + 4 <= n ->
  frame_but [(0, n)] m (store32 m' o v).
Proof. intros. apply frame_in_bytes; auto. apply Forall_le32. Qed.

(** [frame_in n]: a chain of stores below [n] touches nothing else. *)
Ltac frame_in n :=
  repeat lazymatch goal with
    | |- frame_but _ _ (store8 _ _ _) => apply (frame_in8 n); [|assumption|lia|lia|words]
    | |- frame_but _ _ (store16 _ _ _) => apply (frame_in16 n); [|assumption|lia|lia]
    | |- frame_but _ _ (store32 _ _ _) => apply (frame_in32 n); [|assumption|lia|lia]
    | |- frame_but _ _ (store_bytes _ _ _) =>
        apply (frame_in_bytes n); [|assumption|lia|unfold zlen; simpl length; lia
          |repeat (apply Forall_cons; split; [words|]); apply Forall_nil_2]
    end.

Lemma frame_room rs m m' n : frame_but rs m m' -> room m n -> room m' n.
Proof. intros ((_ & E & _ & _ & L) & _) [H1 H2]. unfold room. rewrite E, L. done. Qed.
Lemma frame_bytes rs m m' : frame_but rs m m' -> bytes_ok m'.
Proof. by intros (_ & H & _). Qed.
Lemma frame_id rs m m' : frame_but rs m m' -> mb_id m' = mb_id m.
Proof. by intros ((E & _) & _). Qed.

Lemma frame_load8 rs m m' o :
  frame_but rs m m' -> 0 <= o -> in_ranges rs o = false -> load8 m' o = load8 m o.
Proof. intros (_ & _ & F). auto. Qed.
Lemma frame_load16 rs m m' o :
  frame_but rs m m' -> 0 <= o ->
  in_ranges rs o || in_ranges rs (o + 1) = false -> load16 m' o = load16 m o.
Proof.
  intros (_ & _ & F) Ho [H0 H1]%orb_false_iff. unfold load16. rewrite !F; auto; lia.
Qed.
Lemma frame_load32 rs m m' o :
  frame_but rs m m' -> 0 <= o ->
  in_ranges rs o || in_ranges rs (o + 1) || in_ranges rs (o + 2) || in_ranges rs (o + 3) = false ->
  load32 m' o = load32 m o.
Proof.
  intros (_ & _ & F) Ho [[[H0 H1]%orb_false_iff H2]%orb_false_iff H3]%orb_false_iff.
  unfold load32. rewrite !F; auto; lia.
Qed.

(** ** The checksum idioms of the programs *)

Section Idioms.
Context {C : Cksum}.

(** [ip->hdr_checksum = 0; ip->hdr_checksum = rte_ipv4_cksum(ip);] *)
Definition recalc_ip (m : mbuf) : mbuf :=
  let m := store16 m IP_CKSUM 0 in
  store16 m IP_CKSUM (rte_ipv4_cksum (at_off m IP)).

(** [l4->cksum = 0; l4->cksum = rte_ipv4_udptcp_cksum(ip, l4);] for the field
    at packet offset [f]. *)
Definition recalc_l4 (f : Z) (m : mbuf) : mbuf :=
  let m := store16 m f 0 in
  store16 m f (rte_ipv4_udptcp_cksum (at_off m IP) (at_off m L4)).

Lemma at_off_byte m o i : bytes_ok m -> is_u8 (at_off m o i).
Proof. intros. by apply load8_byte. Qed.

Lemma at_off_load16 m o i : word_at (at_off m o) i = load16 m (o + i).
Proof. unfold word_at, at_off, load16. by rewrite Z.add_assoc. Qed.

Lemma recalc_ip_frame m : room m HDRS -> bytes_ok m -> frame_but [(IP_CKSUM, 2)] m (recalc_ip m).
Proof.
  intros Hr Hb. unfold recalc_ip.
  pose proof (frame_store16 m IP_CKSUM 0 HDRS Hr Hb ltac:(done) ltac:(done)) as F1.
  eapply frame_but_weaken.
  - eapply frame_but_trans; [exact F1|].
    apply (frame_store16 _ _ _ HDRS); [by eapply frame_room|by eapply frame_bytes|done|done].
  - clear; set_solver.
Qed.

Lemma recalc_ip_ok m :
  room m HDRS -> bytes_ok m -> ihl_ok (at_off m IP) ->
  ipv4_cksum_ok (at_off (recalc_ip m) IP).
Proof.
  intros Hr Hb Hi. unfold recalc_ip.
  pose proof (frame_store16 m IP_CKSUM 0 HDRS Hr Hb ltac:(done) ltac:(done)) as F1.
  set (m1 := store16 m IP_CKSUM 0) in *.
  assert (bytes_ok m1) as Hb1 by (by eapply frame_bytes).
  assert (room m1 HDRS) as Hr1 by (by eapply frame_room).
  apply (ipv4_cksum_stored (at_off m1 IP) _ 0); [by intros; apply at_off_byte| | | | |done].
  - unfold ihl_ok, at_off in *. rewrite (frame_load8 _ _ _ _ F1); done.
  - intros i Hi0 Hi1 Hi2. unfold at_off.
    apply (load8_store16_ne _ _ _ _ HDRS); auto; unfold outside, IP, IP_CKSUM, HDRS in *; lia.
  - rewrite at_off_load16. apply (load16_store16_eq m _ 0 HDRS); auto; try done; words.
  - rewrite at_off_load16. apply (load16_store16_eq _ _ _ HDRS); auto; try done.
    apply ipv4_cksum_range. by intros; apply at_off_byte.
Qed.

Lemma recalc_l4_frame f m :
  room m HDRS -> bytes_ok m -> 0 <= f <= 52 -> frame_but [(f, 2)] m (recalc_l4 f m).
Proof.
  intros Hr Hb Hf. unfold recalc_l4. unfold HDRS in *.
  pose proof (frame_store16 m f 0 54 Hr Hb ltac:(lia) ltac:(lia)) as F1.
  eapply frame_but_weaken.
  - eapply frame_but_trans; [exact F1|].
    apply (frame_store16 _ _ _ 54); [by eapply frame_room|by eapply frame_bytes|lia|lia].
  - clear; set_solver.
Qed.

Lemma recalc_l4_ok f m :
  room m HDRS -> bytes_ok m ->
  (load8 m IP_PROTO = IPPROTO_TCP \/ load8 m IP_PROTO = IPPROTO_UDP) ->
  f = L4 + l4_cksum_off (load8 m IP_PROTO) ->
  l4_cksum_off (load8 m IP_PROTO) + 2 <= l4_len (at_off m IP) ->
  l4_cksum_ok (at_off (recalc_l4 f m) IP) (at_off (recalc_l4 f m) L4).
Proof.
  intros Hr Hb Hp Hf Hl.
  assert (40 <= f <= 50) as Hfr.
  { rewrite Hf. unfold l4_cksum_off, L4. destruct (_ =? _); lia. }
  pose proof (recalc_l4_frame f m Hr Hb ltac:(lia)) as F.
  unfold recalc_l4 in *. unfold HDRS in *.
  pose proof (frame_store16 m f 0 54 Hr Hb ltac:(lia) ltac:(lia)) as F1.
  set (m1 := store16 m f 0) in *.
  assert (bytes_ok m1) as Hb1 by (by eapply frame_bytes).
  assert (room m1 54) as Hr1 by (by eapply frame_room).
  set (m2 := store16 m1 f _) in *.
  assert (forall i, 0 <= i < 20 -> at_off m1 IP i = at_off m IP i) as E1.
  { intros i Hi. unfold at_off, IP. apply (frame_load8 _ _ _ _ F1); [lia|].
    simpl. lia. }
  assert (l4_len (at_off m1 IP) = l4_len (at_off m IP)) as El
    by (unfold l4_len; by rewrite !E1 by lia).
  assert (at_off m1 IP 9 = load8 m IP_PROTO) as Ep by (by rewrite E1 by lia).
  set (o := l4_cksum_off (load8 m IP_PROTO)) in *.
  assert (l4_cksum_ok (at_off m1 IP) (at_off m2 L4)) as Hok.
  { assert (load16 m1 f = 0) as Hz by (apply (load16_store16_eq m f 0 54); auto; try lia; words).
    pose proof (load8_byte m1 f Hb1). pose proof (load8_byte m1 (f+1) Hb1).
    unfold load16, of_le16 in Hz.
    apply (udptcp_cksum_stored _ (at_off m1 L4) _ o);
      [by rewrite Ep|by rewrite Ep|by intros; apply at_off_byte|by intros; apply at_off_byte
      | | |by rewrite El| |].
    - unfold at_off. rewrite <- Hf. words.
    - unfold at_off. rewrite Z.add_assoc, <- Hf. words.
    - intros i Hi0 Hi1 Hi2. unfold at_off.
      apply (load8_store16_ne _ _ _ _ 54); auto; unfold outside, L4 in *; lia.
    - rewrite at_off_load16, <- Hf. apply (load16_store16_eq _ _ _ 54); auto; try lia.
      apply udptcp_cksum_range. }
  eapply l4_cksum_ok_ext; [| |rewrite El|exact Hok].
  - intros i Hi _ _. unfold at_off, IP.
    apply (load8_store16_ne _ _ _ _ 54); auto; unfold outside; lia.
  - done.
  - unfold o, l4_cksum_off in Hl. destruct (_ =? _); lia.
Qed.

End Idioms.

(** ** Fields compared with bytes on the wire *)

Lemma le16_eq a b a' b' :
  is_u8 a -> is_u8 b -> is_u8 a' -> is_u8 b' ->
  (of_le16 a b =? of_le16 a' b') = bool_decide ([a; b] = [a'; b']).
Proof.
  intros. destruct (Z.eqb_spec (of_le16 a b) (of_le16 a' b')) as [E|E]; symmetry.
  - apply bool_decide_eq_true. apply (f_equal le16) in E. rewrite !of_le16_mod in E by done. by simplify_eq.
  - apply bool_decide_eq_false. intros [= -> ->]. done.
Qed.

Lemma load_bytes4 m o : load_bytes m o 4 = [load8 m o; load8 m (o + 1); load8 m (o + 2); load8 m (o + 3)].
Proof. unfold load_bytes. simpl. by rewrite Z.add_0_r. Qed.
Lemma load_bytes2 m o : load_bytes m o 2 = [load8 m o; load8 m (o + 1)].
Proof. unfold load_bytes. simpl. by rewrite Z.add_0_r. Qed.

Lemma load16_is m o a b :
  bytes_ok m -> is_u8 a -> is_u8 b -> (load16 m o =? of_le16 a b) = bool_decide (load_bytes m o 2 = [a; b]).
Proof. intros Hm Ha Hb. rewrite load_bytes2. unfold load16. apply le16_eq; auto with words. Qed.

Lemma be_load16_is `{Byteorder} m o a b :
  bytes_ok m -> is_u8 a -> is_u8 b ->
  (rte_be_to_cpu_16 (load16 m o) =? 256 * a + b) = bool_decide (load_bytes m o 2 = [a; b]).
Proof.
  intros Hm Ha Hb. rewrite load_bytes2. unfold load16.
  rewrite be_to_cpu_16_law, bswap16_bytes by (try apply of_le16_range; auto with words).
  replace (256 * a + b) with (of_le16 b a) by (unfold of_le16; lia).
  rewrite le16_eq by auto with words. apply bool_decide_ext. split; intros [= -> ->]; done.
Qed.
