(* ===== verification/Ownership.v ===== *)
(** * Ownership of packet buffers

    Every mbuf a program receives or allocates must be handed back exactly once: to the NIC
    by a transmission that accepts it, or to its pool by [rte_pktmbuf_free].
    The trace determines what was received and what was handed back; [owned
    held t] says that the buffers [held] are the ones still in the program's
    hands, with multiplicity, so that [owned [] t] means neither a leak nor a
    double hand-back. *)

From S2P Require Import Prelude Rte Env.

Abbreviation ids ms := (map mb_id ms).

Fixpoint rx_ids (t : trace) : list Z :=
  match t with
  | [] => []
  | EvRx _ _ _ bufs :: t' => ids bufs ++ rx_ids t'
  | EvAlloc _ (Some m) :: t' => mb_id m :: rx_ids t'
  | _ :: t' => rx_ids t'
  end.

(** The packets received or allocated so far, most recent first. *)
Fixpoint rx_packets (t : trace) : list mbuf :=
  match t with
  | [] => []
  | EvRx _ _ _ bufs :: t' => bufs ++ rx_packets t'
  | EvAlloc _ (Some m) :: t' => m :: rx_packets t'
  | _ :: t' => rx_packets t'
  end.

Fixpoint out_ids (t : trace) : list Z :=
  match t with
  | [] => []
  | EvTx _ _ bufs sent :: t' => ids (take (Z.to_nat sent) bufs) ++ out_ids t'
  | EvFree m :: t' => mb_id m :: out_ids t'
  | _ :: t' => out_ids t'
  end.

(** Packets given to the NIC and refused, when the program does not look at the
    result of [rte_eth_tx_burst]. *)
Fixpoint refused_ids (t : trace) : list Z :=
  match t with
  | [] => []
  | EvTx _ _ bufs sent :: t' => ids (drop (Z.to_nat sent) bufs) ++ refused_ids t'
  | _ :: t' => refused_ids t'
  end.

(** The clock readings, oldest first. *)
Fixpoint readings (t : trace) : list Z :=
  match t with [] => [] | EvCycles v :: t' => readings t' ++ [v] | _ :: t' => readings t' end.

(** The packets received so far and those given to the NIC for transmission, in
    the order of the events. *)
Fixpoint received (t : trace) : list mbuf :=
  match t with
  | [] => []
  | EvRx _ _ _ bufs :: t' => received t' ++ bufs
  | _ :: t' => received t'
  end.
Fixpoint given (t : trace) : list mbuf :=
  match t with
  | [] => []
  | EvTx _ _ bufs _ :: t' => given t' ++ bufs
  | _ :: t' => given t'
  end.

Definition owned (held : list Z) (t : trace) : Prop := rx_ids t ≡ₚ held ++ out_ids t.

(** Traces that differ by events without effect on ownership. *)
Definition same_acct (t t' : trace) : Prop := rx_ids t' = rx_ids t /\ out_ids t' = out_ids t /\ rx_packets t' = rx_packets t /\
  refused_ids t' = refused_ids t.

Lemma same_acct_refl t : same_acct t t. Proof. done. Qed.
Lemma same_acct_trans t1 t2 t3 : same_acct t1 t2 -> same_acct t2 t3 -> same_acct t1 t3.
Proof. unfold same_acct. intuition congruence. Qed.
#[export] Hint Resolve same_acct_refl : core.

Lemma owned_acct held t t' : same_acct t t' -> owned held t -> owned held t'.
Proof. unfold owned. by intros (-> & -> & _). Qed.

#[export] Instance owned_proper : Proper ((≡ₚ) ==> eq ==> iff) owned.
Proof. intros h h' Hh t ? <-. unfold owned. by rewrite Hh. Qed.

Lemma owned_nil : owned [] []. Proof. constructor. Qed.

Lemma owned_rx held p q n bufs t :
  owned held t -> owned (ids bufs ++ held) (EvRx p q n bufs :: t).
Proof. unfold owned. simpl. intros ->. by rewrite app_assoc. Qed.

Lemma owned_alloc held mp m t : owned held t -> owned (mb_id m :: held) (EvAlloc mp (Some m) :: t).
Proof. unfold owned. simpl. by intros ->. Qed.
Lemma same_acct_null mp t : same_acct t (EvAlloc mp None :: t).
Proof. done. Qed.

Lemma owned_free held m t : owned (mb_id m :: held) t -> owned held (EvFree m :: t).
Proof. unfold owned. simpl. intros ->. apply Permutation_middle. Qed.

Lemma owned_tx held p q bufs sent t :
  owned (ids bufs ++ held) t ->
  owned (ids (drop (Z.to_nat sent) bufs) ++ held) (EvTx p q bufs sent :: t).
Proof.
  unfold owned. simpl. intros ->.
  rewrite <- (take_drop (Z.to_nat sent) bufs) at 1. rewrite map_app, <- !app_assoc.
  rewrite (Permutation_app_comm (ids (take _ _))). rewrite <- !app_assoc.
  do 2 apply Permutation_app_head. apply Permutation_app_comm.
Qed.

Lemma owned_free_all ms held t :
  owned (ids ms ++ held) t -> owned held (rev (map EvFree ms) ++ t).
Proof.
  revert t. induction ms as [|m ms IH]; intros t H; [done|]. simpl.
  rewrite <- app_assoc. apply IH. simpl. by apply owned_free.
Qed.

Lemma rx_packets_free_all ms t : rx_packets (rev (map EvFree ms) ++ t) = rx_packets t.
Proof.
  revert t. induction ms as [|m ms IH]; intros t; [done|]. simpl. rewrite <- app_assoc. by rewrite IH.
Qed.
Lemma live_blocks_free_all ms t : live_blocks (rev (map EvFree ms) ++ t) = live_blocks t.
Proof.
  revert t. induction ms as [|m ms IH]; intros t; [done|]. simpl. rewrite <- app_assoc. by rewrite IH.
Qed.

Lemma received_free_all ms t : received (rev (map EvFree ms) ++ t) = received t.
Proof.
  revert t. induction ms as [|m ms IH]; intros t; [done|]. simpl. rewrite <- app_assoc. by rewrite IH.
Qed.
Lemma given_free_all ms t : given (rev (map EvFree ms) ++ t) = given t.
Proof.
  revert t. induction ms as [|m ms IH]; intros t; [done|]. simpl. rewrite <- app_assoc. by rewrite IH.
Qed.

Lemma refused_free_all ms t : refused_ids (rev (map EvFree ms) ++ t) = refused_ids t.
Proof.
  revert t. induction ms as [|m ms IH]; intros t; [done|]. simpl. rewrite <- app_assoc. by rewrite IH.
Qed.

(** Transmission of a burst whose rejected buffers are freed: nothing remains. *)
Lemma owned_tx_all held p q bufs sent t :
  owned (ids bufs ++ held) t ->
  owned held (rev (map EvFree (drop (Z.to_nat sent) bufs)) ++ EvTx p q bufs sent :: t).
Proof. intros H. by apply owned_free_all, owned_tx. Qed.
Lemma owned_tx_full held p q bufs sent t :
  owned (ids bufs ++ held) t -> zlen bufs <= sent -> owned held (EvTx p q bufs sent :: t).
Proof.
  intros H Hs. apply (owned_tx _ p q _ sent) in H. rewrite drop_ge in H; [done|].
  unfold zlen in Hs. lia.
Qed.

(** ** Compaction of a burst in place

    [for (i = 0; i < nb; i++) if (keep) bufs[n++] = bufs[i]; else free(bufs[i]);]
    after [i] packets: [n] of them are kept, at the front of the array. *)
Definition compacted (bufs0 : list mbuf) (i : Z) (bufs : list mbuf) (n : Z)
    (held : list Z) (t : trace) : Prop :=
  0 <= n <= i /\ length bufs = length bufs0 /\
  drop (Z.to_nat i) bufs = drop (Z.to_nat i) bufs0 /\
  owned (ids (take (Z.to_nat n) bufs) ++ ids (drop (Z.to_nat i) bufs0) ++ held) t.

Lemma compacted_init bufs held t :
  owned (ids bufs ++ held) t -> compacted bufs 0 bufs 0 held t.
Proof. intros H. by split; [lia|]. Qed.

Lemma compacted_acct bufs0 i bufs n held t t' :
  same_acct t t' -> compacted bufs0 i bufs n held t -> compacted bufs0 i bufs n held t'.
Proof. intros Ha (H1 & H2 & H3 & H4). repeat split; try done; try lia. by eapply owned_acct. Qed.

Lemma compacted_lookup bufs0 i bufs n held t :
  compacted bufs0 i bufs n held t -> 0 <= i < zlen bufs0 ->
  exists m, bufs !! Z.to_nat i = Some m /\ bufs0 !! Z.to_nat i = Some m /\
    drop (Z.to_nat i) bufs0 = m :: drop (Z.to_nat (i + 1)) bufs0.
Proof.
  intros (_ & _ & H & _) Hi. unfold zlen in Hi.
  destruct (lookup_lt_is_Some_2 bufs0 (Z.to_nat i)) as [m Hm]; [lia|].
  exists m. replace (Z.to_nat (i + 1)) with (S (Z.to_nat i)) by lia.
  split; [|split; [done|by apply drop_S]].
  rewrite <- Hm. rewrite <- (Nat.add_0_r (Z.to_nat i)), <- !lookup_drop. by rewrite H.
Qed.

Lemma compacted_keep bufs0 i bufs n held t m m' :
  compacted bufs0 i bufs n held t -> 0 <= i < zlen bufs0 ->
  bufs !! Z.to_nat i = Some m -> mb_id m' = mb_id m ->
  compacted bufs0 (i + 1) (<[Z.to_nat n := m']> (<[Z.to_nat i := m']> bufs)) (n + 1) held t.
Proof.
  intros H Hi Hm Hid. destruct (compacted_lookup _ _ _ _ _ _ H Hi) as (m0 & Hm0 & _ & Hd).
  destruct H as (Hn & Hl & Hdr & Ho). unfold zlen in Hi.
  split; [lia|]. split; [by rewrite !length_insert|].
  replace (Z.to_nat (i + 1)) with (S (Z.to_nat i)) in * by lia.
  replace (Z.to_nat (n + 1)) with (S (Z.to_nat n)) by lia. split.
  - rewrite !drop_insert_lt by lia. apply (f_equal tail) in Hdr.
    rewrite (drop_S _ _ _ Hm0) in Hdr. simpl in Hdr. rewrite Hdr, Hd. done.
  - rewrite (take_S_r _ _ m').
    2:{ apply list_lookup_insert_eq. rewrite length_insert. lia. }
    rewrite take_insert_ge by lia. rewrite take_insert_ge by lia.
    rewrite Hd in Ho. rewrite map_app. simpl in *. rewrite Hid, <- app_assoc. simpl.
    rewrite Hm0 in Hm. by injection Hm as ->.
Qed.

Lemma compacted_drop bufs0 i bufs n held t m m' :
  compacted bufs0 i bufs n held t -> 0 <= i < zlen bufs0 ->
  bufs !! Z.to_nat i = Some m -> mb_id m' = mb_id m ->
  compacted bufs0 (i + 1) (<[Z.to_nat i := m']> bufs) n held (EvFree m' :: t).
Proof.
  intros H Hi Hm Hid. destruct (compacted_lookup _ _ _ _ _ _ H Hi) as (m0 & Hm0 & _ & Hd).
  destruct H as (Hn & Hl & Hdr & Ho). unfold zlen in Hi.
  split; [lia|]. split; [by rewrite length_insert|].
  replace (Z.to_nat (i + 1)) with (S (Z.to_nat i)) in * by lia. split.
  - rewrite drop_insert_lt by lia. apply (f_equal tail) in Hdr.
    rewrite (drop_S _ _ _ Hm0) in Hdr. simpl in Hdr. rewrite Hdr, Hd. done.
  - rewrite take_insert_ge by lia. apply owned_free.
    rewrite Hd in Ho. simpl in Ho. rewrite Hm0 in Hm. injection Hm as ->.
    rewrite Hid. by rewrite <- Permutation_middle in Ho.
Qed.

Lemma compacted_end bufs0 bufs n held t :
  compacted bufs0 (zlen bufs0) bufs n held t ->
  owned (ids (take (Z.to_nat n) bufs) ++ held) t /\ 0 <= n <= zlen bufs0 /\
  length bufs = length bufs0.
Proof.
  intros (Hn & Hl & _ & H). unfold zlen in *. rewrite Nat2Z.id, drop_all in H. done.
Qed.

(** ** Transmit, free what was not sent *)

(** [sent = rte_eth_tx_burst(port, queue, bufs, n);
     if (sent < n) for (i = sent; i < n; i++) rte_pktmbuf_free(bufs[i]);]
    for the array of the [n] packets to send. *)
Definition tx_count_or_free {E : Env} {S} (port queue : Z) (bufs : list mbuf) : M S Z :=
  sent <-- rte_eth_tx_burst port queue bufs ;;
  when (sent <? zlen bufs) (free_all (drop (Z.to_nat sent) bufs)) ;;
  ret sent.
Definition tx_or_free {E : Env} {S} (port queue : Z) (bufs : list mbuf) : M S unit :=
  _ <-- tx_count_or_free port queue bufs ;; ret tt.

Lemma wp_tx_count_or_free {E : Env} {S} p q bufs held (Q : Z -> S -> trace -> Prop) X s t :
  owned (ids bufs ++ held) t ->
  (forall k t', 0 <= k <= zlen bufs -> owned held t' -> live_blocks t' = live_blocks t ->
     rx_packets t' = rx_packets t -> Q k s t') ->
  wp (tx_count_or_free p q bufs) Q X s t.
Proof.
  intros Ho HQ. unfold tx_count_or_free. wp_step. apply wp_tx. intros k Hk. wp_steps.
  - apply wp_free_all. wp_steps. apply HQ;
      [done|by apply owned_tx_all|by rewrite live_blocks_free_all|by rewrite rx_packets_free_all].
  - apply Z.ltb_ge in H. apply HQ; [done|by apply owned_tx_full|done|done].
Qed.

Lemma wp_tx_or_free {E : Env} {S} p q bufs held (Q : unit -> S -> trace -> Prop) X s t :
  owned (ids bufs ++ held) t ->
  (forall t', owned held t' -> live_blocks t' = live_blocks t -> rx_packets t' = rx_packets t ->
     Q tt s t') ->
  wp (tx_or_free p q bufs) Q X s t.
Proof.
  intros Ho HQ. unfold tx_or_free. wp_step. eapply wp_tx_count_or_free; [done|].
  intros k t' _ H1 H2 H3. wp_steps. by apply HQ.
Qed.

Lemma readings_frees ms t : readings (rev (map EvFree ms) ++ t) = readings t.
Proof. induction ms as [|m ms IH] using rev_ind; [done|]. by rewrite map_app, rev_app_distr. Qed.
Lemma tx_or_free_readings {E : Env} {S} p q bufs (s : S) t :
  wp (tx_or_free p q bufs) (fun _ s' t' => s' = s /\ readings t' = readings t) (fun _ _ _ => False) s t.
Proof.
  unfold tx_or_free, tx_count_or_free. wp_steps. apply wp_tx. intros sent _. wp_steps; [|done].
  apply wp_free_all. wp_steps. by rewrite readings_frees.
Qed.

(** A transmission whose result is ignored: what is refused stays in the
    program's hands. *)
Lemma owned_tx_ignored held p q bufs sent t :
  owned (ids bufs ++ held ++ refused_ids t) t ->
  owned (held ++ refused_ids (EvTx p q bufs sent :: t)) (EvTx p q bufs sent :: t).
Proof.
  intros H%(owned_tx _ p q bufs sent). simpl. by rewrite Permutation_app_swap_app.
Qed.

(** ** Bursts whose packets may be dropped

    A packet function that frees the buffer and returns NULL, or returns it
    changed in place. *)
Definition handled (m : mbuf) (om : option mbuf) (t t' : trace) : Prop :=
  refused_ids t' = refused_ids t /\
  forall held, owned (mb_id m :: held) t ->
    owned (match om with Some m' => mb_id m' :: held | None => held end) t'.

Lemma handled_same m m' t t' : mb_id m' = mb_id m -> same_acct t t' -> handled m (Some m') t t'.
Proof.
  intros H A. split; [apply A|]. intros held Ho. rewrite H. by eapply owned_acct.
Qed.
Lemma handled_free m t t1 t' :
  same_acct t t1 -> same_acct (EvFree m :: t1) t' -> handled m None t t'.
Proof.
  intros A A'. split.
  - destruct A as (_ & _ & _ & <-). apply A'.
  - intros held Ho. eapply owned_acct; [done|]. apply owned_free. by eapply owned_acct.
Qed.

Lemma wp_for_each_owned {S} (I : S -> trace -> Prop) (P : mbuf -> Prop) (body : mbuf -> M S (option mbuf)) bufs held X s t :
  (forall m s t, P m -> I s t -> wp (body m) (fun om s' t' => I s' t' /\ handled m om t t') X s t) ->
  Forall P bufs -> I s t -> owned (ids bufs ++ held) t ->
  wp (for_each body bufs) (fun oms s' t' => I s' t' /\ refused_ids t' = refused_ids t /\
    owned (ids (omap id oms) ++ held) t') X s t.
Proof.
  intros Hb HP HI Ho.
  eapply wp_mono; [apply (wp_for_each (fun pre oms s' t' => I s' t' /\ refused_ids t' = refused_ids t /\
    forall post, bufs = pre ++ post -> owned (ids (omap id oms) ++ ids post ++ held) t') _ X)| |done].
  - intros pre m post oms s1 t1 Hbufs (I1 & R1 & O1).
    assert (P m) as Pm.
    { rewrite Hbufs in HP. apply Forall_app in HP as [_ HP]. by inversion HP. }
    eapply wp_mono; [by apply Hb| |done]. intros om s2 t2 (I2 & R2 & Hh). split; [done|]. split; [congruence|].
    intros post' Hp. rewrite Hbufs, <- app_assoc in Hp. apply app_inv_head in Hp. injection Hp as <-.
    specialize (O1 _ Hbufs). simpl in O1.
    assert (owned (mb_id m :: ids (omap id oms) ++ ids post ++ held) t1) as O1'.
    { by rewrite Permutation_middle. }
    apply Hh in O1'. rewrite omap_app, map_app, <- app_assoc.
    destruct om as [m'|]; simpl; [by rewrite <- Permutation_middle|done].
  - split; [done|]. split; [done|]. intros post ->. done.
  - intros oms s1 t1 (I1 & R1 & O1). split; [done|]. split; [done|]. specialize (O1 []). rewrite app_nil_r in O1. by apply O1.
Qed.

(** Bursts whose packets are only rewritten in place. *)
Lemma wp_for_each_ids {S} (I : S -> Prop) (body : mbuf -> M S mbuf) bufs X s t :
  (forall m s t, I s -> wp (body m) (fun m' s' t' => I s' /\ mb_id m' = mb_id m /\ same_acct t t') X s t) ->
  I s ->
  wp (for_each body bufs) (fun ms s' t' => I s' /\ ids ms = ids bufs /\ same_acct t t') X s t.
Proof.
  intros Hb HI. apply (wp_for_each (fun pre ms s' t' => I s' /\ ids ms = ids pre /\ same_acct t t')).
  - intros pre m post ms s1 t1 _ (I1 & E1 & A1). eapply wp_mono; [by apply Hb| |done].
    intros m' s2 t2 (I2 & E2 & A2). split; [done|]. split; [|by eapply same_acct_trans].
    rewrite !map_app, E1. simpl. by rewrite E2.
  - done.
Qed.

Lemma rx_ids_packets t : rx_ids t = ids (rx_packets t).
Proof.
  induction t as [|[] t IH]; simpl; try done; [by rewrite map_app, IH|].
  destruct m; simpl; by rewrite IH.
Qed.

(** ** Printing programs: what they print, and nothing else *)

Definition prints {S A} (m : M S A) (ls : list event) (a : A) : Prop :=
  forall s t, m s t = Done a s (rev ls ++ t).

Lemma prints_ret {S A} (a : A) : prints (S:=S) (ret a) [] a.
Proof. done. Qed.
Lemma prints_printf {S} fmt args : prints (S:=S) (printf fmt args) [EvPrintf fmt args] tt.
Proof. done. Qed.
Lemma prints_bind {S A B} (m : M S A) (f : A -> M S B) ls ls' a b :
  prints m ls a -> prints (f a) ls' b -> prints (bind m f) (ls ++ ls') b.
Proof. intros H1 H2 s t. unfold bind. rewrite H1, H2. by rewrite rev_app_distr, <- app_assoc. Qed.
Lemma prints_line {S A} fmt args (m : M S A) ls a :
  prints m ls a -> prints (printf fmt args ;; m) (EvPrintf fmt args :: ls) a.
Proof. intros H. by apply (prints_bind _ _ [_] ls tt a). Qed.
Lemma prints_acct {S A} (m : M S A) ls a (Q : A -> S -> trace -> Prop) X s t :
  prints m ls a -> Q a s (rev ls ++ t) -> wp m Q X s t.
Proof. intros H HQ. unfold wp. by rewrite H. Qed.

(** ** Programs that only print *)

Definition is_printf (e : event) : Prop := match e with EvPrintf _ _ => True | _ => False end.
Definition only_printed (t t' : trace) : Prop := exists ls, t' = ls ++ t /\ Forall is_printf ls.

Lemma only_printed_refl t : only_printed t t.
Proof. by exists []. Qed.
Lemma only_printed_trans t1 t2 t3 : only_printed t1 t2 -> only_printed t2 t3 -> only_printed t1 t3.
Proof.
  intros (l1 & -> & H1) (l2 & -> & H2). exists (l2 ++ l1). split; [by rewrite app_assoc|].
  by apply Forall_app.
Qed.
(** What skips the printed lines is left alone by them. *)
Lemma only_printed_ext {A} (f : trace -> A) t t' :
  (forall e t, is_printf e -> f (e :: t) = f t) -> only_printed t t' -> f t' = f t.
Proof. intros H (ls & -> & Hl). induction Hl; simpl; [done|]. by rewrite H. Qed.
Lemma only_printed_acct t t' : only_printed t t' -> same_acct t t'.
Proof.
  intros H. split_and!; (eapply only_printed_ext; [|exact H]); by intros [] ?.
Qed.
#[export] Hint Resolve only_printed_refl only_printed_acct : core.

Section Quiet.
Context {S : Type}.

Definition quiet {A} (m : M S A) : Prop :=
  forall s t, wp m (fun _ s' t' => s' = s /\ only_printed t t') (fun _ _ _ => False) s t.

Lemma quiet_bind {A B} (m : M S A) (f : A -> M S B) : quiet m -> (forall a, quiet (f a)) -> quiet (bind m f).
Proof.
  intros Hm Hf s t. apply wp_bind. eapply wp_mono; [apply Hm| |done]. intros a s1 t1 [-> A1].
  eapply wp_mono; [apply Hf| |done]. intros b s2 t2 [-> A2]. split; [done|]. by eapply only_printed_trans.
Qed.
Lemma quiet_ret {A} (a : A) : quiet (ret a).
Proof. by intros s t. Qed.
Lemma quiet_printf fmt args : quiet (printf fmt args).
Proof.
  intros s t. apply wp_printf. split; [done|]. by exists [EvPrintf fmt args]; split; [|constructor].
Qed.
Lemma quiet_if {A} (b : bool) (m m' : M S A) : quiet m -> quiet m' -> quiet (if b then m else m').
Proof. by destruct b. Qed.
Lemma quiet_when (b : bool) (m : M S unit) : quiet m -> quiet (when b m).
Proof. destruct b; simpl; [done|]. intros _. apply quiet_ret. Qed.
Lemma quiet_for n i (body : Z -> unit -> M S unit) :
  (forall j u, quiet (body j u)) -> quiet (for_ n i body tt).
Proof.
  intros H s t. apply (wp_for (fun _ _ s' t' => s' = s /\ only_printed t t')); [|done].
  intros j l s1 t1 _ [-> A]. eapply wp_mono; [apply H| |done]. intros u s2 t2 [-> A2].
  split; [done|]. by eapply only_printed_trans.
Qed.
Lemma wp_quiet {A} (m : M S A) (Q : A -> S -> trace -> Prop) X s t :
  quiet m -> (forall a t', only_printed t t' -> Q a s t') -> wp m Q X s t.
Proof. intros Hm H. eapply wp_mono; [apply Hm| |done]. intros a s' t' [-> Ht]. by apply H. Qed.
End Quiet.

(** Straight-line programs of [printf]. *)
Ltac quiet_lines :=
  repeat first
    [ apply quiet_ret | apply quiet_printf | apply quiet_if | apply quiet_when
    | apply quiet_bind; [|intros ?] | apply quiet_for; intros ? ?; cbv beta zeta ].

(** ** Bursts whose packets are all given away

    A packet function that frees the buffer or transmits it, whatever the NIC
    then refuses. *)
Definition consumed (m : mbuf) (t t' : trace) : Prop :=
  forall held, owned (mb_id m :: held ++ refused_ids t) t -> owned (held ++ refused_ids t') t'.

Lemma consumed_free m t t1 t' : same_acct t t1 -> same_acct (EvFree m :: t1) t' -> consumed m t t'.
Proof.
  intros A A' held Ho. pose proof A as (_ & _ & _ & R). pose proof A' as (_ & _ & _ & R'). simpl in R'.
  rewrite R', R. eapply owned_acct; [exact A'|]. apply owned_free. by eapply owned_acct.
Qed.
Lemma consumed_tx m p q k t t1 t' :
  same_acct t t1 -> same_acct (EvTx p q [m] k :: t1) t' -> consumed m t t'.
Proof.
  intros A A' held Ho. pose proof A as (_ & _ & _ & R). pose proof A' as (_ & _ & _ & R').
  rewrite R'. eapply owned_acct; [exact A'|]. apply owned_tx_ignored. simpl. rewrite R. by eapply owned_acct.
Qed.

Lemma wp_for_each_consumed {S B} (I : S -> trace -> Prop) (P : mbuf -> Prop) (body : mbuf -> M S B) bufs held X s t :
  (forall m s t, P m -> I s t -> wp (body m) (fun _ s' t' => I s' t' /\ consumed m t t') X s t) ->
  Forall P bufs -> I s t -> owned (ids bufs ++ held ++ refused_ids t) t ->
  wp (for_each body bufs) (fun _ s' t' => I s' t' /\ owned (held ++ refused_ids t') t') X s t.
Proof.
  intros Hb HP HI Ho.
  eapply wp_mono; [apply (wp_for_each (fun pre _ s' t' => I s' t' /\
    forall post, bufs = pre ++ post -> owned (ids post ++ held ++ refused_ids t') t') _ X)| |done].
  - intros pre m post rs s1 t1 Hbufs (I1 & O1).
    assert (P m) as Pm by (rewrite Hbufs in HP; apply Forall_app in HP as [_ HP]; by inversion HP).
    eapply wp_mono; [by apply Hb| |done]. intros r s2 t2 (I2 & C2). split; [done|].
    intros post' Hp. rewrite Hbufs, <- app_assoc in Hp. apply app_inv_head in Hp. injection Hp as <-.
    rewrite app_assoc. apply C2. rewrite <- app_assoc. by apply (O1 (m :: post)).
  - split; [done|]. by intros post ->.
  - intros rs s1 t1 (I1 & O1). split; [done|]. apply (O1 []). by rewrite app_nil_r.
Qed.

(** [while (1) { nb = rte_eth_rx_burst(...); if (nb == 0) continue; for (...) body; }] *)
Definition rx_each {E : Env} {S B} (port queue burst : Z) (body : mbuf -> M S B) (_ : unit) : M S unit :=
  bufs <-- rte_eth_rx_burst port queue burst ;;
  if zlen bufs =? 0 then ret tt else _ <-- for_each body bufs ;; ret tt.

Lemma wp_rx_each {E : Env} {S B} (I : S -> trace -> Prop) port queue burst (body : mbuf -> M S B) held X u s t :
  (forall m s t, bytes_ok m -> I s t -> wp (body m) (fun _ s' t' => I s' t' /\ consumed m t t') X s t) ->
  (forall bufs s t, I s t -> I s (EvRx port queue burst bufs :: t)) ->
  I s t -> owned (held ++ refused_ids t) t ->
  wp (rx_each port queue burst body u) (fun _ s' t' => I s' t' /\ owned (held ++ refused_ids t') t') X s t.
Proof.
  intros Hb Hrx HI Ho. unfold rx_each. wp_step. apply wp_rx. intros bufs _ Hbs.
  apply (owned_rx _ port queue burst bufs) in Ho. apply wp_if; intros Hl.
  - apply wp_ret. split; [by apply Hrx|]. destruct bufs; [done|].
    apply Z.eqb_eq in Hl. unfold zlen in Hl. simpl in Hl. lia.
  - wp_step. eapply wp_mono; [by eapply (wp_for_each_consumed I bytes_ok), Ho; auto| |done].
    intros rs s1 t1 [I1 O1]. by wp_steps.
Qed.
