(* ===== verification/Sim.v ===== *)
(** * Concrete instances of the DPDK interface

    Executable implementations of every class of [Rte] and [Env]: they show
    that the laws can hold, and the witnesses of the theorems run on them. *)

From S2P Require Import Prelude Rte Env Packet.

(** ** Pure services *)

Definition sim_byteorder : Byteorder.
Proof.
  refine {| rte_cpu_to_be_16 := bswap16; rte_cpu_to_be_32 := bswap32;
            rte_be_to_cpu_16 := bswap16; rte_be_to_cpu_32 := bswap32;
            RTE_IPV4 a b c d := of_le32 d c b a |}; done.
Defined.

Lemma phdr_nonneg ip : (forall i, is_u8 (ip i)) -> 0 <= phdr_sum ip.
Proof.
  intros H. unfold phdr_sum.
  pose proof (bswap16_range (u16 (l4_len ip))).
  pose proof (of_le16_range _ _ (H 12) (H 13)). pose proof (of_le16_range _ _ (H 14) (H 15)).
  pose proof (of_le16_range _ _ (H 16) (H 17)). pose proof (of_le16_range _ _ (H 18) (H 19)).
  pose proof (of_le16_range 0 _ ltac:(words) (H 9)).
  autounfold with words in *. lia.
Qed.
Lemma l4_sum_nonneg l4 n : (forall i, is_u8 (l4 i)) -> 0 <= l4_sum l4 n.
Proof.
  intros H. unfold l4_sum. pose proof (word_sum_nonneg l4 (Z.to_nat (n / 2)) H).
  pose proof (H (n - 1)). destruct (Z.odd n); autounfold with words in *; lia.
Qed.

Definition sim_cksum : Cksum.
Proof.
  refine {| rte_ipv4_cksum ip := 65535 - oc (word_sum ip (ihl_words ip));
            rte_ipv4_udptcp_cksum ip l4 := 65535 - oc (phdr_sum ip + l4_sum l4 (l4_len ip)) |}.
  - done.
  - intros ip l4. unfold oc. destruct (_ =? 0); [words|].
    pose proof (Z.mod_pos_bound (phdr_sum ip + l4_sum l4 (l4_len ip) - 1) 65535).
    autounfold with words. lia.
  - intros ip l4 o _ _ Hi Hl _ _ _. rewrite Z.add_assoc. apply oc_complement.
    pose proof (phdr_nonneg ip Hi). pose proof (l4_sum_nonneg l4 (l4_len ip) Hl). lia.
Defined.

Definition sim_pktmbuf : Pktmbuf.
Proof.
  refine {|
    rte_pktmbuf_prepend m len :=
      if data_off m <? len then None
      else Some (resize m (data_off m - len) (u16 (data_len m + len)) (u32 (pkt_len m + len)));
    rte_pktmbuf_adj m len :=
      if data_len m <? len then None
      else Some (resize m (data_off m + len) (u16 (data_len m - len)) (u32 (pkt_len m - len)));
    rte_pktmbuf_append m len :=
      if zlen (mb_buf m) - data_off m - data_len m <? len then None
      else Some (resize m (data_off m) (u16 (data_len m + len)) (u32 (pkt_len m + len)));
    rte_pktmbuf_trim m len :=
      if data_len m <? len then None
      else Some (resize m (data_off m) (u16 (data_len m - len)) (u32 (pkt_len m - len))) |}; done.
Defined.

(** A bounded table: adding a new key to a full table fails with -ENOSPC. *)
Record sim_table := SimTable { st_cap : Z; st_map : gmap (list Z) Z }.

Definition sim_add (h : sim_table) (k : list Z) (v : Z) : Z * sim_table :=
  if bool_decide (is_Some (st_map h !! k)) || (Z.of_nat (size (st_map h)) <? st_cap h)
  then (0, SimTable (st_cap h) (<[k:=v]> (st_map h)))
  else (-28, h).

Definition sim_hash : RteHash.
Proof.
  refine {| rte_hash := sim_table; hash_map := st_map;
            rte_hash_empty e k := SimTable e ∅;
            rte_hash_lookup_data h k := st_map h !! k;
            rte_hash_add_key_data := sim_add;
            rte_hash_del_key h k :=
              (if bool_decide (is_Some (st_map h !! k)) then 0 else -2,
               SimTable (st_cap h) (delete k (st_map h)));
            rte_hash_reset h := SimTable (st_cap h) ∅;
            rte_hash_entries h := map_to_list (st_map h) |}; try done.
  - intros h k v. unfold sim_add. by destruct (_ || _).
  - intros h k v. unfold sim_add. by destruct (_ || _).
Defined.

Definition sim_rearm (now : Z) (ep : Z * Z) : option (Z * Z) :=
  if ep.1 <=? now then (if ep.2 =? 0 then None else Some (ep.1 + ep.2, ep.2)) else Some ep.

Definition sim_timer : RteTimer.
Proof.
  refine {| rte_timers := gmap Z (Z * Z); pending T := T; rte_timers_init := ∅;
            rte_timer_reset T tim now ticks ty :=
              <[tim := (now + ticks, match ty with SINGLE => 0 | PERIODICAL => ticks end)]> T;
            rte_timer_stop T tim := delete tim T;
            rte_timer_expired T now :=
              ((map_to_list (filter (fun kv => kv.2.1 <= now) T)).*1, omap (sim_rearm now) T) |};
    try done.
  - intros T now. apply NoDup_fst_map_to_list.
  - intros T now tim. simpl. rewrite list_elem_of_fmap. split.
    + intros ([k [e p]] & -> & H). apply elem_of_map_to_list in H.
      apply map_lookup_filter_Some in H as [H1 H2]. eauto.
    + intros (e & p & H & He). exists (tim, (e, p)). split; [done|].
      apply elem_of_map_to_list. by apply map_lookup_filter_Some.
  - intros T now tim. simpl. rewrite lookup_omap.
    destruct (T !! tim) as [[e p]|]; [|done]. unfold sim_rearm. simpl. done.
Defined.

(** A ring with its capacity, and a rule set of at most that many rules. *)
Definition sim_ring (A : Type) : RteRing A.
Proof.
  refine {| rte_ring := Z * list A; ring_items := snd; ring_cap := fst;
            rte_ring_empty count := (count - 1, []);
            rte_ring_enqueue r m :=
              if zlen r.2 <? r.1 then (0, (r.1, r.2 ++ [m])) else (-105, r);
            rte_ring_enqueue_burst r ms :=
              let n := Z.min (zlen ms) (r.1 - zlen r.2) in (n, (r.1, r.2 ++ take (Z.to_nat n) ms));
            rte_ring_dequeue r := (head r.2, (r.1, tail r.2));
            rte_ring_dequeue_burst r n := (take (Z.to_nat n) r.2, (r.1, drop (Z.to_nat n) r.2)) |};
    try done.
  - intros [c l] m. simpl. by destruct (_ <? _).
  - intros [c l] m. simpl. by destruct (_ <? _).
Defined.

Definition sim_lpm : RteLpm.
Proof.
  refine {| rte_lpm := Z * gmap (Z * Z) Z; lpm_rules := snd;
            rte_lpm_empty n := (n, ∅);
            rte_lpm_add t ip depth hop :=
              if Z.of_nat (size t.2) <? t.1
              then (0, (t.1, <[(prefix ip depth, depth) := hop]> t.2)) else (-28, t);
            rte_lpm_lookup t ip := lpm_match t.2 ip |}; try done.
  intros [c l] ip depth hop _ _ _. simpl. by destruct (_ <? _).
Defined.

(** ** A scripted environment *)

(** The answers: status of the calls, the bursts the NIC delivers in order, how
    many packets one transmission accepts, the clock, whether malloc works. *)
Record script := Script {
  sc_call : api -> Z;
  sc_bursts : list (list mbuf);
  sc_accept : Z;
  sc_clock : trace -> Z;
  sc_malloc : bool;
  sc_file : option string;
  sc_quit_after : Z }.   (* the quit flag is raised after that many bursts *)

Fixpoint count_rx (t : trace) : nat :=
  match t with
  | [] => O
  | EvRx _ _ _ _ :: t' => S (count_rx t')
  | _ :: t' => count_rx t'
  end.

Fixpoint max_malloc (t : trace) : Z :=
  match t with
  | [] => 0
  | EvMalloc _ a :: t' => Z.max a (max_malloc t')
  | _ :: t' => max_malloc t'
  end.

Lemma max_malloc_nonneg t : 0 <= max_malloc t.
Proof. induction t as [|[]]; simpl; lia. Qed.
Lemma max_malloc_live t a : a ∈ live_blocks t -> a <= max_malloc t.
Proof.
  induction t as [|e t IH]; simpl; [set_solver|].
  destruct e; auto.
  - intros [->%elem_of_singleton|H]%elem_of_union; [lia|]. specialize (IH H). lia.
  - intros [H _]%elem_of_difference. auto.
Qed.

Lemma Forall_repeat0 n : Forall is_u8 (repeat 0 n).
Proof. induction n; simpl; constructor; [words|done]. Qed.

Definition sim_env (sc : script) : Env.
Proof.
  refine {|
    env_call t a := sc_call sc a;
    env_rx t p q n := take (Z.to_nat n) (filter bytes_ok (nth (count_rx t) (sc_bursts sc) []));
    env_tx t p q bufs := Z.max 0 (Z.min (sc_accept sc) (zlen bufs));
    env_alloc t mp :=
      if sc_malloc sc
      then let room := Z.max 0 (pool_room t mp) in
           if room =? pool_room t mp then Some (Mbuf (max_malloc t + 64) (repeat 0 (Z.to_nat room)) (Z.min 128 room) 0 0)
           else None
      else None;
    env_vals t w n := repeat 7 (Z.to_nat n);
    env_cycles t := u64 (sc_clock sc t);
    env_hz := 1000;
    env_malloc t size := if sc_malloc sc then max_malloc t + 64 else 0;
    env_indet t n := repeat 0 (Z.to_nat n);
    env_file t path := sc_file sc;
    env_scanf_int t := Some 0;
    env_scanf_word t := "exit"%string;
    env_ports t := [0];
    env_quit t := sc_quit_after sc <=? Z.of_nat (count_rx t)
  |}.
  - intros t p q n Hn. unfold zlen. rewrite length_take. lia.
  - intros t p q n. apply Forall_take, Forall_forall. by intros m [? _]%list_elem_of_filter.
  - intros t p q bufs. pose proof (zlen_nonneg bufs). lia.
  - intros t mp m. destruct (sc_malloc sc); [|done]. cbv zeta.
    destruct (Z.eqb_spec (Z.max 0 (pool_room t mp)) (pool_room t mp)) as [E|]; [|done]. rewrite E. intros [= <-].
    split; [apply Forall_repeat0|]. split; [|done]. unfold zlen. simpl. rewrite repeat_length. lia.
  - intros t w n Hn. split; [unfold zlen; rewrite repeat_length; lia|].
    induction (Z.to_nat n); simpl; constructor; [words|done].
  - intros t. apply u64_range.
  - done.
  - intros t size. destruct (sc_malloc sc); [|done]. intros _ H.
    apply max_malloc_live in H. lia.
  - intros t n Hn. split; [|unfold zlen; rewrite repeat_length; lia].
    induction (Z.to_nat n); simpl; constructor; [words|done].
Defined.

(** ** Packets *)

(** An Ethernet frame with an IPv4 header without options and 20 further bytes;
    addresses and ports are given by their bytes on the wire. *)
Definition mk_packet (id : Z) (src dst : list Z) (proto : Z) (sport dport : list Z) : mbuf :=
  Mbuf id (repeat 0 12 ++ [8; 0] ++
           [69; 0; 0; 40; 0; 0; 0; 0; 64; proto; 0; 0] ++ src ++ dst ++
           sport ++ dport ++ [0; 20] ++ repeat 0 14) 0 54 54.

Lemma Forall_u8_dec l : forallb (fun b => (0 <=? b) && (b <? 256)) l = true -> Forall is_u8 l.
Proof.
  intros H. apply Forall_forall. intros x Hx. rewrite forallb_forall in H.
  apply list_elem_of_In in Hx. specialize (H x Hx). words.
Qed.

Definition quiet_script : script := Script (fun _ => 1) [] 32 (fun t => Z.of_nat (length t)) true None 1000.

(** The same environment, except that every poll delivers the packet [m]. *)
Definition steady_env (sc : script) (m : mbuf) (Hm : bytes_ok m) : Env.
Proof.
  pose (e := sim_env sc).
  refine {|
    env_call := @env_call e; env_rx t p q n := take (Z.to_nat n) [m]; env_tx := @env_tx e;
    env_alloc := @env_alloc e; env_vals := @env_vals e; env_cycles := @env_cycles e; env_hz := @env_hz e;
    env_malloc := @env_malloc e; env_indet := @env_indet e; env_file := @env_file e;
    env_scanf_int := @env_scanf_int e; env_scanf_word := @env_scanf_word e; env_ports := @env_ports e;
    env_quit := @env_quit e;
    env_tx_bound := @env_tx_bound e; env_alloc_law := @env_alloc_law e; env_vals_law := @env_vals_law e;
    env_cycles_u64 := @env_cycles_u64 e; env_hz_u64 := @env_hz_u64 e;
    env_malloc_fresh := @env_malloc_fresh e; env_indet_bytes := @env_indet_bytes e |}.
  - intros t p q n Hn. unfold zlen. rewrite length_take. lia.
  - intros t p q n. apply Forall_take. by constructor.
Defined.
