(* ===== verification/NatRewrite.v ===== *)
(** * Address rewriting with checksum recalculation

    The code that version3 to version5 of the NAT run on a packet in place:
    store the new address, then recompute the IPv4 checksum and the TCP or UDP
    checksum, clearing each field first. *)

From S2P Require Import Prelude Rte Packet.

Section NatRewrite.
Context {CK : Cksum}.

(** The recalculation; the same statements in static_nat.c of version3, version4
    and version5. *)
Definition recalc_cksums (m : mbuf) : mbuf :=
  let m := recalc_ip m in
  if load8 m IP_PROTO =? IPPROTO_TCP then recalc_l4 TCP_CKSUM m
  else if load8 m IP_PROTO =? IPPROTO_UDP then recalc_l4 UDP_CKSUM m
  else m.

(** version5/static_nat.c *)
Definition rewrite_and_recalc (m : mbuf) (new_ip : Z) (is_src : bool) : mbuf :=
  let m := if is_src then store32 m IP_SRC new_ip else store32 m IP_DST new_ip in
  recalc_cksums m.

(** The bytes that may change. *)
Definition addr_off (is_src : bool) : Z := if is_src then IP_SRC else IP_DST.
Definition l4_field (proto : Z) : list (Z * Z) :=
  if proto =? IPPROTO_TCP then [(TCP_CKSUM, 2)]
  else if proto =? IPPROTO_UDP then [(UDP_CKSUM, 2)] else [].

Lemma recalc_cksums_id m : mb_id (recalc_cksums m) = mb_id m.
Proof. unfold recalc_cksums. by repeat destruct (_ =? _). Qed.
Lemma rewrite_and_recalc_id m ip d : mb_id (rewrite_and_recalc m ip d) = mb_id m.
Proof. unfold rewrite_and_recalc. rewrite recalc_cksums_id. by destruct d. Qed.

Lemma recalc_cksums_unfold m :
  room m HDRS -> bytes_ok m ->
  recalc_cksums m =
    (if load8 m IP_PROTO =? IPPROTO_TCP then recalc_l4 TCP_CKSUM (recalc_ip m)
     else if load8 m IP_PROTO =? IPPROTO_UDP then recalc_l4 UDP_CKSUM (recalc_ip m)
     else recalc_ip m).
Proof.
  intros Hr Hb. unfold recalc_cksums. cbv zeta.
  by rewrite (frame_load8 _ _ _ IP_PROTO (recalc_ip_frame m Hr Hb)) by done.
Qed.

Lemma recalc_cksums_frame m :
  room m HDRS -> bytes_ok m ->
  frame_but ((IP_CKSUM, 2) :: l4_field (load8 m IP_PROTO)) m (recalc_cksums m).
Proof.
  intros Hr Hb. rewrite recalc_cksums_unfold by done. unfold l4_field.
  pose proof (recalc_ip_frame m Hr Hb) as F.
  destruct (_ =? _); [|destruct (_ =? _); [|done]];
    (apply (frame_but_trans _ _ _ _ _ F), recalc_l4_frame;
     [by eapply frame_room|by eapply frame_bytes|unfold TCP_CKSUM, UDP_CKSUM; lia]).
Qed.

(** A header of 20 bytes is untouched by changes from byte 34 on. *)
Lemma ipv4_cksum_ok_frame f m m' :
  frame_but [(f, 2)] m m' -> L4 <= f -> Z.land (load8 m IP) 15 = 5 ->
  ipv4_cksum_ok (at_off m IP) -> ipv4_cksum_ok (at_off m' IP).
Proof.
  unfold ipv4_cksum_ok, ihl_words. intros F Hf H5.
  assert (forall i, 0 <= i < 20 -> at_off m' IP i = at_off m IP i) as E0.
  { intros i Hi. unfold at_off, IP, L4 in *. apply (frame_load8 _ _ _ _ F); [lia|]. simpl. lia. }
  assert (at_off m IP 0 = load8 m IP) as Ez by (unfold at_off; by rewrite Z.add_0_r).
  rewrite (E0 0), Ez, H5 by lia.
  by rewrite (word_sum_ext (at_off m' IP) (at_off m IP)).
Qed.

Lemma recalc_cksums_ok m :
  room m HDRS -> bytes_ok m -> Z.land (load8 m IP) 15 = 5 ->
  ipv4_cksum_ok (at_off (recalc_cksums m) IP) /\
  ((load8 m IP_PROTO = IPPROTO_TCP \/ load8 m IP_PROTO = IPPROTO_UDP) ->
   l4_cksum_off (load8 m IP_PROTO) + 2 <= l4_len (at_off m IP) ->
   l4_cksum_ok (at_off (recalc_cksums m) IP) (at_off (recalc_cksums m) L4)).
Proof.
  intros Hr Hb H5.
  assert (ihl_ok (at_off m IP)) as Hi by (unfold ihl_ok, at_off; rewrite Z.add_0_r, H5; done).
  pose proof (recalc_ip_ok m Hr Hb Hi) as Hok. pose proof (recalc_ip_frame m Hr Hb) as F.
  rewrite recalc_cksums_unfold by done. set (m1 := recalc_ip m) in *.
  assert (room m1 HDRS) as Hr1 by (by eapply frame_room).
  assert (bytes_ok m1) as Hb1 by (by eapply frame_bytes).
  assert (load8 m1 IP_PROTO = load8 m IP_PROTO) as Ep by (by apply (frame_load8 _ _ _ _ F)).
  assert (Z.land (load8 m1 IP) 15 = 5) as H51 by (by rewrite (frame_load8 _ _ _ _ F)).
  assert (l4_len (at_off m1 IP) = l4_len (at_off m IP)) as El.
  { unfold l4_len, at_off. by rewrite !(frame_load8 _ _ _ _ F). }
  rewrite <- Ep, <- El.
  destruct (Z.eqb_spec (load8 m1 IP_PROTO) IPPROTO_TCP) as [Et|Ht];
    [|destruct (Z.eqb_spec (load8 m1 IP_PROTO) IPPROTO_UDP) as [Eu|Hu]].
  - split; [eapply ipv4_cksum_ok_frame; [by apply recalc_l4_frame|done|done|done]|].
    intros Hp Hl. apply recalc_l4_ok; try done. by rewrite Et.
  - split; [eapply ipv4_cksum_ok_frame; [by apply recalc_l4_frame|done|done|done]|].
    intros Hp Hl. apply recalc_l4_ok; try done. by rewrite Eu.
  - split; [done|]. tauto.
Qed.

(** What [rewrite_and_recalc] does to a packet with a 20-byte IPv4 header. *)
Record rewritten (m m' : mbuf) (new_ip : Z) (is_src : bool) : Prop := {
  rw_addr : load32 m' (addr_off is_src) = new_ip;
  rw_frame : frame_but ((addr_off is_src, 4) :: (IP_CKSUM, 2) :: l4_field (load8 m IP_PROTO)) m m';
  rw_ip : ipv4_cksum_ok (at_off m' IP);
  rw_l4 : (load8 m IP_PROTO = IPPROTO_TCP \/ load8 m IP_PROTO = IPPROTO_UDP) ->
    l4_cksum_off (load8 m IP_PROTO) + 2 <= l4_len (at_off m IP) ->
    l4_cksum_ok (at_off m' IP) (at_off m' L4) }.

(** [m'] is [m] with [ip] for the address at byte [off]: no byte changes but those of the
    address, of the IPv4 checksum (byte 24) and of the checksum of a TCP (byte 50)
    or UDP (byte 40) header; behind a 20-byte IPv4 header both checksums are
    valid. *)
Record readdressed (m m' : mbuf) (off ip : Z) : Prop := {
  ra_addr : load32 m' off = ip;
  ra_frame : frame_but ((off, 4) :: (24, 2) ::
    (if load8 m 23 =? 6 then [(50, 2)] else if load8 m 23 =? 17 then [(40, 2)] else [])) m m';
  ra_ip : Z.land (load8 m 14) 15 = 5 -> ipv4_cksum_ok (at_off m' 14);
  ra_l4 : Z.land (load8 m 14) 15 = 5 -> (load8 m 23 = 6 \/ load8 m 23 = 17) ->
    l4_cksum_off (load8 m 23) + 2 <= l4_len (at_off m 14) ->
    l4_cksum_ok (at_off m' 14) (at_off m' 34) }.

Lemma rewrite_and_recalc_unfold m ip is_src :
  rewrite_and_recalc m ip is_src = recalc_cksums (store32 m (addr_off is_src) ip).
Proof. by destruct is_src. Qed.

Section Rewrite.
Context (m : mbuf) (ip : Z) (is_src : bool).
Context (Hr : room m HDRS) (Hb : bytes_ok m).

Lemma store_addr_frame : frame_but [(addr_off is_src, 4)] m (store32 m (addr_off is_src) ip).
Proof. apply (frame_store32 _ _ _ HDRS); [done|done|by destruct is_src|by destruct is_src]. Qed.
Lemma store_addr_load8 i :
  (i =? IP) || (i =? IP_PROTO) || (i =? IP_TOTAL_LENGTH) || (i =? IP_TOTAL_LENGTH + 1) = true ->
  load8 (store32 m (addr_off is_src) ip) i = load8 m i.
Proof.
  rewrite !orb_true_iff, !Z.eqb_eq. intros [[[->| ->]| ->]| ->];
    (apply (frame_load8 _ _ _ _ store_addr_frame); [done|by destruct is_src]).
Qed.

Lemma rewrite_and_recalc_frame :
  is_u32 ip ->
  load32 (rewrite_and_recalc m ip is_src) (addr_off is_src) = ip /\
  frame_but ((addr_off is_src, 4) :: (IP_CKSUM, 2) :: l4_field (load8 m IP_PROTO)) m
    (rewrite_and_recalc m ip is_src).
Proof.
  intros Hip. rewrite rewrite_and_recalc_unfold. pose proof store_addr_frame as F.
  pose proof (recalc_cksums_frame _ (frame_room _ _ _ _ F Hr) (frame_bytes _ _ _ F)) as F1.
  rewrite store_addr_load8 in F1 by done.
  split; [|apply (frame_but_trans [_] _ _ _ _ F F1)].
  rewrite (frame_load32 _ _ _ _ F1).
  - apply (load32_store32_eq _ _ _ HDRS); [done|by destruct is_src|by destruct is_src|done].
  - by destruct is_src.
  - unfold l4_field. by destruct is_src; repeat destruct (_ =? _).
Qed.

Lemma rewrite_and_recalc_spec :
  is_u32 ip -> Z.land (load8 m IP) 15 = 5 ->
  rewritten m (rewrite_and_recalc m ip is_src) ip is_src.
Proof.
  intros Hip H5. destruct rewrite_and_recalc_frame as [Ha Hf]; [done|].
  pose proof store_addr_frame as F.
  destruct (recalc_cksums_ok _ (frame_room _ _ _ _ F Hr) (frame_bytes _ _ _ F)) as [Ho1 Ho2];
    [by rewrite store_addr_load8|].
  rewrite store_addr_load8 in Ho2 by done.
  assert (l4_len (at_off (store32 m (addr_off is_src) ip) IP) = l4_len (at_off m IP)) as El
    by (unfold l4_len, at_off; by rewrite !store_addr_load8).
  rewrite El in Ho2. by split; rewrite ?rewrite_and_recalc_unfold in *.
Qed.
End Rewrite.

Lemma rewrite_readdressed m ip is_src :
  room m HDRS -> bytes_ok m -> is_u32 ip ->
  readdressed m (rewrite_and_recalc m ip is_src) (addr_off is_src) ip.
Proof.
  intros Hr Hb Hip. destruct (rewrite_and_recalc_frame m ip is_src Hr Hb Hip) as [Ha Hf].
  split; [done|done| |]; intros H5; by apply (rewrite_and_recalc_spec m ip is_src Hr Hb Hip H5).
Qed.

End NatRewrite.
