(* ===== verification/NatPool.v ===== *)
(** * The pool of public addresses of nat_project/version4 and version5

    [struct nat_pool_entry], the outbound part of [struct nat_pool] and the
    updates of a slot that both versions make; the invariant that ties the hash
    table (private address -> slot) to the slots. *)

From S2P Require Import Prelude Rte Packet.

Definition IDLE_TIMEOUT_SEC := 5.
Definition sizeof_nat_pool_entry := 24.
Definition sizeof_uint32 := 4.

(** Conversion to [int]. *)
Definition s32 (x : Z) : Z := if u32 x <? 2 ^ 31 then u32 x else u32 x - 2 ^ 32.

Lemma s32_small x : 0 <= x < 2 ^ 31 -> s32 x = x.
Proof. intros H. unfold s32. rewrite u32_small by words. by destruct (Z.ltb_spec x (2 ^ 31)); [|lia]. Qed.
Lemma s32_nonneg x : is_u32 x -> 0 <= s32 x -> s32 x = x /\ x < 2 ^ 31.
Proof.
  intros H. unfold s32. rewrite u32_small by done.
  destruct (Z.ltb_spec x (2 ^ 31)); autounfold with words in *; lia.
Qed.

Record nat_pool_entry := NatPoolEntry {
  private_ip : Z; public_ip : Z; last_seen_tsc : Z; in_use : bool }.

(** [in_use = 0; private_ip = 0; last_seen_tsc = 0], the public address stays. *)
Definition free_entry (e : nat_pool_entry) : nat_pool_entry := NatPoolEntry 0 (public_ip e) 0 false.

Section NatPool.
Context {BO : Byteorder} {RH : RteHash}.

Record nat_pool := NatPool {
  entries : list nat_pool_entry;
  pool_start_ip : Z;
  pool_size : Z;
  idle_tsc : Z;
  map_ : rte_hash }.

Definition with_entries (es : list nat_pool_entry) (p : nat_pool) : nat_pool :=
  NatPool es (pool_start_ip p) (pool_size p) (idle_tsc p) (map_ p).
Definition with_map (h : rte_hash) (p : nat_pool) : nat_pool :=
  NatPool (entries p) (pool_start_ip p) (pool_size p) (idle_tsc p) h.

(** The loop that pre-fills the slots. *)
Definition pool_fill (start_ip range : Z) : list nat_pool_entry :=
  map (fun i => NatPoolEntry 0 (rte_cpu_to_be_32 (u32 (start_ip + Z.of_nat i))) 0 false)
    (seq 0 (Z.to_nat range)).

(** [now - last_seen_tsc >= idle_tsc] on [uint64_t]. *)
Definition idle (p : nat_pool) (now : Z) (e : nat_pool_entry) : bool :=
  idle_tsc p <=? u64 (now - last_seen_tsc e).

(** The four statements that release slot [i] holding [e]. *)
Definition release (i : Z) (e : nat_pool_entry) (p : nat_pool) : nat_pool :=
  let p := with_map (rte_hash_del_key (map_ p) (le32 (private_ip e))).2 p in
  with_entries (<[Z.to_nat i := free_entry e]> (entries p)) p.

(** The assignment of slot [i], holding [e], to [ip]. *)
Definition assign (i : Z) (e : nat_pool_entry) (ip now : Z) (p : nat_pool) : nat_pool :=
  let p := with_entries (<[Z.to_nat i := NatPoolEntry ip (public_ip e) now true]> (entries p)) p in
  with_map (rte_hash_add_key_data (map_ p) (le32 ip) i).2 p.

(** [last_seen_tsc = now] in slot [i]. *)
Definition touch (i : Z) (e : nat_pool_entry) (now : Z) (p : nat_pool) : nat_pool :=
  with_entries (<[Z.to_nat i := NatPoolEntry (private_ip e) (public_ip e) now (in_use e)]>
                  (entries p)) p.

(** The loop and the [rte_hash_reset] that clear the whole pool. *)
Definition clear (p : nat_pool) : nat_pool :=
  with_map (rte_hash_reset (map_ p)) (with_entries (map free_entry (entries p)) p).

(** ** Invariant *)

Record pool_inv (p : nat_pool) : Prop := {
  pi_size : zlen (entries p) = pool_size p;
  pi_range : 0 <= pool_size p < 2 ^ 32;
  pi_start : is_u32 (pool_start_ip p);
  pi_public i e : entries p !! i = Some e ->
    public_ip e = rte_cpu_to_be_32 (u32 (pool_start_ip p + Z.of_nat i));
  pi_private i e : entries p !! i = Some e -> is_u32 (private_ip e);
  pi_map k v : hash_map (map_ p) !! k = Some v ->
    0 <= v < 2 ^ 31 /\ exists e, entries p !! Z.to_nat v = Some e /\ in_use e = true /\
      k = le32 (private_ip e) }.

Lemma pool_lookup_lt p i e : pool_inv p -> entries p !! i = Some e -> Z.of_nat i < pool_size p.
Proof. intros [] H. apply lookup_lt_Some in H. unfold zlen in *. lia. Qed.

(** Distinct slots have distinct public addresses. *)
Lemma pool_public_inj p i j e e' :
  pool_inv p -> entries p !! i = Some e -> entries p !! j = Some e' ->
  public_ip e = public_ip e' -> i = j.
Proof.
  intros I Hi Hj Heq. pose proof (pool_lookup_lt _ _ _ I Hi). pose proof (pool_lookup_lt _ _ _ I Hj).
  rewrite (pi_public _ I i e Hi), (pi_public _ I j e' Hj) in Heq.
  rewrite !cpu_to_be_32_law in Heq by apply u32_range.
  apply bswap32_inj in Heq; try apply u32_range.
  pose proof (pi_range _ I). pose proof (pi_start _ I).
  assert ((pool_start_ip p + Z.of_nat i - (pool_start_ip p + Z.of_nat j)) mod 2 ^ 32 = 0) as E0.
  { unfold u32 in Heq. by rewrite Zminus_mod, Heq, Z.sub_diag. }
  destruct (Z.le_ge_cases (Z.of_nat j) (Z.of_nat i)).
  - rewrite Z.mod_small in E0; lia.
  - apply Z.mod_divide in E0; [|lia]. destruct E0 as [q Hq]. nia.
Qed.

(** Two private addresses never share a slot. *)
Lemma pool_map_inj p k k' v :
  pool_inv p -> hash_map (map_ p) !! k = Some v -> hash_map (map_ p) !! k' = Some v -> k = k'.
Proof.
  intros I (_ & e & He & _ & ->)%(pi_map _ I) (_ & e' & He' & _ & ->)%(pi_map _ I). congruence.
Qed.

Lemma pool_inv_entry p i e e' :
  pool_inv p -> entries p !! Z.to_nat i = Some e ->
  public_ip e' = public_ip e -> is_u32 (private_ip e') ->
  (in_use e = true -> in_use e' = true /\ private_ip e' = private_ip e) ->
  pool_inv (with_entries (<[Z.to_nat i := e']> (entries p)) p).
Proof.
  intros [] He Hp Hr Hu. pose proof (lookup_lt_Some _ _ _ He) as Hl.
  split; simpl; auto.
  - unfold zlen in *. by rewrite length_insert.
  - intros j x. rewrite list_lookup_insert. case_decide as Hd; [|apply pi_public0].
    intros [= <-]. rewrite Hp. destruct Hd as [<- _]. by apply pi_public0.
  - intros j x. rewrite list_lookup_insert. case_decide; [by intros [= <-]|apply pi_private0].
  - intros k v Hk. destruct (pi_map0 k v Hk) as (Hv & x & Hx & Hin & ->). split; [done|].
    rewrite list_lookup_insert. case_decide as Hd; [|by exists x].
    destruct Hd as [Heq _]. rewrite <- Heq, He in Hx. injection Hx as <-.
    destruct (Hu Hin) as [H1 H2]. exists e'. by rewrite H2.
Qed.

Lemma pool_inv_release p i e :
  pool_inv p -> entries p !! Z.to_nat i = Some e -> 0 <= i -> pool_inv (release i e p).
Proof.
  intros [] He Hi. pose proof (lookup_lt_Some _ _ _ He) as Hl. split; simpl; auto.
  - unfold zlen in *. by rewrite length_insert.
  - intros j x. rewrite list_lookup_insert. case_decide as Hd; [|apply pi_public0].
    intros [= <-]. destruct Hd as [<- _]. by apply (pi_public0 _ e).
  - intros j x. rewrite list_lookup_insert. case_decide; [by intros [= <-]|apply pi_private0].
  - intros k v. rewrite hash_del_law, lookup_delete_Some. intros [Hne Hk].
    destruct (pi_map0 k v Hk) as (Hv & x & Hx & Hin & ->). split; [done|].
    rewrite list_lookup_insert. case_decide as Hd; [|by exists x].
    destruct Hd as [Heq _]. rewrite <- Heq, He in Hx. injection Hx as <-. done.
Qed.

Lemma pool_inv_assign p i e ip now :
  pool_inv p -> entries p !! Z.to_nat i = Some e -> 0 <= i < 2 ^ 31 -> in_use e = false ->
  is_u32 ip -> pool_inv (assign i e ip now p).
Proof.
  intros I He Hi Hu Hip. pose proof (lookup_lt_Some _ _ _ He) as Hl.
  pose proof (pool_inv_entry p i e (NatPoolEntry ip (public_ip e) now true) I He eq_refl Hip
    ltac:(by rewrite Hu)) as [].
  split; simpl in *; auto. intros k v. rewrite hash_add_law. destruct (_ =? 0); [|apply pi_map0].
  rewrite lookup_insert. case_decide as Hd; [|apply pi_map0].
  intros [= <-]. split; [done|]. eexists. rewrite list_lookup_insert_eq by done. by rewrite <- Hd.
Qed.

Lemma pool_inv_touch p i e now :
  pool_inv p -> entries p !! Z.to_nat i = Some e -> pool_inv (touch i e now p).
Proof. intros I He. eapply pool_inv_entry; [done|done|done|by apply (pi_private _ I _ e He)|done]. Qed.

Lemma pool_inv_clear p : pool_inv p -> pool_inv (clear p).
Proof.
  intros []. split; simpl; auto.
  - unfold zlen in *. by rewrite length_map.
  - intros i e. rewrite list_lookup_fmap. destruct (entries p !! i) eqn:He; [|done].
    intros [= <-]. by apply (pi_public0 i n).
  - intros i e. rewrite list_lookup_fmap. destruct (entries p !! i) eqn:He; [|done].
    by intros [= <-].
  - intros k v. by rewrite hash_reset_law, lookup_empty.
Qed.

Lemma pool_inv_init start range idle_ h :
  is_u32 start -> 0 <= range < 2 ^ 32 -> hash_map h = ∅ ->
  pool_inv (NatPool (pool_fill start range) start range idle_ h).
Proof.
  intros Hs Hr Hh.
  assert (forall i e, pool_fill start range !! i = Some e ->
    e = NatPoolEntry 0 (rte_cpu_to_be_32 (u32 (start + Z.of_nat i))) 0 false) as Hf.
  { intros i e. unfold pool_fill. rewrite list_lookup_fmap.
    destruct (seq 0 (Z.to_nat range) !! i) as [j|] eqn:Hj; [|done].
    apply lookup_seq in Hj as [-> _]. by intros [= <-]. }
  split; simpl; auto.
  - unfold pool_fill, zlen. rewrite length_map, length_seq. lia.
  - by intros i e ->%Hf.
  - by intros i e ->%Hf.
  - intros k v. by rewrite Hh, lookup_empty.
Qed.

(** [pool->entries[slot]] *)
Definition slot_at (p : nat_pool) (slot : Z) : option nat_pool_entry :=
  if slot <? 0 then None else entries p !! Z.to_nat slot.
Lemma slot_at_Some p i e : slot_at p i = Some e <-> 0 <= i /\ entries p !! Z.to_nat i = Some e.
Proof. unfold slot_at. destruct (Z.ltb_spec i 0); [split; [done|lia]|intuition]. Qed.
Lemma slot_in_range p i : pool_inv p -> 0 <= i < pool_size p -> exists e, slot_at p i = Some e.
Proof.
  intros I Hi. destruct (lookup_lt_is_Some_2 (entries p) (Z.to_nat i)) as [e He].
  { pose proof (pi_size _ I). unfold zlen in *. lia. }
  exists e. apply slot_at_Some. split; [lia|done].
Qed.

(** Slot [i] of the pool stands for the private address [ip]; its entry. *)
Definition holds (p : nat_pool) (i : Z) (ip : Z) (e : nat_pool_entry) : Prop :=
  slot_at p i = Some e /\ in_use e = true /\ private_ip e = ip.

(** The configuration of a pool never changes. *)
Definition same_config (p p' : nat_pool) : Prop :=
  pool_size p' = pool_size p /\ idle_tsc p' = idle_tsc p /\ pool_start_ip p' = pool_start_ip p.

(** A sweep over the slots below [n] at time [now] has released the idle ones. *)
Definition swept (n : Z) (now : Z) (p p' : nat_pool) : Prop :=
  pool_inv p' /\ same_config p p' /\
  forall i e, entries p !! i = Some e ->
    entries p' !! i = Some (if (Z.of_nat i <? n) && (in_use e && idle p now e) then free_entry e else e).

Lemma swept_start now p : pool_inv p -> swept 0 now p p.
Proof.
  intros I. split; [done|]. split; [done|]. intros i e He.
  by destruct (Z.ltb_spec (Z.of_nat i) 0); [lia|].
Qed.

Lemma swept_lookup i now p p1 e :
  swept i now p p1 -> slot_at p i = Some e -> slot_at p1 i = Some e /\ idle p1 now e = idle p now e.
Proof.
  intros (_ & (_ & Hi & _) & E1) [H0 He]%slot_at_Some. split; [|unfold idle; by rewrite Hi].
  apply slot_at_Some. split; [done|]. rewrite (E1 _ _ He).
  by destruct (Z.ltb_spec (Z.of_nat (Z.to_nat i)) i); [lia|].
Qed.

Lemma swept_step i now p p1 e :
  swept i now p p1 -> slot_at p i = Some e ->
  swept (i + 1) now p (if in_use e && idle p now e then release i e p1 else p1).
Proof.
  intros S1 He. pose proof (swept_lookup _ _ _ _ _ S1 He) as [[H0 He1]%slot_at_Some _].
  apply slot_at_Some in He as [_ He]. destruct S1 as (I1 & C1 & E1).
  set (b := in_use e && idle p now e).
  split; [destruct b; [by apply pool_inv_release|done]|]. split; [by destruct b|].
  intros j x Hx.
  assert (entries (if b then release i e p1 else p1) =
    <[Z.to_nat i := if b then free_entry e else e]> (entries p1)) as ->.
  { destruct b; [done|]. by rewrite list_insert_id. }
  rewrite list_lookup_insert. pose proof (E1 _ _ Hx) as Hx1. case_decide as Hd.
  - destruct Hd as [<- _]. rewrite He in Hx. injection Hx as ->.
    destruct (Z.ltb_spec (Z.of_nat (Z.to_nat i)) (i + 1)); [done|lia].
  - rewrite Hx1. assert (Z.to_nat i <> j) as Hne.
    { intros <-. apply Hd. split; [done|]. by apply lookup_lt_Some in Hx1. }
    destruct (Z.ltb_spec (Z.of_nat j) (i + 1)), (Z.ltb_spec (Z.of_nat j) i); try done; lia.
Qed.

End NatPool.
