(* ===== verification/NatIo.v ===== *)
(** * Files shared by the NAT programs version 2 to 5

    port.c and mempool.c, which these versions have in (nearly) identical
    copies, the idle clock of their main loops, and the reading of
    configuration files line by line (config.c, static_nat.c). *)

From S2P Require Import Prelude Cstd Rte Env Packet Ownership.

Definition EXIT_FAILURE := 1.
Definition RTE_MBUF_DEFAULT_BUF_SIZE := 2176.

Section NatIo.
Context {BO : Byteorder} {E : Env} {S : Type}.

(** ** mempool.c, port.c *)

Definition create_mempool : M S Z :=
  mp <-- call (rte_pktmbuf_pool_create "MBUF_POOL" 8192 256 0 RTE_MBUF_DEFAULT_BUF_SIZE) ;;
  when (mp =? 0) (rte_exit EXIT_FAILURE) ;;
  printf "Mempool created.\n" [] ;;
  ret mp.

Definition init_port (port_id mp : Z) : M S unit :=
  r <-- call (rte_eth_dev_configure port_id 1 1) ;;
  when (r <? 0) (rte_exit EXIT_FAILURE) ;;
  r <-- call (rte_eth_rx_queue_setup port_id 0 1024 mp) ;;
  when (r <? 0) (rte_exit EXIT_FAILURE) ;;
  r <-- call (rte_eth_tx_queue_setup port_id 0 1024) ;;
  when (r <? 0) (rte_exit EXIT_FAILURE) ;;
  r <-- call (rte_eth_dev_start port_id) ;;
  when (r <? 0) (rte_exit EXIT_FAILURE) ;;
  printf "Port %u initialized and started.\n" [PInt port_id] ;;
  n <-- call (rte_eth_dev_info_get 0) ;;
  when (n <? 0) (rte_exit EXIT_FAILURE) ;;
  printf "Driver: %s\n" [].

(** Without the last check: version2/port.c and sample/port.c. *)
Definition init_port2 (port_id mp : Z) : M S unit :=
  r <-- call (rte_eth_dev_configure port_id 1 1) ;;
  when (r <? 0) (rte_exit EXIT_FAILURE) ;;
  r <-- call (rte_eth_rx_queue_setup port_id 0 1024 mp) ;;
  when (r <? 0) (rte_exit EXIT_FAILURE) ;;
  r <-- call (rte_eth_tx_queue_setup port_id 0 1024) ;;
  when (r <? 0) (rte_exit EXIT_FAILURE) ;;
  r <-- call (rte_eth_dev_start port_id) ;;
  when (r <? 0) (rte_exit EXIT_FAILURE) ;;
  printf "Port %u initialized and started.\n" [PInt port_id] ;;
  _ <-- call (rte_eth_dev_info_get 0) ;;
  printf "Driver: %s\n" [].

(** [inet_pton(AF_INET, s, &word)] with an ignored result: a string that is not
    an address leaves the uninitialised word as it was. *)
Definition inet_pton_into (s : string) : M S Z :=
  match inet_pton s with
  | Some v => ret v
  | None =>
      bs <-- indet 4 ;;
      ret (of_le32 (get bs 0) (get bs 1) (get bs 2) (get bs 3))
  end.

Lemma wp_inet_pton_into str (Q : Z -> S -> trace -> Prop) X s t :
  (forall v, inet_pton str = Some v -> Q v s t) ->
  (forall v bs, inet_pton str = None -> is_u32 v -> Q v s (EvIndet bs :: t)) -> wp (inet_pton_into str) Q X s t.
Proof.
  intros H1 H2. unfold inet_pton_into. destruct (inet_pton str) eqn:Hp; [by apply H1|].
  wp_step. apply wp_indet; [lia|]. intros bs Hb Hl. wp_steps. apply H2; [done|].
  apply of_le32_range; by apply get_byte.
Qed.

(** Transmission one by one, skipping the dropped packets; results ignored
    (version4/main.c, version5/main.c). *)
Definition tx_each (port_id : Z) (bufs : list (option mbuf)) : M S unit :=
  _ <-- for_each (fun om =>
    match om with
    | None => ret tt
    | Some m => _ <-- rte_eth_tx_burst port_id 0 [m] ;; ret tt
    end) bufs ;;
  ret tt.

(** ** The clock of the main loops *)

Record clock := Clock { start_tsc : Z; last_rx_tsc : Z; started : bool }.
Definition clock0 : clock := Clock 0 0 false.

(** [if (!started) { start_tsc = rte_get_timer_cycles(); started = 1; ... }] *)
Definition clock_start (c : clock) : M S clock :=
  if started c then ret c
  else
    now <-- rte_get_timer_cycles ;;
    printf "First packet received. Timer started.\n" [] ;;
    ret (Clock now (last_rx_tsc c) true).

(** [last_rx_tsc = rte_get_timer_cycles();
     elapsed = (rte_get_timer_cycles() - start_tsc) / hz; printf(...)] *)
Definition clock_rx (fmt : string) (nb_rx : Z) (c : clock) : M S clock :=
  now <-- rte_get_timer_cycles ;;
  now' <-- rte_get_timer_cycles ;;
  hz <-- rte_get_timer_hz ;;
  let elapsed := u64 (now' - start_tsc c) / hz in
  printf fmt [PInt nb_rx; PInt elapsed] ;;
  ret (Clock (start_tsc c) now (started c)).

(** An iteration without packets: whether [limit] seconds are over since the
    last one, in which case the clock is reset. *)
Definition clock_idle (limit : Z) (msg : string) (c : clock) : M S (bool * clock) :=
  if started c then
    now <-- rte_get_timer_cycles ;;
    hz <-- rte_get_timer_hz ;;
    let idle := u64 (now - last_rx_tsc c) / hz in
    if limit <=? idle then printf msg [] ;; ret (true, clock0) else ret (false, c)
  else ret (false, c).

Lemma tx_each_spec port bufs held s t :
  owned (ids (omap id bufs) ++ held ++ refused_ids t) t ->
  wp (tx_each port bufs)
    (fun _ s' t' => s' = s /\ owned (held ++ refused_ids t') t' /\ live_blocks t' = live_blocks t)
    (fun _ _ _ => False) s t.
Proof.
  intros Ho. unfold tx_each. wp_steps.
  eapply wp_mono; [apply (wp_for_each (fun pre _ s' t' => s' = s /\ live_blocks t' = live_blocks t /\
    exists post, bufs = pre ++ post /\ owned (ids (omap id post) ++ held ++ refused_ids t') t')
    _ (fun _ _ _ => False))| |done].
  - intros pre om post rs s1 t1 Hb (-> & Hl & post' & Hb' & O1).
    rewrite Hb in Hb'. apply app_inv_head in Hb' as <-.
    destruct om as [m|]; wp_steps.
    + apply wp_tx. intros k _. wp_steps. split; [done|]. split; [done|]. exists post.
      split; [by rewrite <- app_assoc|]. simpl in O1.
      rewrite app_assoc. apply owned_tx_ignored. by rewrite <- app_assoc.
    + split; [done|]. split; [done|]. exists post. split; [by rewrite <- app_assoc|done].
  - split; [done|]. split; [done|]. by exists bufs.
  - intros rs s1 t1 (-> & Hl & post & Hb & O1). wp_steps.
    assert (post = []) as ->.
    { rewrite <- (app_nil_r bufs) in Hb at 1. by apply app_inv_head in Hb. }
    done.
Qed.

Lemma clock_idle_run limit msg c s t :
  clock_idle limit msg c s t =
    if started c then
      if limit <=? u64 (env_cycles t - last_rx_tsc c) / env_hz
      then Done (true, clock0) s (EvPrintf msg [] :: EvCycles (env_cycles t) :: t)
      else Done (false, c) s (EvCycles (env_cycles t) :: t)
    else Done (false, c) s t.
Proof.
  unfold clock_idle, bind, rte_get_timer_cycles, rte_get_timer_hz, ret, printf, emit.
  destruct (started c); [|done]. by destruct (_ <=? _).
Qed.

(** The iteration with packets: the start time is kept, the last one is new. *)
Lemma clock_start_spec c s t :
  wp (clock_start c) (fun c' s' t' => s' = s /\ same_acct t t' /\ live_blocks t' = live_blocks t /\
      started c' = true /\ last_rx_tsc c' = last_rx_tsc c /\
      (started c = true -> start_tsc c' = start_tsc c))
    (fun _ _ _ => False) s t.
Proof. unfold clock_start. by destruct (started c) eqn:G; wp_steps. Qed.
Lemma clock_rx_spec fmt nb c s t :
  wp (clock_rx fmt nb c) (fun c' s' t' => s' = s /\ same_acct t t' /\ live_blocks t' = live_blocks t /\
      c' = Clock (start_tsc c) (env_cycles t) (started c))
    (fun _ _ _ => False) s t.
Proof. done. Qed.

End NatIo.

(** ** Configuration files *)

Definition MAX_LINE : nat := 64.

(** The successive results of [fgets(line, sizeof(line), f)] until it returns
    NULL; every call consumes at least one character. *)
Fixpoint fgets_lines (fuel : nat) (s : string) : list string :=
  match fuel, s with
  | O, _ | _, EmptyString => []
  | S fuel', _ => let r := fgets (MAX_LINE - 1) s in r.1 :: fgets_lines fuel' r.2
  end.
Definition file_lines (s : string) : list string := fgets_lines (String.length s) s.

Lemma length_append s1 s2 : String.length (s1 +:+ s2) = (String.length s1 + String.length s2)%nat.
Proof. induction s1 as [|c s1 IH]; [done|]. rewrite append_String. simpl. by rewrite IH. Qed.

Lemma fgets_split n s : (fgets n s).1 +:+ (fgets n s).2 = s.
Proof.
  revert s. induction n as [|n IH]; intros [|c s]; try done. cbn [fgets].
  destruct (_ =? 10); [done|]. cbn [fst snd]. by rewrite append_String, IH.
Qed.
Lemma fgets_length n s : (String.length (fgets n s).1 <= n)%nat.
Proof.
  revert s. induction n as [|n IH]; intros [|c s]; simpl; try lia.
  destruct (_ =? 10); simpl; [lia|]. specialize (IH s). lia.
Qed.
Lemma fgets_nonempty n c s : (0 < String.length (fgets (S n) (String c s)).1)%nat.
Proof. simpl. destruct (_ =? 10); simpl; lia. Qed.

Fixpoint concat_str (l : list string) : string :=
  match l with [] => EmptyString | s :: l' => s +:+ concat_str l' end.

(** The fuel is enough: the lines make up the whole file, and each fits the
    buffer. *)
Lemma file_lines_ok s :
  concat_str (file_lines s) = s /\
  Forall (fun l => (0 < String.length l <= MAX_LINE - 1)%nat) (file_lines s).
Proof.
  unfold file_lines.
  enough (forall fuel s, (String.length s <= fuel)%nat ->
    concat_str (fgets_lines fuel s) = s /\
    Forall (fun l => (0 < String.length l <= MAX_LINE - 1)%nat) (fgets_lines fuel s)) as G by auto.
  clear s. induction fuel as [|fuel IH]; intros [|c s] Hl; try (by split); [simpl in Hl; lia|].
  set (x := String c s) in *. cbn [fgets_lines]. unfold x at 1 2. fold x.
  pose proof (fgets_split (MAX_LINE - 1) x) as Hs.
  pose proof (fgets_length (MAX_LINE - 1) x) as Hle.
  pose proof (fgets_nonempty (MAX_LINE - 2) c s) as Hne.
  change (S (MAX_LINE - 2)) with (MAX_LINE - 1)%nat in Hne. fold x in Hne.
  apply (f_equal String.length) in Hs as Hsl. rewrite length_append in Hsl.
  destruct (IH (fgets (MAX_LINE - 1) x).2) as [H1 H2]; [lia|].
  split; [|by constructor]. cbn [concat_str]. by rewrite H1.
Qed.

(** Both words of a mapping line. *)
Definition scan_pair (line : string) : option (string * string) :=
  match scan_word 31 line with
  | Some (w1, tail) => match scan_word 31 tail with Some (w2, _) => Some (w1, w2) | None => None end
  | None => None
  end.

Section PoolConfig.
Context {E : Env} {S : Type}.

(** The scan for the first valid line: the start address and the range, 0 when
    there is none (config.c of version4 and version5). *)
Fixpoint pool_config (lines : list string) : M S (string * Z) :=
  match lines with
  | [] => ret (EmptyString, 0)
  | line :: rest =>
      if blank_or_comment line then pool_config rest
      else
        match scan_word 31 line with
        | Some (start_ip, tail) =>
            match scan_uint tail with
            | Some range => ret (start_ip, range)
            | None => printf "Skipping invalid line: %s" [PStr line] ;; pool_config rest
            end
        | None => printf "Skipping invalid line: %s" [PStr line] ;; pool_config rest
        end
  end.

(** A line that is a pool configuration. *)
Definition parse_line (line : string) : option (string * Z) :=
  if blank_or_comment line then None
  else
    match scan_word 31 line with
    | Some (w, tail) => match scan_uint tail with Some r => Some (w, r) | None => None end
    | None => None
    end.

Lemma parse_line_range line w r : parse_line line = Some (w, r) -> 0 <= r < 2 ^ 32.
Proof.
  unfold parse_line. destruct (blank_or_comment line); [done|].
  destruct (scan_word 31 line) as [[? tail]|]; [|done].
  destruct (scan_uint tail) as [r'|] eqn:G; [|done]. intros [= _ <-].
  unfold scan_uint in G. destruct (skip_space tail) as [|ch s']; [done|].
  repeat case_match; simplify_eq; apply u32_range.
Qed.

Lemma pool_config_spec lines (s : S) t :
  wp (pool_config lines)
    (fun r s' t' => r = default (EmptyString, 0) (head (omap parse_line lines)) /\ s' = s /\
       same_acct t t' /\ live_blocks t' = live_blocks t)
    (fun _ _ _ => False) s t.
Proof.
  revert t. induction lines as [|line rest IH]; intros t; [done|]. cbn [pool_config omap list_omap].
  unfold parse_line at 1. destruct (blank_or_comment line); [apply IH|].
  destruct (scan_word 31 line) as [[w tail]|]; cbn;
    [|wp_steps; eapply wp_mono; [apply IH|done|done]].
  destruct (scan_uint tail); cbn; [done|].
  wp_steps; eapply wp_mono; [apply IH|done|done].
Qed.

End PoolConfig.
