(* ===== verification/NatHash.v ===== *)
(** * hash.c: tables of seen addresses

    [ip_hash_create], [print_ip_port], [hash_ips_dump] and [reset_ip_hash] are
    the same in version2 to version5; [hash_ips] of version3 to version5 stores
    the source end of each packet, that of version2 both ends. *)

From S2P Require Import Prelude Rte Env Packet Ownership NatIo.

Definition MAX_IPS := 1024.

Record ip_port_key := IpPortKey { k_ip : Z; k_port : Z }.
Definition sizeof_ip_port_key := 6.
(** The packed structure as the table sees it. *)
Definition ip_port_bytes (k : ip_port_key) : list Z := le32 (k_ip k) ++ le16 (k_port k).

Section NatHash.
Context {BO : Byteorder} {RH : RteHash} {E : Env} {S : Type}.

Definition ip_hash_create : M S rte_hash :=
  r <-- call (rte_hash_create "ip_port_table" MAX_IPS sizeof_ip_port_key) ;;
  when (r =? 0) (rte_exit EXIT_FAILURE) ;;
  ret (rte_hash_empty MAX_IPS sizeof_ip_port_key).

Definition print_ip_port (ip_be port_be : Z) : M S unit :=
  let ip := rte_be_to_cpu_32 ip_be in
  let port := rte_be_to_cpu_16 port_be in
  printf "%u.%u.%u.%u: \t%u"
    [PInt (Z.land (Z.shiftr ip 24) 255); PInt (Z.land (Z.shiftr ip 16) 255);
     PInt (Z.land (Z.shiftr ip 8) 255); PInt (Z.land ip 255); PInt port].

(** Stores one end of a packet: look up, then add or report. *)
Definition store_key (what_new what_old : string) (ht : rte_hash) (k : ip_port_key) : M S rte_hash :=
  match rte_hash_lookup_data ht (ip_port_bytes k) with
  | None =>
      let ht' := (rte_hash_add_key_data ht (ip_port_bytes k) 1).2 in
      printf what_new [] ;; print_ip_port (k_ip k) (k_port k) ;; printf "\n" [] ;;
      ret ht'
  | Some _ =>
      printf what_old [] ;; print_ip_port (k_ip k) (k_port k) ;; printf "\n" [] ;;
      ret ht
  end.

(** The source and destination ports, for TCP and UDP over IPv4. *)
Definition l4_ports (m : mbuf) : option (Z * Z) :=
  if negb (load16 m ETH_TYPE =? rte_cpu_to_be_16 RTE_ETHER_TYPE_IPV4) then None
  else if load8 m IP_PROTO =? IPPROTO_TCP then Some (load16 m L4_SPORT, load16 m L4_DPORT)
  else if load8 m IP_PROTO =? IPPROTO_UDP then Some (load16 m L4_SPORT, load16 m L4_DPORT)
  else None.

(** version3/hash.c to version5/hash.c *)
Definition hash_ips_src (ht : rte_hash) (bufs : list mbuf) : M S rte_hash :=
  for_ (length bufs) 0 (fun i ht =>
    m <-- deref (bufs !! Z.to_nat i) ;;
    match l4_ports m with
    | None => ret ht
    | Some (src_port, _) =>
        store_key "New SRC: " "SRC exists: " ht (IpPortKey (load32 m IP_SRC) src_port)
    end) ht.

(** version2/hash.c *)
Definition hash_ips (ht : rte_hash) (bufs : list mbuf) : M S rte_hash :=
  for_ (length bufs) 0 (fun i ht =>
    m <-- deref (bufs !! Z.to_nat i) ;;
    match l4_ports m with
    | None => ret ht
    | Some (src_port, dst_port) =>
        ht <-- store_key "New SRC: " "SRC exists: " ht (IpPortKey (load32 m IP_SRC) src_port) ;;
        store_key "New DST: " "DST exists: " ht (IpPortKey (load32 m IP_DST) dst_port)
    end) ht.

(** The key pointer of the iterator reads the stored key bytes back. *)
Definition hash_ips_dump (ht : rte_hash) : M S unit :=
  printf "\n--- Stored IP:PORT ---\n" [] ;;
  _ <-- for_each (fun kv =>
    match kv.1 with
    | [a; b; c; d; e; f] =>
        print_ip_port (of_le32 a b c d) (of_le16 e f) ;; printf "\n" []
    | _ => fault
    end) (rte_hash_entries ht) ;;
  printf "----------------------\n" [].

Definition reset_ip_hash (ht : rte_hash) : rte_hash := rte_hash_reset ht.

(** ** Reference definition: insert what is absent *)

Definition remember (ht : rte_hash) (kv : list Z * Z) : rte_hash :=
  match rte_hash_lookup_data ht kv.1 with
  | None => (rte_hash_add_key_data ht kv.1 kv.2).2
  | Some _ => ht
  end.

Definition src_keys (m : mbuf) : list (list Z * Z) :=
  match l4_ports m with
  | Some (sp, _) => [(ip_port_bytes (IpPortKey (load32 m IP_SRC) sp), 1)] | None => [] end.
Definition both_keys (m : mbuf) : list (list Z * Z) :=
  match l4_ports m with
  | Some (sp, dp) => [(ip_port_bytes (IpPortKey (load32 m IP_SRC) sp), 1);
                      (ip_port_bytes (IpPortKey (load32 m IP_DST) dp), 1)]
  | None => [] end.

Lemma store_key_spec a b ht k s t :
  wp (store_key a b ht k)
    (fun h s' t' => h = remember ht (ip_port_bytes k, 1) /\ s' = s /\ same_acct t t' /\
       live_blocks t' = live_blocks t) (fun _ _ _ => False) s t.
Proof.
  unfold store_key, remember, print_ip_port. cbn [fst snd].
  by destruct (rte_hash_lookup_data ht _); wp_steps.
Qed.

Lemma take_snoc {A} (l : list A) i m :
  l !! Z.to_nat i = Some m -> 0 <= i -> take (Z.to_nat (i + 1)) l = take (Z.to_nat i) l ++ [m].
Proof.
  intros H Hi. replace (Z.to_nat (i + 1)) with (Datatypes.S (Z.to_nat i)) by lia. by apply take_S_r.
Qed.

Definition quiet_step (s s' : S) (t t' : trace) : Prop :=
  s' = s /\ same_acct t t' /\ live_blocks t' = live_blocks t.
Lemma quiet_refl s t : quiet_step s s t t. Proof. done. Qed.
Lemma quiet_trans s1 s2 s3 t1 t2 t3 :
  quiet_step s1 s2 t1 t2 -> quiet_step s2 s3 t2 t3 -> quiet_step s1 s3 t1 t3.
Proof. intros (-> & A & ?) (-> & A' & ?). split; [done|]. split; [by eapply same_acct_trans|congruence]. Qed.

(** A loop that folds [remember] over the keys of each packet. *)
Lemma hash_loop_spec (keys : mbuf -> list (list Z * Z)) (body : rte_hash -> mbuf -> M S rte_hash) bufs ht s t :
  (forall m h s t, wp (body h m) (fun h' s' t' => h' = foldl remember h (keys m) /\ quiet_step s s' t t')
     (fun _ _ _ => False) s t) ->
  wp (for_ (length bufs) 0 (fun i ht => m <-- deref (bufs !! Z.to_nat i) ;; body ht m) ht)
    (fun h' s' t' => h' = foldl remember ht (mjoin (map keys bufs)) /\ quiet_step s s' t t')
    (fun _ _ _ => False) s t.
Proof.
  intros Hb. eapply wp_mono; [apply (wp_for (fun i h s' t' =>
    h = foldl remember ht (mjoin (map keys (take (Z.to_nat i) bufs))) /\ quiet_step s s' t t')
    _ (fun _ _ _ => False))| |done].
  - intros i h s1 t1 Hi [-> Q1].
    destruct (lookup_lt_is_Some_2 bufs (Z.to_nat i)) as [m Hm]; [lia|].
    wp_steps. eapply wp_deref; [done|]. eapply wp_mono; [apply Hb| |done].
    intros h' s2 t2 [-> Q2]. split; [|by eapply quiet_trans].
    rewrite (take_snoc _ _ _ Hm), map_app, join_app by lia. simpl.
    by rewrite app_nil_r, foldl_app.
  - done.
  - intros h s1 t1 [-> Q]. by rewrite Z.add_0_l, Nat2Z.id, firstn_all in *.
Qed.

Lemma hash_ips_src_spec ht bufs s t :
  wp (hash_ips_src ht bufs)
    (fun h' s' t' => h' = foldl remember ht (mjoin (map src_keys bufs)) /\ quiet_step s s' t t')
    (fun _ _ _ => False) s t.
Proof.
  apply hash_loop_spec. intros m h s1 t1. unfold src_keys.
  destruct (l4_ports m) as [[sp dp]|]; [|by wp_steps].
  eapply wp_mono; [apply store_key_spec| |done]. by intros ? ? ? (-> & -> & ? & ?).
Qed.
Lemma hash_ips_spec ht bufs s t :
  wp (hash_ips ht bufs)
    (fun h' s' t' => h' = foldl remember ht (mjoin (map both_keys bufs)) /\ quiet_step s s' t t')
    (fun _ _ _ => False) s t.
Proof.
  apply hash_loop_spec. intros m h s1 t1. unfold both_keys.
  destruct (l4_ports m) as [[sp dp]|]; [|by wp_steps].
  wp_step. eapply wp_mono; [apply store_key_spec| |done]. intros ? ? ? (-> & -> & A & L).
  eapply wp_mono; [apply store_key_spec| |done]. intros ? ? ? (-> & -> & A2 & L2).
  split; [done|]. split; [done|]. split; [by eapply same_acct_trans|congruence].
Qed.

(** ** What the table holds *)

Lemma remember_map ht kv :
  hash_map (remember ht kv) = hash_map ht \/
  hash_map ht !! kv.1 = None /\ hash_map (remember ht kv) = <[kv.1 := kv.2]> (hash_map ht).
Proof.
  unfold remember. rewrite hash_lookup_law. destruct (hash_map ht !! kv.1) eqn:G; [by left|].
  rewrite hash_add_law. destruct (_ =? 0); [by right|by left].
Qed.

(** Nothing stored before is lost or changed, and nothing but the given keys is
    added, whatever the table refuses. *)
Lemma remember_all_bounds ks ht :
  hash_map ht ⊆ hash_map (foldl remember ht ks) /\
  forall k v, hash_map (foldl remember ht ks) !! k = Some v ->
    hash_map ht !! k = Some v \/ (k, v) ∈ ks.
Proof.
  revert ht. induction ks as [|[k0 v0] ks IH]; intros ht; simpl; [by auto|].
  destruct (IH (remember ht (k0, v0))) as [H1 H2].
  destruct (remember_map ht (k0, v0)) as [E0|[Hn E0]]; rewrite E0 in *; simpl in *.
  - split; [done|]. intros k v [H|H]%H2; [by left|right; by right].
  - split.
    + etransitivity; [by apply (insert_subseteq _ k0 v0)|done].
    + intros k v [H|H]%H2; [|right; by right].
      rewrite lookup_insert in H. case_decide; [|by left]. subst. injection H as <-.
      right. by left.
Qed.

Lemma hash_dump_quiet ht s t :
  Forall (fun kv : list Z * Z => length kv.1 = 6%nat) (map_to_list (hash_map ht)) ->
  wp (hash_ips_dump ht) (fun _ s' t' => quiet_step s s' t t') (fun _ _ _ => False) s t.
Proof.
  intros H. unfold hash_ips_dump. wp_steps.
  eapply wp_mono; [apply (wp_for_each (fun _ _ s' t' => quiet_step s s' t t')
    _ (fun _ _ _ => False))| |done].
  - intros pre [k v] post rs s1 t1 Hl Q. simpl.
    assert (length k = 6%nat) as Hk.
    { rewrite Forall_forall in H. apply (H (k, v)). rewrite <- hash_entries_law, Hl.
      rewrite elem_of_app, elem_of_cons. auto. }
    by do 7 (destruct k as [|? k]; try done).
  - done.
  - intros rs s1 t1 Q. by wp_steps.
Qed.

Lemma ip_hash_create_spec (Q : rte_hash -> S -> trace -> Prop) (X : Z -> S -> trace -> Prop) s t :
  (forall t' h, same_acct t t' -> live_blocks t' = live_blocks t -> hash_map h = ∅ -> Q h s t') ->
  (forall t', same_acct t t' -> X 1 s t') -> wp ip_hash_create Q X s t.
Proof.
  intros HQ HX. unfold ip_hash_create. wp_steps; [by apply HX|].
  apply HQ; [done|done|apply hash_empty_law].
Qed.

End NatHash.
