(* ===== verification/IpPort.v ===== *)
(** * nat_project/version2: a monitor of the ends of TCP and UDP flows (main.c, hash.c)

    The loop of main.c over the tables of [NatHash].  The locals of [main] are
    the loop variable: the clock and the table. *)

From S2P Require Import Prelude Rte Env Packet Ownership NatIo NatHash Sim.

Definition BURST_SIZE := 32.
Definition port_id := 0.
Definition IDLE_SEC := 5.

Section IpPort.
Context {BO : Byteorder} {RH : RteHash} {E : Env}.

Definition loop_body (l : clock * rte_hash) : M unit (clock * rte_hash) :=
  let (c, ht) := l in
  bufs <-- rte_eth_rx_burst port_id 0 BURST_SIZE ;;
  let nb_rx := zlen bufs in
  if 0 <? nb_rx then
    c <-- clock_start c ;;
    ht <-- hash_ips ht bufs ;;
    c <-- clock_rx "Received %u packets | Time: %lu sec\n" nb_rx c ;;
    tx_or_free port_id 0 bufs ;;
    ret (c, ht)
  else
    let* (idle, c) := clock_idle IDLE_SEC "No packets for 5 seconds. Timer reset.\n" c in
    if idle : bool then
      hash_ips_dump ht ;;
      ret (c, reset_ip_hash ht)
    else ret (c, ht).

(** The first [n] iterations. *)
Definition main (n : nat) : M unit (clock * rte_hash) :=
  _ <-- call rte_eal_init ;;
  mp <-- create_mempool ;;
  init_port2 port_id mp ;;
  ht <-- ip_hash_create ;;
  forever n loop_body (clock0, ht).

(** The keys of the table belong to received packets. *)
Definition seen (ht : rte_hash) (t : trace) : Prop :=
  forall k v, hash_map ht !! k = Some v -> exists m, m ∈ rx_packets t /\ (k, v) ∈ both_keys m.

Lemma both_keys_length m k v : (k, v) ∈ both_keys m -> length k = 6%nat.
Proof.
  unfold both_keys. destruct (l4_ports m) as [[sp dp]|]; [|by intros ?%elem_of_nil].
  rewrite !elem_of_cons, elem_of_nil. by intros [[= -> _]|[[= -> _]|[]]].
Qed.

Lemma seen_lengths ht t : seen ht t ->
  Forall (fun kv : list Z * Z => length kv.1 = 6%nat) (map_to_list (hash_map ht)).
Proof.
  intros H. apply Forall_forall. intros [k v] Hk%elem_of_map_to_list.
  destruct (H k v Hk) as (m & _ & Hm). by eapply both_keys_length.
Qed.

(** What one iteration must do, from the answers of the environment. *)
Definition iteration (c : clock) (ht : rte_hash) (t : trace) (r : clock * rte_hash) : Prop :=
  let bufs := env_rx t port_id 0 BURST_SIZE in
  let now := env_cycles (EvRx port_id 0 BURST_SIZE bufs :: t) in
  match bufs with
  | [] =>
      if started c && (IDLE_SEC <=? u64 (now - last_rx_tsc c) / env_hz)
      then r.1 = clock0 /\ hash_map r.2 = ∅
      else r = (c, ht)
  | _ =>
      started r.1 = true /\ (started c = true -> start_tsc r.1 = start_tsc c) /\
      r.2 = foldl remember ht (mjoin (map both_keys bufs))
  end.

Definition inv (l : clock * rte_hash) (t : trace) : Prop := owned [] t /\ seen l.2 t.

Lemma seen_mono ht t t' : rx_packets t ⊆ rx_packets t' -> seen ht t -> seen ht t'.
Proof. intros Hs H k v Hk. destruct (H k v Hk) as (m & Hm & Hkv). exists m. auto. Qed.

Lemma seen_remember ht bufs t :
  seen ht t -> bufs ⊆ rx_packets t -> seen (foldl remember ht (mjoin (map both_keys bufs))) t.
Proof.
  intros Hs Hb k v Hk. apply (remember_all_bounds _ ht) in Hk as [Hk|Hk]; [by apply Hs|].
  apply list_elem_of_join in Hk as (ks & Hk & (m & -> & Hm)%list_elem_of_fmap). eauto.
Qed.

Lemma ipport_loop_spec c ht t :
  inv (c, ht) t ->
  wp (loop_body (c, ht)) (fun r _ t' => iteration c ht t r /\ inv r t') (fun _ _ _ => False) tt t.
Proof.
  intros [Ho Hs]. unfold loop_body, iteration, inv. wp_step. unfold wp at 1, rte_eth_rx_burst.
  apply (owned_rx _ port_id 0 BURST_SIZE (env_rx t port_id 0 BURST_SIZE)) in Ho.
  destruct (env_rx t port_id 0 BURST_SIZE) as [|b bs] eqn:Eb.
  - change (0 <? zlen _) with false. cbn iota. wp_step. unfold wp at 1. rewrite clock_idle_run.
    destruct (started c); simpl; [|done]. destruct (IDLE_SEC <=? _); [|done].
    wp_step. eapply wp_mono; [apply hash_dump_quiet; by eapply seen_lengths| |done].
    intros _ [] t2 (_ & A & _). wp_steps. simpl. rewrite hash_reset_law. split; [done|].
    split; [eapply owned_acct; [exact A|done]|]. intros k v. by rewrite hash_reset_law, lookup_empty.
  - set (bufs := b :: bs) in *. change (0 <? zlen bufs) with true. cbn iota.
    wp_step. eapply wp_mono; [apply clock_start_spec| |done].
    intros c1 [] t2 (_ & A2 & _ & Hc1 & _ & Hc2).
    wp_step. eapply wp_mono; [apply hash_ips_spec| |done].
    intros h1 [] t3 (-> & _ & A3 & _).
    wp_step. eapply wp_mono; [apply clock_rx_spec| |done].
    intros c2 [] t4 (_ & A4 & _ & ->).
    pose proof (same_acct_trans _ _ _ (same_acct_trans _ _ _ A2 A3) A4) as A.
    wp_step. eapply (wp_tx_or_free _ _ _ []); [by eapply owned_acct|].
    intros t5 Ho5 _ Hp. wp_steps. split; [done|]. split; [done|]. cbn [snd].
    destruct A as (_ & _ & Ap & _). rewrite Ap in Hp. cbn [rx_packets] in Hp.
    apply seen_remember; [eapply seen_mono; [|exact Hs]|]; rewrite Hp; clear; set_solver.
Qed.

(** One iteration of the monitor's loop: a burst is entered into the table by
    insert-if-absent of both ends of every TCP/UDP packet and forwarded; without
    packets, after five idle seconds by the cycle counter, the table is emptied
    and the clock reset; otherwise nothing changes. All buffers are handed back,
    and every key in the table belongs to a received packet. *)
Theorem monitor_iteration c ht t :
  inv (c, ht) t ->
  wp (loop_body (c, ht)) (fun r _ t' => iteration c ht t r /\ inv r t') (fun _ _ _ => False) tt t.
Proof. apply ipport_loop_spec. Qed.

(** The monitor never faults, however long it runs: it exits only with status 1
    during initialisation, and between iterations it owns no mbuf and its table
    holds only what it received. *)
Theorem monitor_main_safe n :
  wp (main n) (fun r _ t => inv r t) (fun c _ t => c = EXIT_FAILURE /\ rx_ids t = []) tt [].
Proof.
  unfold main, create_mempool, init_port2. wp_steps; try done.
  apply ip_hash_create_spec; [|by intros t (-> & _)].
  intros t h A _ Hh. apply (wp_forever (fun l _ t => inv l t)).
  - intros [c1 h1] [] t1 I. eapply wp_mono; [by apply ipport_loop_spec|by intros ? ? ? []|done].
  - split; [eapply owned_acct; [exact A|apply owned_nil]|].
    intros k v. simpl. by rewrite Hh, lookup_empty.
Qed.

End IpPort.

#[local] Existing Instances sim_byteorder sim_hash.
#[local] Instance wenv : Env := sim_env
  (Script (fun _ => 1) [[mk_packet 1 [10; 0; 0; 7] [9; 9; 9; 9] IPPROTO_TCP [4; 210] [0; 80]]]
     32 (fun t => Z.of_nat (length t)) true None 1000).

Lemma monitor_iteration_witness :
  let ht : rte_hash := SimTable 1024 ∅ in
  wp (loop_body (clock0, ht)) (fun r _ t' => iteration clock0 ht [] r /\ inv r t')
    (fun _ _ _ => False) tt [].
Proof.
  intros ht. apply monitor_iteration. split; [apply owned_nil|].
  intros k v. simpl. by rewrite lookup_empty.
Defined.
