(* ===== verification/SaveIp.v ===== *)
(** * nat_project/sample: a monitor of IPv4 addresses (saveip.c, main.c) *)

From S2P Require Import Prelude Rte Env Packet Ownership NatIo NatHash Sim.

Definition MAX_IPS := 1024.
Definition sizeof_uint32 := 4.
Definition BURST_SIZE := 32.
Definition port_id := 0.
Definition IDLE_SEC := 5.

Section SaveIp.
Context {BO : Byteorder} {RH : RteHash} {E : Env}.
Notation M := (M unit).

(** ** saveip.c *)

Definition ip_hash_create : M rte_hash :=
  r <-- call (rte_hash_create "ip_table" MAX_IPS sizeof_uint32) ;;
  when (r =? 0) (rte_exit EXIT_FAILURE) ;;
  ret (rte_hash_empty MAX_IPS sizeof_uint32).

Definition print_ip (ip_be : Z) : M unit :=
  let ip := rte_be_to_cpu_32 ip_be in
  printf "%u.%u.%u.%u"
    [PInt (Z.land (Z.shiftr ip 24) 255); PInt (Z.land (Z.shiftr ip 16) 255);
     PInt (Z.land (Z.shiftr ip 8) 255); PInt (Z.land ip 255)].

Definition store_ip (what_new what_old : string) (ht : rte_hash) (ip : Z) : M rte_hash :=
  match rte_hash_lookup_data ht (le32 ip) with
  | None =>
      let ht' := (rte_hash_add_key_data ht (le32 ip) ip).2 in
      printf what_new [] ;; print_ip ip ;; printf "\n" [] ;; ret ht'
  | Some _ =>
      printf what_old [] ;; print_ip ip ;; printf "\n" [] ;; ret ht
  end.

Definition hash_ips (ht : rte_hash) (bufs : list mbuf) : M rte_hash :=
  for_ (length bufs) 0 (fun i ht =>
    m <-- deref (bufs !! Z.to_nat i) ;;
    if negb (load16 m ETH_TYPE =? rte_cpu_to_be_16 RTE_ETHER_TYPE_IPV4) then ret ht
    else
      ht <-- store_ip "New SRC IP added: " "SRC IP already exists: " ht (load32 m IP_SRC) ;;
      store_ip "New DST IP added: " "DST IP already exists: " ht (load32 m IP_DST)) ht.

(** The data pointer of an entry is the address itself. *)
Definition hash_ips_dump (ht : rte_hash) : M unit :=
  printf "\n--- Stored IPs ---\n" [] ;;
  _ <-- for_each (fun kv => let ip := u32 (kv.2) in print_ip ip ;; printf "\n" [])
          (rte_hash_entries ht) ;;
  printf "------------------\n" [].

(** ** main.c *)

Definition loop_body (l : clock * rte_hash) : M (clock * rte_hash) :=
  let (c, ht) := l in
  bufs <-- rte_eth_rx_burst port_id 0 BURST_SIZE ;;
  let nb_rx := zlen bufs in
  if 0 <? nb_rx then
    c <-- clock_start c ;;
    ht <-- hash_ips ht bufs ;;
    c <-- clock_rx "Received %u packets | Elapsed: %lu sec\n" nb_rx c ;;
    tx_or_free port_id 0 bufs ;;
    ret (c, ht)
  else
    let* (idle, c) := clock_idle IDLE_SEC "No packets for 5 seconds. Timer reset.\n" c in
    if idle : bool then hash_ips_dump ht ;; ret (c, ht) else ret (c, ht).

(** The first [n] iterations. *)
Definition main (n : nat) : M (clock * rte_hash) :=
  _ <-- call rte_eal_init ;;
  mp <-- create_mempool ;;
  init_port2 port_id mp ;;
  ht <-- ip_hash_create ;;
  forever n loop_body (clock0, ht).

(** ** Specification *)

(** The addresses of a packet, each with itself as data. *)
Definition ip_keys (m : mbuf) : list (list Z * Z) :=
  if negb (load16 m ETH_TYPE =? rte_cpu_to_be_16 RTE_ETHER_TYPE_IPV4) then []
  else [(le32 (load32 m IP_SRC), load32 m IP_SRC); (le32 (load32 m IP_DST), load32 m IP_DST)].

Lemma store_ip_spec a b ht ip s t :
  wp (store_ip a b ht ip) (fun h s' t' => h = remember ht (le32 ip, ip) /\ quiet_step s s' t t')
    (fun _ _ _ => False) s t.
Proof.
  unfold store_ip, remember, print_ip. cbn [fst snd].
  by destruct (rte_hash_lookup_data ht _); wp_steps.
Qed.

Lemma saveip_hash_spec ht bufs s t :
  wp (hash_ips ht bufs)
    (fun h' s' t' => h' = foldl remember ht (mjoin (map ip_keys bufs)) /\ quiet_step s s' t t')
    (fun _ _ _ => False) s t.
Proof.
  apply hash_loop_spec. intros m h s1 t1. unfold ip_keys. destruct (negb _); [done|].
  wp_step. eapply wp_mono; [apply store_ip_spec| |done]. intros ? ? ? [-> Q].
  eapply wp_mono; [apply store_ip_spec| |done]. intros ? ? ? [-> Q2].
  split; [done|]. by eapply quiet_trans.
Qed.

Lemma hash_ips_dump_spec ht s t :
  wp (hash_ips_dump ht) (fun _ s' t' => quiet_step s s' t t') (fun _ _ _ => False) s t.
Proof.
  unfold hash_ips_dump. wp_steps.
  eapply wp_mono; [apply (wp_for_each (fun _ _ s' t' => quiet_step s s' t t')
    _ (fun _ _ _ => False))| |done].
  - intros pre kv post rs s1 t1 _ Q. unfold print_ip. by wp_steps.
  - done.
  - intros rs s1 t1 Q. by wp_steps.
Qed.

Definition inv (l : clock * rte_hash) (t : trace) : Prop :=
  owned [] t /\
  forall k v, hash_map l.2 !! k = Some v -> exists m, m ∈ rx_packets t /\ (k, v) ∈ ip_keys m.

Lemma saveip_loop_spec c ht t :
  inv (c, ht) t ->
  wp (loop_body (c, ht)) (fun r _ t' => inv r t' /\ hash_map ht ⊆ hash_map r.2 /\
      r.2 = foldl remember ht (mjoin (map ip_keys (env_rx t port_id 0 BURST_SIZE))))
    (fun _ _ _ => False) tt t.
Proof.
  intros [Ho Hs]. unfold loop_body, inv. wp_step. unfold wp at 1, rte_eth_rx_burst.
  set (bufs := env_rx t port_id 0 BURST_SIZE).
  apply (owned_rx _ port_id 0 BURST_SIZE bufs) in Ho. destruct (Z.ltb_spec 0 (zlen bufs)) as [Hz|Hz].
  - wp_step. eapply wp_mono; [apply clock_start_spec| |done].
    intros c1 [] t2 (_ & A2 & _).
    wp_step. eapply wp_mono; [apply saveip_hash_spec| |done].
    intros h1 [] t3 (-> & _ & A3 & _).
    wp_step. eapply wp_mono; [apply clock_rx_spec| |done].
    intros c2 [] t4 (_ & A4 & _ & ->).
    pose proof (same_acct_trans _ _ _ (same_acct_trans _ _ _ A2 A3) A4) as A.
    wp_step. eapply (wp_tx_or_free _ _ _ []); [by eapply owned_acct|].
    intros t5 Ho5 _ Hp. wp_steps. cbn [snd].
    destruct (remember_all_bounds (mjoin (map ip_keys bufs)) ht) as [Hsub Hin].
    split; [|done]. split; [done|]. intros k v Hk. destruct A as (_ & _ & Ap & _).
    rewrite Hp, Ap. cbn [rx_packets]. apply Hin in Hk as [Hk|Hk].
    + destruct (Hs k v Hk) as (m & Hm & Hkv). exists m. rewrite elem_of_app. auto.
    + apply list_elem_of_join in Hk as (ks & Hk & (m & -> & Hm)%list_elem_of_fmap).
      exists m. rewrite elem_of_app. auto.
  - assert (bufs = []) as Hb by (destruct bufs; [done|unfold zlen in Hz; simpl in Hz; lia]).
    rewrite Hb in *. wp_step. unfold wp at 1. rewrite clock_idle_run.
    destruct (started c); [|done]. destruct (IDLE_SEC <=? _); [|done].
    wp_step. eapply wp_mono; [apply hash_ips_dump_spec| |done].
    intros _ [] t2 (_ & A & _). wp_steps. split; [|done].
    split; [eapply owned_acct; [exact A|done]|]. intros k v Hk.
    destruct A as (_ & _ & -> & _). by apply Hs.
Qed.

(** The address monitor never faults or leaks, however long it runs, and its table
    only grows: an iteration adds, by insert-if-absent, the two addresses of every
    IPv4 packet of the burst, and nothing ever leaves it, although the program
    reports a reset. Every entry carries an address of a received packet. *)
Theorem saveip_main_safe n :
  wp (main n) (fun r _ t => inv r t /\
      wp (loop_body r) (fun r' _ t' => inv r' t' /\ hash_map r.2 ⊆ hash_map r'.2 /\
         r'.2 = foldl remember r.2 (mjoin (map ip_keys (env_rx t port_id 0 BURST_SIZE))))
       (fun _ _ _ => False) tt t)
    (fun c _ t => c = EXIT_FAILURE /\ rx_ids t = []) tt [].
Proof.
  unfold main, create_mempool, init_port2, ip_hash_create. wp_steps; try done.
  eapply wp_mono; [apply (wp_forever (fun l _ t => inv l t) _ (fun _ _ _ => False))| |done].
  - intros [c1 h1] [] t1 I. eapply wp_mono; [by apply saveip_loop_spec|by intros ? ? ? []|done].
  - split; [apply owned_nil|]. intros k v. simpl. by rewrite hash_empty_law, lookup_empty.
  - intros [c ht] [] t I. split; [done|]. by apply saveip_loop_spec.
Qed.

End SaveIp.
