(* ===== verification/NatV4.v ===== *)
(** * nat_project/version4: dynamic NAT from a pool (static_nat.c, config.c, main.c)

    The state is the pool that the pointer of [main] refers to, [None] while it
    is NULL. *)

From S2P Require Import Prelude Cstd Rte Env Packet Ownership NatRewrite NatPool NatIo NatHash Sim.

Definition BURST_SIZE := 32.
Definition port_id := 0.
Definition IDLE_SEC := 15.
Definition NAT_POOL_START : string := "203.0.113.1".
Definition NAT_POOL_RANGE := 5.
Definition sizeof_nat_pool := 32.

Section NatV4.
Context {BO : Byteorder} {CK : Cksum} {RH : RteHash} {E : Env}.
Notation M := (M (option nat_pool)).

Definition get_pool : M nat_pool := p <-- gets id ;; deref p.
Definition put_pool (p : nat_pool) : M unit := modify (fun _ => Some p).

(** ** static_nat.c *)

Definition nat_pool_create (start_ip : string) (range hz : Z) : M unit :=
  pool <-- malloc sizeof_nat_pool ;;
  when (pool =? 0) (rte_exit EXIT_FAILURE) ;;
  es <-- malloc (range * sizeof_nat_pool_entry) ;;
  when (es =? 0) (rte_exit EXIT_FAILURE) ;;
  addr <-- inet_pton_into start_ip ;;
  let pool_start_ip := rte_be_to_cpu_32 addr in
  r <-- call (rte_hash_create "nat_pool_map" (u32 (range * 2)) sizeof_uint32) ;;
  when (r =? 0) (rte_exit EXIT_FAILURE) ;;
  put_pool (NatPool (pool_fill pool_start_ip range) pool_start_ip range
              (u64 (hz * IDLE_TIMEOUT_SEC)) (rte_hash_empty (u32 (range * 2)) sizeof_uint32)) ;;
  let end_ip_be := rte_cpu_to_be_32 (u32 (pool_start_ip + range - 1)) in
  printf "NAT pool created: %s - %s (%u IPs)\n"
    [PStr start_ip; PStr (inet_ntop end_ip_be); PInt range].

Definition find_free_slot : M Z :=
  now <-- rte_get_timer_cycles ;;
  p0 <-- get_pool ;;
  for_ (Z.to_nat (pool_size p0)) 0 (fun i free_slot =>
    p <-- get_pool ;;
    e <-- deref (slot_at p i) ;;
    if negb (in_use e) then
      ret (if free_slot =? -1 then s32 i else free_slot)
    else if idle p now e then
      printf "NAT idle timeout: releasing %s -> %s back to pool\n"
        [PStr (inet_ntop (private_ip e)); PStr (inet_ntop (public_ip e))] ;;
      put_pool (release i e p) ;;
      ret (if free_slot =? -1 then s32 i else free_slot)
    else ret free_slot) (-1).

(** One packet; [None] is the NULL stored for a dropped one. *)
Definition nat_packet (m : mbuf) : M (option mbuf) :=
  if negb (load16 m ETH_TYPE =? rte_cpu_to_be_16 RTE_ETHER_TYPE_IPV4) then ret (Some m)
  else
    let src := load32 m IP_SRC in
    p <-- get_pool ;;
    match rte_hash_lookup_data (map_ p) (le32 src) with
    | Some data =>
        let slot := s32 data in
        e <-- deref (slot_at p slot) ;;
        now <-- rte_get_timer_cycles ;;
        put_pool (touch slot e now p) ;;
        ret (Some (recalc_cksums (store32 m IP_SRC (public_ip e))))
    | None =>
        slot <-- find_free_slot ;;
        if slot <? 0 then
          printf "WARNING: NAT pool exhausted! Dropping packet from %s\n" [PStr (inet_ntop src)] ;;
          rte_pktmbuf_free m ;;
          ret None
        else
          p <-- get_pool ;;
          e <-- deref (slot_at p slot) ;;
          now <-- rte_get_timer_cycles ;;
          put_pool (assign slot e src now p) ;;
          printf "NAT assigned: %s -> %s\n"
            [PStr (inet_ntop src); PStr (inet_ntop (public_ip e))] ;;
          ret (Some (recalc_cksums (store32 m IP_SRC (public_ip e))))
    end.

Definition nat_pool_apply (bufs : list mbuf) : M (list (option mbuf)) := for_each nat_packet bufs.

Definition nat_pool_dump : M unit :=
  printf "\n--- NAT Pool Mappings ---\n" [] ;;
  p <-- get_pool ;;
  let used := zlen (List.filter in_use (entries p)) in
  printf "Pool size: %u | Used: %u | Free: %u\n"
    [PInt (pool_size p); PInt (u32 used); PInt (u32 (pool_size p - used))] ;;
  _ <-- for_each (fun ie =>
    if in_use (ie.2 : nat_pool_entry) then
      printf "  [%u] %s -> %s\n"
        [PInt ie.1; PStr (inet_ntop (private_ip ie.2)); PStr (inet_ntop (public_ip ie.2))]
    else ret tt) (imap (fun i e => (Z.of_nat i, e)) (entries p)) ;;
  printf "-------------------------\n" [].

(** ** config.c *)

(** Leaves the state alone, that is NULL, when it fails. *)
Definition nat_load_from_file (filepath : string) (hz : Z) : M unit :=
  f <-- fopen filepath ;;
  match f with
  | None => printf "Error: could not open NAT config file: %s\n" [PStr filepath]
  | Some content =>
      let* (start_ip, range) := pool_config (file_lines content) in
      if range =? 0 then
        printf "Error: no valid pool config found in %s\n" [PStr filepath]
      else
        printf "Loaded pool config: start=%s range=%u\n" [PStr start_ip; PInt range] ;;
        nat_pool_create start_ip range hz
  end.

(** ** main.c *)

Definition loop_body (l : clock * rte_hash) : M (clock * rte_hash) :=
  let (c, ht) := l in
  bufs <-- rte_eth_rx_burst port_id 0 BURST_SIZE ;;
  let nb_rx := zlen bufs in
  if 0 <? nb_rx then
    c <-- clock_start c ;;
    bufs <-- nat_pool_apply bufs ;;
    c <-- clock_rx "Received %u packets | Time: %lu sec\n" nb_rx c ;;
    tx_each port_id bufs ;;
    ret (c, ht)
  else
    let* (idle, c) := clock_idle IDLE_SEC "No packets for 15 seconds. Timer reset.\n" c in
    if idle : bool then
      nat_pool_dump ;;
      ret (c, reset_ip_hash ht)
    else ret (c, ht).

(** The first [n] iterations. *)
Definition main (n : nat) : M (clock * rte_hash) :=
  _ <-- call rte_eal_init ;;
  hz <-- rte_get_timer_hz ;;
  mp <-- create_mempool ;;
  init_port port_id mp ;;
  ht <-- ip_hash_create ;;
  printf "Enter 1 to load NAT pool from file, 0 to use default config or any other Number to use config file\n" [] ;;
  r <-- scanf_int ;;
  let options := match r with Some v => v | None => 0 end in
  (if options =? 1 then nat_load_from_file "nat_config.txt" hz
   else if options =? 0 then nat_pool_create NAT_POOL_START NAT_POOL_RANGE hz
   else nat_load_from_file "nat_config.txt" hz) ;;
  forever n loop_body (clock0, ht).

(** ** Specifications *)

Lemma v4_get_pool p (Q : nat_pool -> option nat_pool -> trace -> Prop) X t :
  Q p (Some p) t -> wp get_pool Q X (Some p) t.
Proof. done. Qed.
Lemma v4_put_pool p (Q : unit -> option nat_pool -> trace -> Prop) X s t :
  Q tt (Some p) t -> wp (put_pool p) Q X s t.
Proof. done. Qed.
#[local] Ltac steps :=
  repeat first [wp_step | lazymatch goal with
                          | |- wp get_pool _ _ _ _ => apply v4_get_pool
                          | |- wp (put_pool _) _ _ _ _ => apply v4_put_pool end]; cbn beta.

(** A slot that can be given out at time [now]. *)
Definition available (p : nat_pool) (now : Z) (i : Z) : Prop :=
  exists e, slot_at p i = Some e /\ (in_use e = false \/ idle p now e = true).

(** The lowest available slot below [n], -1 if there is none. *)
Definition lowest (p : nat_pool) (now n r : Z) : Prop :=
  (r = -1 /\ forall i, 0 <= i < n -> ~ available p now i) \/
  (0 <= r < n /\ available p now r /\ forall i, 0 <= i < r -> ~ available p now i).

Lemma lowest_step p now i r (b : bool) e :
  0 <= i -> slot_at p i = Some e ->
  b = negb (in_use e) || idle p now e -> lowest p now i r ->
  lowest p now (i + 1) (if b then (if r =? -1 then i else r) else r).
Proof.
  intros Hi He Hb [[-> Hn]|(Hr & Ha & Hn)].
  - destruct b; simpl.
    + right. split; [lia|]. split; [|done]. exists e. split; [done|].
      destruct (in_use e), (idle p now e); auto; done.
    + left. split; [done|]. intros j Hj (e' & He' & Hav).
      destruct (decide (j = i)) as [->|]; [|eapply (Hn j); [lia|by exists e']].
      rewrite He in He'. injection He' as <-. destruct (in_use e), (idle p now e); naive_solver.
  - right. destruct (Z.eqb_spec r (-1)); [lia|]. destruct b; (split; [lia|done]).
Qed.

Lemma find_free_slot_spec p t :
  pool_inv p -> pool_size p <= 2 ^ 31 ->
  wp find_free_slot
    (fun r s t' => exists p', s = Some p' /\ same_acct t t' /\
       swept (pool_size p) (env_cycles t) p p' /\ lowest p (env_cycles t) (pool_size p) r)
    (fun _ _ _ => False) (Some p) t.
Proof.
  intros I Hs. unfold find_free_slot. wp_step. unfold wp at 1, rte_get_timer_cycles.
  set (now := env_cycles t). steps.
  pose proof (pi_range _ I) as Hrange.
  eapply wp_mono; [apply (wp_for (fun i r s t' => exists p', s = Some p' /\ same_acct t t' /\
    swept i now p p' /\ lowest p now i r)
    _ (fun _ _ _ => False))| |done].
  - intros i r s1 t1 Hi (p1 & -> & A & S1 & Hl).
    destruct (slot_in_range p i I) as [e He]; [lia|].
    destruct (swept_lookup _ _ _ _ _ S1 He) as [He1 Hidle].
    pose proof (swept_step _ _ _ _ _ S1 He) as S2.
    pose proof (lowest_step p now i r _ e ltac:(lia) He eq_refl Hl) as Hl'.
    steps. eapply wp_deref; [done|]. rewrite (s32_small i), Hidle by lia.
    destruct (in_use e); [destruct (idle p now e)|]; simpl in *; steps; eauto 10.
  - exists p. split; [done|]. split; [done|]. split; [by apply swept_start|].
    left. split; [done|]. lia.
  - intros r s1 t1. rewrite Z.add_0_l, Z2Nat.id by lia. done.
Qed.

Definition is_ipv4 (m : mbuf) : bool := load16 m ETH_TYPE =? rte_cpu_to_be_16 RTE_ETHER_TYPE_IPV4.

(** What happens to one packet [m], the pool going from [p] to [p']. *)
Definition translated (p : nat_pool) (m : mbuf) (om : option mbuf) (p' : nat_pool) : Prop :=
  let src := load32 m IP_SRC in
  match om with
  | None => is_ipv4 m = true /\ hash_map (map_ p) !! le32 src = None /\
      exists now, forall i, 0 <= i < pool_size p -> ~ available p now i
  | Some m' =>
      if is_ipv4 m then
        exists i e, holds p' i src e /\ m' = rewrite_and_recalc m (public_ip e) true /\
          match hash_map (map_ p) !! le32 src with
          | Some data => i = data
          | None => exists now, lowest p now (pool_size p) i
          end
      else m' = m /\ p' = p
  end.

Lemma nat_packet_spec p m t :
  pool_inv p -> pool_size p <= 2 ^ 31 -> bytes_ok m ->
  wp (nat_packet m)
    (fun om s' t' => handled m om t t' /\ exists p', s' = Some p' /\ pool_inv p' /\
       same_config p p' /\ translated p m om p')
    (fun _ _ _ => False) (Some p) t.
Proof.
  intros I Hs Hb. unfold nat_packet, translated. fold (is_ipv4 m).
  destruct (is_ipv4 m); simpl negb; cbn iota.
  2:{ steps. split; [by apply handled_same|]. by exists p. }
  set (src := load32 m IP_SRC). assert (is_u32 src) as Hsrc by (by apply load32_range).
  steps. rewrite hash_lookup_law.
  destruct (hash_map (map_ p) !! le32 src) as [data|] eqn:Hd.
  - destruct (pi_map _ I _ _ Hd) as (Hr & e & He & Hu & Hk). rewrite s32_small by done.
    apply le32_inj in Hk; [|done|by apply (pi_private _ I _ _ He)].
    steps. eapply wp_deref; [apply slot_at_Some; split; [lia|exact He]|]. steps.
    split; [apply handled_same; [by rewrite recalc_cksums_id|done]|].
    exists (touch data e v p). split; [done|]. split; [by apply pool_inv_touch|]. split; [done|].
    exists data. eexists. split; [split; [|split; [|]]|split; [|done]].
    + apply slot_at_Some. split; [lia|]. apply list_lookup_insert_eq. by eapply lookup_lt_Some.
    + done. + done. + done.
  - steps. eapply wp_mono; [by apply find_free_slot_spec| |done].
    intros r s1 t1 (p1 & -> & A & (I1 & C1 & E1) & Hl).
    steps; destruct Hl as [[-> Hn]|(Hri & Hav & Hn)]; try lia.
    + split; [by eapply handled_free|]. exists p1. split; [done|]. split; [done|].
      split; [done|]. by eauto.
    + assert (lowest p (env_cycles t) (pool_size p) r) as Hlow by (by right).
      destruct Hav as (e & Hse%slot_at_Some & Hav). destruct Hse as [_ He].
      pose proof (E1 _ _ He) as He1. rewrite Z2Nat.id in He1 by lia.
      destruct (Z.ltb_spec r (pool_size p)); [|lia]. simpl in He1.
      set (e1 := if in_use e && idle p (env_cycles t) e then free_entry e else e) in *.
      assert (in_use e1 = false) as Hu1.
      { unfold e1. destruct (in_use e) eqn:Hu; simpl; [|done].
        destruct Hav as [Hav| ->]; [done|done]. }
      assert (slot_at p1 r = Some e1) as Hse1 by (apply slot_at_Some; split; [lia|done]).
      steps. eapply wp_deref; [done|]. steps.
      split; [apply handled_same; [by rewrite recalc_cksums_id|done]|].
      exists (assign r e1 src v p1). split; [done|].
      split; [apply pool_inv_assign; try done; lia|]. split; [done|].
      exists r. eexists. split; [split; [|split]|split].
      * apply slot_at_Some. split; [lia|]. apply list_lookup_insert_eq. by eapply lookup_lt_Some.
      * done. * done. * done.
      * by exists (env_cycles t).
Qed.

(** The pool exists and is well formed. *)
Definition pool_ok (s : option nat_pool) : Prop :=
  exists p, s = Some p /\ pool_inv p /\ pool_size p <= 2 ^ 31.

Lemma nat_pool_apply_spec bufs held s t :
  pool_ok s -> Forall bytes_ok bufs -> owned (ids bufs ++ held) t ->
  wp (nat_pool_apply bufs) (fun oms s' t' => pool_ok s' /\ refused_ids t' = refused_ids t /\
      owned (ids (omap id oms) ++ held) t')
    (fun _ _ _ => False) s t.
Proof.
  intros Hp Hb Ho. apply (wp_for_each_owned (fun s _ => pool_ok s) bytes_ok); try done.
  intros m s1 t1 Hm (p & -> & I & Hs). eapply wp_mono; [by apply nat_packet_spec| |done].
  intros om s2 t2 (Hh & p' & -> & I' & (E' & _) & _). split; [|done].
  exists p'. by rewrite E'.
Qed.

Lemma nat_pool_dump_spec p t :
  wp nat_pool_dump (fun _ s' t' => s' = Some p /\ same_acct t t')
    (fun _ _ _ => False) (Some p) t.
Proof.
  unfold nat_pool_dump. steps.
  eapply wp_mono; [apply (wp_for_each (fun _ _ s' t' => s' = Some p /\ same_acct t t') _ (fun _ _ _ => False))| |done].
  - intros pre [i e] post rs s1 t1 _ (-> & A). simpl. destruct (in_use e); by wp_steps.
  - done.
  - intros rs s1 t1 (-> & A). by wp_steps.
Qed.

Lemma nat_pool_create_spec start range hz s t :
  0 <= range <= 2 ^ 31 ->
  wp (nat_pool_create start range hz)
    (fun _ s' t' => same_acct t t' /\
       exists p, s' = Some p /\ pool_inv p /\ pool_size p = range)
    (fun c _ t' => c = EXIT_FAILURE /\ same_acct t t') s t.
Proof.
  intros Hr. unfold nat_pool_create. wp_step. apply wp_malloc; [by wp_steps|].
  intros a Ha _. apply Z.eqb_neq in Ha. rewrite Ha. wp_steps; try done. apply wp_malloc; [by wp_steps|].
  intros b Hb _. apply Z.eqb_neq in Hb. rewrite Hb. wp_steps; try done.
  assert (forall v, is_u32 v -> pool_inv (NatPool (pool_fill (rte_be_to_cpu_32 v) range)
    (rte_be_to_cpu_32 v) range (u64 (hz * IDLE_TIMEOUT_SEC))
    (rte_hash_empty (u32 (range * 2)) sizeof_uint32))) as HI.
  { intros v Hv. apply pool_inv_init; [|lia|apply hash_empty_law].
    rewrite be_to_cpu_32_law by done. auto with words. }
  apply wp_inet_pton_into; [intros v Hv%inet_pton_range|intros v bs _ Hv]; steps; try done;
    (split; [done|]; eexists; split; [done|]; split; [by apply HI|done]).
Qed.

Lemma run_start t t' :
  same_acct t t' -> rx_ids t = [] -> out_ids t = [] -> refused_ids t = [] -> owned (refused_ids t') t'.
Proof. intros (H1 & H2 & _ & H4) Hr Ho Hf. unfold owned. by rewrite H1, H2, H4, Hr, Ho, Hf. Qed.

Definition run_ok (s : option nat_pool) (t : trace) : Prop :=
  pool_ok s /\ owned (refused_ids t) t.

Lemma v4_loop_spec l s t :
  run_ok s t -> wp (loop_body l) (fun _ s' t' => run_ok s' t') (fun _ _ _ => False) s t.
Proof.
  intros [Hp Ho]. destruct l as [c ht]. unfold loop_body. wp_step. apply wp_rx. intros bufs _ Hb.
  apply (owned_rx _ port_id 0 BURST_SIZE bufs) in Ho. set (t1 := EvRx _ _ _ bufs :: t) in *.
  change (refused_ids t) with (refused_ids t1) in Ho.
  destruct (Z.ltb_spec 0 (zlen bufs)) as [Hz|Hz].
  - wp_step. eapply wp_mono; [apply clock_start_spec| |done].
    intros c1 s2 t2 (-> & A2 & _). apply (owned_acct _ _ _ A2) in Ho.
    destruct A2 as (_ & _ & _ & E2). rewrite <- E2 in Ho.
    wp_step. eapply wp_mono; [by apply (nat_pool_apply_spec bufs (refused_ids t2))| |done].
    intros oms s3 t3 (Hp3 & E3 & Ho3). rewrite <- E3 in Ho3.
    wp_step. eapply wp_mono; [apply clock_rx_spec| |done].
    intros c4 s4 t4 (-> & A4 & _ & ->). apply (owned_acct _ _ _ A4) in Ho3.
    destruct A4 as (_ & _ & _ & E4). rewrite <- E4 in Ho3.
    wp_step. eapply wp_mono; [by apply (tx_each_spec _ _ [])| |done].
    by intros _ s5 t5 (-> & Ho5 & _).
  - assert (bufs = []) as Hnil by (destruct bufs; [done|unfold zlen in Hz; simpl in Hz; lia]).
    rewrite Hnil in Ho. wp_step. unfold wp at 1. rewrite clock_idle_run.
    destruct (started c); [|done]. destruct (IDLE_SEC <=? _); [|done].
    destruct Hp as (p & -> & Hp). wp_step. eapply wp_mono; [apply nat_pool_dump_spec| |done].
    intros _ s2 t2 [-> A]. wp_steps. split; [by exists p|].
    destruct A as (A1 & A2 & A3 & A4) eqn:HA. rewrite A4. eapply owned_acct; [exact A|done].
Qed.

(** Translation in version 4. A packet that is not IPv4 passes unchanged; an IPv4
    packet whose source holds a slot gets that slot's public address, a new source the
    lowest slot that is free or idle at the time of the scan, with valid IPv4, TCP
    and UDP checksums and no other change; it is dropped, and freed, only when
    every slot is in use and not idle. The pool stays well formed. *)
Theorem nat_packet_correct p m t :
  pool_inv p -> pool_size p <= 2 ^ 31 -> bytes_ok m ->
  wp (nat_packet m)
    (fun om s' t' => handled m om t t' /\ exists p', s' = Some p' /\ pool_inv p' /\
       same_config p p' /\ translated p m om p' /\
       forall m', om = Some m' -> is_ipv4 m = true ->
         room m HDRS -> Z.land (load8 m IP) 15 = 5 ->
         exists new_ip, rewritten m m' new_ip true)
    (fun _ _ _ => False) (Some p) t.
Proof.
  intros I Hs Hb. eapply wp_mono; [by apply nat_packet_spec| |done].
  intros om s' t' (Hh & p' & -> & I' & Hc & Ht). split; [done|]. exists p'.
  split_and!; try done. intros m' -> Hi Hr H5. simpl in Ht. rewrite Hi in Ht.
  destruct Ht as (i & e & (He & _) & -> & _). exists (public_ip e).
  apply rewrite_and_recalc_spec; try done. apply slot_at_Some in He as [_ He].
  rewrite (pi_public _ I' _ _ He), cpu_to_be_32_law by apply u32_range. auto with words.
Qed.

(** C30: [find_free_slot] returns the lowest slot that is free or idle at the time it reads
    from the clock, -1 if there is none; in the same pass it releases every idle
    slot, and only those, and their table entries. *)
Theorem find_free_slot_correct p t :
  pool_inv p -> pool_size p <= 2 ^ 31 ->
  wp find_free_slot
    (fun r s t' => exists p', s = Some p' /\ swept (pool_size p) (env_cycles t) p p' /\
       lowest p (env_cycles t) (pool_size p) r)
    (fun _ _ _ => False) (Some p) t.
Proof.
  intros I Hs. eapply wp_mono; [by apply find_free_slot_spec| |done].
  intros r s t' (p' & ? & _ & ? & ?). by exists p'.
Qed.

(** With the default pool, version 4 never faults and exits only with EXIT_FAILURE; but
    it loses exactly the mbufs that a transmission refuses, since [main] ignores
    the result of [rte_eth_tx_burst]: between iterations they are what it still
    owns. *)
Theorem v4_main_leaks_refused n :
  (forall t, env_scanf_int t = None \/ env_scanf_int t = Some 0) ->
  wp (main n) (fun _ s t => pool_ok s /\ owned (refused_ids t) t)
    (fun c _ t => c = EXIT_FAILURE /\ rx_ids t = []) None [].
Proof.
  intros Hopt. unfold main, create_mempool, init_port, ip_hash_create. wp_steps; try done.
  unfold wp at 1, scanf_int. match goal with |- context [env_scanf_int ?x] =>
    destruct (Hopt x) as [-> | ->] end; wp_steps; try discriminate;
  (eapply wp_mono; [apply nat_pool_create_spec; done| |by intros ? ? ? [-> (-> & _)]]);
  intros _ s1 t1 (A & p & -> & I & Hs);
  (apply (wp_forever (fun _ s t => run_ok s t)); 
     [intros; eapply wp_mono; [by apply v4_loop_spec|done|done]|];
   split; [exists p; by rewrite Hs|]; eapply run_start; [exact A|done|done|done]).
Qed.

(** When no pool could be created (an unreadable or invalid configuration file leaves
    NULL, which [main] does not check), the first burst with an IPv4 packet
    dereferences NULL. *)
Theorem null_pool_faults pre m post t :
  Forall (fun m => is_ipv4 m = false) pre -> is_ipv4 m = true ->
  nat_pool_apply (pre ++ m :: post) None t = Fault None t.
Proof.
  intros Hpre Hm. unfold nat_pool_apply. induction Hpre as [|x pre Hx Hpre IH]; simpl.
  - unfold bind at 1. unfold nat_packet. fold (is_ipv4 m). by rewrite Hm.
  - unfold bind at 1. unfold nat_packet at 1. fold (is_ipv4 x). rewrite Hx. simpl.
    unfold bind at 1. by rewrite IH.
Qed.

(** [nat_load_from_file] leaves the pool NULL exactly when the file cannot be opened or
    its first valid line (not blank, not a comment, a word and a number) is
    missing or has range 0; otherwise it makes the pool of that range. *)
Theorem nat_load_from_file_correct path hz t :
  match env_file t path with
  | Some content =>
      (default (EmptyString, 0) (head (omap parse_line (file_lines content)))).2 <= 2 ^ 31
  | None => True end ->
  wp (nat_load_from_file path hz)
    (fun _ s' _ =>
       match env_file t path with
       | None => s' = None
       | Some content =>
           match head (omap parse_line (file_lines content)) with
           | None => s' = None
           | Some (_, range) =>
               if range =? 0 then s' = None
               else exists p, s' = Some p /\ pool_inv p /\ pool_size p = range
           end
       end)
    (fun c _ _ => c = EXIT_FAILURE) None t.
Proof.
  intros Hr. unfold nat_load_from_file. wp_step. unfold wp at 1, fopen.
  destruct (env_file t path) as [content|]; [|done].
  wp_step. eapply wp_mono; [apply pool_config_spec| |done].
  intros r s1 t1 (Hr1 & -> & _). rewrite <- Hr1 in Hr. cbn beta.
  destruct (head (omap parse_line (file_lines content))) as [[w range]|] eqn:Hh;
    simpl in Hr1; subst r; simpl in Hr |- *; [|done].
  destruct (Z.eqb_spec range 0) as [->|Hne]; [done|]. wp_steps.
  eapply wp_mono; [apply nat_pool_create_spec| |by intros ? ? ? [-> _]].
  - apply head_Some in Hh as [l Hl]. assert ((w, range) ∈ omap parse_line (file_lines content)) as Hin.
    { rewrite Hl. left. }
    apply list_elem_of_omap in Hin as (line & _ & Hp). split; [|done].
    apply parse_line_range in Hp. lia.
  - intros _ s2 t2 (_ & p & -> & I & Hs). by exists p.
Qed.

End NatV4.

(** ** Witnesses *)

#[local] Existing Instances sim_byteorder sim_cksum sim_hash.
#[local] Instance wenv : Env := sim_env (Script (fun _ => 1) [] 32 (fun t => Z.of_nat (length t)) true
  (Some "# pool
203.0.113.1 5
"%string) 1000).

Definition w_packet : mbuf := mk_packet 1 [10; 0; 0; 7] [9; 9; 9; 9] IPPROTO_UDP [4; 210] [0; 80].
Definition w_pool : nat_pool :=
  NatPool (pool_fill (of_le32 1 113 0 203) 2) (of_le32 1 113 0 203) 2 5000
    (rte_hash_empty 4 sizeof_uint32).
Lemma w_pool_inv : pool_inv w_pool.
Proof. apply pool_inv_init; [by split|done|done]. Qed.
Lemma v4_w_bytes : bytes_ok w_packet. Proof. by apply Forall_u8_dec. Qed.

Lemma nat_packet_correct_witness :
  wp (nat_packet w_packet)
    (fun om s' t' => handled w_packet om [] t' /\ exists p', s' = Some p' /\ pool_inv p' /\
       same_config w_pool p' /\ translated w_pool w_packet om p' /\
       forall m', om = Some m' -> is_ipv4 w_packet = true ->
         room w_packet HDRS -> Z.land (load8 w_packet IP) 15 = 5 ->
         exists new_ip, rewritten w_packet m' new_ip true)
    (fun _ _ _ => False) (Some w_pool) [].
Proof. apply nat_packet_correct; [apply w_pool_inv|done|apply v4_w_bytes]. Defined.

Lemma find_free_slot_correct_witness :
  wp find_free_slot
    (fun r s t' => exists p', s = Some p' /\
       swept (pool_size w_pool) (env_cycles []) w_pool p' /\
       lowest w_pool (env_cycles []) (pool_size w_pool) r)
    (fun _ _ _ => False) (Some w_pool) [].
Proof. apply find_free_slot_correct; [apply w_pool_inv|done]. Defined.

Lemma v4_main_leaks_refused_witness :
  wp (main 3) (fun _ s t => pool_ok s /\ owned (refused_ids t) t)
    (fun c _ t => c = EXIT_FAILURE /\ rx_ids t = []) None [].
Proof. apply v4_main_leaks_refused. intros t. by right. Defined.

Lemma null_pool_faults_witness :
  nat_pool_apply [w_packet] None [] = Fault None [].
Proof. by apply (null_pool_faults [] w_packet []). Defined.

Lemma nat_load_from_file_correct_witness :
  match head (omap parse_line (file_lines "# pool
203.0.113.1 5
"%string)) with
  | Some (w, range) => w = "203.0.113.1"%string /\ range = 5
  | None => False end /\
  wp (nat_load_from_file "nat_config.txt" 1000)
    (fun _ s' _ =>
       match env_file [] "nat_config.txt" with
       | None => s' = None
       | Some content =>
           match head (omap parse_line (file_lines content)) with
           | None => s' = None
           | Some (_, range) =>
               if range =? 0 then s' = None
               else exists p, s' = Some p /\ pool_inv p /\ pool_size p = range
           end
       end)
    (fun c _ _ => c = EXIT_FAILURE) None [].
Proof. split; [by vm_compute|]. apply nat_load_from_file_correct. by vm_compute. Defined.
