(* ===== verification/NatV5.v ===== *)
(** * nat_project/version5: pool NAT with static inbound mappings and timers

    static_nat.c, config.c and main.c.  The state holds the pool of [main], the
    inbound entries that [nat_inbound_add] allocates (by address) and the timer
    subsystem with the two timers of the pool. *)

From S2P Require Import Prelude Cstd Rte Env Packet Ownership NatRewrite NatPool NatIo NatHash Sim.

Definition MAX_INBOUND_ENTRIES := 256.
Definition TABLE_TIMEOUT_SEC := 10.
Definition EXPIRY_INTERVAL_SEC := 1.
Definition BURST_SIZE := 32.
Definition port_id := 0.
Definition NAT_POOL_START : string := "203.0.113.10".
Definition NAT_POOL_RANGE := 5.
Definition sizeof_nat_pool := 256.
Definition sizeof_nat_inbound_entry := 8.

Record nat_inbound_entry := NatInboundEntry { in_public_ip : Z; in_private_ip : Z }.

(** Names of [&pool->expiry_timer] and [&pool->table_timer]. *)
Definition expiry_timer := 1.
Definition table_timer := 2.

Section NatV5.
Context {BO : Byteorder} {CK : Cksum} {RH : RteHash} {RT : RteTimer} {E : Env}.

(** [outbound] are the fields shared with version 4; its table is
    [outbound_map]. *)
Record nat_pool5 := NatPool5 {
  outbound : nat_pool; inbound_map : rte_hash; pool_started : bool }.
Record nat_state := NatState {
  pool : option nat_pool5; in_heap : gmap Z nat_inbound_entry; timers : rte_timers }.
Definition nat_state0 : nat_state := NatState None ∅ rte_timers_init.
Notation M := (M nat_state).

Definition get_pool : M nat_pool5 := p <-- gets pool ;; deref p.
Definition put_pool (p : nat_pool5) : M unit :=
  modify (fun s => NatState (Some p) (in_heap s) (timers s)).
Definition set_timers (T : rte_timers) (s : nat_state) : nat_state :=
  NatState (pool s) (in_heap s) T.
Definition set_outbound (o : nat_pool) (p : nat_pool5) : nat_pool5 :=
  NatPool5 o (inbound_map p) (pool_started p).

(** ** static_nat.c *)

Definition nat_pool_create (start_ip : string) (range hz : Z) : M unit :=
  a <-- malloc sizeof_nat_pool ;;
  when (a =? 0) (rte_exit EXIT_FAILURE) ;;
  es <-- malloc (range * sizeof_nat_pool_entry) ;;
  when (es =? 0) (rte_exit EXIT_FAILURE) ;;
  addr <-- inet_pton_into start_ip ;;
  let pool_start_ip := rte_be_to_cpu_32 addr in
  r <-- call (rte_hash_create "nat_outbound_map" (u32 (range * 2)) sizeof_uint32) ;;
  when (r =? 0) (rte_exit EXIT_FAILURE) ;;
  r <-- call (rte_hash_create "nat_inbound_map" MAX_INBOUND_ENTRIES sizeof_uint32) ;;
  when (r =? 0) (rte_exit EXIT_FAILURE) ;;
  put_pool (NatPool5
    (NatPool (pool_fill pool_start_ip range) pool_start_ip range (u64 (hz * IDLE_TIMEOUT_SEC))
       (rte_hash_empty (u32 (range * 2)) sizeof_uint32))
    (rte_hash_empty MAX_INBOUND_ENTRIES sizeof_uint32) false) ;;
  now <-- rte_get_timer_cycles ;;
  modify (fun s => set_timers
    (rte_timer_reset (timers s) expiry_timer now (u64 (hz * EXPIRY_INTERVAL_SEC)) PERIODICAL) s) ;;
  let end_ip_be := rte_cpu_to_be_32 (u32 (pool_start_ip + range - 1)) in
  printf "NAT outbound pool created: %s - %s (%u IPs)\n"
    [PStr start_ip; PStr (inet_ntop end_ip_be); PInt range] ;;
  printf "  idle slot timeout  : %ds\n" [PInt IDLE_TIMEOUT_SEC] ;;
  printf "  table reset timeout: %ds no traffic\n" [PInt TABLE_TIMEOUT_SEC].

Definition expiry_timer_cb : M unit :=
  now <-- rte_get_timer_cycles ;;
  p0 <-- get_pool ;;
  _ <-- for_ (Z.to_nat (pool_size (outbound p0))) 0 (fun i _ =>
    p <-- get_pool ;;
    e <-- deref (slot_at (outbound p) i) ;;
    if negb (in_use e) then ret tt
    else if idle (outbound p) now e then
      printf "[expiry_timer] idle slot released: %s -> %s\n"
        [PStr (inet_ntop (private_ip e)); PStr (inet_ntop (public_ip e))] ;;
      put_pool (set_outbound (release i e (outbound p)) p)
    else ret tt) tt ;;
  ret tt.

Definition nat_pool_dump : M unit :=
  printf "\n--- Inbound NAT Map (static) ---\n" [] ;;
  p <-- get_pool ;;
  _ <-- for_each (fun kv =>
    h <-- gets in_heap ;;
    e <-- deref (h !! kv.2) ;;
    printf "  %s -> %s\n" [PStr (inet_ntop (in_public_ip e)); PStr (inet_ntop (in_private_ip e))])
    (rte_hash_entries (inbound_map p)) ;;
  printf "\n--- Outbound NAT Pool (dynamic) ---\n" [] ;;
  let used := zlen (List.filter in_use (entries (outbound p))) in
  printf "Pool: %u slots | Used: %u | Free: %u\n"
    [PInt (pool_size (outbound p)); PInt (u32 used); PInt (u32 (pool_size (outbound p) - used))] ;;
  _ <-- for_each (fun ie =>
    if in_use (ie.2 : nat_pool_entry) then
      printf "  [%u] %s -> %s\n"
        [PInt ie.1; PStr (inet_ntop (private_ip ie.2)); PStr (inet_ntop (public_ip ie.2))]
    else ret tt) (imap (fun i e => (Z.of_nat i, e)) (entries (outbound p))) ;;
  printf "-----------------------------------\n" [].

Definition table_timer_cb : M unit :=
  printf "[table_timer] No packets for %ds. Resetting entire NAT table.\n" [PInt TABLE_TIMEOUT_SEC] ;;
  nat_pool_dump ;;
  p <-- get_pool ;;
  put_pool (NatPool5 (clear (outbound p)) (inbound_map p) false) ;;
  printf "[table_timer] NAT table cleared. Waiting for next packet.\n" [].

Definition nat_table_timer_arm (hz timeout_sec : Z) : M unit :=
  now <-- rte_get_timer_cycles ;;
  modify (fun s => set_timers
    (rte_timer_reset (timers s) table_timer now (u64 (hz * timeout_sec)) SINGLE) s).

Definition nat_pool_reset : M unit :=
  modify (fun s => set_timers (rte_timer_stop (timers s) table_timer) s) ;;
  p <-- get_pool ;;
  put_pool (NatPool5 (clear (outbound p)) (inbound_map p) false).

(** The callbacks of the expired timers, one after another. *)
Definition run_callback (tim : Z) : M unit :=
  if tim =? expiry_timer then expiry_timer_cb
  else if tim =? table_timer then table_timer_cb
  else ret tt.
Definition rte_timer_manage : M unit :=
  now <-- rte_get_timer_cycles ;;
  T <-- gets timers ;;
  let r := rte_timer_expired T now in
  modify (set_timers r.2) ;;
  _ <-- for_each run_callback r.1 ;; ret tt.

Definition nat_inbound_add (public_ip private_ip : string) : M unit :=
  a <-- malloc sizeof_nat_inbound_entry ;;
  when (a =? 0) (rte_exit EXIT_FAILURE) ;;
  pub <-- inet_pton_into public_ip ;;
  priv <-- inet_pton_into private_ip ;;
  modify (fun s => NatState (pool s) (<[a := NatInboundEntry pub priv]> (in_heap s)) (timers s)) ;;
  p <-- get_pool ;;
  let r := rte_hash_add_key_data (inbound_map p) (le32 pub) a in
  put_pool (NatPool5 (outbound p) r.2 (pool_started p)) ;;
  when (r.1 <? 0) (rte_exit EXIT_FAILURE) ;;
  printf "Inbound mapping added: %s -> %s\n" [PStr public_ip; PStr private_ip].

Fixpoint inbound_lines (lines : list string) (count : Z) : M Z :=
  match lines with
  | [] => ret count
  | line :: rest =>
      if blank_or_comment line then inbound_lines rest count
      else
        match scan_pair line with
        | None => printf "Skipping invalid line: %s" [PStr line] ;; inbound_lines rest count
        | Some (public_ip, private_ip) =>
            nat_inbound_add public_ip private_ip ;; inbound_lines rest (count + 1)
        end
  end.

Definition nat_inbound_load_from_file (filepath : string) : M unit :=
  f <-- fopen filepath ;;
  match f with
  | None => printf "Error: could not open inbound NAT config: %s\n" [PStr filepath]
  | Some content =>
      count <-- inbound_lines (file_lines content) 0 ;;
      printf "Loaded %d inbound mappings from %s\n" [PInt count; PStr filepath]
  end.

(** The scan over the slots: the first one not in use, as an [int]. *)
Fixpoint first_free (i : Z) (es : list nat_pool_entry) : Z :=
  match es with
  | [] => -1
  | e :: es' => if in_use e then first_free (i + 1) es' else s32 i
  end.
Definition find_free_slot (p : nat_pool5) : Z := first_free 0 (entries (outbound p)).

(** One packet; [None] is the NULL stored for a dropped one. *)
Definition nat_packet (m : mbuf) : M (option mbuf) :=
  if negb (load16 m ETH_TYPE =? rte_cpu_to_be_16 RTE_ETHER_TYPE_IPV4) then ret (Some m)
  else
    let src := load32 m IP_SRC in
    let dst := load32 m IP_DST in
    p <-- get_pool ;;
    match rte_hash_lookup_data (inbound_map p) (le32 dst) with
    | Some data =>
        h <-- gets in_heap ;;
        entry <-- deref (h !! data) ;;
        printf "Inbound NAT: %s -> %s\n"
          [PStr (inet_ntop dst); PStr (inet_ntop (in_private_ip entry))] ;;
        ret (Some (rewrite_and_recalc m (in_private_ip entry) false))
    | None =>
    match rte_hash_lookup_data (map_ (outbound p)) (le32 src) with
    | Some data =>
        let slot := s32 data in
        e <-- deref (slot_at (outbound p) slot) ;;
        now <-- rte_get_timer_cycles ;;
        put_pool (set_outbound (touch slot e now (outbound p)) p) ;;
        ret (Some (rewrite_and_recalc m (public_ip e) true))
    | None =>
        let slot := find_free_slot p in
        if slot <? 0 then
          printf "WARNING: NAT pool exhausted! Dropping packet from %s\n" [PStr (inet_ntop src)] ;;
          rte_pktmbuf_free m ;;
          ret None
        else
          e <-- deref (slot_at (outbound p) slot) ;;
          now <-- rte_get_timer_cycles ;;
          put_pool (set_outbound (assign slot e src now (outbound p)) p) ;;
          printf "Outbound NAT assigned: %s -> %s\n"
            [PStr (inet_ntop src); PStr (inet_ntop (public_ip e))] ;;
          ret (Some (rewrite_and_recalc m (public_ip e) true))
    end
    end.

Definition nat_pool_apply (bufs : list mbuf) : M (list (option mbuf)) := for_each nat_packet bufs.

(** ** config.c *)

Definition nat_load_from_file (filepath : string) (hz : Z) : M unit :=
  f <-- fopen filepath ;;
  match f with
  | None => printf "Error: could not open NAT config file: %s\n" [PStr filepath]
  | Some content =>
      let* (start_ip, range) := pool_config (file_lines content) in
      if range =? 0 then
        printf "Error: no valid pool config found in %s\n" [PStr filepath]
      else
        printf "Loaded pool config: start=%s range=%u\n" [PStr start_ip; PInt range] ;;
        nat_pool_create start_ip range hz
  end.

(** ** main.c *)

Definition loop_body (hz : Z) (_ : unit) : M unit :=
  rte_timer_manage ;;
  bufs <-- rte_eth_rx_burst port_id 0 BURST_SIZE ;;
  let nb_rx := zlen bufs in
  when (0 <? nb_rx)
    (p <-- get_pool ;;
     when (negb (pool_started p))
       (put_pool (NatPool5 (outbound p) (inbound_map p) true) ;;
        printf "First packet. Table timer armed (%ds timeout).\n" [PInt TABLE_TIMEOUT_SEC]) ;;
     nat_table_timer_arm hz TABLE_TIMEOUT_SEC ;;
     bufs <-- nat_pool_apply bufs ;;
     printf "Received %u packets\n" [PInt nb_rx] ;;
     tx_each port_id bufs).

(** The first [n] iterations. *)
Definition main (n : nat) : M unit :=
  _ <-- call rte_eal_init ;;
  _ <-- call rte_timer_subsystem_init ;;
  hz <-- rte_get_timer_hz ;;
  mp <-- create_mempool ;;
  init_port port_id mp ;;
  ht <-- ip_hash_create ;;
  printf "Enter 1 to load outbound pool from nat.txt, 0 for default config\n" [] ;;
  r <-- scanf_int ;;
  let option := match r with Some v => v | None => 0 end in
  (if option =? 0 then nat_pool_create NAT_POOL_START NAT_POOL_RANGE hz
   else nat_load_from_file "nat.txt" hz) ;;
  p <-- gets pool ;;
  when (match p with None => true | Some _ => false end) (rte_exit EXIT_FAILURE) ;;
  nat_inbound_load_from_file "nat_inbound.txt" ;;
  forever n (loop_body hz) tt.

(** ** Invariant *)

Definition inbound_ok (p : nat_pool5) (h : gmap Z nat_inbound_entry) : Prop :=
  forall k a, hash_map (inbound_map p) !! k = Some a ->
    exists e, h !! a = Some e /\ k = le32 (in_public_ip e) /\ is_u32 (in_private_ip e).

Definition pool_ok (p : nat_pool5) (s : nat_state) : Prop :=
  pool s = Some p /\ pool_inv (outbound p) /\ inbound_ok p (in_heap s).

Lemma v5_get_pool p s t (Q : nat_pool5 -> nat_state -> trace -> Prop) X :
  pool s = Some p -> Q p s t -> wp get_pool Q X s t.
Proof. intros Hp HQ. unfold get_pool, wp, bind, gets. by rewrite Hp. Qed.
Lemma v5_put_pool p (Q : unit -> nat_state -> trace -> Prop) X s t :
  Q tt (NatState (Some p) (in_heap s) (timers s)) t -> wp (put_pool p) Q X s t.
Proof. done. Qed.
#[local] Ltac steps :=
  repeat first [wp_step | lazymatch goal with
                          | |- wp get_pool _ _ _ _ => eapply v5_get_pool; [done|]
                          | |- wp (put_pool _) _ _ _ _ => apply v5_put_pool end]; cbn beta.

(** Only the outbound part of the pool changed. *)
Definition same_inbound (p p' : nat_pool5) (s s' : nat_state) : Prop :=
  inbound_map p' = inbound_map p /\ in_heap s' = in_heap s.

Lemma inbound_ok_same p p' s s' :
  same_inbound p p' s s' -> inbound_ok p (in_heap s) -> inbound_ok p' (in_heap s').
Proof. intros [E1 E2] H k a. rewrite E1, E2. apply H. Qed.

(** ** The timer callbacks *)

Lemma expiry_timer_cb_spec p s t :
  pool_ok p s ->
  wp expiry_timer_cb
    (fun _ s' t' => exists p', pool_ok p' s' /\ same_inbound p p' s s' /\ timers s' = timers s /\
       pool_started p' = pool_started p /\
       swept (pool_size (outbound p)) (env_cycles t) (outbound p) (outbound p') /\ same_acct t t')
    (fun _ _ _ => False) s t.
Proof.
  intros (Hp & I & Hin). unfold expiry_timer_cb. wp_step. unfold wp at 1, rte_get_timer_cycles.
  set (now := env_cycles t). steps. pose proof (pi_range _ I) as Hrange.
  eapply wp_mono; [apply (wp_for (fun i _ s' t' => exists p', pool s' = Some p' /\
    same_inbound p p' s s' /\ timers s' = timers s /\ pool_started p' = pool_started p /\
    swept i now (outbound p) (outbound p') /\ same_acct t t')
    _ (fun _ _ _ => False))| |done].
  - intros i _ s1 t1 Hi (p1 & Hp1 & Hs & HT & Hst & S1 & A).
    destruct (slot_in_range (outbound p) i I) as [e He]; [lia|].
    destruct (swept_lookup _ _ _ _ _ S1 He) as [He1 Hidle].
    pose proof (swept_step _ _ _ _ _ S1 He) as S2.
    steps. eapply wp_deref; [done|]. rewrite Hidle.
    destruct (in_use e); [destruct (idle (outbound p) now e)|]; simpl in *; steps;
      [eexists (set_outbound _ p1)|exists p1|exists p1]; split_and!; done.
  - exists p. split_and!; try done. by apply swept_start.
  - intros _ s1 t1 (p1 & Hp1 & Hs & HT & Hst & S1 & A).
    rewrite Z.add_0_l, Z2Nat.id in S1 by lia. steps.
    exists p1. split; [split; [done|]|done]. split; [apply S1|]. by eapply inbound_ok_same.
Qed.

Lemma nat_pool_dump5_spec p s t :
  pool_ok p s ->
  wp nat_pool_dump (fun _ s' t' => s' = s /\ same_acct t t') (fun _ _ _ => False) s t.
Proof.
  intros (Hp & I & Hin). unfold nat_pool_dump. steps.
  eapply wp_mono; [apply (wp_for_each (fun _ _ s' t' => s' = s /\ same_acct t t')
    _ (fun _ _ _ => False))| |done].
  - intros pre [k a] post rs s1 t1 Hl (-> & A).
    assert (hash_map (inbound_map p) !! k = Some a) as Hk.
    { apply elem_of_map_to_list. rewrite <- hash_entries_law, Hl.
      rewrite elem_of_app, elem_of_cons. auto. }
    destruct (Hin k a Hk) as (e & He & _). steps. eapply wp_deref; [done|]. by steps.
  - done.
  - intros rs s1 t1 (-> & A). steps.
    eapply wp_mono; [apply (wp_for_each (fun _ _ s' t' => s' = s /\ same_acct t t')
      _ (fun _ _ _ => False))| |done].
    + intros pre [i e] post rs' s2 t2 _ (-> & A2). simpl. destruct (in_use e); by steps.
    + done.
    + intros rs' s2 t2 (-> & A2). by steps.
Qed.

Definition cleared (p : nat_pool5) : nat_pool5 := NatPool5 (clear (outbound p)) (inbound_map p) false.

Lemma table_timer_cb_spec p s t :
  pool_ok p s ->
  wp table_timer_cb
    (fun _ s' t' => s' = NatState (Some (cleared p)) (in_heap s) (timers s) /\
       pool_ok (cleared p) s' /\ same_acct t t')
    (fun _ _ _ => False) s t.
Proof.
  intros Hok. unfold table_timer_cb. wp_steps.
  eapply wp_mono; [by apply (nat_pool_dump5_spec p)| |done].
  intros _ s1 t1 [-> A]. destruct Hok as (Hp & I & Hin). steps.
  split; [done|]. split; [split; [done|]|done]. split; [by apply pool_inv_clear|done].
Qed.

(** What any number of callbacks may do: release slots. *)
Definition released (p p' : nat_pool5) : Prop :=
  forall i e, entries (outbound p) !! i = Some e ->
    entries (outbound p') !! i = Some e \/ entries (outbound p') !! i = Some (free_entry e).

Lemma released_trans p1 p2 p3 : released p1 p2 -> released p2 p3 -> released p1 p3.
Proof.
  intros H1 H2 i e He. destruct (H1 i e He) as [H|H]; [by apply H2|].
  right. by destruct (H2 _ _ H) as [H'|H'].
Qed.

Lemma cleared_lookup p i e :
  entries (outbound p) !! i = Some e -> entries (outbound (cleared p)) !! i = Some (free_entry e).
Proof. intros He. simpl. by rewrite list_lookup_fmap, He. Qed.

Lemma run_callback_spec tim p s t :
  pool_ok p s ->
  wp (run_callback tim)
    (fun _ s' t' => exists p', pool_ok p' s' /\ same_inbound p p' s s' /\ timers s' = timers s /\
       released p p' /\ same_config (outbound p) (outbound p') /\ same_acct t t' /\
       (tim = table_timer -> p' = cleared p))
    (fun _ _ _ => False) s t.
Proof.
  intros Hok. unfold run_callback. destruct (Z.eqb_spec tim expiry_timer) as [->|].
  - eapply wp_mono; [by apply expiry_timer_cb_spec| |done].
    intros _ s1 t1 (p1 & Hok1 & Hs & HT & _ & (I1 & C1 & E1) & A). exists p1. split_and!; try done.
    intros i e He. rewrite (E1 _ _ He). destruct (_ && _); auto.
  - destruct (Z.eqb_spec tim table_timer) as [->|].
    + eapply wp_mono; [by apply (table_timer_cb_spec p)| |done].
      intros _ s1 t1 (-> & Hok1 & A). exists (cleared p). split_and!; try done.
      intros i e He. right. by apply cleared_lookup.
    + wp_steps. exists p. split_and!; try done. intros i e He. by left.
Qed.

(** All slots are free and the table is empty. *)
Definition empty_pool (p : nat_pool5) : Prop :=
  Forall (fun e => in_use e = false) (entries (outbound p)) /\
  (forall e, e ∈ entries (outbound p) -> private_ip e = 0).

Lemma empty_cleared p : empty_pool (cleared p).
Proof.
  split; simpl.
  - apply Forall_forall. by intros e (x & -> & _)%list_elem_of_fmap.
  - by intros e (x & -> & _)%list_elem_of_fmap.
Qed.

Lemma released_empty p p' :
  released p p' -> zlen (entries (outbound p')) = zlen (entries (outbound p)) ->
  empty_pool p -> empty_pool p'.
Proof.
  intros Hr Hl [H1 H2].
  assert (forall i e', entries (outbound p') !! i = Some e' -> in_use e' = false /\ private_ip e' = 0) as G.
  { intros i e' He'. destruct (entries (outbound p) !! i) as [e|] eqn:He.
    - assert (e ∈ entries (outbound p)) as Hin by (by eapply list_elem_of_lookup_2).
      rewrite Forall_forall in H1.
      destruct (Hr i e He) as [H|H]; rewrite H in He'; injection He' as <-; [|done].
      split; [by apply H1|by apply H2].
    - apply lookup_ge_None in He. apply lookup_lt_Some in He'. unfold zlen in *. lia. }
  split.
  - apply Forall_lookup. intros i e He. by eapply G.
  - intros e [i He]%list_elem_of_lookup. by eapply G.
Qed.

Lemma rte_timer_manage_spec p s t :
  pool_ok p s ->
  wp rte_timer_manage
    (fun _ s' t' => exists p', pool_ok p' s' /\ same_inbound p p' s s' /\ released p p' /\
       timers s' = (rte_timer_expired (timers s) (env_cycles t)).2 /\ same_acct t t' /\
       (table_timer ∈ (rte_timer_expired (timers s) (env_cycles t)).1 -> empty_pool p'))
    (fun _ _ _ => False) s t.
Proof.
  intros Hok. unfold rte_timer_manage. wp_step. unfold wp at 1, rte_get_timer_cycles.
  set (now := env_cycles t). wp_steps. set (r := rte_timer_expired (timers s) now).
  eapply wp_mono; [apply (wp_for_each (fun pre _ s' t' => exists p', pool_ok p' s' /\
    same_inbound p p' s s' /\ released p p' /\ same_config (outbound p) (outbound p') /\
    timers s' = r.2 /\ same_acct t t' /\ (table_timer ∈ pre -> empty_pool p'))
    _ (fun _ _ _ => False))| |done].
  - intros pre tim post rs s1 t1 _ (p1 & Hok1 & [Hs1 Hs2] & Hr & (C1 & C2 & C3) & HT & A & He).
    eapply wp_mono; [by apply run_callback_spec| |done].
    intros _ s2 t2 (p2 & Hok2 & [Hs3 Hs4] & HT2 & Hr2 & (D1 & D2 & D3) & A2 & Hc). exists p2.
    split_and!; try congruence; try done.
    + split; congruence.
    + by eapply released_trans.
    + split_and!; congruence.
    + by eapply same_acct_trans.
    + intros Hin. apply elem_of_app in Hin as [Hin|Hin%list_elem_of_singleton].
      * apply (released_empty p1); [done| |by apply He].
        destruct Hok1 as (_ & [] & _), Hok2 as (_ & [] & _). congruence.
      * rewrite Hc by done. apply empty_cleared.
  - exists p. destruct Hok as (Hp & I & Hin). split_and!; try done.
    + intros i e He. by left.
    + intros H. by apply not_elem_of_nil in H.
  - intros rs s1 t1 (p1 & ? & ? & ? & _ & ? & ? & ?). wp_steps. exists p1. by split_and!.
Qed.

(** ** Inbound mappings *)

Lemma inbound_ok_add p h a e v :
  inbound_ok p h -> h !! a = None -> is_u32 (in_private_ip e) ->
  inbound_ok (NatPool5 (outbound p) (rte_hash_add_key_data (inbound_map p) (le32 (in_public_ip e)) a).2 v)
    (<[a := e]> h).
Proof.
  intros Hin Ha He k b. simpl. rewrite hash_add_law.
  assert (forall k b, hash_map (inbound_map p) !! k = Some b ->
    exists e', <[a := e]> h !! b = Some e' /\ k = le32 (in_public_ip e') /\ is_u32 (in_private_ip e')) as G.
  { intros k' b' Hk. destruct (Hin k' b' Hk) as (e' & He' & Hr). exists e'.
    rewrite lookup_insert_ne; [done|congruence]. }
  destruct (_ =? 0); [|apply G]. rewrite lookup_insert. case_decide; [|apply G].
  intros [= <-]. exists e. by rewrite lookup_insert_eq.
Qed.

(** The heap of inbound entries lies in allocated memory. *)
Definition heap_live (s : nat_state) (t : trace) : Prop :=
  forall a, is_Some (in_heap s !! a) -> a ∈ live_blocks t.

Definition init_ok (s : nat_state) (t : trace) : Prop :=
  (exists p, pool_ok p s) /\ heap_live s t /\ rx_ids t = [] /\ out_ids t = [] /\ refused_ids t = [].

Lemma nat_inbound_add_spec pub_s priv_s p s t :
  pool_ok p s -> heap_live s t ->
  wp (nat_inbound_add pub_s priv_s)
    (fun _ s' t' => exists p' a e, pool_ok p' s' /\ heap_live s' t' /\ same_acct t t' /\
       outbound p' = outbound p /\ in_heap s' = <[a := e]> (in_heap s) /\
       (forall v, inet_pton pub_s = Some v -> in_public_ip e = v) /\
       (forall v, inet_pton priv_s = Some v -> in_private_ip e = v) /\
       hash_map (inbound_map p') = <[le32 (in_public_ip e) := a]> (hash_map (inbound_map p)) /\
       is_u32 (in_public_ip e))
    (fun c _ t' => c = EXIT_FAILURE /\ same_acct t t') s t.
Proof.
  intros (Hp & I & Hin) Hl. unfold nat_inbound_add. wp_step. apply wp_malloc; [by wp_steps|].
  intros a Ha Hfresh. apply Z.eqb_neq in Ha. rewrite Ha. wp_steps; [done|].
  assert (in_heap s !! a = None) as Hn.
  { destruct (in_heap s !! a) eqn:G; [|done]. destruct Hfresh. apply Hl. by rewrite G. }
  set (t1 := EvMalloc sizeof_nat_inbound_entry a :: t).
  assert (forall e t2, is_u32 (in_private_ip e) -> is_u32 (in_public_ip e) -> same_acct t t2 -> live_blocks t2 = live_blocks t1 ->
    (forall v, inet_pton pub_s = Some v -> in_public_ip e = v) ->
    (forall v, inet_pton priv_s = Some v -> in_private_ip e = v) ->
    wp (p0 <-- get_pool ;;
        let r := rte_hash_add_key_data (inbound_map p0) (le32 (in_public_ip e)) a in
        put_pool (NatPool5 (outbound p0) r.2 (pool_started p0)) ;;
        when (r.1 <? 0) (rte_exit EXIT_FAILURE) ;;
        printf "Inbound mapping added: %s -> %s\n" [PStr pub_s; PStr priv_s])
    (fun _ s' t' => exists p' a e, pool_ok p' s' /\ heap_live s' t' /\ same_acct t t' /\
       outbound p' = outbound p /\ in_heap s' = <[a := e]> (in_heap s) /\
       (forall v, inet_pton pub_s = Some v -> in_public_ip e = v) /\
       (forall v, inet_pton priv_s = Some v -> in_private_ip e = v) /\
       hash_map (inbound_map p') = <[le32 (in_public_ip e) := a]> (hash_map (inbound_map p)) /\
       is_u32 (in_public_ip e))
    (fun c _ t' => c = EXIT_FAILURE /\ same_acct t t')
    (NatState (pool s) (<[a := e]> (in_heap s)) (timers s)) t2) as G.
  { intros e t2 He Hpe A2 L2 E1 E2. wp_step. eapply v5_get_pool; [exact Hp|]. cbv zeta. steps; [done|].
    eexists _, a, e. split; [split; [done|split; [done|]]|split; [|split; [done|split; [done|split; [done|]]]]].
    - by apply inbound_ok_add.
    - intros b. simpl. rewrite L2, lookup_insert. case_decide; [subst; set_solver|].
      intros Hb. apply Hl in Hb. simpl. set_solver.
    - split; [done|]. split; [done|]. split; [|done]. simpl. rewrite hash_add_law.
      pose proof (hash_add_ret (inbound_map p) (le32 (in_public_ip e)) a).
      destruct (Z.eqb_spec (rte_hash_add_key_data (inbound_map p) (le32 (in_public_ip e)) a).1 0); [done|].
      lia. }
  apply wp_inet_pton_into; [intros v Hv|intros v bs Hn' Hv]; wp_steps;
    (apply wp_inet_pton_into; [intros w Hw|intros w bs' Hn'' Hw]; cbn beta; wp_step; wp_step; cbn beta;
     apply (G (NatInboundEntry v w)); simpl; try done;
     try (by eapply inet_pton_range); try congruence).
Qed.

(** ** Packets *)

(** Slot [i] is the first one not in use. *)
Definition is_first_free (es : list nat_pool_entry) (i : Z) : Prop :=
  0 <= i /\ (exists e, es !! Z.to_nat i = Some e /\ in_use e = false) /\
  forall j e, 0 <= j < i -> es !! Z.to_nat j = Some e -> in_use e = true.

Lemma first_free_spec es i r :
  first_free i es = r -> 0 <= i -> i + zlen es <= 2 ^ 32 ->
  (r < 0 \/ r < 2 ^ 31 /\ i <= r /\ is_first_free es (r - i)) /\
  (r < 0 -> i + zlen es <= 2 ^ 31 -> Forall (fun e => in_use e = true) es).
Proof.
  revert i. induction es as [|e es IH]; intros i; cbn [first_free].
  - intros <- Hi Hl. split; [by left|done].
  - unfold zlen. cbn [length]. intros Hr Hi Hl. destruct (in_use e) eqn:Hu.
    + destruct (IH (i + 1) Hr) as [H1 H2]; [lia|unfold zlen; lia|]. split.
      * destruct H1 as [H1|(H1 & H3 & H4 & (x & Hx & Hxu) & H5)]; [by left|right].
        split; [done|]. split; [lia|]. split; [lia|]. split.
        -- exists x. replace (Z.to_nat (r - i)) with (S (Z.to_nat (r - (i + 1)))) by lia. done.
        -- intros j y Hj. destruct (decide (j = 0)) as [->|]; [by intros [= <-]|].
           replace (Z.to_nat j) with (S (Z.to_nat (j - 1))) by lia. apply H5. lia.
      * intros Hn Hb. constructor; [done|]. apply H2; [done|]. unfold zlen. lia.
    + assert (is_u32 i) as Hi32 by words. split.
      * destruct (Z.ltb_spec (s32 i) 0); [left; lia|right].
        destruct (s32_nonneg i Hi32) as [E1 E2]; [lia|]. split; [lia|]. split; [lia|].
        replace (r - i) with 0 by lia. split; [lia|]. split; [by exists e|]. lia.
      * intros Hn Hb. rewrite s32_small in Hr by lia. lia.
Qed.

Definition is_ipv4 (m : mbuf) : bool := load16 m ETH_TYPE =? rte_cpu_to_be_16 RTE_ETHER_TYPE_IPV4.

(** [ether_type] on the wire: 0x0800. *)
Definition ip4_frame (m : mbuf) : Prop := load_bytes m 12 2 = [8; 0].

Lemma is_ipv4_frame m : bytes_ok m -> is_ipv4 m = true <-> ip4_frame m.
Proof.
  intros Hb. unfold is_ipv4, ip4_frame.
  replace (rte_cpu_to_be_16 RTE_ETHER_TYPE_IPV4) with (of_le16 8 0)
    by (by rewrite cpu_to_be_16_law).
  rewrite load16_is by done. apply bool_decide_eq_true.
Qed.

(** The address that slot [i] of the pool lends, in network order. *)
Definition pool_address (o : nat_pool) (i : Z) : Z := rte_cpu_to_be_32 (u32 (pool_start_ip o + i)).

(** Slot [i] of [o'] was written: it is lent to [ip], last seen at [now]; every other
    slot and the configuration are those of [o]. *)
Definition slot_written (o o' : nat_pool) (i ip now : Z) : Prop :=
  entries o' = <[Z.to_nat i := NatPoolEntry ip (pool_address o i) now true]> (entries o) /\
  same_config o o'.

(** What version 5 does to one packet, without reference to its code: from the pool
    [p] and the inbound entries [h], the packet [m] (source at byte 26, destination
    at byte 30) gives the packet kept, if any, the outbound part of the pool
    afterwards and the times read on the way. *)
Inductive translated (p : nat_pool5) (h : gmap Z nat_inbound_entry) (m : mbuf) :
    option mbuf -> nat_pool -> list Z -> Prop :=
| TrOther :
    ~ ip4_frame m -> translated p h m (Some m) (outbound p) []
| TrInbound a e m' :
    ip4_frame m -> hash_map (inbound_map p) !! le32 (load32 m 30) = Some a ->
    h !! a = Some e -> in_public_ip e = load32 m 30 ->
    (room m 54 -> readdressed m m' 30 (in_private_ip e)) ->
    translated p h m (Some m') (outbound p) []
| TrKnown i now m' o' :
    ip4_frame m -> hash_map (inbound_map p) !! le32 (load32 m 30) = None ->
    hash_map (map_ (outbound p)) !! le32 (load32 m 26) = Some i ->
    0 <= i < pool_size (outbound p) ->
    slot_written (outbound p) o' i (load32 m 26) now -> map_ o' = map_ (outbound p) ->
    (room m 54 -> readdressed m m' 26 (pool_address (outbound p) i)) ->
    translated p h m (Some m') o' [now]
| TrNew i now m' o' :
    ip4_frame m -> hash_map (inbound_map p) !! le32 (load32 m 30) = None ->
    hash_map (map_ (outbound p)) !! le32 (load32 m 26) = None ->
    is_first_free (entries (outbound p)) i ->
    slot_written (outbound p) o' i (load32 m 26) now ->
    hash_map (map_ o') =
      (if (rte_hash_add_key_data (map_ (outbound p)) (le32 (load32 m 26)) i).1 =? 0
       then <[le32 (load32 m 26) := i]> (hash_map (map_ (outbound p)))
       else hash_map (map_ (outbound p))) ->
    (room m 54 -> readdressed m m' 26 (pool_address (outbound p) i)) ->
    translated p h m (Some m') o' [now]
| TrExhausted :
    ip4_frame m -> hash_map (inbound_map p) !! le32 (load32 m 30) = None ->
    hash_map (map_ (outbound p)) !! le32 (load32 m 26) = None ->
    (pool_size (outbound p) <= 2 ^ 31 -> Forall (fun e => in_use e = true) (entries (outbound p))) ->
    translated p h m None (outbound p) [].

(** The words of inbound entries are 32-bit. *)
Definition heap_u32 (h : gmap Z nat_inbound_entry) : Prop :=
  forall a e, h !! a = Some e -> is_u32 (in_public_ip e).

Lemma slot_address p i e :
  pool_inv p -> 0 <= i -> entries p !! Z.to_nat i = Some e ->
  public_ip e = pool_address p i /\ is_u32 (public_ip e).
Proof.
  intros I Hi He. rewrite (pi_public _ I _ _ He), Z2Nat.id by done. split; [done|].
  rewrite cpu_to_be_32_law by apply u32_range. auto with words.
Qed.

Lemma nat_packet5_spec p m s t :
  pool_ok p s -> heap_u32 (in_heap s) -> bytes_ok m ->
  wp (nat_packet m)
    (fun om s' t' => handled m om t t' /\ exists p' now, pool_ok p' s' /\ same_inbound p p' s s' /\
       timers s' = timers s /\ pool_started p' = pool_started p /\
       translated p (in_heap s) m om (outbound p') now /\ readings t' = readings t ++ now)
    (fun _ _ _ => False) s t.
Proof.
  intros (Hp & I & Hin) Hh32 Hb. unfold nat_packet. fold (is_ipv4 m).
  pose proof (is_ipv4_frame m Hb) as H4. destruct (is_ipv4 m); simpl negb; cbn iota.
  2:{ steps. split; [by apply handled_same|]. exists p, []. split_and!; try done.
      - apply TrOther. intros H. by apply H4 in H.
      - by rewrite app_nil_r. }
  destruct H4 as [H4 _]. specialize (H4 eq_refl).
  set (src := load32 m IP_SRC). assert (is_u32 src) as Hsrc by (by apply load32_range).
  steps. rewrite !hash_lookup_law.
  destruct (hash_map (inbound_map p) !! le32 (load32 m IP_DST)) as [a|] eqn:Ha.
  { destruct (Hin _ _ Ha) as (e & He & Hk & Hu). steps. eapply wp_deref; [done|]. steps.
    split; [apply handled_same; [by rewrite rewrite_and_recalc_id|done]|].
    exists p, []. split_and!; try done; [|by rewrite app_nil_r]. apply (TrInbound _ _ _ a e); try done.
    - symmetry. apply le32_inj; [by apply load32_range|by eapply Hh32|done].
    - intros Hr. by apply (rewrite_readdressed m _ false). }
  destruct (hash_map (map_ (outbound p)) !! le32 src) as [data|] eqn:Hd.
  - destruct (pi_map _ I _ _ Hd) as (Hr & e & He & Hu & Hk). rewrite s32_small by done.
    apply le32_inj in Hk; [|done|by apply (pi_private _ I _ _ He)].
    destruct (slot_address _ data e I) as [Ea Eu]; [lia|done|].
    steps. eapply wp_deref; [apply slot_at_Some; split; [lia|exact He]|]. steps.
    split; [apply handled_same; [by rewrite rewrite_and_recalc_id|done]|].
    exists (set_outbound (touch data e v (outbound p)) p), [v].
    split; [split; [done|]; split; [by apply pool_inv_touch|done]|].
    split_and!; try done. apply (TrKnown _ _ _ data); try done.
    + split; [lia|]. pose proof (pool_lookup_lt _ _ _ I He). lia.
    + split; [|by split_and!]. simpl. by rewrite Ea, <- Hk, Hu.
    + intros Hr'. rewrite <- Ea. by apply (rewrite_readdressed m _ true).
  - destruct (first_free_spec (entries (outbound p)) 0 (find_free_slot p) eq_refl) as [H1 H2];
      [lia|rewrite (pi_size _ I); pose proof (pi_range _ I); lia|].
    set (slot := find_free_slot p) in *. steps.
    + apply Z.ltb_lt in H. split; [by eapply handled_free|]. exists p, []. split_and!; try done.
      * apply TrExhausted; try done. intros Hs. apply H2; [done|]. by rewrite (pi_size _ I).
      * by rewrite app_nil_r.
    + apply Z.ltb_ge in H. destruct H1 as [?|(Hlt & _ & Hf)]; [lia|].
      rewrite Z.sub_0_r in Hf. pose proof Hf as (H0 & (e & He & Hu) & _).
      destruct (slot_address _ slot e I) as [Ea Eu]; [lia|done|].
      steps. eapply wp_deref; [by apply slot_at_Some|]. steps.
      split; [apply handled_same; [by rewrite rewrite_and_recalc_id|done]|].
      exists (set_outbound (assign slot e src v (outbound p)) p), [v].
      split; [split; [done|]; split; [by apply pool_inv_assign|done]|].
      split_and!; try done. apply (TrNew _ _ _ slot); try done.
      * split; [|by split_and!]. simpl. by rewrite Ea.
      * simpl. apply hash_add_law.
      * intros Hr'. rewrite <- Ea. by apply (rewrite_readdressed m _ true).
Qed.

(** ** The loop *)

Definition state_ok (s : nat_state) : Prop := (exists p, pool_ok p s) /\ heap_u32 (in_heap s).
Definition run_ok (s : nat_state) (t : trace) : Prop := state_ok s /\ owned (refused_ids t) t.

Lemma v5_loop_spec hz s t :
  run_ok s t -> wp (loop_body hz tt) (fun _ s' t' => run_ok s' t') (fun _ _ _ => False) s t.
Proof.
  intros [[[p Hok] Hh] Ho]. unfold loop_body. wp_step.
  eapply wp_mono; [by apply rte_timer_manage_spec| |done].
  intros _ s1 t1 (p1 & Hok1 & [_ Hs1] & _ & _ & A & _). apply (owned_acct _ _ _ A) in Ho.
  destruct A as (_ & _ & _ & E1). rewrite <- E1 in Ho. rewrite <- Hs1 in Hh. clear p Hok E1 Hs1 s t.
  wp_step. apply wp_rx. intros bufs _ Hb.
  apply (owned_rx _ port_id 0 BURST_SIZE bufs) in Ho. set (t2 := EvRx _ _ _ bufs :: t1) in *.
  change (refused_ids t1) with (refused_ids t2) in Ho. wp_step.
  { assert (forall p' s', pool_ok p' s' -> heap_u32 (in_heap s') ->
      forall t', same_acct t2 t' ->
      wp (nat_table_timer_arm hz TABLE_TIMEOUT_SEC ;;
          bufs' <-- nat_pool_apply bufs ;;
          printf "Received %u packets\n" [PInt (zlen bufs)] ;;
          tx_each port_id bufs')
        (fun _ s' t' => run_ok s' t') (fun _ _ _ => False) s' t') as G.
    { intros p' s' Hok' Hh' t' A. unfold nat_table_timer_arm. wp_steps.
      set (t3 := EvCycles v :: t').
      assert (owned (ids bufs ++ refused_ids t3) t3) as Ho3.
      { destruct A as (A1 & A2 & A3 & A4) eqn:HA. change (refused_ids t3) with (refused_ids t').
        rewrite A4. by eapply owned_acct. }
      eapply wp_mono; [apply (wp_for_each_owned (fun s _ => state_ok s) bytes_ok nat_packet bufs
        (refused_ids t3) (fun _ _ _ => False))| |done].
      - intros m s4 t4 Hm [[p4 Hok4] Hh4]. eapply wp_mono; [by apply nat_packet5_spec| |done].
        intros om s5 t5 (Hhd & p5 & now & Hok5 & [_ Hs5] & _). split; [|done].
        split; [by exists p5|]. by rewrite Hs5.
      - done.
      - destruct Hok' as (? & ? & ?). split; [by exists p'|done].
      - done.
      - intros oms s4 t4 (Hok4 & E4 & Ho4). rewrite <- E4 in Ho4. wp_steps.
        eapply wp_mono; [by apply (tx_each_spec _ _ [])| |done].
        by intros _ s5 t5 (-> & Ho5 & _). }
    destruct Hok1 as (Hp1 & I1 & Hin1). wp_step. eapply v5_get_pool; [exact Hp1|]. wp_step. wp_step.
    - wp_step. apply v5_put_pool. wp_steps. apply (G (NatPool5 (outbound p1) (inbound_map p1) true));
        [by split|done|done].
    - apply (G p1); [by split|done|done]. }
  assert (bufs = []) as Hnil.
  { destruct bufs; [done|]. apply Z.ltb_ge in H. unfold zlen in H. simpl in H. lia. }
  rewrite Hnil in Ho. split; [split; [by exists p1|done]|exact Ho].
Qed.

Lemma nat_pool_create5_spec start range hz s t :
  0 <= range < 2 ^ 32 ->
  wp (nat_pool_create start range hz)
    (fun _ s' t' => same_acct t t' /\ in_heap s' = in_heap s /\ exists p, pool_ok p s')
    (fun c _ t' => c = EXIT_FAILURE /\ same_acct t t') s t.
Proof.
  intros Hr. unfold nat_pool_create. wp_step. apply wp_malloc; [by wp_steps|].
  intros a Ha _. apply Z.eqb_neq in Ha. rewrite Ha. wp_steps; try done. apply wp_malloc; [by wp_steps|].
  intros b Hb _. apply Z.eqb_neq in Hb. rewrite Hb. wp_steps; try done.
  assert (forall v T h, is_u32 v -> exists p, pool_ok p (NatState (Some (NatPool5
    (NatPool (pool_fill (rte_be_to_cpu_32 v) range) (rte_be_to_cpu_32 v) range
       (u64 (hz * IDLE_TIMEOUT_SEC)) (rte_hash_empty (u32 (range * 2)) sizeof_uint32))
    (rte_hash_empty MAX_INBOUND_ENTRIES sizeof_uint32) false)) h T)) as HI.
  { intros v T h Hv. eexists. split; [done|]. split.
    - apply pool_inv_init; [|lia|apply hash_empty_law].
      rewrite be_to_cpu_32_law by done. auto with words.
    - intros k x. simpl. by rewrite hash_empty_law, lookup_empty. }
  apply wp_inet_pton_into; [intros v Hv%inet_pton_range|intros v bs _ Hv]; steps; try done;
    (split; [done|]; split; [done|]; by apply HI).
Qed.

(** While the mappings are loaded: nothing was received yet. *)
Definition loading (s : nat_state) (t : trace) : Prop :=
  state_ok s /\ heap_live s t /\ rx_ids t = [] /\ out_ids t = [] /\ refused_ids t = [].

Lemma loading_acct s t t' :
  same_acct t t' -> live_blocks t' = live_blocks t -> loading s t -> loading s t'.
Proof.
  intros (A1 & A2 & _ & A4) L (H1 & H2 & H3 & H4 & H5).
  split; [done|]. split; [intros a; rewrite L; apply H2|]. by rewrite A1, A2, A4.
Qed.

Lemma nat_inbound_lines_spec lines count s t :
  loading s t ->
  wp (inbound_lines lines count) (fun _ s' t' => loading s' t')
    (fun c _ t' => c = EXIT_FAILURE /\ rx_ids t' = []) s t.
Proof.
  revert count s t. induction lines as [|line rest IH]; intros count s t L; [done|].
  cbn [inbound_lines]. destruct (blank_or_comment line); [by apply IH|].
  destruct (scan_pair line) as [[a b]|].
  - destruct L as ([[p Hok] Hh] & Hl & H3 & H4 & H5). wp_step.
    eapply wp_mono; [by apply (nat_inbound_add_spec _ _ p)| |].
    + intros _ s1 t1 (p1 & x & e & Hok1 & Hl1 & (A1 & A2 & _ & A4) & _ & Hheap & _ & _ & _ & He).
      apply IH. split; [split; [by exists p1|]|split; [done|by rewrite A1, A2, A4]].
      intros y z. rewrite Hheap, lookup_insert. case_decide; [by intros [= <-]|apply Hh].
    + intros c s1 t1 (-> & A1 & _). by rewrite A1.
  - wp_steps. apply IH. by eapply loading_acct.
Qed.

Lemma v5_main_spec n :
  wp (main n) (fun _ s t => run_ok s t) (fun c _ t => c = EXIT_FAILURE /\ rx_ids t = []) nat_state0 [].
Proof.
  unfold main, create_mempool, init_port, ip_hash_create.
  assert (forall s t, loading s t ->
    wp (nat_inbound_load_from_file "nat_inbound.txt" ;; forever n (loop_body env_hz) tt)
      (fun _ s t => run_ok s t) (fun c _ t => c = EXIT_FAILURE /\ rx_ids t = []) s t) as G.
  { intros s t L. wp_step. eapply (wp_mono _ (fun _ s' t' => loading s' t') _
      (fun c _ t => c = EXIT_FAILURE /\ rx_ids t = [])); [| |done].
    - unfold nat_inbound_load_from_file. wp_steps. destruct c as [content|].
      + wp_step. eapply wp_mono; [apply nat_inbound_lines_spec; by eapply loading_acct| |done].
        intros k s1 t1 L1. wp_steps. by eapply loading_acct.
      + wp_steps. by eapply loading_acct.
    - intros _ s1 t1 (Hs & _ & H3 & H4 & H5).
      apply (wp_forever (fun _ s t => run_ok s t)).
      + intros [] s2 t2 R. eapply wp_mono; [by apply v5_loop_spec|done|done].
      + split; [done|]. unfold owned. by rewrite H3, H4, H5. }
  assert (forall s t t', in_heap s = ∅ -> same_acct t t' -> rx_ids t = [] -> out_ids t = [] ->
    refused_ids t = [] -> (exists p, pool_ok p s) -> loading s t') as GL.
  { intros s t t' Hh (A1 & A2 & _ & A4) H3 H4 H5 Hp.
    split; [split; [done|]; intros a e; by rewrite Hh, lookup_empty|].
    split; [intros a; rewrite Hh, lookup_empty; by intros []|]. by rewrite A1, A2, A4. }
  wp_steps; try done. apply wp_scanf_int. intros r'. wp_steps.
  - eapply wp_mono; [apply nat_pool_create5_spec; done| |by intros ? ? ? (-> & -> & _)].
    intros _ s1 t1 (A & Hh & p & Hok). wp_step. apply wp_gets.
    pose proof Hok as (-> & _). wp_step. apply wp_when; [done|]. intros _.
    apply G. eapply GL; [by rewrite Hh|exact A|done|done|done|by exists p].
  - unfold nat_load_from_file. wp_steps. destruct c as [content|].
    2:{ wp_steps; [done|done]. }
    wp_step. eapply wp_mono; [apply pool_config_spec| |done].
    intros [w range] s1 t1 (Hr & -> & A & _). cbn beta iota.
    assert (range = 0 \/ 0 <= range < 2 ^ 32) as Hrange.
    { destruct (head (omap parse_line (file_lines content))) as [[w' r'']|] eqn:Hh; simpl in Hr;
        injection Hr as -> ->; [right|by left].
      apply head_Some in Hh as [l Hl].
      assert ((w', r'') ∈ omap parse_line (file_lines content)) as Hin by (rewrite Hl; left).
      apply list_elem_of_omap in Hin as (line & _ & Hp). by eapply parse_line_range. }
    destruct A as (A1 & A2 & _ & A4).
    destruct (Z.eqb_spec range 0) as [->|Hne]; [wp_steps; [split; [done|exact A1]|done]|].
    wp_steps. eapply wp_mono; [apply nat_pool_create5_spec; lia| |].
    + intros _ s2 t2 (A' & Hh & p & Hok). wp_step. apply wp_gets.
      pose proof Hok as (-> & _). wp_step. apply wp_when; [done|]. intros _.
      apply G. eapply GL; [by rewrite Hh|exact A'|exact A1|exact A2|exact A4|by exists p].
    + intros c s2 t2 (-> & B1 & _). split; [done|]. rewrite B1. exact A1.
Qed.

(** C10: Translation in version 5, by the bytes on the wire. An IPv4 packet to a statically
    mapped public address is sent on to the private address mapped to it, and the
    pool does not change; the source of any other one is replaced by the address
    that its slot of the pool lends, with the time read stored in that slot: the
    slot the table has for the source, or else the first free one, which is then
    lent to the source and entered into the table unless the table refuses; it
    is dropped, and freed, only when all slots are in use. Other packets pass.
    In a translated packet only that address and the checksums change, and the
    checksums are valid; timers, mappings and the other slots stay. *)
Theorem nat_packet5_correct p m s t :
  pool_ok p s -> heap_u32 (in_heap s) -> bytes_ok m ->
  wp (nat_packet m)
    (fun om s' t' => handled m om t t' /\ exists p' now, pool_ok p' s' /\ same_inbound p p' s s' /\
       timers s' = timers s /\ pool_started p' = pool_started p /\
       translated p (in_heap s) m om (outbound p') now /\ readings t' = readings t ++ now)
    (fun _ _ _ => False) s t.
Proof. apply nat_packet5_spec. Qed.

(** The expiry timer releases exactly the slots that have been idle for five seconds
    at the time its callback reads, with their table entries, and touches
    neither the other slots nor the inbound mappings. *)
Theorem expiry_timer_correct p s t :
  pool_ok p s ->
  wp expiry_timer_cb
    (fun _ s' _ => exists p', pool_ok p' s' /\ same_inbound p p' s s' /\
       swept (pool_size (outbound p)) (env_cycles t) (outbound p) (outbound p'))
    (fun _ _ _ => False) s t.
Proof.
  intros Hok. eapply wp_mono; [by apply expiry_timer_cb_spec| |done].
  intros _ s' t' (p' & ? & ? & _ & _ & ? & _). by exists p'.
Qed.

(** When [rte_timer_manage] runs at a time at which the table timer is due, all slots
    are free afterwards, whatever else is due and in whatever order; when it is
    not due, slots are at most released. The inbound mappings always stay. *)
Theorem table_timer_correct p s t :
  pool_ok p s ->
  wp rte_timer_manage
    (fun _ s' _ => exists p', pool_ok p' s' /\ same_inbound p p' s s' /\ released p p' /\
       ((exists d per, pending (timers s) !! table_timer = Some (d, per) /\ d <= env_cycles t) ->
        empty_pool p'))
    (fun _ _ _ => False) s t.
Proof.
  intros Hok. eapply wp_mono; [by apply rte_timer_manage_spec| |done].
  intros _ s' t' (p' & ? & ? & ? & _ & _ & He). exists p'. split_and!; try done.
  intros Hd. apply He. by apply timer_expired_iff.
Qed.

(** [nat_inbound_add] of two address strings makes the table lead from the first
    address to an entry with the second, leaves every other mapping, and makes
    the program exit when memory or the table refuse. *)
Theorem nat_inbound_add_correct pub_s priv_s pub priv p s t :
  pool_ok p s -> heap_live s t -> inet_pton pub_s = Some pub -> inet_pton priv_s = Some priv ->
  wp (nat_inbound_add pub_s priv_s)
    (fun _ s' t' => exists p' a, pool_ok p' s' /\ heap_live s' t' /\
       in_heap s' !! a = Some (NatInboundEntry pub priv) /\ in_heap s' = <[a := NatInboundEntry pub priv]> (in_heap s) /\
       hash_map (inbound_map p') = <[le32 pub := a]> (hash_map (inbound_map p)))
    (fun c _ _ => c = EXIT_FAILURE) s t.
Proof.
  intros Hok Hl H1 H2. eapply wp_mono; [by apply (nat_inbound_add_spec _ _ p)| |by intros ? ? ? [? _]].
  intros _ s' t' (p' & a & [x y] & ? & ? & _ & _ & Hh & E1 & E2 & Hm & _).
  specialize (E1 _ H1). specialize (E2 _ H2). simpl in *. subst x y.
  exists p', a. split_and!; try done. rewrite Hh. apply lookup_insert_eq.
Qed.

(** Version 5 never faults, with any answers of its environment and any configuration
    files, and exits only with EXIT_FAILURE before traffic; but what a
    transmission refuses is never freed, and exactly that is lost. *)
Theorem v5_main_leaks_refused n :
  wp (main n) (fun _ s t => state_ok s /\ owned (refused_ids t) t)
    (fun c _ t => c = EXIT_FAILURE /\ rx_ids t = []) nat_state0 [].
Proof. apply v5_main_spec. Qed.

End NatV5.

(** ** Witnesses *)

#[local] Existing Instances sim_byteorder sim_cksum sim_hash sim_timer.
#[local] Instance wenv : Env := sim_env quiet_script.

Definition w_packet : mbuf := mk_packet 1 [10; 0; 0; 7] [9; 9; 9; 9] IPPROTO_UDP [4; 210] [0; 80].
Definition w_pool : nat_pool5 := NatPool5
  (NatPool (pool_fill (of_le32 10 113 0 203) 2) (of_le32 10 113 0 203) 2 5000
     (rte_hash_empty 4 sizeof_uint32))
  (rte_hash_empty 256 sizeof_uint32) false.
Definition w_state : nat_state := NatState (Some w_pool) ∅ {[ 2 := (0, 0) ]}.
Lemma w_ok : pool_ok w_pool w_state.
Proof.
  split; [done|]. split; [apply pool_inv_init; [by split|done|done]|].
  intros k a. simpl. by rewrite lookup_empty.
Qed.
Lemma v5_w_bytes : bytes_ok w_packet. Proof. by apply Forall_u8_dec. Qed.

(** The first packet of a source; then another one of it, found in the table. *)
Definition w_state1 : nat_state :=
  match nat_packet w_packet w_state [] with Done _ s _ => s | _ => w_state end.
Definition w_pool1 : nat_pool5 := default w_pool (pool w_state1).

Lemma w_ok1 : pool_ok w_pool1 w_state1.
Proof.
  pose proof (nat_packet5_spec w_pool w_packet w_state [] w_ok ltac:(done) v5_w_bytes) as H.
  unfold wp in H. unfold w_pool1, w_state1.
  destruct (nat_packet w_packet w_state []) as [om s' t'| |]; [|done|done].
  destruct H as (_ & p' & now & Hok & _). pose proof Hok as (-> & _). exact Hok.
Qed.

Lemma w_heap1 : heap_u32 (in_heap w_state1).
Proof. assert (in_heap w_state1 = ∅) as -> by (by vm_compute). intros a e. by rewrite lookup_empty. Qed.

Lemma nat_packet5_correct_witness :
  (entries (outbound w_pool1) !! 0%nat = Some (NatPoolEntry (of_le32 10 0 0 7) (of_le32 203 0 113 10) 0 true) /\
   hash_map (map_ (outbound w_pool1)) !! [10; 0; 0; 7] = Some 0) /\
  wp (nat_packet w_packet)
    (fun om s' t' => handled w_packet om [] t' /\ exists p' now, pool_ok p' s' /\
       same_inbound w_pool1 p' w_state1 s' /\
       timers s' = timers w_state1 /\ pool_started p' = pool_started w_pool1 /\
       translated w_pool1 (in_heap w_state1) w_packet om (outbound p') now /\ readings t' = readings [] ++ now)
    (fun _ _ _ => False) w_state1 [].
Proof.
  split; [by vm_compute|].
  apply nat_packet5_correct; [apply w_ok1|apply w_heap1|apply v5_w_bytes].
Defined.

Lemma expiry_timer_correct_witness :
  wp expiry_timer_cb
    (fun _ s' _ => exists p', pool_ok p' s' /\ same_inbound w_pool p' w_state s' /\
       swept (pool_size (outbound w_pool)) (env_cycles []) (outbound w_pool) (outbound p'))
    (fun _ _ _ => False) w_state [].
Proof. apply expiry_timer_correct, w_ok. Defined.

Lemma table_timer_correct_witness :
  wp rte_timer_manage
    (fun _ s' _ => exists p', pool_ok p' s' /\ same_inbound w_pool p' w_state s' /\ released w_pool p' /\
       ((exists d per, pending (timers w_state) !! table_timer = Some (d, per) /\ d <= env_cycles []) ->
        empty_pool p'))
    (fun _ _ _ => False) w_state [].
Proof. apply table_timer_correct, w_ok. Defined.

Lemma nat_inbound_add_correct_witness :
  wp (nat_inbound_add "203.0.113.99" "10.0.0.1")
    (fun _ s' t' => exists p' a, pool_ok p' s' /\ heap_live s' t' /\
       in_heap s' !! a = Some (NatInboundEntry (of_le32 203 0 113 99) (of_le32 10 0 0 1)) /\
       in_heap s' = <[a := NatInboundEntry (of_le32 203 0 113 99) (of_le32 10 0 0 1)]> (in_heap w_state) /\
       hash_map (inbound_map p') = <[le32 (of_le32 203 0 113 99) := a]> (hash_map (inbound_map w_pool)))
    (fun c _ _ => c = EXIT_FAILURE) w_state [].
Proof.
  apply nat_inbound_add_correct; [apply w_ok|by intros ? []|by vm_compute|by vm_compute].
Defined.
