(* ===== verification/NatV6.v ===== *)
(** * nat_project/version6: flow-based NAPT (static_nat.c, main.c, port.c, mempool.c)

    Two hash tables map the 5-tuples of outgoing and returning packets to one
    [nat_entry] object per flow, allocated with [rte_malloc], kept alive by its
    own timer and freed when the timer expires.  Packets are rewritten in
    place.  Pointers to entries are modelled as addresses in a heap, so that the
    aliasing between the two tables, the timer argument and the caller's
    pointer is the code's. *)

From S2P Require Import Prelude Cstd Rte Env Packet Ownership Sim.

(** ** Data: source.h *)

Definition NAT_TIMEOUT_SEC := 30.
Definition MAX_PORT := 65535.
Definition MIN_PORT := 1024.

Record nat_key := NatKey {
  src_ip : Z; dst_ip : Z; src_port : Z; dst_port : Z; proto : Z }.

Record nat_entry := NatEntry {
  fwd_key : nat_key; rev_key : nat_key;
  private_ip : Z; private_port : Z;
  public_ip : Z; public_port : Z;
  remote_ip : Z; remote_port : Z;
  e_proto : Z }.

(** The 13 bytes of the packed structure, which the tables hash and compare. *)
Definition key_bytes (k : nat_key) : list Z :=
  le32 (src_ip k) ++ le32 (dst_ip k) ++ le16 (src_port k) ++ le16 (dst_port k) ++ [proto k].
Definition sizeof_nat_key := 13.
Definition sizeof_nat_entry := 128.

Section NatV6.
Context {BO : Byteorder} {CK : Cksum} {RH : RteHash} {RT : RteTimer} {E : Env}.

(** The static variables of static_nat.c, the heap of entries and the timer
    subsystem. A table is [None] until [nat_init] creates it. *)
Record nat_state := NatState {
  fwd_hash : option rte_hash;
  rev_hash : option rte_hash;
  PUBLIC_IP : Z;
  current_port : Z;
  heap : gmap Z nat_entry;
  timers : rte_timers }.

Definition nat_state0 : nat_state := NatState None None 0 MIN_PORT ∅ rte_timers_init.

Definition set_tables (f r : option rte_hash) (s : nat_state) : nat_state :=
  NatState f r (PUBLIC_IP s) (current_port s) (heap s) (timers s).
Definition set_public_ip (ip : Z) (s : nat_state) : nat_state :=
  NatState (fwd_hash s) (rev_hash s) ip (current_port s) (heap s) (timers s).
Definition set_port (p : Z) (s : nat_state) : nat_state :=
  NatState (fwd_hash s) (rev_hash s) (PUBLIC_IP s) p (heap s) (timers s).
Definition set_heap (h : gmap Z nat_entry) (s : nat_state) : nat_state :=
  NatState (fwd_hash s) (rev_hash s) (PUBLIC_IP s) (current_port s) h (timers s).
Definition set_timers (T : rte_timers) (s : nat_state) : nat_state :=
  NatState (fwd_hash s) (rev_hash s) (PUBLIC_IP s) (current_port s) (heap s) T.

(** A hash call through a pointer that is still NULL returns -EINVAL. *)
Definition lookup_data (h : option rte_hash) (k : nat_key) : option Z :=
  match h with Some h => rte_hash_lookup_data h (key_bytes k) | None => None end.
Definition add_key_data (h : option rte_hash) (k : nat_key) (v : Z) : option rte_hash :=
  match h with Some h => Some (rte_hash_add_key_data h (key_bytes k) v).2 | None => None end.
Definition del_key (h : option rte_hash) (k : nat_key) : option rte_hash :=
  match h with Some h => Some (rte_hash_del_key h (key_bytes k)).2 | None => None end.

(** ** static_nat.c *)

Definition ip4_to_str (ip_be : Z) : parg := PStr (inet_ntop ip_be).
Definition port_to_host (port_be : Z) : parg := PInt (rte_be_to_cpu_16 port_be).

(** [current_port] is a [uint16_t]. *)
Definition allocate_port : M nat_state Z :=
  modify (fun s => set_port (u16 (current_port s + 1)) s) ;;
  p <-- gets current_port ;;
  when (MAX_PORT <=? p) (modify (set_port MIN_PORT)) ;;
  p <-- gets current_port ;;
  ret (rte_cpu_to_be_16 p).

Definition print_entry (fmt : string) (e : nat_entry) : M nat_state unit :=
  printf fmt [ip4_to_str (private_ip e); port_to_host (private_port e);
              ip4_to_str (public_ip e); port_to_host (public_port e);
              ip4_to_str (remote_ip e); port_to_host (remote_port e); PInt (e_proto e)].

(** [arg] is the address of the entry. *)
Definition nat_entry_expire (arg : Z) : M nat_state unit :=
  h <-- gets heap ;;
  e <-- deref (h !! arg) ;;
  modify (fun s => set_tables (del_key (fwd_hash s) (fwd_key e)) (rev_hash s) s) ;;
  modify (fun s => set_tables (fwd_hash s) (del_key (rev_hash s) (rev_key e)) s) ;;
  print_entry "[nat] expired: %s:%u -> %s:%u (remote %s:%u proto=%u)\n" e ;;
  rte_free arg ;;
  modify (fun s => set_heap (delete arg (heap s)) s).

(** Arms the timer of the entry at [e]: the subsystem adds the ticks to the
    current time. *)
Definition arm_timer (e : Z) : M nat_state unit :=
  hz <-- rte_get_timer_hz ;;
  let timeout := u64 (NAT_TIMEOUT_SEC * hz) in
  now <-- rte_get_timer_cycles ;;
  modify (fun s => set_timers (rte_timer_reset (timers s) e now timeout SINGLE) s).

Definition create_entry (sip sport dip dport proto : Z) : M nat_state (option Z) :=
  e <-- malloc sizeof_nat_entry ;;
  if e =? 0 then ret None else
  pub <-- gets PUBLIC_IP ;;
  pport <-- allocate_port ;;
  let ent := NatEntry (NatKey sip dip sport dport proto)
                      (NatKey dip pub dport pport proto)
                      sip sport pub pport dip dport proto in
  modify (fun s => set_heap (<[e := ent]> (heap s)) s) ;;
  arm_timer e ;;
  modify (fun s => set_tables (add_key_data (fwd_hash s) (fwd_key ent) e) (rev_hash s) s) ;;
  modify (fun s => set_tables (fwd_hash s) (add_key_data (rev_hash s) (rev_key ent) e) s) ;;
  print_entry "[nat] new: %s:%u -> %s:%u (remote %s:%u proto=%u)\n" ent ;;
  ret (Some e).

Definition refresh (e : Z) : M nat_state unit :=
  h <-- gets heap ;;
  _ <-- deref (h !! e) ;;
  modify (fun s => set_timers (rte_timer_stop (timers s) e) s) ;;
  arm_timer e.

(** [None] when the function returns -1; the five output arguments otherwise. *)
Definition parse (m : mbuf) : option (Z * Z * Z * Z * Z) :=
  if negb (load16 m ETH_TYPE =? rte_cpu_to_be_16 RTE_ETHER_TYPE_IPV4) then None
  else
    let sip := load32 m IP_SRC in
    let dip := load32 m IP_DST in
    let proto := load8 m IP_PROTO in
    if proto =? IPPROTO_TCP then Some (sip, dip, load16 m L4_SPORT, load16 m L4_DPORT, proto)
    else if proto =? IPPROTO_UDP then Some (sip, dip, load16 m L4_SPORT, load16 m L4_DPORT, proto)
    else None.

Definition rewrite_out (m : mbuf) (e : nat_entry) : mbuf :=
  let m := store32 m IP_SRC (public_ip e) in
  let m :=
    if e_proto e =? IPPROTO_TCP then
      let m := store16 m L4_SPORT (public_port e) in
      store16 m TCP_CKSUM (rte_ipv4_udptcp_cksum (at_off m IP) (at_off m L4))
    else
      let m := store16 m L4_SPORT (public_port e) in
      store16 m UDP_CKSUM (rte_ipv4_udptcp_cksum (at_off m IP) (at_off m L4)) in
  store16 m IP_CKSUM (rte_ipv4_cksum (at_off m IP)).

Definition rewrite_in (m : mbuf) (e : nat_entry) : mbuf :=
  let m := store32 m IP_DST (private_ip e) in
  let m :=
    if e_proto e =? IPPROTO_TCP then
      let m := store16 m L4_DPORT (private_port e) in
      store16 m TCP_CKSUM (rte_ipv4_udptcp_cksum (at_off m IP) (at_off m L4))
    else
      let m := store16 m L4_DPORT (private_port e) in
      store16 m UDP_CKSUM (rte_ipv4_udptcp_cksum (at_off m IP) (at_off m L4)) in
  store16 m IP_CKSUM (rte_ipv4_cksum (at_off m IP)).

(** The result is the return value and the packet, modified in place. *)
Definition nat_process_packet (m : mbuf) : M nat_state (Z * mbuf) :=
  match parse m with
  | None => ret (-1, m)
  | Some (sip, dip, sport, dport, proto) =>
      pub <-- gets PUBLIC_IP ;;
      if dip =? pub then
        printf "Inbound traffic\n" [] ;;
        rev <-- gets rev_hash ;;
        match lookup_data rev (NatKey sip dip sport dport proto) with
        | None => ret (-1, m)
        | Some e =>
            refresh e ;;
            h <-- gets heap ;;
            ent <-- deref (h !! e) ;;
            ret (0, rewrite_in m ent)
        end
      else
        printf "Outbound traffic\n" [] ;;
        fwd <-- gets fwd_hash ;;
        oe <-- match lookup_data fwd (NatKey sip dip sport dport proto) with
               | None => create_entry sip sport dip dport proto
               | Some e => refresh e ;; ret (Some e)
               end ;;
        match oe with
        | None => ret (-1, m)
        | Some e =>
            h <-- gets heap ;;
            ent <-- deref (h !! e) ;;
            ret (0, rewrite_out m ent)
        end
  end.

Definition nat_init (public_ip : Z) : M nat_state Z :=
  modify (set_public_ip public_ip) ;;
  printf "[nat] init: public_ip=%s entries=%u key_len=%zu socket=%d timeout=%us\n"
    [ip4_to_str public_ip; PInt 65536; PInt sizeof_nat_key; PInt NAT_TIMEOUT_SEC] ;;
  r <-- call (rte_hash_create "nat_fwd_table" 65536 sizeof_nat_key) ;;
  if r =? 0 then
    modify (fun s => set_tables None (rev_hash s) s) ;;
    printf "Failed to create %s (rte_errno=%d: %s)\n" [PStr "nat_fwd_table"] ;; ret (-1)
  else
  modify (fun s => set_tables (Some (rte_hash_empty 65536 sizeof_nat_key)) (rev_hash s) s) ;;
  r <-- call (rte_hash_create "nat_rev_table" 65536 sizeof_nat_key) ;;
  if r =? 0 then
    modify (fun s => set_tables (fwd_hash s) None s) ;;
    printf "Failed to create %s (rte_errno=%d: %s)\n" [PStr "nat_rev_table"] ;; ret (-1)
  else
  modify (fun s => set_tables (fwd_hash s) (Some (rte_hash_empty 65536 sizeof_nat_key)) s) ;;
  printf "[nat] tables created: fwd=%s rev=%s\n" [PStr "nat_fwd_table"; PStr "nat_rev_table"] ;;
  ret 0.

(** [rte_timer_manage]: the callbacks of the expired timers, one after another. *)
Definition nat_timer_manage : M nat_state unit :=
  now <-- rte_get_timer_cycles ;;
  T <-- gets timers ;;
  let r := rte_timer_expired T now in
  modify (set_timers r.2) ;;
  _ <-- for_each nat_entry_expire r.1 ;; ret tt.

(** ** mempool.c, port.c *)

Definition RTE_MBUF_DEFAULT_BUF_SIZE := 2176.

Definition create_mempool : M nat_state Z :=
  printf "Creating mempool: num_mbufs=%u cache=%u priv=%u data_room=%u socket=%d\n"
    [PInt 2048; PInt 256; PInt 0; PInt RTE_MBUF_DEFAULT_BUF_SIZE] ;;
  mp <-- call (rte_pktmbuf_pool_create "MBUF_POOL" 2048 256 0 RTE_MBUF_DEFAULT_BUF_SIZE) ;;
  when (mp =? 0) (rte_exit 1) ;;
  printf "Mempool created: name=%s\n" [PStr "MBUF_POOL"] ;;
  ret mp.

Definition init_port (port_id mp : Z) : M nat_state unit :=
  r <-- call (rte_eth_dev_configure port_id 1 1) ;;
  when (r <? 0) (rte_exit 1) ;;
  r <-- call (rte_eth_rx_queue_setup port_id 0 1024 mp) ;;
  when (r <? 0) (rte_exit 1) ;;
  r <-- call (rte_eth_tx_queue_setup port_id 0 1024) ;;
  when (r <? 0) (rte_exit 1) ;;
  r <-- call (rte_eth_dev_start port_id) ;;
  when (r <? 0) (rte_exit 1) ;;
  printf "Port %u initialized and started.\n" [PInt port_id] ;;
  n <-- call (rte_eth_dev_info_get 0) ;;
  when (n <? 0) (rte_exit 1) ;;
  printf "Driver: %s\n" [].

(** ** main.c *)

Definition BURST_SIZE := 32.
Definition PORT_ID := 0.

(** The loop over a burst: [bufs] is the array, compacted in place, [tx_count]
    the number of packets to forward so far. *)
Definition process_burst (nb_rx : Z) (bufs : list mbuf) : M nat_state (list mbuf * Z) :=
  for_ (Z.to_nat nb_rx) 0 (fun i st =>
    let '(bufs, tx_count) := st in
    m <-- deref (bufs !! Z.to_nat i) ;;
    let* (r, m') := nat_process_packet m in
    let bufs := <[Z.to_nat i := m']> bufs in
    if r =? 0 then ret (<[Z.to_nat tx_count := m']> bufs, u16 (tx_count + 1))
    else rte_pktmbuf_free m' ;; ret (bufs, tx_count)) (bufs, 0).

Definition loop_body (_ : unit) : M nat_state unit :=
  bufs <-- rte_eth_rx_burst PORT_ID 0 BURST_SIZE ;;
  let nb_rx := zlen bufs in
  if nb_rx =? 0 then nat_timer_manage
  else
    let* (bufs, tx_count) := process_burst nb_rx bufs in
    tx_or_free PORT_ID 0 (take (Z.to_nat tx_count) bufs) ;;
    nat_timer_manage.

(** [n] bounds the number of iterations; [None] when the loop is still running
    then. *)
Definition main (n : nat) : M nat_state (option Z) :=
  r <-- call rte_eal_init ;;
  if r <? 0 then printf "EAL init failed\n" [] ;; ret (Some (-1)) else
  _ <-- call (signal_handler_install "SIGINT") ;;
  _ <-- call (signal_handler_install "SIGTERM") ;;
  _ <-- call rte_timer_subsystem_init ;;
  mp <-- create_mempool ;;
  if mp =? 0 then printf "Mempool creation failed\n" [] ;; ret (Some (-1)) else
  init_port PORT_ID mp ;;
  r <-- nat_init (rte_cpu_to_be_32 (RTE_IPV4 1 2 3 4)) ;;
  if r <? 0 then printf "NAT init failed\n" [] ;; ret (Some (-1)) else
  printf "NAT started...\n" [] ;;
  let* (ended, _) := while_running n loop_body tt in
  if ended : bool then
    printf "Cleaning up...\n" [] ;;
    _ <-- call (rte_eth_dev_stop PORT_ID) ;;
    _ <-- call (rte_eth_dev_close PORT_ID) ;;
    ret (Some 0)
  else ret None.

(** ** Helper facts *)

Lemma be16_ipv4 : rte_cpu_to_be_16 RTE_ETHER_TYPE_IPV4 = 8.
Proof. by rewrite cpu_to_be_16_law by (unfold RTE_ETHER_TYPE_IPV4; words). Qed.

(** Contents of a table, empty while it is NULL. *)
Definition tbl (h : option rte_hash) : gmap (list Z) Z :=
  match h with Some h => hash_map h | None => ∅ end.

Lemma lookup_data_tbl h k : lookup_data h k = tbl h !! key_bytes k.
Proof. destruct h; simpl; [apply hash_lookup_law|by rewrite lookup_empty]. Qed.
Lemma tbl_del h k : tbl (del_key h k) = delete (key_bytes k) (tbl h).
Proof. destruct h; simpl; [apply hash_del_law|by rewrite delete_empty]. Qed.
(** An insertion binds the key or, when the table is full or NULL, does nothing. *)
Lemma tbl_add h k v :
  tbl (add_key_data h k v) = <[key_bytes k := v]> (tbl h) \/ tbl (add_key_data h k v) = tbl h.
Proof.
  destruct h as [h|]; simpl; [|by right]. rewrite hash_add_law.
  destruct (_ =? 0); [by left|by right].
Qed.

Definition next_port (p : Z) : Z :=
  if MAX_PORT <=? u16 (p + 1) then MIN_PORT else u16 (p + 1).

Lemma allocate_port_run s t :
  allocate_port s t =
    Done (rte_cpu_to_be_16 (next_port (current_port s))) (set_port (next_port (current_port s)) s) t.
Proof.
  unfold allocate_port, next_port, bind, modify, gets, when, ret. simpl.
  by destruct (MAX_PORT <=? u16 (current_port s + 1)).
Qed.

(** ** The invariant: no dangling entry pointers *)

(** What [create_entry] establishes about an entry, for its whole life. *)
Definition entry_ok (pub : Z) (e : nat_entry) : Prop :=
  fwd_key e = NatKey (private_ip e) (remote_ip e) (private_port e) (remote_port e) (e_proto e) /\
  rev_key e = NatKey (remote_ip e) (public_ip e) (remote_port e) (public_port e) (e_proto e) /\
  public_ip e = pub.

(** [firing] are the entries whose timer has just been taken out of the timer
    subsystem and whose callback has not run yet. *)
Record nat_inv_firing (firing : list Z) (s : nat_state) (t : trace) : Prop := {
  inv_fwd k a : tbl (fwd_hash s) !! k = Some a ->
    exists e, heap s !! a = Some e /\ k = key_bytes (fwd_key e);
  inv_rev k a : tbl (rev_hash s) !! k = Some a ->
    exists e, heap s !! a = Some e /\ k = key_bytes (rev_key e);
  inv_timer a : is_Some (heap s !! a) <-> is_Some (pending (timers s) !! a) \/ a ∈ firing;
  inv_single a d p : pending (timers s) !! a = Some (d, p) -> p = 0;
  inv_disj a : a ∈ firing -> pending (timers s) !! a = None;
  inv_nodup : NoDup firing;
  inv_live a : is_Some (heap s !! a) -> a ∈ live_blocks t;
  inv_entry a e : heap s !! a = Some e -> entry_ok (PUBLIC_IP s) e;
  inv_port : MIN_PORT <= current_port s < MAX_PORT;
  inv_pub : is_u32 (PUBLIC_IP s) }.

Definition nat_inv : nat_state -> trace -> Prop := nat_inv_firing [].

(** The invariant depends on the trace only through the allocated blocks. *)
Lemma nat_inv_trace fs s t t' :
  live_blocks t' = live_blocks t -> nat_inv_firing fs s t -> nat_inv_firing fs s t'.
Proof. intros E0 []. split; auto. by rewrite E0. Qed.

Lemma inv_rearm fs a d s T t :
  nat_inv_firing fs s t -> is_Some (heap s !! a) -> a ∉ fs ->
  pending T = <[a := (d, 0)]> (pending (timers s)) ->
  nat_inv_firing fs (set_timers T s) t.
Proof.
  intros [] Ha Hf HT. split; simpl; auto; try (rewrite HT).
  - intros b. rewrite inv_timer0, lookup_insert. case_decide; [subst|done].
    split; [eauto|]. intros _. by apply inv_timer0.
  - intros b d' p. rewrite lookup_insert. case_decide; [by intros [= <- <-]|apply inv_single0].
  - intros b Hb. rewrite lookup_insert_ne by congruence. auto.
Qed.

Lemma inv_new_entry a e d s T t t' :
  nat_inv s t -> heap s !! a = None -> entry_ok (PUBLIC_IP s) e ->
  pending T = <[a := (d, 0)]> (pending (timers s)) ->
  live_blocks t' = {[a]} ∪ live_blocks t ->
  nat_inv (set_timers T (set_heap (<[a := e]> (heap s)) s)) t'.
Proof.
  intros [] Ha He HT Ht. split; simpl; auto; try (rewrite HT).
  - intros k b Hb. destruct (inv_fwd0 k b Hb) as (e' & He' & ->).
    exists e'. split; [|done]. rewrite lookup_insert_ne by congruence. done.
  - intros k b Hb. destruct (inv_rev0 k b Hb) as (e' & He' & ->).
    exists e'. split; [|done]. rewrite lookup_insert_ne by congruence. done.
  - intros b. rewrite !lookup_insert. case_decide; [subst; split; eauto|apply inv_timer0].
  - intros b d' p. rewrite lookup_insert. case_decide; [by intros [= <- <-]|apply inv_single0].
  - intros b Hb. by apply not_elem_of_nil in Hb.
  - intros b. rewrite Ht, lookup_insert. case_decide; [subst; set_solver|].
    intros Hb. apply inv_live0 in Hb. set_solver.
  - intros b e'. rewrite lookup_insert. case_decide; [by intros [= <-]|apply inv_entry0].
Qed.

Lemma inv_add_fwd a e s t :
  nat_inv s t -> heap s !! a = Some e ->
  nat_inv (set_tables (add_key_data (fwd_hash s) (fwd_key e) a) (rev_hash s) s) t.
Proof.
  intros [] Ha. split; simpl; auto. intros k b.
  destruct (tbl_add (fwd_hash s) (fwd_key e) a) as [-> | ->]; [|apply inv_fwd0].
  rewrite lookup_insert. case_decide; [intros [= <-]; subst; eauto|apply inv_fwd0].
Qed.
Lemma inv_add_rev a e s t :
  nat_inv s t -> heap s !! a = Some e ->
  nat_inv (set_tables (fwd_hash s) (add_key_data (rev_hash s) (rev_key e) a) s) t.
Proof.
  intros [] Ha. split; simpl; auto. intros k b.
  destruct (tbl_add (rev_hash s) (rev_key e) a) as [-> | ->]; [|apply inv_rev0].
  rewrite lookup_insert. case_decide; [intros [= <-]; subst; eauto|apply inv_rev0].
Qed.

(** The state after [nat_entry_expire] of the entry [e] at [a]. *)
Definition expired_state (a : Z) (e : nat_entry) (s : nat_state) : nat_state :=
  set_heap (delete a (heap s))
    (set_tables (del_key (fwd_hash s) (fwd_key e)) (del_key (rev_hash s) (rev_key e)) s).

Lemma inv_expire fs a e s t t' :
  nat_inv_firing (a :: fs) s t -> heap s !! a = Some e ->
  live_blocks t' = live_blocks t ∖ {[a]} ->
  nat_inv_firing fs (expired_state a e s) t'.
Proof.
  intros [] Ha Ht. apply NoDup_cons in inv_nodup0 as [Hnin Hnd].
  assert (forall b, b ≠ a -> heap (expired_state a e s) !! b = heap s !! b) as Hne
    by (intros b Hb; simpl; by rewrite lookup_delete_ne by done).
  assert (heap (expired_state a e s) !! a = None) as Heq by (simpl; by rewrite lookup_delete_eq).
  split; auto.
  - intros k b. simpl (fwd_hash _). rewrite tbl_del, lookup_delete_Some. intros [Hk Hb].
    destruct (inv_fwd0 k b Hb) as (e' & He' & ->). exists e'. rewrite Hne; [done|congruence].
  - intros k b. simpl (rev_hash _). rewrite tbl_del, lookup_delete_Some. intros [Hk Hb].
    destruct (inv_rev0 k b Hb) as (e' & He' & ->). exists e'. rewrite Hne; [done|congruence].
  - intros b. simpl (timers _). destruct (decide (b = a)) as [->|Hb].
    + rewrite Heq, (inv_disj0 a) by left. split; [by intros []|].
      intros [[]|]; done.
    + rewrite Hne by done. rewrite inv_timer0, elem_of_cons. naive_solver.
  - intros b Hb. apply inv_disj0. by right.
  - intros b. destruct (decide (b = a)) as [->|Hb]; [rewrite Heq; by intros []|].
    rewrite Hne by done. intros Hs. apply inv_live0 in Hs. rewrite Ht. set_solver.
  - intros b e'. destruct (decide (b = a)) as [->|Hb]; [by rewrite Heq|].
    rewrite Hne by done. apply inv_entry0.
Qed.

(** ** The specification of one packet *)

(** The same translations: only timers may have been re-armed. *)
Definition same_nat (s s' : nat_state) : Prop :=
  fwd_hash s' = fwd_hash s /\ rev_hash s' = rev_hash s /\ heap s' = heap s /\
  current_port s' = current_port s /\ PUBLIC_IP s' = PUBLIC_IP s.

(** The entry of a flow that gets the next port. *)
Definition new_entry (k : nat_key) (s : nat_state) : nat_entry :=
  let pport := rte_cpu_to_be_16 (next_port (current_port s)) in
  NatEntry k (NatKey (dst_ip k) (PUBLIC_IP s) (dst_port k) pport (proto k))
    (src_ip k) (src_port k) (PUBLIC_IP s) pport (dst_ip k) (dst_port k) (proto k).

(** A new flow [k] is entered at address [a]. *)
Definition created (k : nat_key) (a : Z) (s s' : nat_state) : Prop :=
  let e := new_entry k s in
  heap s !! a = None /\ heap s' = <[a := e]> (heap s) /\
  fwd_hash s' = add_key_data (fwd_hash s) (fwd_key e) a /\
  rev_hash s' = add_key_data (rev_hash s) (rev_key e) a /\
  current_port s' = next_port (current_port s) /\ PUBLIC_IP s' = PUBLIC_IP s.

(** The timer of [a] was set at the time [v]; no other one changed. *)
Definition set_off (a v : Z) (s s' : nat_state) : Prop :=
  pending (timers s') = <[a := (v + u64 (NAT_TIMEOUT_SEC * env_hz), 0)]> (pending (timers s)).

(** What processing packet [m] in state [s] does: the result [r] (return value and
    packet), the state afterwards and the times [now] read on the way. *)
Definition outcome_at (m : mbuf) (s : nat_state) (nomem : bool) (r : Z * mbuf) (s' : nat_state)
    (now : list Z) : Prop :=
  match parse m with
  | None => r = (-1, m) /\ s' = s /\ now = []
  | Some (sip, dip, sport, dport, proto) =>
      let k := NatKey sip dip sport dport proto in
      if dip =? PUBLIC_IP s then
        match tbl (rev_hash s) !! key_bytes k with
        | None => r = (-1, m) /\ s' = s /\ now = []
        | Some a => exists e, heap s !! a = Some e /\ r = (0, rewrite_in m e) /\ same_nat s s' /\
            exists v, now = [v] /\ set_off a v s s'
        end
      else
        match tbl (fwd_hash s) !! key_bytes k with
        | Some a => exists e, heap s !! a = Some e /\ r = (0, rewrite_out m e) /\ same_nat s s' /\
            exists v, now = [v] /\ set_off a v s s'
        | None =>
            if nomem then r = (-1, m) /\ s' = s /\ now = []
            else exists a, r = (0, rewrite_out m (new_entry k s)) /\ created k a s s' /\
              exists v, now = [v] /\ set_off a v s s'
        end
  end.
Definition outcome (m : mbuf) (s : nat_state) (nomem : bool) (r : Z * mbuf) (s' : nat_state) : Prop :=
  exists now, outcome_at m s nomem r s' now.

Lemma refresh_run a e s t :
  heap s !! a = Some e ->
  exists v, is_u64 v /\ refresh a s t =
    Done tt (set_timers (rte_timer_reset (rte_timer_stop (timers s) a) a v
                           (u64 (NAT_TIMEOUT_SEC * env_hz)) SINGLE) s) (EvCycles v :: t).
Proof.
  intros Ha. exists (env_cycles t). split; [apply env_cycles_u64|].
  unfold refresh, bind, gets, deref, ret, modify. rewrite Ha. done.
Qed.

Lemma refresh_pending T a v :
  pending (rte_timer_reset (rte_timer_stop T a) a v (u64 (NAT_TIMEOUT_SEC * env_hz)) SINGLE) =
    <[a := (v + u64 (NAT_TIMEOUT_SEC * env_hz), 0)]> (pending T).
Proof. by rewrite timer_reset_law, timer_stop_law, insert_delete_eq. Qed.

Lemma refresh_spec a s t :
  nat_inv s t -> is_Some (heap s !! a) ->
  wp (refresh a) (fun _ s' t' => nat_inv s' t' /\ same_nat s s' /\ same_acct t t' /\
      exists v, readings t' = readings t ++ [v] /\ set_off a v s s')
    (fun _ _ _ => False) s t.
Proof.
  intros I [e Ha]. destruct (refresh_run a e s t Ha) as (v & Hv & Hr).
  unfold wp. rewrite Hr.
  split; [|split; [done|split; [done|exists v; split; [done|apply refresh_pending]]]].
  apply (nat_inv_trace [] _ t); [done|].
  eapply inv_rearm; [done|by eexists|by apply not_elem_of_nil|apply refresh_pending].
Qed.

Lemma next_port_range p : MIN_PORT <= p < MAX_PORT -> MIN_PORT <= next_port p < MAX_PORT.
Proof.
  unfold next_port, MIN_PORT, MAX_PORT. intros H. rewrite u16_small by words.
  destruct (Z.leb_spec 65535 (p + 1)); lia.
Qed.

Lemma create_entry_spec sip sport dip dport proto s t :
  nat_inv s t ->
  wp (create_entry sip sport dip dport proto)
    (fun r s' t' => nat_inv s' t' /\ same_acct t t' /\
       if env_malloc t sizeof_nat_entry =? 0 then r = None /\ s' = s /\ readings t' = readings t
       else exists a, r = Some a /\ created (NatKey sip dip sport dport proto) a s s' /\
         exists v, readings t' = readings t ++ [v] /\ set_off a v s s')
    (fun _ _ _ => False) s t.
Proof.
  intros I. unfold create_entry. wp_step. unfold wp at 1, malloc.
  destruct (Z.eqb_spec (env_malloc t sizeof_nat_entry) 0) as [Ez|Hne].
  { by wp_steps. }
  pose proof (env_malloc_fresh _ _ Hne) as Hfresh. set (a := env_malloc _ _) in *.
  wp_steps.
  unfold wp at 1. rewrite allocate_port_run.
  set (s1 := set_port _ s).
  assert (nat_inv s1 t) as I1.
  { pose proof (next_port_range _ (inv_port _ _ _ I)). destruct I; split; auto. }
  unfold arm_timer. wp_steps.
  change (NatEntry _ _ _ _ _ _ _ _ _) with (new_entry (NatKey sip dip sport dport proto) s).
  set (ent := new_entry _ s).
  assert (heap s1 !! a = None) as Hn.
  { destruct (heap s1 !! a) eqn:G; [|done]. destruct Hfresh. apply I1. by rewrite G. }
  pose proof (inv_new_entry a ent (v + u64 (NAT_TIMEOUT_SEC * env_hz)) s1
    (rte_timer_reset (timers s1) a v (u64 (NAT_TIMEOUT_SEC * env_hz)) SINGLE) t
    (EvMalloc sizeof_nat_entry a :: t) I1 Hn ltac:(by split) ltac:(apply timer_reset_law) eq_refl) as I2.
  pose proof (inv_add_fwd a ent _ _ I2 ltac:(simpl; apply lookup_insert_eq)) as I3.
  pose proof (inv_add_rev a ent _ _ I3 ltac:(simpl; apply lookup_insert_eq)) as I4.
  unfold print_entry. wp_steps. split; [|split; [done|]].
  - eapply nat_inv_trace; [|exact I4]. done.
  - exists a. split; [done|]. split; [done|]. exists v. split; [done|apply timer_reset_law].
Qed.

Lemma rewrite_out_id m e : mb_id (rewrite_out m e) = mb_id m.
Proof. unfold rewrite_out. by destruct (_ =? _). Qed.
Lemma rewrite_in_id m e : mb_id (rewrite_in m e) = mb_id m.
Proof. unfold rewrite_in. by destruct (_ =? _). Qed.

Lemma outcome_id m s nm r s' : outcome m s nm r s' -> mb_id r.2 = mb_id m.
Proof.
  intros [now Ho]. revert Ho. unfold outcome_at.
  destruct (parse m) as [[[[[sip dip] sport] dport] proto]|];
    repeat case_match;
    first [intros [-> _] | intros (? & ? & -> & _) | intros (? & -> & _)];
    cbn [snd]; auto using rewrite_out_id, rewrite_in_id.
Qed.

(** Whether the allocation of an entry for the next packet fails. *)
Definition nomem (t : trace) : bool :=
  env_malloc (EvPrintf "Outbound traffic\n" [] :: t) sizeof_nat_entry =? 0.

Lemma nat_process_packet_at m s t :
  nat_inv s t ->
  wp (nat_process_packet m)
    (fun r s' t' => nat_inv s' t' /\ same_acct t t' /\
       exists now, outcome_at m s (nomem t) r s' now /\ readings t' = readings t ++ now)
    (fun _ _ _ => False) s t.
Proof.
  intros I. unfold nat_process_packet, outcome_at.
  destruct (parse m) as [[[[[sip dip] sport] dport] proto]|];
    [|wp_steps; split; [done|]; split; [done|]; exists []; by rewrite app_nil_r].
  set (k := NatKey sip dip sport dport proto). wp_steps; rewrite H.
  - assert (nat_inv s (EvPrintf "Inbound traffic\n" [] :: t)) as I1 by (by apply (nat_inv_trace [] s t)).
    rewrite lookup_data_tbl. destruct (tbl (rev_hash s) !! _) as [a|] eqn:Hl; wp_steps.
    2:{ split; [done|]. split; [done|]. exists []. by rewrite app_nil_r. }
    destruct (inv_rev _ _ _ I _ _ Hl) as (e & He & _).
    eapply wp_mono; [apply refresh_spec; [done|by eexists]| |done].
    intros _ s' t' (I' & G & A & v & Hv & Ho). wp_steps. destruct G as (? & ? & Hh & ?) eqn:HG. rewrite Hh, He. wp_steps.
    split; [done|]. split; [done|]. exists [v]. split; [|done]. exists e. split_and!; try done. by exists v.
  - assert (nat_inv s (EvPrintf "Outbound traffic\n" [] :: t)) as I1 by (by apply (nat_inv_trace [] s t)).
    rewrite lookup_data_tbl. destruct (tbl (fwd_hash s) !! _) as [a|] eqn:Hl.
    + wp_steps. destruct (inv_fwd _ _ _ I _ _ Hl) as (e & He & _).
      eapply wp_mono; [apply refresh_spec; [done|by eexists]| |done].
      intros _ s' t' (I' & G & A & v & Hv & Ho). wp_steps. destruct G as (? & ? & Hh & ?) eqn:HG. rewrite Hh, He. wp_steps.
      split; [done|]. split; [done|]. exists [v]. split; [|done]. exists e. split_and!; try done. by exists v.
    + eapply wp_mono; [by apply create_entry_spec| |done].
      intros r s' t' (I' & A & Hr). unfold nomem. destruct (_ =? 0).
      * destruct Hr as (-> & -> & Hv). wp_steps. split; [done|]. split; [done|]. exists []. by rewrite app_nil_r.
      * destruct Hr as (a & -> & C & v & Hv & Ho). wp_steps. eapply wp_deref.
        { destruct C as (_ & -> & _). apply lookup_insert_eq. }
        wp_steps. split; [done|]. split; [done|]. exists [v]. split; [|done]. exists a. split_and!; try done. by exists v.
Qed.

Lemma nat_process_packet_spec m s t :
  nat_inv s t ->
  wp (nat_process_packet m)
    (fun r s' t' => nat_inv s' t' /\ same_acct t t' /\ outcome m s (nomem t) r s')
    (fun _ _ _ => False) s t.
Proof.
  intros I. eapply wp_mono; [by apply nat_process_packet_at| |done].
  intros r s' t' (? & ? & now & Ho & _). split; [done|]. split; [done|]. by exists now.
Qed.

Lemma nat_entry_expire_spec a fs s t :
  nat_inv_firing (a :: fs) s t ->
  wp (nat_entry_expire a)
    (fun _ s' t' => nat_inv_firing fs s' t' /\ heap s' = delete a (heap s) /\
       PUBLIC_IP s' = PUBLIC_IP s /\ same_acct t t' /\ readings t' = readings t /\
       live_blocks t' = live_blocks t ∖ {[a]} /\
       exists e, heap s !! a = Some e /\ s' = expired_state a e s)
    (fun _ _ _ => False) s t.
Proof.
  intros I. assert (is_Some (heap s !! a)) as [e He] by (apply (inv_timer _ _ _ I); right; left).
  unfold nat_entry_expire, print_entry. wp_steps. eapply wp_deref; [done|]. wp_steps.
  split; [by eapply (inv_expire fs a e s t)|]. split_and!; try done. by exists e.
Qed.

(** The entries whose timer is due at [now]. *)
Definition due (now : Z) (s : nat_state) (a : Z) : bool :=
  match pending (timers s) !! a with Some (d, _) => d <=? now | None => false end.

Lemma due_iff now s a : due now s a = true <-> a ∈ (rte_timer_expired (timers s) now).1.
Proof.
  unfold due. rewrite timer_expired_iff. destruct (pending (timers s) !! a) as [[d p]|].
  - rewrite Z.leb_le. split; [eauto|]. by intros (? & ? & [= -> ->] & ?).
  - split; [done|]. by intros (? & ? & ? & _).
Qed.

Lemma inv_fire now s t :
  nat_inv s t ->
  nat_inv_firing (rte_timer_expired (timers s) now).1
    (set_timers (rte_timer_expired (timers s) now).2 s) t.
Proof.
  intros []. split; simpl; auto.
  - intros a. rewrite inv_timer0, <- due_iff, timer_expired_rest. unfold due.
    destruct (pending (timers s) !! a) as [[d p]|] eqn:G.
    + apply inv_single0 in G as ->. rewrite elem_of_nil. destruct (d <=? now); simpl; naive_solver.
    + rewrite elem_of_nil. naive_solver.
  - intros a d p. rewrite timer_expired_rest.
    destruct (pending (timers s) !! a) as [[d' p']|] eqn:G; [|done].
    apply inv_single0 in G as ->. destruct (d' <=? now); simpl; [done|congruence].
  - intros a Ha. rewrite timer_expired_rest. apply timer_expired_iff in Ha as (d & p & G & Hd).
    rewrite G. apply inv_single0 in G as ->. apply Z.leb_le in Hd. by rewrite Hd.
  - apply timer_expired_nodup.
Qed.

(** Exactly the entries [gone] are removed: from the heap and from memory, with what the
    tables have under their keys, and nothing else. *)
Definition unbound (key : nat_entry -> nat_key) (gone : Z -> Prop) (s : nat_state)
    (T T' : gmap (list Z) Z) : Prop :=
  forall k,
    ((exists a e, heap s !! a = Some e /\ gone a /\ k = key_bytes (key e)) -> T' !! k = None) /\
    (~ (exists a e, heap s !! a = Some e /\ gone a /\ k = key_bytes (key e)) -> T' !! k = T !! k).
Record removed (gone : Z -> Prop) (s : nat_state) (t : trace) (s' : nat_state) (t' : trace) : Prop := {
  rm_gone a : gone a -> heap s' !! a = None /\ a ∉ live_blocks t';
  rm_kept a : ~ gone a -> heap s' !! a = heap s !! a /\ (a ∈ live_blocks t' <-> a ∈ live_blocks t);
  rm_fwd : unbound fwd_key gone s (tbl (fwd_hash s)) (tbl (fwd_hash s'));
  rm_rev : unbound rev_key gone s (tbl (rev_hash s)) (tbl (rev_hash s')) }.

Lemma removed_iff (P Q : Z -> Prop) s t s' t' :
  (forall a, P a <-> Q a) -> removed P s t s' t' -> removed Q s t s' t'.
Proof.
  intros H [G K F R]. split.
  - intros a Ha. apply G. by apply H.
  - intros a Ha. apply K. by rewrite H.
  - intros k. destruct (F k) as [F1 F2]. setoid_rewrite H in F1. setoid_rewrite H in F2. done.
  - intros k. destruct (R k) as [R1 R2]. setoid_rewrite H in R1. setoid_rewrite H in R2. done.
Qed.

Lemma unbound_step key gone s T T' a e :
  heap s !! a = Some e -> unbound key gone s T T' ->
  unbound key (fun b => gone b \/ b = a) s T (delete (key_bytes (key e)) T').
Proof.
  intros He H k. destruct (H k) as [H1 H2]. rewrite lookup_delete. split.
  - intros (b & e' & Hb & [Hg | ->] & ->); case_decide; try done; [|congruence].
    apply H1. by exists b, e'.
  - intros Hn. case_decide as Hk.
    + destruct Hn. exists a, e. by split_and!; [|right|].
    + apply H2. intros (b & e' & Hb & Hg & ->). apply Hn. exists b, e'. by split_and!; [|left|].
Qed.

Lemma removed_step gone s t s1 t1 s2 t2 a e :
  ~ gone a -> heap s !! a = Some e -> s2 = expired_state a e s1 -> live_blocks t2 = live_blocks t1 ∖ {[a]} ->
  removed gone s t s1 t1 -> removed (fun b => gone b \/ b = a) s t s2 t2.
Proof.
  intros Ha He -> L [G K F R]. split.
  - intros b [Hb | ->]; simpl; rewrite L; [|rewrite lookup_delete_eq; set_solver].
    destruct (G b Hb). split; [by apply lookup_delete_None; right|set_solver].
  - intros b Hb. simpl. rewrite L, lookup_delete_ne by naive_solver.
    destruct (K b) as [K1 K2]; [naive_solver|]. split; [done|]. rewrite <- K2. set_solver.
  - simpl. rewrite tbl_del. by apply unbound_step.
  - simpl. rewrite tbl_del. by apply unbound_step.
Qed.

Lemma nat_timer_manage_spec s t :
  nat_inv s t ->
  wp nat_timer_manage
    (fun _ s' t' => nat_inv s' t' /\ PUBLIC_IP s' = PUBLIC_IP s /\ same_acct t t' /\
       exists now, readings t' = readings t ++ [now] /\
         removed (fun a => due now s a = true) s t s' t' /\
         forall a, pending (timers s') !! a = if due now s a then None else pending (timers s) !! a)
    (fun _ _ _ => False) s t.
Proof.
  intros I. unfold nat_timer_manage. wp_steps. rename v into now.
  set (r := rte_timer_expired (timers s) now).
  eapply wp_mono; [apply (wp_for_each (fun pre _ s' t' =>
      exists post, r.1 = pre ++ post /\ nat_inv_firing post s' t' /\
        PUBLIC_IP s' = PUBLIC_IP s /\ same_acct t t' /\ readings t' = readings t ++ [now] /\
        timers s' = r.2 /\ removed (fun a => a ∈ pre) s t s' t')
      _ (fun _ _ _ => False))| |done].
  - intros pre a post rs s1 t1 Hr (post' & Hr' & I1 & Hp & A & Hv & HT & Hh).
    rewrite Hr in Hr'. apply app_inv_head in Hr' as <-.
    eapply wp_mono; [by apply nat_entry_expire_spec| |done].
    intros _ s2 t2 (I2 & Hh2 & Hp2 & A2 & Hv2 & L2 & e & He & E2). exists post.
    assert (NoDup (pre ++ a :: post)) as Hnd by (rewrite <- Hr; apply timer_expired_nodup).
    assert (a ∉ pre) as Ha by (apply NoDup_app in Hnd as (_ & Hd & _); intros H'; apply (Hd a H'); left).
    split_and!; try congruence.
    + by rewrite <- app_assoc. + by eapply same_acct_trans. + by rewrite E2.
    + apply (removed_iff (fun b => b ∈ pre \/ b = a)).
      { intros b. by rewrite elem_of_app, list_elem_of_singleton. }
      eapply removed_step; [done| |done|done|done].
      rewrite <- He. symmetry. by apply Hh.
  - exists r.1. split_and!; try done.
    + apply (nat_inv_trace _ _ t); [done|]. by apply inv_fire.
    + split; [by intros a Ha%not_elem_of_nil|done| |];
        (intros k; split; [by intros (? & ? & _ & ?%not_elem_of_nil & _)|done]).
  - intros rs s1 t1 (post & Hr & I1 & Hp & A & Hv & HT & Hh). wp_steps.
    assert (post = []) as ->.
    { rewrite <- (app_nil_r r.1) in Hr at 1. by apply app_inv_head in Hr. }
    split_and!; try done. exists now. split; [done|]. split.
    + eapply removed_iff; [|exact Hh]. intros a. by rewrite due_iff.
    + intros a. rewrite HT. unfold r, due. rewrite timer_expired_rest.
      destruct (pending (timers s) !! a) as [[d q]|] eqn:Hd; [|done].
      rewrite (inv_single _ _ _ I _ _ _ Hd). by destruct (d <=? now).
Qed.

Lemma process_burst_spec bufs held s t :
  nat_inv s t -> owned (ids bufs ++ held) t -> zlen bufs <= BURST_SIZE ->
  wp (process_burst (zlen bufs) bufs)
    (fun r s' t' => nat_inv s' t' /\ compacted bufs (zlen bufs) r.1 r.2 held t')
    (fun _ _ _ => False) s t.
Proof.
  intros I Ho Hlen. unfold BURST_SIZE in Hlen. unfold process_burst.
  eapply wp_mono; [apply (wp_for (fun i st s t =>
    nat_inv s t /\ compacted bufs i st.1 st.2 held t) _ (fun _ _ _ => False))| |done].
  - intros i [bs n] s1 t1 Hi [I1 C]. simpl in C.
    destruct (compacted_lookup _ _ _ _ _ _ C) as (m & Hm & _); [lia|].
    wp_steps. eapply wp_deref; [done|]. wp_steps.
    eapply wp_mono; [by apply nat_process_packet_spec| |done].
    intros [r m'] s2 t2 (I2 & A & Hid%outcome_id). simpl in Hid. cbn beta iota.
    apply (compacted_acct _ _ _ _ _ _ _ A) in C. destruct C as [Hn C'] eqn:HC.
    wp_steps; (split; [try done; by apply (nat_inv_trace [] s2 t2)|]); simpl.
    + rewrite u16_small by words. by apply (compacted_keep _ _ _ _ _ _ m); [|lia| |].
    + by apply (compacted_drop _ _ _ _ _ _ m); [|lia| |].
  - split; [done|]. by apply compacted_init.
  - intros [bs n] s1 t1. rewrite Z.add_0_l, Z2Nat.id by apply zlen_nonneg. done.
Qed.

Lemma v6_loop_spec s t :
  nat_inv s t -> owned [] t ->
  wp (loop_body tt) (fun _ s' t' => nat_inv s' t' /\ owned [] t') (fun _ _ _ => False) s t.
Proof.
  intros I Ho. unfold loop_body. wp_step. apply wp_rx. intros bufs Hlen _.
  specialize (Hlen ltac:(done)). apply (owned_rx _ PORT_ID 0 BURST_SIZE bufs) in Ho.
  set (t1 := EvRx _ _ _ bufs :: t) in *.
  assert (nat_inv s t1) as I1 by (by apply (nat_inv_trace [] s t)).
  wp_steps.
  - assert (bufs = []) as -> by (destruct bufs; [done|by rewrite Z.eqb_eq in H]).
    eapply wp_mono; [by apply nat_timer_manage_spec| |done].
    intros _ s2 t2 (I2 & _ & A & _). split; [done|]. by eapply owned_acct.
  - eapply wp_mono; [by apply (process_burst_spec _ [])| |done].
    intros [bs n] s2 t2 [I2 C]. simpl in C. apply compacted_end in C as (Ho2 & Hn & Hl).
    wp_step. apply (wp_tx_or_free _ _ _ []); [done|]. intros t4 Ho4 E4 _.
    eapply wp_mono; [apply nat_timer_manage_spec; by eapply nat_inv_trace| |done].
    intros _ s5 t5 (I5 & _ & A & _). split; [done|]. by eapply owned_acct.
Qed.

Lemma nat_init_spec ip s t :
  is_u32 ip -> fwd_hash s = None -> rev_hash s = None -> nat_inv s t ->
  heap s = ∅ ->
  wp (nat_init ip) (fun _ s' t' => nat_inv s' t' /\ PUBLIC_IP s' = ip /\ same_acct t t')
    (fun _ _ _ => False) s t.
Proof.
  intros Hip Hf Hr [] Hh. unfold nat_init. wp_steps; (split; [|done]);
    (split; simpl in *; rewrite ?Hh, ?Hf, ?Hr, ?hash_empty_law in *; auto; set_solver).
Qed.

(** No flow yet. *)
Lemma nat_inv_fresh f r pub t :
  tbl f = ∅ -> tbl r = ∅ -> is_u32 pub ->
  nat_inv (NatState f r pub MIN_PORT ∅ rte_timers_init) t.
Proof.
  intros Hf Hr Hpub.
  split; simpl; try (intros *; rewrite ?Hf, ?Hr, ?timers_init_law, ?lookup_empty); try done.
  - rewrite elem_of_nil. naive_solver.
  - constructor.
Qed.

Lemma nat_inv0 t : nat_inv nat_state0 t.
Proof. by apply nat_inv_fresh. Qed.

Lemma v6_main_spec n :
  wp (main n) (fun _ s t => nat_inv s t /\ owned [] t) (fun c _ t => c = 1 /\ rx_ids t = [])
    nat_state0 [].
Proof.
  assert (forall t, rx_ids t = [] -> out_ids t = [] -> nat_inv nat_state0 t /\ owned [] t) as H0.
  { intros t Hr Ho. split; [apply nat_inv0|]. unfold owned. by rewrite Hr, Ho. }
  unfold main, create_mempool, init_port.
  wp_steps; try (by apply H0); try done.
  eapply wp_mono; [apply nat_init_spec; try done; [|apply nat_inv0]| |done].
  { rewrite cpu_to_be_32_law; [apply bswap32_range|]. rewrite RTE_IPV4_law by words.
    apply of_le32_range; words. }
  intros r' s1 t1 (I1 & _ & Hr1 & Ho1 & _). assert (owned [] t1) as O1.
  { unfold owned. by rewrite Hr1, Ho1. }
  wp_steps; [split; [by apply (nat_inv_trace [] s1 t1)|done]|].
  eapply wp_mono; [apply (wp_while (fun _ s t => nat_inv s t /\ owned [] t) _ (fun _ _ _ => False))| |done].
  - intros [] s2 t2 [I2 O2]. by apply v6_loop_spec.
  - intros b _ s2 t2 [I2 O2]. split; [by apply (nat_inv_trace [] s2 t2)|done].
  - split; [by apply (nat_inv_trace [] s1 t1)|done].
  - intros [[] ?] s2 t2 [I2 O2]; cbn beta iota; wp_steps; [|done].
    split; [by apply (nat_inv_trace [] s2 t2)|done].
Qed.

End NatV6.
