(* ===== verification/NatV6Props.v ===== *)
(** * Properties of nat_project/version6 *)

From S2P Require Import Prelude Cstd Rte Env Packet Ownership Sim NatV6.

Section NatV6Props.
Context {BO : Byteorder} {CK : Cksum} {RH : RteHash} {RT : RteTimer} {E : Env}.

(** ** Packet rewriting *)

(** Both directions store an address at [ao], a port at [po] and recompute the
    two checksums. *)
Definition rewrite_gen (ao po a p : Z) (tcp : bool) (m : mbuf) : mbuf :=
  let m1 := store16 (store32 m ao a) po p in
  let m2 := store16 m1 (if tcp then TCP_CKSUM else UDP_CKSUM)
              (rte_ipv4_udptcp_cksum (at_off m1 IP) (at_off m1 L4)) in
  store16 m2 IP_CKSUM (rte_ipv4_cksum (at_off m2 IP)).

Lemma rewrite_out_gen m e :
  rewrite_out m e =
    rewrite_gen IP_SRC L4_SPORT (public_ip e) (public_port e) (e_proto e =? IPPROTO_TCP) m.
Proof. unfold rewrite_out. by destruct (_ =? _). Qed.
Lemma rewrite_in_gen m e :
  rewrite_in m e =
    rewrite_gen IP_DST L4_DPORT (private_ip e) (private_port e) (e_proto e =? IPPROTO_TCP) m.
Proof. unfold rewrite_in. by destruct (_ =? _). Qed.

Section Gen.
Context (ao po a p : Z) (tcp : bool) (m : mbuf).
Context (Hoff : ao = IP_SRC /\ po = L4_SPORT \/ ao = IP_DST /\ po = L4_DPORT).
Context (Hr : room m HDRS) (Hb : bytes_ok m).

Definition cks := if tcp then TCP_CKSUM else UDP_CKSUM.
#[local] Ltac offs :=
  unfold cks, HDRS, IP_SRC, IP_DST, IP_CKSUM, L4_SPORT, L4_DPORT, TCP_CKSUM, UDP_CKSUM, IP in *;
  destruct tcp; lia.

Lemma room_gen1 : room (store32 m ao a) HDRS. Proof. by rewrite room_store32. Qed.
Lemma frame_gen1 : frame_but [(ao, 4)] m (store32 m ao a).
Proof. apply (frame_store32 _ _ _ HDRS); [done|done|offs|offs]. Qed.

(** From the store of the address on. *)
Lemma frame_gen_rest :
  frame_but [(po, 2); (cks, 2); (IP_CKSUM, 2)] (store32 m ao a) (rewrite_gen ao po a p tcp m).
Proof.
  unfold rewrite_gen. fold cks. pose proof room_gen1 as R1.
  apply (frame_then16 [(po, 2); (cks, 2)] _ _ _ _ HDRS); [|by rewrite !room_store16|offs|offs].
  apply (frame_then16 [(po, 2)] _ _ _ _ HDRS); [|by rewrite room_store16|offs|offs].
  apply (frame_store16 _ _ _ HDRS); [done|apply frame_gen1|offs|offs].
Qed.

Lemma gen_frame : frame_but [(ao, 4); (po, 2); (cks, 2); (IP_CKSUM, 2)] m (rewrite_gen ao po a p tcp m).
Proof. apply (frame_but_trans [(ao, 4)] _ _ _ _ frame_gen1 frame_gen_rest). Qed.

Lemma gen_addr : is_u32 a -> load32 (rewrite_gen ao po a p tcp m) ao = a.
Proof.
  intros Ha. rewrite (frame_load32 _ _ _ _ frame_gen_rest); [|offs|].
  - apply (load32_store32_eq _ _ _ HDRS); [done|offs|offs|done].
  - unfold cks; by destruct Hoff as [[-> ->]|[-> ->]], tcp.
Qed.

Lemma gen_port : is_u16 p -> load16 (rewrite_gen ao po a p tcp m) po = p.
Proof.
  intros Hp. unfold rewrite_gen. fold cks.
  rewrite (load16_store16_ne _ _ _ _ HDRS); [|by rewrite !room_store16, room_store32|offs|offs|
    unfold outside; offs].
  rewrite (load16_store16_ne _ _ _ _ HDRS); [|by rewrite !room_store16, room_store32|offs|offs|
    unfold outside; offs].
  apply (load16_store16_eq _ _ _ HDRS); [by rewrite room_store32|offs|offs|done].
Qed.

Lemma gen_addr_bytes : load_bytes (rewrite_gen ao po a p tcp m) ao 4 = le32 a.
Proof.
  rewrite load_bytes4.
  assert (forall i, 0 <= i < 4 -> load8 (rewrite_gen ao po a p tcp m) (ao + i) = load8 (store32 m ao a) (ao + i)) as E1.
  { intros i Hi. apply (frame_load8 _ _ _ _ frame_gen_rest); [offs|]. simpl. offs. }
  pose proof (E1 0 ltac:(lia)) as E0. rewrite Z.add_0_r in E0. rewrite E0, !E1 by lia.
  rewrite !(load8_store32 _ _ _ _ HDRS) by (done || offs).
  repeat match goal with |- context [?x =? ?y] => destruct (Z.eqb_spec x y); [try lia|try lia] end. done.
Qed.

Lemma gen_port_bytes : load_bytes (rewrite_gen ao po a p tcp m) po 2 = le16 p.
Proof.
  rewrite load_bytes2. unfold rewrite_gen. fold cks. cbv zeta.
  rewrite !(load8_store16_ne _ IP_CKSUM _ _ HDRS), !(load8_store16_ne _ cks _ _ HDRS)
    by (rewrite ?room_store16, ?room_store32; done || offs || (unfold outside; offs)).
  rewrite !(load8_store16 _ po _ _ HDRS) by (rewrite ?room_store32; done || offs).
  repeat match goal with |- context [?x =? ?y] => destruct (Z.eqb_spec x y); [try lia|try lia] end. done.
Qed.

(** The TCP or UDP checksum is valid when its field was 0 before. *)
Lemma gen_l4_cksum :
  load8 m IP_PROTO = (if tcp then IPPROTO_TCP else IPPROTO_UDP) -> load16 m cks = 0 ->
  l4_cksum_off (load8 m IP_PROTO) + 2 <= l4_len (at_off m IP) ->
  l4_cksum_ok (at_off (rewrite_gen ao po a p tcp m) IP) (at_off (rewrite_gen ao po a p tcp m) L4).
Proof.
  intros Hp Hz Hl. set (m1 := store16 (store32 m ao a) po p).
  assert (frame_but [(ao, 4); (po, 2)] m m1) as F1.
  { apply (frame_then16 [(ao, 4)] _ _ _ _ HDRS); [apply frame_gen1|apply room_gen1|offs|offs]. }
  assert (room m1 HDRS) as R1 by (by eapply frame_room).
  assert (bytes_ok m1) as B1 by (by eapply frame_bytes).
  set (m2 := store16 m1 cks (rte_ipv4_udptcp_cksum (at_off m1 IP) (at_off m1 L4))).
  assert (forall i, at_off m1 IP 9 = load8 m IP_PROTO /\ (0 <= i < 4 -> at_off m1 IP i = at_off m IP i)) as Ei.
  { intros i. unfold at_off. split; [|intros Hi]; apply (frame_load8 _ _ _ _ F1); (done || (simpl; offs)). }
  assert (l4_len (at_off m1 IP) = l4_len (at_off m IP)) as El by (unfold l4_len; by rewrite !(proj2 (Ei _)) by lia).
  destruct (Ei 0) as [Ep _]. assert (l4_cksum_off (load8 m IP_PROTO) = cks - L4) as Ec.
  { rewrite Hp. unfold cks. by destruct tcp. }
  assert (load16 m1 cks = 0) as Hz1.
  { rewrite (frame_load16 _ _ _ _ F1); [done|offs|]. unfold cks; by destruct Hoff as [[-> ->]|[-> ->]], tcp. }
  pose proof (load8_byte m1 cks B1). pose proof (load8_byte m1 (cks + 1) B1).
  unfold load16, of_le16 in Hz1.
  assert (l4_cksum_ok (at_off m1 IP) (at_off m2 L4)) as Hok.
  { apply (udptcp_cksum_stored _ (at_off m1 L4) _ (cks - L4));
      try rewrite Ep; try (by intros; apply at_off_byte); try done.
    - rewrite Hp. destruct tcp; auto.
    - unfold at_off. replace (L4 + (cks - L4)) with cks by lia. words.
    - unfold at_off. replace (L4 + (cks - L4 + 1)) with (cks + 1) by lia. words.
    - rewrite El, <- Ec. done.
    - intros i Hi0 Hi1 Hi2. unfold at_off.
      apply (load8_store16_ne _ _ _ _ HDRS); [done|offs|offs|unfold outside, L4 in *; offs].
    - rewrite at_off_load16. replace (L4 + (cks - L4)) with cks by lia.
      apply (load16_store16_eq _ _ _ HDRS); [done|offs|offs|apply udptcp_cksum_range]. }
  assert (room m2 HDRS) as R2 by (unfold m2; by rewrite room_store16).
  eapply l4_cksum_ok_ext; [| |rewrite El|exact Hok].
  - intros i Hi Hi1 Hi2. unfold at_off, rewrite_gen. fold m1 cks m2.
    rewrite (load8_store16_ne _ _ _ _ HDRS); [|done|offs|offs|unfold outside; offs].
    apply (load8_store16_ne _ _ _ _ HDRS); [done|offs|offs|unfold outside; offs].
  - intros i Hi. unfold at_off, rewrite_gen. fold m1 cks m2.
    apply (load8_store16_ne _ _ _ _ HDRS); [done|offs|offs|unfold outside, L4; offs].
  - unfold l4_cksum_off in Hl. destruct (_ =? _); lia.
Qed.

Lemma gen_cksum :
  ihl_ok (at_off m IP) ->
  ipv4_cksum_ok (at_off (rewrite_gen ao po a p tcp m) IP) <-> load16 m IP_CKSUM mod 65535 = 0.
Proof.
  intros Hi. unfold rewrite_gen. fold cks. set (m1 := store16 (store32 m ao a) po p).
  assert (frame_but [(ao, 4); (po, 2)] m m1) as F1.
  { apply (frame_then16 [(ao, 4)] _ _ _ _ HDRS); [apply frame_gen1|apply room_gen1|offs|offs]. }
  set (m2 := store16 m1 cks _).
  assert (frame_but [(ao, 4); (po, 2); (cks, 2)] m m2) as F2.
  { apply (frame_then16 [(ao, 4); (po, 2)] _ _ _ _ HDRS); [done|by eapply frame_room|offs|offs]. }
  assert (room m2 HDRS) as R2 by (by eapply frame_room).
  assert (bytes_ok m2) as B2 by (by eapply frame_bytes).
  apply (ipv4_cksum_stored (at_off m2 IP)).
  - by intros; apply at_off_byte.
  - unfold ihl_ok, at_off in *. rewrite (frame_load8 _ _ _ _ F2); [done|done|].
    unfold cks; by destruct Hoff as [[-> ->]|[-> ->]], tcp.
  - intros i Hi0 Hi1 Hi2. unfold at_off.
    apply (load8_store16_ne _ _ _ _ HDRS); [done|offs|offs|unfold outside; offs].
  - rewrite at_off_load16. apply (frame_load16 _ _ _ _ F2); [done|].
    unfold cks; by destruct Hoff as [[-> ->]|[-> ->]], tcp.
  - rewrite at_off_load16. apply (load16_store16_eq _ _ _ HDRS); [done|offs|offs|].
    apply ipv4_cksum_range. by intros; apply at_off_byte.
Qed.
End Gen.

Lemma parse_Some m sip dip sport dport proto :
  parse m = Some (sip, dip, sport, dport, proto) <->
  load16 m ETH_TYPE = rte_cpu_to_be_16 RTE_ETHER_TYPE_IPV4 /\
  sip = load32 m IP_SRC /\ dip = load32 m IP_DST /\ sport = load16 m L4_SPORT /\
  dport = load16 m L4_DPORT /\ proto = load8 m IP_PROTO /\
  (proto = IPPROTO_TCP \/ proto = IPPROTO_UDP).
Proof.
  unfold parse. destruct (Z.eqb_spec (load16 m ETH_TYPE) (rte_cpu_to_be_16 RTE_ETHER_TYPE_IPV4)); simpl;
    [|naive_solver].
  destruct (Z.eqb_spec (load8 m IP_PROTO) IPPROTO_TCP); [naive_solver|].
  destruct (Z.eqb_spec (load8 m IP_PROTO) IPPROTO_UDP); naive_solver.
Qed.

(** What a rewritten packet parses to, and what is left alone. *)
Lemma parse_rewrite_out m e sip dip sport dport proto :
  room m HDRS -> bytes_ok m -> is_u32 (public_ip e) -> is_u16 (public_port e) ->
  parse m = Some (sip, dip, sport, dport, proto) ->
  parse (rewrite_out m e) = Some (public_ip e, dip, public_port e, dport, proto).
Proof.
  intros Hr Hb Hi Hp (Ht & -> & -> & -> & -> & -> & Hpr)%parse_Some.
  rewrite rewrite_out_gen. set (tcp := _ =? _).
  pose proof (gen_frame IP_SRC L4_SPORT (public_ip e) (public_port e) tcp m ltac:(by left) Hr Hb) as F.
  apply parse_Some. rewrite gen_addr, gen_port by auto.
  rewrite (frame_load16 _ _ _ ETH_TYPE F), (frame_load32 _ _ _ IP_DST F),
    (frame_load16 _ _ _ L4_DPORT F), (frame_load8 _ _ _ IP_PROTO F) by (done || by destruct tcp).
  done.
Qed.
Lemma parse_rewrite_in m e sip dip sport dport proto :
  room m HDRS -> bytes_ok m -> is_u32 (private_ip e) -> is_u16 (private_port e) ->
  parse m = Some (sip, dip, sport, dport, proto) ->
  parse (rewrite_in m e) = Some (sip, private_ip e, sport, private_port e, proto).
Proof.
  intros Hr Hb Hi Hp (Ht & -> & -> & -> & -> & -> & Hpr)%parse_Some.
  rewrite rewrite_in_gen. set (tcp := _ =? _).
  pose proof (gen_frame IP_DST L4_DPORT (private_ip e) (private_port e) tcp m ltac:(by right) Hr Hb) as F.
  apply parse_Some. rewrite gen_addr, gen_port by auto.
  rewrite (frame_load16 _ _ _ ETH_TYPE F), (frame_load32 _ _ _ IP_SRC F),
    (frame_load16 _ _ _ L4_SPORT F), (frame_load8 _ _ _ IP_PROTO F) by (done || by destruct tcp).
  done.
Qed.

(** ** Ports *)

Definition nports := MAX_PORT - MIN_PORT.

(** [next_port] runs through [MIN_PORT .. MAX_PORT - 1] cyclically. *)
Lemma next_port_iter n p :
  MIN_PORT <= p < MAX_PORT ->
  Nat.iter n next_port p = MIN_PORT + (p - MIN_PORT + Z.of_nat n) mod nports.
Proof.
  unfold nports, MIN_PORT, MAX_PORT. intros Hp. induction n as [|n IH].
  - simpl. rewrite Z.add_0_r, Z.mod_small; lia.
  - rewrite Nat.iter_succ, IH. clear IH. set (x := p - 1024 + Z.of_nat n).
    replace (p - 1024 + Z.of_nat (S n)) with (x + 1) by lia.
    pose proof (Z.mod_pos_bound x 64511). unfold next_port, MAX_PORT, MIN_PORT.
    rewrite u16_small by words. rewrite (Z.add_mod x 1) by lia.
    change (65535 - 1024) with 64511 in *. rewrite (Z.mod_small 1) by lia.
    destruct (Z.leb_spec 65535 (1024 + x mod 64511 + 1)).
    + replace (x mod 64511) with 64510 by lia. done.
    + rewrite (Z.mod_small (x mod 64511 + 1)) by lia. lia.
Qed.

Lemma next_port_iter_ne n k p :
  MIN_PORT <= p < MAX_PORT -> (n < k)%nat -> Z.of_nat k - Z.of_nat n < nports ->
  Nat.iter n next_port p <> Nat.iter k next_port p.
Proof.
  intros Hp Hnk Hd. rewrite !next_port_iter by done. unfold nports, MIN_PORT, MAX_PORT in *.
  intros Heq. assert (((p - 1024 + Z.of_nat k) - (p - 1024 + Z.of_nat n)) mod (65535 - 1024) = 0) as H0.
  { rewrite Zminus_mod. replace ((p - 1024 + Z.of_nat k) mod (65535 - 1024))
      with ((p - 1024 + Z.of_nat n) mod (65535 - 1024)) by lia. by rewrite Z.sub_diag. }
  rewrite Z.mod_small in H0; lia.
Qed.

Lemma next_port_iter_range n p :
  MIN_PORT <= p < MAX_PORT -> MIN_PORT <= Nat.iter n next_port p < MAX_PORT.
Proof. intros Hp. induction n; [done|]. rewrite Nat.iter_succ. by apply next_port_range. Qed.

Lemma be16_inj a b :
  is_u16 a -> is_u16 b -> rte_cpu_to_be_16 a = rte_cpu_to_be_16 b -> a = b.
Proof. intros Ha Hb. rewrite !cpu_to_be_16_law by done. by apply bswap16_inj. Qed.
Lemma be16_range a : is_u16 a -> is_u16 (rte_cpu_to_be_16 a).
Proof. intros Ha. rewrite cpu_to_be_16_law by done. auto with words. Qed.
Lemma port_u16 p : MIN_PORT <= p < MAX_PORT -> is_u16 p.
Proof. unfold MIN_PORT, MAX_PORT. words. Qed.

(** ** A translation survives the packets that follow *)

Lemma key_bytes_dst_port k k' :
  is_u16 (dst_port k) -> is_u16 (dst_port k') -> key_bytes k = key_bytes k' ->
  dst_port k = dst_port k'.
Proof.
  intros H H' E0. apply le16_inj; [done|done|].
  unfold key_bytes in E0. simpl in E0. injection E0 as ? ? ? ? ? ? ? ? ? ? E1 E2 ?.
  unfold le16. congruence.
Qed.

(** The reverse key [k] leads to the entry [e] at [a]. *)
Definition bound (k : nat_key) (a : Z) (e : nat_entry) (s : nat_state) : Prop :=
  tbl (rev_hash s) !! key_bytes k = Some a /\ heap s !! a = Some e.

Lemma same_nat_bound k a e s s' :
  same_nat s s' -> bound k a e s -> bound k a e s' /\ current_port s' = current_port s.
Proof. intros (H1 & H2 & H3 & H4 & H5). unfold bound. by rewrite H2, H3. Qed.

Lemma outcome_cases m s nm r s' :
  outcome m s nm r s' -> s' = s \/ same_nat s s' \/ exists k a, created k a s s'.
Proof.
  intros [now Ho]. revert Ho. unfold outcome_at.
  destruct (parse m) as [[[[[sip dip] sport] dport] proto]|]; [|tauto].
  intros Ho. repeat case_match; naive_solver.
Qed.

Lemma outcome_bound m nm r k a e p s s' :
  outcome m s nm r s' -> MIN_PORT <= current_port s < MAX_PORT ->
  MIN_PORT <= p < MAX_PORT -> dst_port k = rte_cpu_to_be_16 p ->
  bound k a e s -> next_port (current_port s) <> p ->
  bound k a e s' /\ (current_port s' = current_port s \/ current_port s' = next_port (current_port s)).
Proof.
  intros Ho Hc Hp Hk Hb Hne. pose proof (outcome_cases _ _ _ _ _ Ho) as Hs.
  destruct Hs as [->|[Hs|(k' & a' & Hn & Hh & _ & Hrev & Hport & _)]]; [by auto| |].
  - destruct (same_nat_bound _ _ _ _ _ Hs Hb). auto.
  - destruct Hb as [Hb1 Hb2]. split; [|by right]. split.
    + rewrite Hrev. destruct (tbl_add (rev_hash s) (rev_key (new_entry k' s)) a') as [-> | ->]; [|done].
      rewrite lookup_insert_ne; [done|]. intros Heq. apply Hne.
      pose proof (next_port_range _ Hc).
      apply be16_inj; [by apply port_u16|by apply port_u16|]. rewrite <- Hk.
      apply (key_bytes_dst_port (rev_key (new_entry k' s)) k); [| |done]; simpl; rewrite ?Hk;
        by apply be16_range, port_u16.
    + rewrite Hh, lookup_insert_ne; [done|congruence].
Qed.

(** After fewer than [nports] packets it is still there. *)
Lemma packets_bound ms k a e p s t :
  nat_inv s t -> bound k a e s -> current_port s = p -> dst_port k = rte_cpu_to_be_16 p ->
  zlen ms < nports ->
  wp (for_each nat_process_packet ms)
    (fun _ s' t' => nat_inv s' t' /\ bound k a e s' /\ PUBLIC_IP s' = PUBLIC_IP s)
    (fun _ _ _ => False) s t.
Proof.
  intros I Hb Hp Hk Hlen. pose proof (inv_port _ _ _ I) as Hr. rewrite Hp in Hr.
  eapply wp_mono; [apply (wp_for_each (fun pre _ s' t' => nat_inv s' t' /\ bound k a e s' /\
    PUBLIC_IP s' = PUBLIC_IP s /\
    exists c, (c <= length pre)%nat /\ current_port s' = Nat.iter c next_port p)
    _ (fun _ _ _ => False))| |done].
  - intros pre m post rs s1 t1 Hms (I1 & B1 & P1 & c & Hc & C1).
    eapply wp_mono; [by apply nat_process_packet_spec| |done].
    intros r s2 t2 (I2 & _ & Ho).
    assert (zlen pre + 1 <= zlen ms) as Hpre.
    { rewrite Hms. unfold zlen. rewrite length_app. simpl. lia. }
    unfold zlen in Hpre, Hlen.
    destruct (outcome_bound _ _ _ _ _ _ _ _ _ Ho (inv_port _ _ _ I1) Hr Hk B1) as [B2 C2].
    { rewrite C1, <- Nat.iter_succ. intros Heq.
      apply (next_port_iter_ne 0 (S c) p Hr); [lia|lia|done]. }
    split; [done|]. split; [done|]. split.
    { rewrite <- P1. destruct Ho as [now Ho]. unfold outcome_at in Ho.
      destruct (parse m) as [[[[[sip dip] sport] dport] proto]|]; [|naive_solver].
      unfold same_nat, created in Ho. repeat case_match; naive_solver. }
    rewrite C1 in C2. destruct C2 as [C2|C2]; [exists c|exists (S c)]; rewrite length_app; simpl;
      (split; [lia|by rewrite ?Nat.iter_succ]).
  - split; [done|]. split; [done|]. split; [done|]. exists O. split; [done|done].
  - intros rs s1 t1 (? & ? & ? & _). done.
Qed.

(** The table has room for another key. *)
Definition accepts (h : option rte_hash) : Prop :=
  match h with Some h => forall k v, (rte_hash_add_key_data h k v).1 = 0 | None => False end.

Lemma tbl_add_accepts h k v :
  accepts h -> tbl (add_key_data h k v) = <[key_bytes k := v]> (tbl h).
Proof. destruct h as [h|]; [|done]. simpl. intros H. by rewrite hash_add_law, H, Z.eqb_refl. Qed.

Abbreviation tuple5 := (Z * Z * Z * Z * Z)%type.
(** The 5-tuple of an answer. *)
Definition reply_to (p : tuple5) : tuple5 :=
  let '(sip, dip, sport, dport, proto) := p in (dip, sip, dport, sport, proto).

(** The 5-tuple of the packets that answer the flow of an entry. *)
Definition answer_tuple (e : nat_entry) : tuple5 :=
  (remote_ip e, public_ip e, remote_port e, public_port e, e_proto e).

(** They are delivered as long as the reverse key leads to the entry. *)
Lemma inbound_delivers r a e s t :
  nat_inv s t -> room r HDRS -> bytes_ok r -> bound (rev_key e) a e s -> parse r = Some (answer_tuple e) ->
  is_u32 (private_ip e) -> is_u16 (private_port e) ->
  wp (nat_process_packet r) (fun res _ _ => res.1 = 0 /\
      parse res.2 = Some (remote_ip e, private_ip e, remote_port e, private_port e, e_proto e)) (fun _ _ _ => False) s t.
Proof.
  intros I Hr Hb [B1 B2] Hp H1 H2. destruct (inv_entry _ _ _ I _ _ B2) as (_ & Hk & Hpub).
  eapply wp_mono; [by apply nat_process_packet_spec| |done].
  intros [rc r'] s' t' (_ & _ & now & Ho). unfold outcome_at in Ho. unfold answer_tuple in Hp.
  rewrite Hp, Hpub, Z.eqb_refl in Ho. rewrite Hk, Hpub in B1. rewrite B1 in Ho.
  destruct Ho as (e' & He & [= -> ->] & _). rewrite B2 in He. injection He as <-.
  split; [done|]. by eapply parse_rewrite_in.
Qed.

(** The entry of a new flow holds its source. *)
Lemma new_entry_private m sip dip sport dport proto s :
  room m HDRS -> bytes_ok m -> parse m = Some (sip, dip, sport, dport, proto) ->
  is_u32 (private_ip (new_entry (NatKey sip dip sport dport proto) s)) /\
  is_u16 (private_port (new_entry (NatKey sip dip sport dport proto) s)).
Proof. intros Hr Hb (_ & -> & _ & -> & _)%parse_Some. simpl. split; auto with words. Qed.

(** C2: A reply finds its way back.  When the first packet [m] of a flow leaves, whatever
    packets [ms] (fewer than the 64511 ports) are processed next, a packet [r]
    that answers the translated packet is forwarded, rewritten to come from the
    remote end of [m] and to go to its private source address and port. *)
Theorem nat_reply_reaches_client m sip dip sport dport proto s t :
  nat_inv s t -> room m HDRS -> bytes_ok m ->
  parse m = Some (sip, dip, sport, dport, proto) -> dip <> PUBLIC_IP s ->
  lookup_data (fwd_hash s) (NatKey sip dip sport dport proto) = None ->
  nomem t = false -> accepts (rev_hash s) ->
  wp (nat_process_packet m)
    (fun res s1 t1 => let (rc, m1) := res in
       rc = 0 /\
       forall ms r p1, zlen ms < nports -> parse m1 = Some p1 ->
         room r HDRS -> bytes_ok r -> parse r = Some (reply_to p1) ->
         wp (_ <-- for_each nat_process_packet ms ;; nat_process_packet r)
           (fun res' _ _ => let (rc', r') := res' in
              rc' = 0 /\ parse r' = Some (reply_to (sip, dip, sport, dport, proto)))
           (fun _ _ _ => False) s1 t1)
    (fun _ _ _ => False) s t.
Proof.
  intros I Hr Hb Hp Hd Hl Hm Ha.
  eapply wp_mono; [by apply nat_process_packet_spec| |done].
  intros [rc m1] s1 t1 (I1 & _ & now & Ho). unfold outcome_at in Ho. rewrite Hp, Hm in Ho.
  rewrite lookup_data_tbl in Hl. apply Z.eqb_neq in Hd. rewrite Hd, Hl in Ho.
  destruct Ho as (a & [= -> ->] & (Hn & Hh & _ & Hrev & Hport & Hpub) & _).
  set (k := NatKey sip dip sport dport proto) in *. set (e := new_entry k s) in *.
  split; [done|]. intros ms r p1 Hms Hp1 Hrr Hrb Hpr.
  assert (bound (rev_key e) a e s1) as B.
  { split; [|rewrite Hh; apply lookup_insert_eq].
    rewrite Hrev, tbl_add_accepts by done. apply lookup_insert_eq. }
  pose proof (next_port_range _ (inv_port _ _ _ I)) as Hnp.
  assert (is_u16 (public_port e)) as Hpp by (by apply be16_range, port_u16).
  rewrite (parse_rewrite_out m e sip dip sport dport proto) in Hp1 by
    (auto; apply (inv_pub _ _ _ I)). injection Hp1 as <-.
  apply wp_bind. eapply wp_mono; [eapply (packets_bound ms _ a e); [done|done|exact Hport|done|done]| |done].
  intros _ s2 t2 (I2 & [B1 B2] & P2).
  eapply wp_mono; [by apply nat_process_packet_spec| |done].
  intros [rc' r'] s3 t3 (_ & _ & now' & Ho). unfold outcome_at in Ho. rewrite Hpr in Ho. simpl in Ho.
  rewrite P2, Hpub, Z.eqb_refl in Ho. change (NatKey dip _ _ _ _) with (rev_key e) in Ho.
  rewrite B1 in Ho. destruct Ho as (e' & He & [= -> ->] & _). rewrite B2 in He. injection He as <-.
  split; [done|].
  apply parse_Some in Hp as (_ & -> & -> & -> & -> & -> & _).
  eapply parse_rewrite_in; eauto; simpl; auto with words.
Qed.

(** C4: Whatever the NIC, the clock, the allocator and the hash tables answer, for any
    number of loop iterations: [main] never dereferences a NULL or dangling
    pointer or leaves the packet array; it exits with status 1, before anything
    was received, exactly through [rte_exit]; and otherwise every received mbuf
    has been handed back exactly once, to the NIC or by [rte_pktmbuf_free], when
    a loop iteration ends. *)
Theorem main_safe n :
  wp (main n) (fun _ s t => nat_inv s t /\ owned [] t) (fun c _ t => c = 1 /\ rx_ids t = [])
    nat_state0 [].
Proof. apply v6_main_spec. Qed.

(** ** One packet, by the bytes on the wire *)

(** The flow of a packet: [ether_type] 0x0800 at byte 12, protocol TCP (6) or UDP (17) at
    byte 23, addresses at bytes 26 and 30, ports at bytes 34 and 36. *)
Definition flow_of (m : mbuf) : option nat_key :=
  if (load16 m 12 =? of_le16 8 0) && ((load8 m 23 =? 6) || (load8 m 23 =? 17))
  then Some (NatKey (load32 m 26) (load32 m 30) (load16 m 34) (load16 m 36) (load8 m 23))
  else None.

Lemma parse_flow m :
  parse m = (fun k => (src_ip k, dst_ip k, src_port k, dst_port k, proto k)) <$> flow_of m.
Proof.
  unfold parse, flow_of. rewrite be16_ipv4. change (of_le16 8 0) with 8.
  unfold ETH_TYPE, IP_PROTO, IPPROTO_TCP, IPPROTO_UDP.
  destruct (load16 m 12 =? 8); [|done]. simpl.
  destruct (load8 m 23 =? 6); [done|]. by destruct (load8 m 23 =? 17).
Qed.

(** [m'] is [m] with the address at byte [ao] and the port at byte [po] replaced; only they
    and the two checksum fields change. The code computes the checksums over
    headers whose checksum fields still hold the old values, so they are
    valid when those were 0 (for IPv4: only then). *)
Record rewired (m m' : mbuf) (ao po a p : Z) : Prop := {
  rw6_addr : load_bytes m' ao 4 = le32 a;
  rw6_port : load_bytes m' po 2 = le16 p;
  rw6_frame : frame_but [(ao, 4); (po, 2); (if load8 m 23 =? 6 then 50 else 40, 2); (24, 2)] m m';
  rw6_ip : ihl_ok (at_off m 14) -> ipv4_cksum_ok (at_off m' 14) <-> load16 m 24 mod 65535 = 0;
  rw6_l4 : load16 m (if load8 m 23 =? 6 then 50 else 40) = 0 ->
    l4_cksum_off (load8 m 23) + 2 <= l4_len (at_off m 14) ->
    l4_cksum_ok (at_off m' 14) (at_off m' 34) }.

Lemma rewrite_gen_rewired ao po a p m :
  (ao = IP_SRC /\ po = L4_SPORT \/ ao = IP_DST /\ po = L4_DPORT) ->
  load8 m 23 = 6 \/ load8 m 23 = 17 -> room m 54 -> bytes_ok m ->
  rewired m (rewrite_gen ao po a p (load8 m 23 =? IPPROTO_TCP) m) ao po a p.
Proof.
  intros Ho Hp Hr Hb. split.
  - by apply gen_addr_bytes.
  - by apply gen_port_bytes.
  - exact (gen_frame ao po a p _ m Ho Hr Hb).
  - exact (gen_cksum ao po a p _ m Ho Hr Hb).
  - intros Hz Hl. apply gen_l4_cksum; try done.
    unfold IP_PROTO, IPPROTO_TCP, IPPROTO_UDP. destruct Hp as [-> | ->]; done.
Qed.

(** The table after an insertion, which it may refuse. *)
Definition entered (h h' : option rte_hash) (k : nat_key) (a : Z) : Prop :=
  match h with
  | None => h' = None
  | Some T => exists T', h' = Some T' /\
      hash_map T' = if (rte_hash_add_key_data T (key_bytes k) a).1 =? 0
                    then <[key_bytes k := a]> (hash_map T) else hash_map T
  end.

(** What version 6 does to one packet, without reference to its code. *)
Inductive processed (m : mbuf) (s : nat_state) (nomem : bool) :
    Z * mbuf -> nat_state -> list Z -> Prop :=
| PrOther :
    flow_of m = None -> processed m s nomem (-1, m) s []
| PrUnknown k :
    flow_of m = Some k -> dst_ip k = PUBLIC_IP s -> tbl (rev_hash s) !! key_bytes k = None ->
    processed m s nomem (-1, m) s []
| PrInbound k a e m' s' v :
    flow_of m = Some k -> dst_ip k = PUBLIC_IP s -> tbl (rev_hash s) !! key_bytes k = Some a ->
    heap s !! a = Some e ->
    (room m 54 -> bytes_ok m -> rewired m m' 30 36 (private_ip e) (private_port e)) ->
    same_nat s s' -> pending (timers s') = <[a := (v + u64 (30 * env_hz), 0)]> (pending (timers s)) ->
    processed m s nomem (0, m') s' [v]
| PrOutbound k a e m' s' v :
    flow_of m = Some k -> dst_ip k <> PUBLIC_IP s -> tbl (fwd_hash s) !! key_bytes k = Some a ->
    heap s !! a = Some e ->
    (room m 54 -> bytes_ok m -> rewired m m' 26 34 (PUBLIC_IP s) (public_port e)) ->
    same_nat s s' -> pending (timers s') = <[a := (v + u64 (30 * env_hz), 0)]> (pending (timers s)) ->
    processed m s nomem (0, m') s' [v]
| PrNoMemory k :
    flow_of m = Some k -> dst_ip k <> PUBLIC_IP s -> tbl (fwd_hash s) !! key_bytes k = None ->
    nomem = true -> processed m s nomem (-1, m) s []
| PrNew k a port p m' s' v :
    flow_of m = Some k -> dst_ip k <> PUBLIC_IP s -> tbl (fwd_hash s) !! key_bytes k = None ->
    nomem = false ->
    port = (if current_port s + 1 =? 65535 then 1024 else current_port s + 1) -> p = bswap16 port ->
    let r := NatKey (dst_ip k) (PUBLIC_IP s) (dst_port k) p (proto k) in
    heap s !! a = None ->
    heap s' = <[a := NatEntry k r (src_ip k) (src_port k) (PUBLIC_IP s) p (dst_ip k) (dst_port k) (proto k)]>
                (heap s) ->
    entered (fwd_hash s) (fwd_hash s') k a -> entered (rev_hash s) (rev_hash s') r a ->
    current_port s' = port -> PUBLIC_IP s' = PUBLIC_IP s ->
    pending (timers s') = <[a := (v + u64 (30 * env_hz), 0)]> (pending (timers s)) ->
    (room m 54 -> bytes_ok m -> rewired m m' 26 34 (PUBLIC_IP s) p) ->
    processed m s nomem (0, m') s' [v].

Lemma entered_add h k a : entered h (add_key_data h k a) k a.
Proof. destruct h as [h|]; [|done]. simpl. eexists. split; [done|]. apply hash_add_law. Qed.

Lemma key_bytes_proto k k' : key_bytes k = key_bytes k' -> proto k = proto k'.
Proof. unfold key_bytes. simpl. by intros [= _ _ _ _ _ _ _ _ _ _ _ _ E0]. Qed.

Lemma flow_proto m k : flow_of m = Some k -> proto k = load8 m 23 /\ (load8 m 23 = 6 \/ load8 m 23 = 17).
Proof.
  unfold flow_of. destruct (Z.eqb_spec (load8 m 23) 6), (Z.eqb_spec (load8 m 23) 17);
    destruct (_ =? of_le16 8 0); intros [= <-]; auto.
Qed.

Lemma rewired_out m k e :
  flow_of m = Some k -> e_proto e = proto k -> room m 54 -> bytes_ok m ->
  rewired m (rewrite_out m e) 26 34 (public_ip e) (public_port e).
Proof.
  intros [Hk Hp]%flow_proto He Hr Hb. rewrite rewrite_out_gen, He, Hk.
  apply rewrite_gen_rewired; auto.
Qed.
Lemma rewired_in m k e :
  flow_of m = Some k -> e_proto e = proto k -> room m 54 -> bytes_ok m ->
  rewired m (rewrite_in m e) 30 36 (private_ip e) (private_port e).
Proof.
  intros [Hk Hp]%flow_proto He Hr Hb. rewrite rewrite_in_gen, He, Hk.
  apply rewrite_gen_rewired; auto.
Qed.

Lemma fwd_entry k a s t :
  nat_inv s t -> tbl (fwd_hash s) !! key_bytes k = Some a ->
  exists e, heap s !! a = Some e /\ e_proto e = proto k /\ public_ip e = PUBLIC_IP s.
Proof.
  intros I (e & He & Hk%key_bytes_proto)%(inv_fwd _ _ _ I).
  destruct (inv_entry _ _ _ I _ _ He) as (E1 & _ & E3). exists e. split_and!; [done| |done].
  by rewrite Hk, E1.
Qed.
Lemma rev_entry k a s t :
  nat_inv s t -> tbl (rev_hash s) !! key_bytes k = Some a ->
  exists e, heap s !! a = Some e /\ e_proto e = proto k.
Proof.
  intros I (e & He & Hk%key_bytes_proto)%(inv_rev _ _ _ I).
  destruct (inv_entry _ _ _ I _ _ He) as (_ & E2 & _). exists e. split; [done|]. by rewrite Hk, E2.
Qed.

Lemma next_port_eq p :
  MIN_PORT <= p < MAX_PORT -> next_port p = if p + 1 =? 65535 then 1024 else p + 1.
Proof.
  unfold next_port, MIN_PORT, MAX_PORT. intros H. rewrite u16_small by words.
  destruct (Z.leb_spec 65535 (p + 1)), (Z.eqb_spec (p + 1) 65535); lia.
Qed.

Lemma outcome_processed m s t nm r s' now :
  nat_inv s t -> outcome_at m s nm r s' now -> processed m s nm r s' now.
Proof.
  intros I. unfold outcome_at. rewrite parse_flow. destruct (flow_of m) as [k|] eqn:Hf; cbn [fmap option_fmap option_map].
  2:{ intros (-> & -> & ->). by apply PrOther. }
  cbn beta iota. replace (NatKey (src_ip k) (dst_ip k) (src_port k) (dst_port k) (proto k)) with k by (by destruct k).
  destruct (Z.eqb_spec (dst_ip k) (PUBLIC_IP s)) as [Hd|Hd].
  - destruct (tbl (rev_hash s) !! _) as [a|] eqn:Hl.
    + intros (e & He & -> & HS & v & -> & Hv). destruct (rev_entry _ _ _ _ I Hl) as (e' & He' & Hp).
      rewrite He in He'. injection He' as <-.
      apply (PrInbound _ _ _ k a e); try done. intros Hr Hb. by apply (rewired_in m k).
    + intros (-> & -> & ->). by apply (PrUnknown _ _ _ k).
  - destruct (tbl (fwd_hash s) !! _) as [a|] eqn:Hl.
    + intros (e & He & -> & HS & v & -> & Hv). destruct (fwd_entry _ _ _ _ I Hl) as (e' & He' & Hp & Hpub).
      rewrite He in He'. injection He' as <-.
      apply (PrOutbound _ _ _ k a e); try done. rewrite <- Hpub. intros Hr Hb. by apply (rewired_out m k).
    + destruct nm; [intros (-> & -> & ->); by apply (PrNoMemory _ _ _ k)|].
      intros (a & -> & (Hn & Hh & Hfw & Hrv & Hport & Hpub) & v & -> & Hv).
      pose proof (inv_port _ _ _ I) as Hc. pose proof (next_port_range _ Hc) as Hnp.
      assert (rte_cpu_to_be_16 (next_port (current_port s)) = bswap16 (next_port (current_port s))) as Eb
        by (apply cpu_to_be_16_law; by apply port_u16).
      apply (PrNew _ _ _ k a (next_port (current_port s)) (bswap16 (next_port (current_port s)))); try done.
      * by apply next_port_eq.
      * rewrite Hh. unfold new_entry. by rewrite Eb.
      * rewrite Hfw. apply entered_add.
      * rewrite Hrv. unfold new_entry. rewrite Eb. apply entered_add.
      * rewrite <- Eb. intros Hr Hb. by apply (rewired_out m k (new_entry k s)).
Qed.

(** C13: [nat_process_packet], by the bytes on the wire. What is not IPv4 TCP or UDP, is
    addressed to the public address without belonging to a translated flow, or
    would need an entry for which there is no memory, is refused: packet and
    state stay as they are. A packet of a known flow gets the private address
    and port of its entry as destination, or the public ones as source, and
    its entry 30 seconds from the time read, every other timer staying as it is.
    The first packet of a flow takes the next port, and makes an entry under both
    keys, unless the tables refuse, with such a timer. The result satisfies the
    invariant: no table or timer holds a dangling entry. *)
Theorem nat_process_packet_correct m s t :
  nat_inv s t ->
  wp (nat_process_packet m)
    (fun r s' t' => nat_inv s' t' /\ same_acct t t' /\
       exists now, processed m s (nomem t) r s' now /\ readings t' = readings t ++ now)
    (fun _ _ _ => False) s t.
Proof.
  intros I. eapply wp_mono; [by apply nat_process_packet_at| |done].
  intros r s' t' (I' & A & now & Ho & Hn). split; [done|]. split; [done|]. exists now.
  split; [by eapply outcome_processed|done].
Qed.

(** C32: [nat_timer_manage] reads the clock once and removes exactly the entries whose
    30 seconds are over then, from memory, with their timers and with what the
    tables have under their keys; all the others, their timers and their keys
    stay as they are, and neither a dangling pointer nor an armed timer of a freed
    entry is left. *)
Theorem nat_timer_manage_expires s t :
  nat_inv s t ->
  wp nat_timer_manage
    (fun _ s' t' => nat_inv s' t' /\ exists now, readings t' = readings t ++ [now] /\
       removed (fun a => due now s a = true) s t s' t' /\
       forall a, pending (timers s') !! a = if due now s a then None else pending (timers s) !! a)
    (fun _ _ _ => False) s t.
Proof.
  intros I. eapply wp_mono; [by apply nat_timer_manage_spec| |done]. by intros ? ? ? (? & _ & _ & ?).
Qed.

(** Up to 64511 successive calls of [allocate_port] return pairwise distinct ports,
    in network order, between 1024 and 65534. *)
Theorem allocate_port_distinct n s t :
  MIN_PORT <= current_port s < MAX_PORT -> Z.of_nat n <= nports ->
  wp (for_each (fun _ => allocate_port) (replicate n tt))
    (fun ps s' t' => length ps = n /\ NoDup ps /\ t' = t /\
       Forall (fun p => MIN_PORT <= rte_be_to_cpu_16 p < MAX_PORT) ps)
    (fun _ _ _ => False) s t.
Proof.
  intros Hc Hn. set (p := current_port s) in *.
  set (P := fun k => rte_cpu_to_be_16 (Nat.iter (S k) next_port p)).
  eapply wp_mono; [apply (wp_for_each (fun pre rs s' t' => t' = t /\
    current_port s' = Nat.iter (length pre) next_port p /\ rs = map P (seq 0 (length pre)))
    _ (fun _ _ _ => False))| |done].
  - intros pre [] post rs s1 t1 _ (-> & C1 & ->). unfold wp. rewrite allocate_port_run. cbn [current_port set_port length].
    rewrite length_app. cbn [length]. rewrite Nat.add_1_r, C1. split; [done|]. split; [done|].
    by rewrite seq_S, map_app.
  - done.
  - intros rs s1 t1 (-> & C1 & ->). rewrite length_replicate, length_map, length_seq.
    assert (forall k, is_u16 (Nat.iter k next_port p)) as Hu
      by (intros k; by apply port_u16, next_port_iter_range).
    split; [done|]. split; [|split; [done|]].
    + apply NoDup_ListNoDup, NoDup_map_NoDup_ForallPairs; [|apply seq_NoDup].
      intros i j Hi Hj Heq. apply in_seq in Hi, Hj.
      apply be16_inj in Heq; [|done|done].
      destruct (Nat.lt_total i j) as [H|[H|H]]; [|done|];
        (edestruct next_port_iter_ne; [exact Hc| | |]); [| |exact Heq| | |symmetry; exact Heq]; lia.
    + apply Forall_forall. intros q [k [-> _]]%list_elem_of_fmap.
      unfold P. rewrite be_to_cpu_16_law by (by apply be16_range).
      rewrite cpu_to_be_16_law, bswap16_invol by done. by apply next_port_iter_range.
Qed.

(** The IPv4 header that [rewrite_out] and [rewrite_in] leave has a valid checksum
    only if the checksum field of the received packet was already 0 (or its
    other representation): the field is not cleared before the computation. *)
Theorem rewrite_cksum_valid_iff m e :
  room m HDRS -> bytes_ok m -> ihl_ok (at_off m IP) ->
  (ipv4_cksum_ok (at_off (rewrite_out m e) IP) <-> load16 m IP_CKSUM mod 65535 = 0) /\
  (ipv4_cksum_ok (at_off (rewrite_in m e) IP) <-> load16 m IP_CKSUM mod 65535 = 0).
Proof.
  intros Hr Hb Hi. rewrite rewrite_out_gen, rewrite_in_gen.
  split; apply gen_cksum; auto.
Qed.

End NatV6Props.

(** ** Witnesses *)

#[local] Existing Instances sim_byteorder sim_cksum sim_hash sim_timer.
#[local] Instance wenv : Env := sim_env quiet_script.

(** A client of the NAT 1.2.3.4 sends a segment to 9.9.9.9:80. *)
Definition w_packet : mbuf := mk_packet 1 [10; 0; 0; 7] [9; 9; 9; 9] IPPROTO_TCP [4; 210] [0; 80].
Definition w_state : nat_state :=
  NatState (Some (SimTable 65536 ∅)) (Some (SimTable 65536 ∅)) (of_le32 1 2 3 4) MIN_PORT ∅
    rte_timers_init.

Lemma v6_w_inv t : nat_inv w_state t.
Proof.
  exact (nat_inv_fresh (Some (SimTable 65536 ∅ : rte_hash)) (Some (SimTable 65536 ∅ : rte_hash)) (of_le32 1 2 3 4) t eq_refl eq_refl ltac:(by split)). Qed.
Lemma v6_w_room : room w_packet HDRS. Proof. done. Qed.
Lemma v6_w_bytes : bytes_ok w_packet. Proof. by apply Forall_u8_dec. Qed.

Lemma nat_reply_reaches_client_witness :
  exists p, parse w_packet = Some p /\
  wp (nat_process_packet w_packet)
    (fun res s1 t1 => let (rc, m1) := res in
       rc = 0 /\
       forall ms r p1, zlen ms < nports -> parse m1 = Some p1 ->
         room r HDRS -> bytes_ok r -> parse r = Some (reply_to p1) ->
         wp (_ <-- for_each nat_process_packet ms ;; nat_process_packet r)
           (fun res' _ _ => let (rc', r') := res' in rc' = 0 /\ parse r' = Some (reply_to p))
           (fun _ _ _ => False) s1 t1)
    (fun _ _ _ => False) w_state [].
Proof.
  exists (of_le32 10 0 0 7, of_le32 9 9 9 9, of_le16 4 210, of_le16 0 80, 6).
  split; [done|]. apply nat_reply_reaches_client; try done.
  - apply v6_w_inv.
  - apply v6_w_bytes.
Defined.

Lemma nat_process_packet_correct_witness :
  wp (nat_process_packet w_packet)
    (fun r s' t' => nat_inv s' t' /\ same_acct [] t' /\
       exists now, processed w_packet w_state (nomem []) r s' now /\ readings t' = readings [] ++ now)
    (fun _ _ _ => False) w_state [].
Proof. apply nat_process_packet_correct, v6_w_inv. Defined.

(** The state after that packet: one entry, due after 30 seconds. *)
Definition w_run : nat_state * trace :=
  match nat_process_packet w_packet w_state [] with
  | Done _ s t => (s, t) | _ => (w_state, []) end.

Lemma w_run_inv : nat_inv w_run.1 w_run.2.
Proof.
  pose proof (nat_process_packet_spec w_packet w_state [] (v6_w_inv [])) as H.
  unfold wp, w_run in *. destruct (nat_process_packet w_packet w_state []); [apply H|done|done].
Qed.

(** A slow clock: the flows of two clients begin 50 seconds apart, so that the first one is
    over, the second one not, when [nat_timer_manage] runs. *)
Definition slow_env : Env :=
  sim_env (Script (fun _ => 1) [] 32 (fun t => 10000 * Z.of_nat (length t)) true None 1000).
Definition w_packet2 : mbuf := mk_packet 2 [10; 0; 0; 8] [9; 9; 9; 9] IPPROTO_TCP [4; 211] [0; 80].
Definition w_two : nat_state * trace :=
  match (nat_process_packet (E := slow_env) w_packet ;; nat_process_packet (E := slow_env) w_packet2) w_state [] with
  | Done _ s t => (s, t) | _ => (w_state, []) end.

Lemma w_two_inv : nat_inv w_two.1 w_two.2.
Proof.
  assert (wp (nat_process_packet (E := slow_env) w_packet ;; nat_process_packet (E := slow_env) w_packet2)
    (fun _ s t => nat_inv s t) (fun _ _ _ => False) w_state []) as H.
  { apply wp_bind. eapply wp_mono; [apply (nat_process_packet_spec (E := slow_env)), v6_w_inv| |done].
    intros _ s t (I & _). eapply wp_mono; [by apply (nat_process_packet_spec (E := slow_env))| |done]. by intros ? ? ? []. }
  unfold wp, w_two in *.
  destruct ((nat_process_packet (E := slow_env) w_packet ;; nat_process_packet (E := slow_env) w_packet2) w_state []);
    [apply H|done|done].
Qed.

Lemma nat_timer_manage_expires_witness :
  (map (fun kv => due (@env_cycles slow_env w_two.2) w_two.1 kv.1) (map_to_list (heap w_two.1)) = [true; false] \/
   map (fun kv => due (@env_cycles slow_env w_two.2) w_two.1 kv.1) (map_to_list (heap w_two.1)) = [false; true]) /\
  wp (nat_timer_manage (E := slow_env))
    (fun _ s' t' => nat_inv s' t' /\ exists now, readings t' = readings w_two.2 ++ [now] /\
       removed (fun a => due now w_two.1 a = true) w_two.1 w_two.2 s' t' /\
       forall a, pending (timers s') !! a = if due now w_two.1 a then None else pending (timers w_two.1) !! a)
    (fun _ _ _ => False) w_two.1 w_two.2.
Proof.
  split; [vm_compute; auto|]. apply (nat_timer_manage_expires (E := slow_env)), w_two_inv.
Defined.

Lemma allocate_port_distinct_witness :
  wp (for_each (fun _ => allocate_port) (replicate 3 tt))
    (fun ps s' t' => length ps = 3%nat /\ NoDup ps /\ t' = [] /\
       Forall (fun p => MIN_PORT <= rte_be_to_cpu_16 p < MAX_PORT) ps)
    (fun _ _ _ => False) w_state [].
Proof. by apply allocate_port_distinct. Defined.

Lemma rewrite_cksum_valid_iff_witness :
  let e := new_entry (NatKey 1 2 3 4 6) w_state in
  (ipv4_cksum_ok (at_off (rewrite_out w_packet e) IP) <-> load16 w_packet IP_CKSUM mod 65535 = 0) /\
  (ipv4_cksum_ok (at_off (rewrite_in w_packet e) IP) <-> load16 w_packet IP_CKSUM mod 65535 = 0).
Proof. apply rewrite_cksum_valid_iff; [done|apply v6_w_bytes|done]. Defined.
