(* ===== verification/NatV6Live.v ===== *)
(** * nat_project/version6: a translation lives as long as it is promised to

    From the first packet of a flow through any number of rounds of the main loop,
    other flows and expiring timers included: as long as the clock, which does
    not run backwards, is less than 30 seconds further and there are fewer packets
    than ports, answers reach the client. *)

From stdpp Require Import sorting.
From S2P Require Import Prelude Cstd Rte Env Packet Ownership Sim NatV6 NatV6Props.

Section NatV6Live.
Context {BO : Byteorder} {CK : Cksum} {RH : RteHash} {RT : RteTimer} {E : Env}.

(** The 30 seconds in ticks. *)
Definition TIMEOUT : Z := u64 (NAT_TIMEOUT_SEC * env_hz).

(** ** Timers: every entry that a function leaves has the deadline it had, or a new one *)

Definition armed (s s' : nat_state) (t' : trace) : Prop := forall b, is_Some (heap s' !! b) ->
  is_Some (heap s !! b) /\ pending (timers s') !! b = pending (timers s) !! b \/
  exists v, last (readings t') = Some v /\ pending (timers s') !! b = Some (v + TIMEOUT, 0).

Lemma armed_same s s' t' : heap s' = heap s -> timers s' = timers s -> armed s s' t'.
Proof. intros Hh Ht b. rewrite Hh, Ht. auto. Qed.

Lemma armed_one s s' t' a v :
  (forall b, b <> a -> heap s' !! b = heap s !! b) -> last (readings t') = Some v ->
  pending (timers s') = <[a := (v + TIMEOUT, 0)]> (pending (timers s)) -> armed s s' t'.
Proof.
  intros Hh Hl Hp b Hb. rewrite Hp. destruct (decide (b = a)) as [->|Hne].
  - right. exists v. by rewrite lookup_insert_eq.
  - left. rewrite lookup_insert_ne by done. by rewrite Hh in Hb by done.
Qed.

(** The trace has grown, without a packet. *)
Definition unfed (t t' : trace) : Prop := rx_packets t' = rx_packets t /\ readings t `prefix_of` readings t'.
Lemma unfed_refl t : unfed t t.
Proof. by split. Qed.
Lemma unfed_trans t1 t2 t3 : unfed t1 t2 -> unfed t2 t3 -> unfed t1 t3.
Proof. intros [A1 B1] [A2 B2]. split; [congruence|by etrans]. Qed.

Lemma refresh_armed a s t :
  is_Some (heap s !! a) ->
  wp (refresh a) (fun _ s' t' => unfed t t' /\ armed s s' t' /\ heap s' = heap s) (fun _ _ _ => False) s t.
Proof.
  intros [e Ha]. destruct (refresh_run a e s t Ha) as (v & Hv & Hr). unfold wp. rewrite Hr.
  split; [split; [done|by eexists]|]. split; [|done].
  apply (armed_one _ _ _ a v); [done|apply last_snoc|apply refresh_pending].
Qed.

Lemma create_entry_armed sip sport dip dport proto s t :
  wp (create_entry sip sport dip dport proto) (fun _ s' t' => unfed t t' /\ armed s s' t')
    (fun _ _ _ => False) s t.
Proof.
  unfold create_entry. wp_step. unfold wp at 1, malloc.
  destruct (Z.eqb_spec (env_malloc t sizeof_nat_entry) 0) as [Ez|Hne].
  { wp_steps. split; [apply unfed_refl|by apply armed_same]. }
  set (a := env_malloc _ _) in *. wp_steps. unfold wp at 1. rewrite allocate_port_run.
  unfold arm_timer, print_entry. wp_steps.
  split; [split; [done|by eexists]|].
  apply (armed_one _ _ _ a v); [|apply last_snoc|apply timer_reset_law].
  intros b Hb. simpl. by rewrite lookup_insert_ne by done.
Qed.

Lemma nat_process_packet_armed m s t :
  nat_inv s t ->
  wp (nat_process_packet m) (fun _ s' t' => unfed t t' /\ armed s s' t') (fun _ _ _ => False) s t.
Proof.
  intros I. unfold nat_process_packet. destruct (parse m) as [[[[[sip dip] sport] dport] proto]|]; wp_steps;
    try (by split; [split|apply armed_same]).
  - rewrite lookup_data_tbl. destruct (tbl (rev_hash s) !! _) as [a|] eqn:Hl; wp_steps; [|by split; [split|apply armed_same]].
    destruct (inv_rev _ _ _ I _ _ Hl) as (e & He & _).
    eapply wp_mono; [apply refresh_armed; by eexists| |done].
    intros _ s' t' (Hq & Ha & Hh). wp_steps. rewrite Hh, He. wp_steps. by split; [apply Hq|].
  - rewrite lookup_data_tbl. destruct (tbl (fwd_hash s) !! _) as [a|] eqn:Hl.
    + wp_steps. destruct (inv_fwd _ _ _ I _ _ Hl) as (e & He & _).
      eapply wp_mono; [apply refresh_armed; by eexists| |done].
      intros _ s' t' (Hq & Ha & Hh). wp_steps. rewrite Hh, He. wp_steps. by split; [apply Hq|].
    + eapply wp_mono; [apply wp_and; [apply create_entry_armed|apply create_entry_spec; by apply (nat_inv_trace [] s t)]| |done].
      intros r s' t' ((Hq & Ha) & _ & _ & Hr). destruct (_ =? 0); [destruct Hr as (-> & -> & _); by wp_steps|].
      destruct Hr as (a & -> & C & _). wp_steps. eapply wp_deref; [destruct C as (_ & -> & _); apply lookup_insert_eq|]. wp_steps.
      by split; [apply Hq|].
Qed.

(** ** One flow: its entry [e] at [a], with the port [p], was made when the clock read [t0] *)

Section Flow.
Context (a : Z) (e : nat_entry) (p t0 : Z) (t1 : trace).
Context (Hp : MIN_PORT <= p < MAX_PORT) (Hk : dst_port (rev_key e) = rte_cpu_to_be_16 p).

(** The packets received since. *)
Definition count (t : trace) : Z := zlen (rx_packets t) - zlen (rx_packets t1).
(** The clock has not run backwards, and the 30 seconds are not over. *)
Definition in_time (t : trace) : Prop :=
  StronglySorted Z.le (readings t) /\ Forall (fun v => v < t0 + TIMEOUT) (readings t).

(** The translation after [n] packets: no other entry has its reverse key, and its timer is not due. *)
Record alive (n : Z) (s : nat_state) : Prop := {
  al_bound : bound (rev_key e) a e s;
  al_alone b e' : heap s !! b = Some e' -> b <> a -> key_bytes (rev_key e') <> key_bytes (rev_key e);
  al_due : exists d, pending (timers s) !! a = Some (d, 0) /\ t0 + TIMEOUT <= d;
  al_port : exists c, Z.of_nat c <= n /\ current_port s = Nat.iter c next_port p }.

Lemma in_time_prefix t t' : readings t `prefix_of` readings t' -> in_time t' -> in_time t.
Proof.
  intros [l E1]. unfold in_time. rewrite E1. intros [S1%StronglySorted_app_1_l F1%Forall_app].
  by split; [|apply F1].
Qed.
Lemma in_time_unfed t t' : unfed t t' -> in_time t' -> in_time t.
Proof. intros [_ H]. by apply in_time_prefix. Qed.

Lemma in_time_last t t' v : t0 ∈ readings t -> unfed t t' -> in_time t' -> last (readings t') = Some v -> t0 <= v.
Proof.
  intros H0 [_ [l E1]] [S1 _] [l' E2]%last_Some.
  assert (t0 ∈ readings t') as Hin by (rewrite E1; apply elem_of_app; by left).
  rewrite E2 in *. apply elem_of_app in Hin as [Hin| ->%list_elem_of_singleton]; [|lia].
  eapply StronglySorted_app_1_elem_of; [exact S1|done|by apply list_elem_of_singleton].
Qed.

(** A new flow does not get the port. *)
Lemma created_alone k s :
  MIN_PORT <= current_port s < MAX_PORT -> next_port (current_port s) <> p ->
  key_bytes (rev_key (new_entry k s)) <> key_bytes (rev_key e).
Proof.
  intros Hc Hne Heq. apply Hne. pose proof (next_port_range _ Hc).
  apply be16_inj; [by apply port_u16..|]. rewrite <- Hk.
  apply (key_bytes_dst_port (rev_key (new_entry k s)) (rev_key e)); [| |done]; simpl; rewrite ?Hk;
    by apply be16_range, port_u16.
Qed.

Lemma alive_packet m n s t :
  nat_inv s t -> t0 ∈ readings t ->
  wp (nat_process_packet m) (fun _ s' t' => unfed t t' /\
      (alive n s -> n + 1 < nports -> in_time t' -> alive (n + 1) s')) (fun _ _ _ => False) s t.
Proof.
  intros I H0. pose proof (inv_port _ _ _ I) as Hr.
  eapply wp_mono; [apply wp_and; [by apply nat_process_packet_armed|by apply nat_process_packet_spec]| |done].
  intros r s' t' ([Hq Ha] & I' & _ & Ho). split; [done|]. intros [B A (d & D & Hd) (c & Hc & C)] Hn Ht.
  assert (next_port (current_port s) <> p) as Hne.
  { rewrite C, <- Nat.iter_succ. intros Heq. apply (next_port_iter_ne 0 (S c) p); [done|lia|lia|done]. }
  destruct (outcome_bound _ _ _ _ _ _ _ _ _ Ho Hr Hp Hk B Hne) as [B' C'].
  constructor; [done| | |].
  - destruct (outcome_cases _ _ _ _ _ Ho) as [-> | [(_ & _ & Hh & _)|(k & b & _ & Hh & _)]]; [done|by rewrite Hh|].
    intros b' e'. rewrite Hh, lookup_insert. case_decide; [|by apply A].
    intros [= <-] _. by apply created_alone.
  - destruct (Ha a) as [[_ Hs]|(v & Hv & Hs)]; [by eexists; apply B'|exists d; by rewrite Hs|].
    exists (v + TIMEOUT). split; [done|]. pose proof (in_time_last t t' v H0 Hq Ht Hv). lia.
  - destruct C' as [-> | ->]; [exists c|exists (S c); rewrite Nat.iter_succ]; rewrite C; (split; [lia|done]).
Qed.

Lemma alive_expire b fs n s t :
  nat_inv_firing (b :: fs) s t ->
  wp (nat_entry_expire b) (fun _ s' t' => rx_packets t' = rx_packets t /\ readings t' = readings t /\
    (alive n s -> b <> a -> alive n s')) (fun _ _ _ => False) s t.
Proof.
  intros I. assert (is_Some (heap s !! b)) as [e' He] by (apply (inv_timer _ _ _ I); right; left).
  unfold nat_entry_expire, print_entry. wp_steps. eapply wp_deref; [done|]. wp_steps.
  split; [done|]. split; [done|]. intros [[B1 B2] A D C] Hb. constructor; [|intros b' e''|done|done].
  - split; simpl; [|by rewrite lookup_delete_ne]. rewrite tbl_del, lookup_delete_ne; [done|by eapply A].
  - simpl. rewrite lookup_delete_Some. intros [_ ?]. by apply A.
Qed.

(** When the clock is read in time the timer of the flow does not fire. *)
Lemma alive_not_due n s t now :
  alive n s -> in_time (EvCycles now :: t) ->
  a ∉ (rte_timer_expired (timers s) now).1 /\ alive n (set_timers (rte_timer_expired (timers s) now).2 s).
Proof.
  intros [B A (d & D & Hd) C] [_ HF]. cbn [readings] in HF. apply Forall_app in HF as [_ HF].
  apply Forall_cons_1 in HF as [HF _]. assert (now < d) as Hlt by lia. split.
  - intros (d' & p' & D' & Hd')%timer_expired_iff. rewrite D in D'. injection D' as <- <-. lia.
  - constructor; [done|done| |done]. exists d. split; [|done]. simpl. rewrite timer_expired_rest, D.
    apply Z.leb_gt in Hlt. by rewrite Hlt.
Qed.

Lemma alive_manage n s t :
  nat_inv s t ->
  wp nat_timer_manage (fun _ s' t' => unfed t t' /\ (in_time t' -> alive n s -> alive n s')) (fun _ _ _ => False) s t.
Proof.
  intros I. unfold nat_timer_manage. wp_steps. rename v into now.
  set (r := rte_timer_expired (timers s) now). set (t2 := EvCycles now :: t).
  eapply wp_mono; [apply (wp_for_each (fun pre _ s' t' => exists post, r.1 = pre ++ post /\
      nat_inv_firing post s' t' /\ rx_packets t' = rx_packets t2 /\ readings t' = readings t2 /\
      (in_time t2 -> alive n s -> alive n s')) _ (fun _ _ _ => False))| |done].
  - intros pre b post rs s3 t3 Hr (post' & Hr' & I3 & P3 & R3 & A3).
    rewrite Hr in Hr'. apply app_inv_head in Hr' as <-.
    eapply wp_mono; [apply wp_and; [by apply nat_entry_expire_spec|by apply (alive_expire b post n)]| |done].
    intros u s4 t4 ((I4 & _) & P4 & R4 & A4). exists post. rewrite <- app_assoc, P4, R4. split_and!; try done.
    intros Ht AL. apply A4; [by apply A3|]. intros ->. destruct (alive_not_due n s t now AL Ht) as [Hn _].
    fold r in Hn. rewrite Hr in Hn. apply Hn, elem_of_app. right. left.
  - exists r.1. split; [done|]. split; [apply (nat_inv_trace _ _ t); [done|by apply inv_fire]|].
    split_and!; try done. intros Ht AL. by apply (alive_not_due n s t now AL).
  - intros rs s3 t3 (post & _ & _ & P3 & R3 & A3). wp_steps. split; [split; [done|rewrite R3; by eexists]|].
    intros Ht. apply A3. unfold in_time in *. by rewrite <- R3.
Qed.


Lemma alive_burst bufs held n s t :
  nat_inv s t -> owned (ids bufs ++ held) t -> zlen bufs <= BURST_SIZE -> t0 ∈ readings t ->
  wp (process_burst (zlen bufs) bufs) (fun r s' t' => nat_inv s' t' /\ compacted bufs (zlen bufs) r.1 r.2 held t' /\
      unfed t t' /\ (n + zlen bufs < nports -> in_time t' -> alive n s -> alive (n + zlen bufs) s'))
    (fun _ _ _ => False) s t.
Proof.
  intros I Ho Hlen H0. unfold BURST_SIZE in Hlen. unfold process_burst.
  eapply wp_mono; [apply (wp_for (fun i st s' t' =>
    nat_inv s' t' /\ compacted bufs i st.1 st.2 held t' /\ unfed t t' /\
    (n + zlen bufs < nports -> in_time t' -> alive n s -> alive (n + i) s')) _ (fun _ _ _ => False))| |done].
  - intros i [bs k] s1 t2 Hi (I1 & C & Q1 & A1). simpl in C.
    destruct (compacted_lookup _ _ _ _ _ _ C) as (m & Hm & _); [lia|].
    wp_steps. eapply wp_deref; [done|]. wp_steps.
    assert (t0 ∈ readings t2) as H2 by (destruct Q1 as [_ [l ->]]; apply elem_of_app; by left).
    eapply wp_mono; [apply wp_and; [by apply nat_process_packet_spec|by apply (alive_packet m (n + i))]| |done].
    intros [r m'] s2 t3 ((I2 & A & Hid%outcome_id) & Q2 & A2). simpl in Hid. cbn beta iota.
    assert (unfed t t3) as Q3 by by eapply unfed_trans.
    assert (n + zlen bufs < nports -> in_time t3 -> alive n s -> alive (n + (i + 1)) s2) as A3.
    { intros Hn Ht AL. rewrite Z.add_assoc. apply A2; [|lia|done]. apply A1; [done| |done]. by eapply in_time_unfed. }
    apply (compacted_acct _ _ _ _ _ _ _ A) in C. pose proof C as [Hn _].
    wp_steps; (split; [try done; by apply (nat_inv_trace [] s2 t3)|]); cbn [fst snd]; (split; [|done]).
    + rewrite u16_small by words. by apply (compacted_keep _ _ _ _ _ _ m); [|lia| |].
    + by apply (compacted_drop _ _ _ _ _ _ m); [|lia| |].
  - split; [done|]. split; [by apply compacted_init|]. split; [done|]. by rewrite Z.add_0_r.
  - intros [bs k] s1 t2. by rewrite Z.add_0_l, Z2Nat.id by apply zlen_nonneg.
Qed.

(** The state between two rounds. *)
Definition between (held : list Z) (s : nat_state) (t : trace) : Prop :=
  nat_inv s t /\ owned held t /\ t0 ∈ readings t /\ 0 <= count t /\
  (count t < nports -> in_time t -> alive (count t) s).

Lemma between_round held s t :
  between held s t -> wp (loop_body tt) (fun _ => between held) (fun _ _ _ => False) s t.
Proof.
  intros (I & Ho & H0 & Hc & AL). unfold loop_body. wp_step. apply wp_rx. intros bufs Hlen _.
  specialize (Hlen ltac:(done)). apply (owned_rx _ PORT_ID 0 BURST_SIZE bufs) in Ho.
  set (t2 := EvRx _ _ _ bufs :: t) in *.
  assert (nat_inv s t2) as I2 by (by apply (nat_inv_trace [] s t)).
  assert (count t2 = count t + zlen bufs) as Hc2 by (unfold count; simpl; rewrite zlen_app; lia).
  pose proof (zlen_nonneg bufs) as Hz.
  wp_steps.
  - assert (bufs = []) as -> by (destruct bufs; [done|by rewrite Z.eqb_eq in H]).
    eapply wp_mono; [apply wp_and; [by apply nat_timer_manage_spec|by apply (alive_manage (count t))]| |done].
    intros _ s3 t3 ((I3 & _ & A & _) & [P3 [l R3]] & A3).
    assert (count t3 = count t) as Hc3 by (unfold count in *; by rewrite P3).
    split; [done|]. split; [by eapply owned_acct|]. rewrite Hc3. split; [rewrite R3; apply elem_of_app; by left|].
    split; [done|]. intros Hn Ht. apply A3; [done|]. apply AL; [done|].
    apply (in_time_prefix t t3); [by eexists|done].
  - eapply wp_mono; [apply (alive_burst bufs held (count t)); done| |done].
    intros [bs k] s3 t3 (I3 & C & Q3 & A3). cbn [fst snd] in C. apply compacted_end in C as (Ho3 & Hn & Hl).
    wp_step. eapply wp_mono; [apply wp_and; [apply (wp_tx_or_free _ _ _ held (fun _ _ t' => owned held t' /\
      live_blocks t' = live_blocks t3 /\ rx_packets t' = rx_packets t3) (fun _ _ _ => False)); [done|auto]|apply tx_or_free_readings]| |done].
    intros _ s4 t4 ((Ho4 & E4 & P4) & -> & R4).
    eapply wp_mono; [apply wp_and; [apply nat_timer_manage_spec; by eapply nat_inv_trace
      |apply (alive_manage (count t + zlen bufs)); by eapply nat_inv_trace]| |done].
    intros _ s5 t5 ((I5 & _ & A & _) & Q5 & A5).
    assert (unfed t3 t4) as Q4 by (split; [done|by rewrite R4]).
    pose proof (unfed_trans _ _ _ Q3 (unfed_trans _ _ _ Q4 Q5)) as [P5 [l R5]].
    assert (count t5 = count t + zlen bufs) as Hc5 by (rewrite <- Hc2; unfold count; by rewrite P5).
    split; [done|]. split; [by eapply owned_acct|]. rewrite Hc5.
    split; [rewrite R5; apply elem_of_app; by left|]. split; [lia|]. intros Hn5 Ht.
    assert (in_time t4) as Ht4 by (by eapply in_time_unfed).
    assert (in_time t3) as Ht3 by (by eapply in_time_unfed). apply A5; [done|]. apply A3; [done|done|]. apply AL; [lia|].
    apply (in_time_prefix t t3); [apply Q3|done].
Qed.
End Flow.

(** No flow that is not over has the port that a new flow [k] gets, with the same remote end. *)
Definition port_unused (k : nat_key) (s : nat_state) : Prop :=
  forall b e', heap s !! b = Some e' -> key_bytes (rev_key e') <> key_bytes (rev_key (new_entry k s)).

Lemma created_alive k a s s1 t1 :
  nat_inv s1 t1 -> armed s s1 t1 -> created k a s s1 -> port_unused k s -> accepts (rev_hash s) ->
  exists t0, last (readings t1) = Some t0 /\ alive a (new_entry k s) (next_port (current_port s)) t0 0 s1.
Proof.
  intros I1 HA (Hn & Hh & _ & Hrev & Hport & _) Hu Ha.
  assert (heap s1 !! a = Some (new_entry k s)) as He by (rewrite Hh; apply lookup_insert_eq).
  destruct (HA a) as [[[? Hx] _]|(t0 & Ht0 & Hpe)]; [by eexists|by rewrite Hn in Hx|].
  exists t0. split; [done|]. constructor.
  - split; [|done]. rewrite Hrev, tbl_add_accepts by done. apply lookup_insert_eq.
  - intros b e'. rewrite Hh, lookup_insert. case_decide; [congruence|]. intros He' _. by apply (Hu b).
  - by exists (t0 + TIMEOUT).
  - exists O. split; [done|]. by rewrite Hport.
Qed.

(** C1: A flow is translated for the 30 seconds it is promised.  When the first packet [m] of a flow
    leaves, with a port that no other flow to the same remote end has, and the main loop goes round any
    number of times, receiving, creating and refreshing other flows, sending, and expiring what is
    due: as long as fewer than 64511 packets were received and the clock, which does not run
    backwards, is less than 30 seconds further, an answer [r] to the translated packet is
    forwarded to the private source address and port of [m]. *)
Theorem nat_flow_lives m sip dip sport dport proto held s t n :
  nat_inv s t -> owned held t -> room m HDRS -> bytes_ok m ->
  parse m = Some (sip, dip, sport, dport, proto) -> dip <> PUBLIC_IP s ->
  lookup_data (fwd_hash s) (NatKey sip dip sport dport proto) = None ->
  port_unused (NatKey sip dip sport dport proto) s ->
  nomem t = false -> accepts (rev_hash s) ->
  wp (nat_process_packet m)
    (fun res s1 t1 => res.1 = 0 /\ exists t0, last (readings t1) = Some t0 /\
       wp (forever n loop_body tt)
         (fun _ s2 t2 => nat_inv s2 t2 /\ owned held t2 /\
            (count t1 t2 < nports -> in_time t0 t2 ->
             forall r p1, parse res.2 = Some p1 -> room r HDRS -> bytes_ok r -> parse r = Some (reply_to p1) ->
               wp (nat_process_packet r)
                 (fun res' _ _ => res'.1 = 0 /\ parse res'.2 = Some (reply_to (sip, dip, sport, dport, proto)))
                 (fun _ _ _ => False) s2 t2))
         (fun _ _ _ => False) s1 t1)
    (fun _ _ _ => False) s t.
Proof.
  intros I Ho Hr Hb Hp Hd Hl Hu Hm Ha.
  eapply wp_mono; [apply wp_and; [by apply nat_process_packet_armed|by apply nat_process_packet_spec]| |done].
  intros [rc m1] s1 t1 ([_ HA] & I1 & Hac & now & Hout). unfold outcome_at in Hout. rewrite Hp, Hm in Hout.
  rewrite lookup_data_tbl in Hl. apply Z.eqb_neq in Hd. rewrite Hd, Hl in Hout.
  destruct Hout as (a & [= -> ->] & C & _).
  set (k := NatKey sip dip sport dport proto) in *. set (e := new_entry k s) in *.
  pose proof (next_port_range _ (inv_port _ _ _ I)) as Hnp. set (p := next_port (current_port s)) in *.
  destruct (created_alive k a s s1 t1) as (t0 & Ht0 & AL); [done..|]. fold e p in AL.
  split; [done|]. exists t0. split; [done|].
  assert (dst_port (rev_key e) = rte_cpu_to_be_16 p) as Hk by done.
  eapply wp_mono; [apply (wp_forever (fun _ => between a e p t0 t1 held) _ (fun _ _ _ => False))| |done].
  - intros [] s2 t2 HB. apply (between_round a e p t0 t1 Hnp Hk held s2 t2 HB).
  - split; [done|]. split; [by eapply owned_acct|]. unfold count. rewrite Z.sub_diag.
    split; [apply last_Some in Ht0 as [l ->]; apply elem_of_app; right; by left|]. by split; [|intros _ _].
  - intros _ s2 t2 (I2 & O2 & _ & _ & A2). split; [done|]. split; [done|].
    intros Hn Ht r p1 Hp1 Hrr Hrb Hpr. destruct (A2 Hn Ht) as [B2 _ _ _].
    destruct (new_entry_private m sip dip sport dport proto s) as [P1 P2]; [done..|].
    assert (is_u16 (public_port e)) as Hpp by (by apply be16_range, port_u16). cbn [snd] in Hp1.
    rewrite (parse_rewrite_out m e sip dip sport dport proto) in Hp1 by (auto; apply (inv_pub _ _ _ I)).
    injection Hp1 as <-. by apply (inbound_delivers r a e).
Qed.
End NatV6Live.

(** ** Witness *)

#[local] Existing Instances sim_byteorder sim_cksum sim_hash sim_timer.

(** Another client opens a connection in the second of three rounds; the clock counts events. *)
Definition w_other : mbuf := mk_packet 2 [10; 0; 0; 8] [9; 9; 9; 9] IPPROTO_TCP [8; 1] [0; 80].
#[local] Instance live_env : Env :=
  sim_env (Script (fun _ => 1) [[w_packet]; []; [w_other]; []] 32 (fun t => Z.of_nat (length t)) true None 1000).
Definition w_polled : trace := [EvRx PORT_ID 0 BURST_SIZE [w_packet]].
Definition w_first : nat_state * trace :=
  match nat_process_packet w_packet w_state w_polled with Done _ s t => (s, t) | _ => (w_state, []) end.
Definition w_rounds : nat_state * trace :=
  match forever 3 loop_body tt w_first.1 w_first.2 with Done _ s t => (s, t) | _ => (w_state, []) end.

(** The conditions hold after these rounds, with two flows in the tables. *)
Lemma w_rounds_in_time :
  count w_first.2 w_rounds.2 = 1 /\ in_time 3 w_rounds.2 /\ size (heap w_rounds.1) = 2%nat.
Proof.
  split; [by vm_compute|]. split; [|by vm_compute]. unfold in_time.
  assert (readings w_rounds.2 = [3; 6; 10; 13; 15]) as -> by (by vm_compute).
  assert (TIMEOUT = 30000) as -> by (by vm_compute). split; repeat constructor; lia.
Qed.

Lemma nat_flow_lives_witness :
  wp (nat_process_packet w_packet)
    (fun res s1 t1 => res.1 = 0 /\ exists t0, last (readings t1) = Some t0 /\
       wp (forever 3 loop_body tt)
         (fun _ s2 t2 => nat_inv s2 t2 /\ owned [1] t2 /\
            (count t1 t2 < nports -> in_time t0 t2 ->
             forall r p1, parse res.2 = Some p1 -> room r HDRS -> bytes_ok r -> parse r = Some (reply_to p1) ->
               wp (nat_process_packet r)
                 (fun res' _ _ => res'.1 = 0 /\ parse res'.2 =
                    Some (reply_to (of_le32 10 0 0 7, of_le32 9 9 9 9, of_le16 4 210, of_le16 0 80, 6)))
                 (fun _ _ _ => False) s2 t2))
         (fun _ _ _ => False) s1 t1)
    (fun _ _ _ => False) w_state w_polled /\
  count w_first.2 w_rounds.2 = 1 /\ last (readings w_first.2) = Some 3 /\ in_time 3 w_rounds.2.
Proof.
  split; [|split; [by vm_compute|split; [by vm_compute|apply w_rounds_in_time]]].
  apply (nat_flow_lives w_packet (of_le32 10 0 0 7) (of_le32 9 9 9 9) (of_le16 4 210) (of_le16 0 80) 6 [1]).
  - apply v6_w_inv.
  - apply Permutation_refl.
  - done.
  - apply v6_w_bytes.
  - done.
  - done.
  - done.
  - intros b e' Hx. change (heap w_state) with (∅ : gmap Z nat_entry) in Hx. by rewrite lookup_empty in Hx.
  - by vm_compute.
  - done.
Defined.
