(* ===== verification/NatV6Reuse.v ===== *)
(** * nat_project/version6: what happens when a public port is used twice

    [allocate_port] runs through 64511 ports and starts again, whether or not the
    flow that has a port is over.  Two flows to the same remote end then have one
    reverse key. *)

From S2P Require Import Prelude Cstd Rte Env Packet Ownership Sim NatV6 NatV6Props.

Section NatV6Reuse.
Context {BO : Byteorder} {CK : Cksum} {RH : RteHash} {RT : RteTimer} {E : Env}.

(** After a full turn the port is the same again. *)
Lemma next_port_turn p :
  MIN_PORT <= p < MAX_PORT -> Nat.iter (Z.to_nat nports) next_port p = p.
Proof.
  intros Hp. rewrite next_port_iter by done. unfold nports, MIN_PORT, MAX_PORT in *.
  rewrite Z2Nat.id by lia. rewrite Z.add_mod, Z.mod_same, Z.add_0_r, Z.mod_mod, Z.mod_small by lia. lia.
Qed.

Lemma nat_inv_port p s t : MIN_PORT <= p < MAX_PORT -> nat_inv s t -> nat_inv (set_port p s) t.
Proof. intros Hp []. by split. Qed.

(** A new flow gets the port of an entry with the same remote end: they have one reverse key. *)
Lemma same_rev_key k a e s t :
  nat_inv s t -> heap s !! a = Some e ->
  remote_ip e = dst_ip k -> remote_port e = dst_port k -> e_proto e = proto k ->
  public_port e = rte_cpu_to_be_16 (next_port (current_port s)) ->
  rev_key (new_entry k s) = rev_key e /\ answer_tuple (new_entry k s) = answer_tuple e.
Proof.
  intros I Ha H1 H2 H3 H4. destruct (inv_entry _ _ _ I _ _ Ha) as (_ & -> & Hp).
  unfold answer_tuple, new_entry. cbn [rev_key]. by rewrite H1, H2, H3, H4, Hp.
Qed.

Lemma expired_drops r a e s t :
  nat_inv s t -> heap s !! a = Some e -> parse r = Some (answer_tuple e) ->
  wp (nat_entry_expire a ;; nat_process_packet r) (fun res _ _ => res = (-1, r)) (fun _ _ _ => False) s t.
Proof.
  intros I Ha Hp. destruct (inv_entry _ _ _ I _ _ Ha) as (_ & Hrev & Hpub).
  unfold nat_entry_expire, print_entry. wp_steps. eapply wp_deref; [done|]. wp_steps.
  unfold nat_process_packet. rewrite Hp. unfold answer_tuple. wp_steps; cbn [PUBLIC_IP set_heap set_tables rev_hash] in *.
  - rewrite lookup_data_tbl, tbl_del, Hrev, lookup_delete_eq. by wp_steps.
  - apply Z.eqb_neq in H. by rewrite Hpub in H.
Qed.

(** C5: Ports are reused whatever the flows that have them.  When the port counter comes round to
    the port of an entry [e] that is not over, and a new flow to the same remote end begins, the
    entry stays in place, but the answers to it are from then on delivered to the client of the
    new flow; and when the timer of [e] fires, it takes the reverse key of the new flow away,
    whose answers are then dropped. *)
Theorem port_reuse_misdelivers m sip dip sport dport proto a e s t :
  nat_inv s t -> room m HDRS -> bytes_ok m ->
  parse m = Some (sip, dip, sport, dport, proto) -> dip <> PUBLIC_IP s ->
  lookup_data (fwd_hash s) (NatKey sip dip sport dport proto) = None ->
  nomem t = false -> accepts (rev_hash s) ->
  heap s !! a = Some e -> remote_ip e = dip -> remote_port e = dport -> e_proto e = proto ->
  public_port e = rte_cpu_to_be_16 (next_port (current_port s)) ->
  wp (nat_process_packet m)
    (fun res s1 t1 => res.1 = 0 /\ heap s1 !! a = Some e /\
       forall r, room r HDRS -> bytes_ok r -> parse r = Some (answer_tuple e) ->
         wp (nat_process_packet r)
           (fun res' _ _ => res'.1 = 0 /\ parse res'.2 = Some (dip, sip, dport, sport, proto))
           (fun _ _ _ => False) s1 t1 /\
         wp (nat_entry_expire a ;; nat_process_packet r) (fun res' _ _ => res' = (-1, r))
           (fun _ _ _ => False) s1 t1)
    (fun _ _ _ => False) s t.
Proof.
  intros I Hr Hb Hp Hd Hl Hm Ha He E1 E2 E3 E4.
  set (k := NatKey sip dip sport dport proto) in *.
  destruct (same_rev_key k a e s t) as [Hk Ht]; [done..|].
  eapply wp_mono; [by apply nat_process_packet_spec| |done].
  intros res s1 t1 (I1 & _ & now & Ho). unfold outcome_at in Ho. rewrite Hp, Hm in Ho. fold k in Ho.
  rewrite lookup_data_tbl in Hl. apply Z.eqb_neq in Hd. rewrite Hd, Hl in Ho.
  destruct Ho as (b & -> & (Hn & Hh & _ & Hrev & _ & Hpub) & _).
  assert (heap s1 !! a = Some e) as He1 by (rewrite Hh, lookup_insert_ne; [done|congruence]).
  split; [done|]. split; [done|]. intros r Hrr Hrb Hpr.
  split; [|by apply (expired_drops r a e)].
  destruct (new_entry_private m sip dip sport dport proto s) as [P1 P2]; [done..|]. fold k in P1, P2.
  apply (inbound_delivers r b (new_entry k s)); try done; [|by rewrite Hpr, Ht].
  split; [|rewrite Hh; apply lookup_insert_eq].
  rewrite Hrev, tbl_add_accepts by done. apply lookup_insert_eq.
Qed.
End NatV6Reuse.

(** ** Witness *)

#[local] Existing Instances sim_byteorder sim_cksum sim_hash sim_timer.
#[local] Instance reuse_env : Env := sim_env quiet_script.

(** A second client, 10.0.0.8, opens a connection to the same server, one turn of the ports after the
    packet of [w_run]. *)
Definition w_packet2 : mbuf := mk_packet 2 [10; 0; 0; 8] [9; 9; 9; 9] IPPROTO_TCP [8; 1] [0; 80].
Definition w_turned : nat_state := set_port MIN_PORT w_run.1.

Lemma sim_accepts (o : option rte_hash) :
  match o with Some h => Z.of_nat (size (st_map h)) <? st_cap h | None => false end = true -> accepts o.
Proof.
  destruct o as [h|]; [|done]. intros Hs k v. simpl. unfold sim_add. by rewrite Hs, orb_true_r.
Qed.

Lemma port_reuse_misdelivers_witness :
  exists a e, map_to_list (heap w_turned) = [(a, e)] /\ private_ip e = of_le32 10 0 0 7 /\
  wp (nat_process_packet w_packet2)
    (fun res s1 t1 => res.1 = 0 /\ heap s1 !! a = Some e /\
       forall r, room r HDRS -> bytes_ok r -> parse r = Some (answer_tuple e) ->
         wp (nat_process_packet r)
           (fun res' _ _ => res'.1 = 0 /\
              parse res'.2 = Some (of_le32 9 9 9 9, of_le32 10 0 0 8, of_le16 0 80, of_le16 8 1, 6))
           (fun _ _ _ => False) s1 t1 /\
         wp (nat_entry_expire a ;; nat_process_packet r) (fun res' _ _ => res' = (-1, r))
           (fun _ _ _ => False) s1 t1)
    (fun _ _ _ => False) w_turned w_run.2.
Proof.
  eexists _, _. split; [by vm_compute|]. split; [by vm_compute|].
  apply (port_reuse_misdelivers w_packet2 (of_le32 10 0 0 8) (of_le32 9 9 9 9) (of_le16 8 1) (of_le16 0 80) 6).
  - apply nat_inv_port; [done|apply w_run_inv].
  - done.
  - by apply Forall_u8_dec.
  - by vm_compute.
  - by vm_compute.
  - by vm_compute.
  - by vm_compute.
  - apply sim_accepts. by vm_compute.
  - by vm_compute.
  - done.
  - done.
  - done.
  - by vm_compute.
Defined.
