(* ===== verification/LoadBalancer.v ===== *)
(** * Load_Balancer/load_balancer.c: round-robin destination rewriting *)

From S2P Require Import Prelude Rte Env Packet Ownership Sim.

Definition RX_RING_SIZE := 1024.
Definition TX_RING_SIZE := 1024.
Definition NUM_MBUFS := 8192.
Definition MBUF_CACHE_SIZE := 250.
Definition BURST_SIZE := 32.
Definition RTE_MBUF_DEFAULT_BUF_SIZE := 2176.
Definition EXIT_FAILURE := 1.
Definition n_backends := 3.

Record backend := Backend { b_ip : Z; b_port : Z }.

(** The static variables that change. *)
Record lb_state := LbState {
  next_backend : Z;
  backends : list backend;
  backend_hits : list Z;
  port_id : Z }.

(** The locals of [lcore_main]. *)
Record counters := Counters {
  total_rx : Z; total_tx : Z; total_drop : Z; period_rx : Z; print_counter : Z }.

Section LoadBalancer.
Context {BO : Byteorder} {CK : Cksum} {E : Env}.
Notation M := (M lb_state).

Definition lb_state0 : lb_state := LbState 0
  [Backend (RTE_IPV4 192 168 0 101) 0; Backend (RTE_IPV4 192 168 0 102) 0;
   Backend (RTE_IPV4 192 168 0 103) 0] [0; 0; 0] 0.

Definition set_next (n : Z) (s : lb_state) : lb_state :=
  LbState n (backends s) (backend_hits s) (port_id s).
Definition set_backends (b : list backend) (s : lb_state) : lb_state :=
  LbState (next_backend s) b (backend_hits s) (port_id s).
Definition set_hits (h : list Z) (s : lb_state) : lb_state :=
  LbState (next_backend s) (backends s) h (port_id s).
Definition set_port (p : Z) (s : lb_state) : lb_state :=
  LbState (next_backend s) (backends s) (backend_hits s) p.

(** The result is the return value and the packet, modified in place. *)
Definition rewrite_l4_packet (m : mbuf) : M (Z * mbuf) :=
  if negb (load16 m ETH_TYPE =? rte_cpu_to_be_16 RTE_ETHER_TYPE_IPV4) then ret (-1, m)
  else
  let proto := load8 m IP_PROTO in
  if negb (proto =? IPPROTO_TCP) && negb (proto =? IPPROTO_UDP) then ret (-1, m)
  else
    selected <-- gets next_backend ;;
    bs <-- gets backends ;;
    bk <-- deref (bs !! Z.to_nat selected) ;;
    modify (fun s => set_next ((u32 (next_backend s + 1)) mod n_backends) s) ;;
    let m := store32 m IP_DST (b_ip bk) in
    let m :=
      if proto =? IPPROTO_TCP then recalc_l4 TCP_CKSUM (store16 m L4_DPORT (b_port bk))
      else if proto =? IPPROTO_UDP then recalc_l4 UDP_CKSUM (store16 m L4_DPORT (b_port bk))
      else m in
    let m := recalc_ip m in
    hits <-- gets backend_hits ;;
    h <-- deref (hits !! Z.to_nat selected) ;;
    modify (set_hits (<[Z.to_nat selected := u64 (h + 1)]> hits)) ;;
    ret (selected, m).

(** One packet of the burst. *)
Definition handle (period_rx : Z) (m : mbuf) : M mbuf :=
  let* (selected, m) := rewrite_l4_packet m in
  when ((0 <=? selected) && (period_rx mod 1000 =? 0))
    (bs <-- gets backends ;;
     bk <-- deref (bs !! Z.to_nat selected) ;;
     printf "selected backend=%d dst=%u\n" [PInt selected; PInt (rte_be_to_cpu_32 (b_ip bk))]) ;;
  ret m.

Definition loop_body (c : counters) : M counters :=
  port <-- gets port_id ;;
  pkts <-- rte_eth_rx_burst port 0 BURST_SIZE ;;
  let nb_rx := zlen pkts in
  if nb_rx =? 0 then ret c
  else
    let total_rx := u64 (total_rx c + nb_rx) in
    let period_rx := u64 (period_rx c + nb_rx) in
    pkts <-- for_each (handle period_rx) pkts ;;
    nb_tx <-- tx_count_or_free port 0 pkts ;;
    let total_tx := u64 (total_tx c + nb_tx) in
    let total_drop := u64 (total_drop c + (nb_rx - nb_tx)) in
    let pc := u32 (print_counter c + 1) in
    if pc =? 1000 then
      printf "stats: total_rx=%lu total_tx=%lu drop=%lu\n" [PInt total_rx; PInt total_tx; PInt total_drop] ;;
      hits <-- gets backend_hits ;;
      _ <-- for_each (fun ih => printf "    backend %u hits = %lu\n" [PInt ih.1; PInt ih.2])
              (imap (fun i h => (Z.of_nat i, h)) hits) ;;
      ret (Counters total_rx total_tx total_drop period_rx 0)
    else ret (Counters total_rx total_tx total_drop period_rx pc).

(** The first [n] iterations; the flag says whether the loop has ended. *)
Definition lcore_main (n : nat) : M (bool * counters) :=
  while_running n loop_body (Counters 0 0 0 0 0).

Definition setup_port (port mbuf_pool : Z) : M unit :=
  r <-- call (rte_eth_dev_configure port 1 1) ;;
  when (r <? 0) (rte_exit EXIT_FAILURE) ;;
  r <-- call (rte_eth_rx_queue_setup port 0 RX_RING_SIZE mbuf_pool) ;;
  when (r <? 0) (rte_exit EXIT_FAILURE) ;;
  r <-- call (rte_eth_tx_queue_setup port 0 TX_RING_SIZE) ;;
  when (r <? 0) (rte_exit EXIT_FAILURE) ;;
  r <-- call (rte_eth_dev_start port) ;;
  when (r <? 0) (rte_exit EXIT_FAILURE) ;;
  _ <-- call (rte_eth_promiscuous_enable port) ;;
  printf "Port %u started\n" [PInt port] ;;
  modify (set_port (u8 port)).

Definition main (n : nat) : M (option counters) :=
  r <-- call rte_eal_init ;;
  when (r <? 0) (rte_exit EXIT_FAILURE) ;;
  _ <-- call (signal_handler_install "SIGINT") ;;
  _ <-- call (signal_handler_install "SIGTERM") ;;
  r <-- call rte_eth_dev_count_avail ;;
  let nb_ports := u16 r in
  when (nb_ports <? 1) (rte_exit EXIT_FAILURE) ;;
  mbuf_pool <-- call (rte_pktmbuf_pool_create "MBUF_POOL" (NUM_MBUFS * nb_ports) MBUF_CACHE_SIZE 0
                        RTE_MBUF_DEFAULT_BUF_SIZE) ;;
  when (mbuf_pool =? 0) (rte_exit EXIT_FAILURE) ;;
  modify (fun s => set_backends
    (map (fun b => Backend (b_ip b) (rte_cpu_to_be_16 10000)) (backends s)) s) ;;
  ports <-- eth_ports ;;
  _ <-- for_each (fun port => setup_port port mbuf_pool) ports ;;
  printf "Starting main loop on lcore %u\n" [] ;;
  let* (ended, c) := lcore_main n in
  if ended : bool then
    ports <-- eth_ports ;;
    _ <-- for_each (fun port =>
            _ <-- call (rte_eth_dev_stop port) ;; _ <-- call (rte_eth_dev_close port) ;; ret tt) ports ;;
    printf "Bye\n" [] ;;
    ret (Some c)
  else ret None.

(** ** Rewriting *)

Definition is_l4 (m : mbuf) : bool :=
  (load16 m ETH_TYPE =? rte_cpu_to_be_16 RTE_ETHER_TYPE_IPV4) &&
  ((load8 m IP_PROTO =? IPPROTO_TCP) || (load8 m IP_PROTO =? IPPROTO_UDP)).

(** What a TCP or UDP packet becomes. *)
Definition redirect (m : mbuf) (bk : backend) : mbuf :=
  recalc_ip (recalc_l4 (if load8 m IP_PROTO =? IPPROTO_TCP then TCP_CKSUM else UDP_CKSUM)
    (store16 (store32 m IP_DST (b_ip bk)) L4_DPORT (b_port bk))).

Record lb_inv (s : lb_state) : Prop := {
  li_next : 0 <= next_backend s < n_backends;
  li_backends : zlen (backends s) = n_backends;
  li_hits : zlen (backend_hits s) = n_backends }.

Lemma index_3 {A} (l : list A) i : zlen l = n_backends -> 0 <= i < n_backends ->
  exists x, l !! Z.to_nat i = Some x.
Proof.
  unfold n_backends, zlen. intros Hl Hi. apply lookup_lt_is_Some_2. lia.
Qed.

Definition next (i : Z) : Z := (i + 1) mod n_backends.

(** A packet [m] through [rewrite_l4_packet], from [s] to [s']. *)
Definition balanced (m : mbuf) (s : lb_state) (r : Z * mbuf) (s' : lb_state) : Prop :=
  if is_l4 m then
    exists bk h, backends s !! Z.to_nat (next_backend s) = Some bk /\
      backend_hits s !! Z.to_nat (next_backend s) = Some h /\
      r = (next_backend s, redirect m bk) /\
      s' = LbState (next (next_backend s)) (backends s)
             (<[Z.to_nat (next_backend s) := u64 (h + 1)]> (backend_hits s)) (port_id s)
  else r = (-1, m) /\ s' = s.

Lemma balanced_inv m s r s' : balanced m s r s' -> lb_inv s -> lb_inv s'.
Proof.
  unfold balanced. destruct (is_l4 m); [|by intros [_ ->]].
  intros (bk & h & _ & _ & _ & ->) []. split; simpl.
  - apply Z.mod_pos_bound. done.
  - done.
  - unfold zlen in *. by rewrite length_insert.
Qed.

Lemma rewrite_l4_packet_spec m s t :
  lb_inv s ->
  wp (rewrite_l4_packet m) (fun r s' t' => t' = t /\ balanced m s r s') (fun _ _ _ => False) s t.
Proof.
  intros []. unfold rewrite_l4_packet, balanced, is_l4.
  destruct (load16 m ETH_TYPE =? _); simpl; [|done].
  destruct (index_3 _ _ li_backends0 li_next0) as [bk Hbk].
  destruct (index_3 _ _ li_hits0 li_next0) as [h Hh].
  destruct (load8 m IP_PROTO =? IPPROTO_TCP) eqn:Et; simpl;
    [|destruct (load8 m IP_PROTO =? IPPROTO_UDP) eqn:Eu; simpl; [|done]];
    (wp_steps; eapply wp_deref; [done|]; wp_steps; eapply wp_deref; [done|]; wp_steps;
     split; [done|]; exists bk, h; unfold redirect, next; rewrite Et; split_and!; try done;
     unfold set_hits, set_next; simpl; rewrite u32_small; [done|]; unfold n_backends in *; words).
Qed.

(** A new IPv4 checksum leaves the one behind it valid. *)
Lemma ip_frame_l4 m m' :
  frame_but [(IP_CKSUM, 2)] m m' -> 2 <= l4_len (at_off m IP) ->
  l4_cksum_ok (at_off m IP) (at_off m L4) -> l4_cksum_ok (at_off m' IP) (at_off m' L4).
Proof.
  intros F Hl. apply l4_cksum_ok_ext; [..|lia].
  - intros i Hi H10 H11. unfold at_off. apply (frame_load8 _ _ _ _ F); [unfold IP; lia|].
    unfold in_ranges, IP, IP_CKSUM. simpl. lia.
  - intros i Hi. unfold at_off. apply (frame_load8 _ _ _ _ F); [unfold L4; lia|].
    unfold in_ranges, L4, IP_CKSUM. simpl. lia.
Qed.

(** The rewritten packet, for a 20-byte IPv4 header. *)
Lemma redirect_spec m bk :
  room m HDRS -> bytes_ok m -> Z.land (load8 m IP) 15 = 5 -> is_u32 (b_ip bk) -> is_u16 (b_port bk) ->
  is_l4 m = true ->
  let f := if load8 m IP_PROTO =? IPPROTO_TCP then TCP_CKSUM else UDP_CKSUM in
  let m' := redirect m bk in
  load32 m' IP_DST = b_ip bk /\ load16 m' L4_DPORT = b_port bk /\
  frame_but [(IP_DST, 4); (L4_DPORT, 2); (f, 2); (IP_CKSUM, 2)] m m' /\
  ipv4_cksum_ok (at_off m' IP) /\
  (l4_cksum_off (load8 m IP_PROTO) + 2 <= l4_len (at_off m IP) ->
   l4_cksum_ok (at_off m' IP) (at_off m' L4)).
Proof.
  intros Hr Hb H5 Hip Hport Hl4. cbv zeta. unfold redirect.
  set (f := if load8 m IP_PROTO =? IPPROTO_TCP then TCP_CKSUM else UDP_CKSUM).
  assert (40 <= f <= 50) as Hf by (unfold f, TCP_CKSUM, UDP_CKSUM; destruct (_ =? _); lia).
  assert (load8 m IP_PROTO = IPPROTO_TCP \/ load8 m IP_PROTO = IPPROTO_UDP) as Hp.
  { unfold is_l4 in Hl4. lia. }
  assert (f = L4 + l4_cksum_off (load8 m IP_PROTO)) as Hfo
    by (unfold f, l4_cksum_off; by destruct (_ =? _)).
  pose proof (frame_store32 m IP_DST (b_ip bk) HDRS Hr Hb ltac:(done) ltac:(done)) as F1.
  set (m1 := store32 m IP_DST (b_ip bk)) in *.
  assert (room m1 HDRS) as Hr1 by (by eapply frame_room).
  assert (frame_but [(IP_DST, 4); (L4_DPORT, 2)] m (store16 m1 L4_DPORT (b_port bk))) as F2
    by (by apply (frame_then16 [(IP_DST, 4)] _ _ _ _ HDRS)).
  assert (load16 (store16 m1 L4_DPORT (b_port bk)) L4_DPORT = b_port bk) as Ep
    by (by apply (load16_store16_eq _ _ _ HDRS)).
  assert (load32 (store16 m1 L4_DPORT (b_port bk)) IP_DST = b_ip bk) as Ei.
  { rewrite (load32_store16_ne _ _ _ _ HDRS); try done; [|unfold outside, IP_DST, L4_DPORT; lia].
    by apply (load32_store32_eq _ _ _ HDRS). }
  set (m2 := store16 m1 L4_DPORT (b_port bk)) in *.
  assert (room m2 HDRS) as Hr2 by (by eapply frame_room).
  assert (bytes_ok m2) as Hb2 by (by eapply frame_bytes).
  pose proof (recalc_l4_frame f m2 Hr2 Hb2 ltac:(lia)) as F3. set (m3 := recalc_l4 f m2) in *.
  assert (room m3 HDRS) as Hr3 by (by eapply frame_room).
  assert (bytes_ok m3) as Hb3 by (by eapply frame_bytes).
  pose proof (recalc_ip_frame m3 Hr3 Hb3) as F4. set (m4 := recalc_ip m3) in *.
  pose proof (frame_but_trans _ _ _ _ _ F3 F4) as F34.
  pose proof (frame_but_trans _ _ _ _ _ F2 F34) as F24.
  assert (forall o, 0 <= o < 40 -> in_ranges [(f, 2)] o = false) as Hfr by (intros o Ho; simpl; lia).
  assert (forall o, 0 <= o < 24 -> load8 m3 o = load8 m o) as E3.
  { intros o Ho. rewrite (frame_load8 _ _ _ _ F3) by (lia || apply Hfr; lia).
    apply (frame_load8 _ _ _ _ F2); [lia|]. unfold in_ranges, IP_DST, L4_DPORT. simpl. lia. }
  split; [|split; [|split; [done|split]]].
  - rewrite (frame_load32 _ _ _ _ F34); [done|done|].
    unfold in_ranges, IP_DST, IP_CKSUM. simpl. lia.
  - rewrite (frame_load16 _ _ _ _ F34); [done|done|].
    unfold in_ranges, L4_DPORT, IP_CKSUM. simpl. lia.
  - apply recalc_ip_ok; [done|done|]. unfold ihl_ok, at_off. rewrite Z.add_0_r, E3, H5; done.
  - intros Hlen.
    assert (load8 m2 IP_PROTO = load8 m IP_PROTO) as Epr by (by apply (frame_load8 _ _ _ _ F2)).
    assert (l4_len (at_off m2 IP) = l4_len (at_off m IP)) as El
      by (unfold l4_len, at_off; by rewrite !(frame_load8 _ _ _ _ F2)).
    assert (l4_len (at_off m3 IP) = l4_len (at_off m IP)) as El3
      by (unfold l4_len, at_off; by rewrite !E3).
    apply (ip_frame_l4 m3); [done| |].
    + rewrite El3. unfold l4_cksum_off in Hlen. destruct (_ =? _); lia.
    + apply recalc_l4_ok; rewrite ?Epr, ?El; done.
Qed.

Lemma redirect_id m bk : mb_id (redirect m bk) = mb_id m.
Proof. done. Qed.

Lemma handle_spec p m s t :
  lb_inv s ->
  wp (handle p m) (fun m' s' t' => lb_inv s' /\ mb_id m' = mb_id m /\ same_acct t t')
    (fun _ _ _ => False) s t.
Proof.
  intros I. unfold handle. wp_step. eapply wp_mono; [by apply rewrite_l4_packet_spec| |done].
  intros [sel m'] s1 t1 [-> B]. pose proof (balanced_inv _ _ _ _ B I) as I1.
  assert (mb_id m' = mb_id m /\ (0 <= sel -> sel < n_backends)) as [Hid Hsel].
  { pose proof (li_next _ I). unfold balanced in B. destruct (is_l4 m).
    - destruct B as (bk & h & _ & _ & [= -> ->] & _). split; [apply redirect_id|lia].
    - by destruct B as [[= -> ->] _]. }
  cbn beta iota. wp_steps; [|done].
  destruct (index_3 _ sel (li_backends _ I1)) as [bk Hbk]; [lia|].
  eapply wp_deref; [done|]. by wp_steps.
Qed.

(** The counters account for every received packet. *)
Definition counters_ok (c : counters) (t : trace) : Prop :=
  total_rx c = u64 (zlen (rx_packets t)) /\ u64 (total_tx c + total_drop c) = total_rx c /\
  period_rx c = total_rx c.

Definition run_ok (c : counters) (s : lb_state) (t : trace) : Prop :=
  lb_inv s /\ owned [] t /\ counters_ok c t.

Lemma lb_loop_spec c s t :
  run_ok c s t -> wp (loop_body c) (fun c' s' t' => run_ok c' s' t') (fun _ _ _ => False) s t.
Proof.
  intros (I & Ho & (C1 & C2 & C3)). unfold loop_body. wp_steps. apply wp_rx. intros bufs Hlen _.
  specialize (Hlen ltac:(done)). apply (owned_rx _ (port_id s) 0 BURST_SIZE bufs) in Ho.
  set (t1 := EvRx _ _ _ bufs :: t) in *. wp_steps.
  { assert (bufs = []) as -> by (destruct bufs; [done|by rewrite Z.eqb_eq in H]). done. }
  eapply wp_mono; [apply (wp_for_each_ids lb_inv _ _ (fun _ _ _ => False)); [|done]| |done].
  { intros m s1 t2 I1. by apply handle_spec. }
  intros ms s2 t2 (I2 & Eid & A2). apply (owned_acct _ _ _ A2) in Ho. rewrite <- Eid in Ho.
  assert (zlen ms = zlen bufs) as El.
  { apply (f_equal length) in Eid. rewrite !length_map in Eid. unfold zlen. by rewrite Eid. }
  wp_steps. eapply (wp_tx_count_or_free _ _ _ []); [done|]. intros k t3 Hk Ho3 _ Hp3.
  assert (counters_ok (Counters (u64 (total_rx c + zlen bufs)) (u64 (total_tx c + k))
    (u64 (total_drop c + (zlen bufs - k))) (u64 (period_rx c + zlen bufs)) 0) t3) as CK1.
  { destruct A2 as (_ & _ & Ep & _). split; simpl; [|split].
    - rewrite Hp3, Ep. change (rx_packets t1) with (bufs ++ rx_packets t). rewrite C1. unfold u64. rewrite Zplus_mod_idemp_l. f_equal.
      unfold zlen. rewrite length_app. lia.
    - rewrite <- C2. unfold u64. rewrite <- Zplus_mod, Zplus_mod_idemp_l. f_equal. lia.
    - by rewrite C3. }
  wp_steps; [|done].
  eapply wp_mono; [apply (wp_for_each (fun _ _ s' t' => s' = s2 /\ same_acct t3 t')
    _ (fun _ _ _ => False))| |done].
  - intros pre [i h] post rs s4 t4 _ [-> A4]. by wp_steps.
  - done.
  - intros rs s4 t4 [-> A4]. wp_steps. split; [done|]. split; [by eapply owned_acct|].
    destruct A4 as (_ & _ & Ep4 & _). unfold counters_ok. by rewrite Ep4.
Qed.

(** ** Round robin *)

Definition accepted (ms : list mbuf) : Z := zlen (List.filter is_l4 ms).

(** After [n] redirected packets. *)
Definition fair (n : Z) (s : lb_state) : Prop :=
  next_backend s = n mod n_backends /\
  backend_hits s = [u64 ((n + 2) / 3); u64 ((n + 1) / 3); u64 (n / 3)].

(** The backends of the packets: the [k]-th accepted one goes to [k mod 3]. *)
Fixpoint selections (k : Z) (ms : list mbuf) : list Z :=
  match ms with
  | [] => []
  | m :: ms' => if is_l4 m then k mod n_backends :: selections (k + 1) ms' else -1 :: selections k ms'
  end.

Lemma selections_app k ms ms' :
  selections k (ms ++ ms') = selections k ms ++ selections (k + accepted ms) ms'.
Proof.
  revert k. induction ms as [|m ms IH]; intros k; simpl.
  - unfold accepted, zlen. simpl. by rewrite Z.add_0_r.
  - unfold accepted, zlen in *. simpl. destruct (is_l4 m); simpl; rewrite IH; [|done]. do 3 f_equal. lia.
Qed.

Lemma fair_step n m s r s' :
  0 <= n -> fair n s -> balanced m s r s' ->
  fair (n + accepted [m]) s' /\ r.1 = (if is_l4 m then n mod n_backends else -1).
Proof.
  intros Hn [F1 F2] B. unfold balanced in B. unfold accepted, zlen. simpl.
  destruct (is_l4 m) eqn:Hl; simpl.
  2:{ destruct B as [-> ->]. by rewrite Z.add_0_r. }
  destruct B as (bk & h & _ & Hh & -> & ->). split; [|done]. unfold fair. simpl.
  rewrite F1, F2 in *. unfold next, n_backends in *. split.
  - rewrite Zplus_mod_idemp_l. done.
  - assert (forall x, u64 (u64 x + 1) = u64 (x + 1)) as Hu
      by (intros x; unfold u64; by rewrite Zplus_mod_idemp_l).
    assert (forall a b c a' b' c', a = a' -> b = b' -> c = c' ->
      [u64 a; u64 b; u64 c] = [u64 a'; u64 b'; u64 c']) as Hl3 by (by intros ? ? ? ? ? ? -> -> ->).
    assert (n mod 3 = 0 \/ n mod 3 = 1 \/ n mod 3 = 2) as [E0|[E0|E0]] by words; rewrite E0 in *;
      simpl in Hh |- *; injection Hh as <-; rewrite Hu;
      apply Hl3; Z.div_mod_to_equations; lia.
Qed.

(** C33: Round robin. However the packets look, the k-th TCP or UDP packet goes to backend
    k mod 3, all others to none, and after n redirected packets the three hit
    counters are the rounded thirds of n (as 64-bit integers): the load differs
    by at most one packet. *)
Theorem round_robin_fair ms n s t :
  lb_inv s -> 0 <= n -> fair n s ->
  wp (for_each rewrite_l4_packet ms)
    (fun rs s' t' => t' = t /\ lb_inv s' /\ fair (n + accepted ms) s' /\ map fst rs = selections n ms)
    (fun _ _ _ => False) s t.
Proof.
  intros I Hn F. apply (wp_for_each (fun pre rs s' t' => t' = t /\ lb_inv s' /\
    fair (n + accepted pre) s' /\ map fst rs = selections n pre)).
  - intros pre m post rs s1 t1 _ (-> & I1 & F1 & E1).
    eapply wp_mono; [by apply rewrite_l4_packet_spec| |done].
    intros r s2 t2 [-> B]. split; [done|]. split; [by eapply balanced_inv|].
    apply (fair_step (n + accepted pre)) in B as [F2 E2]; [|unfold accepted, zlen; lia|done].
    split.
    + replace (n + accepted (pre ++ [m])) with (n + accepted pre + accepted [m]); [done|].
      unfold accepted, zlen. rewrite List.filter_app, length_app. lia.
    + rewrite map_app, selections_app, E1. simpl. rewrite E2. by destruct (is_l4 m).
  - split; [done|]. split; [done|]. split; [|done]. unfold accepted, zlen. simpl. by rewrite Z.add_0_r.
Qed.

(** C31: What [rewrite_l4_packet] does: a packet that is not TCP or UDP over IPv4 is left
    alone with result -1; any other gets exactly the address and port of the next
    backend and valid IPv4 and TCP/UDP checksums, and no other byte changes. *)
Theorem rewrite_l4_packet_correct m s t :
  lb_inv s -> room m HDRS -> bytes_ok m -> Z.land (load8 m IP) 15 = 5 ->
  Forall (fun b => is_u32 (b_ip b) /\ is_u16 (b_port b)) (backends s) ->
  wp (rewrite_l4_packet m)
    (fun r s' t' => t' = t /\ lb_inv s' /\
       if is_l4 m then
         exists bk, backends s !! Z.to_nat (next_backend s) = Some bk /\
         let f := if load8 m IP_PROTO =? IPPROTO_TCP then TCP_CKSUM else UDP_CKSUM in
         r.1 = next_backend s /\ load32 r.2 IP_DST = b_ip bk /\ load16 r.2 L4_DPORT = b_port bk /\
         frame_but [(IP_DST, 4); (L4_DPORT, 2); (f, 2); (IP_CKSUM, 2)] m r.2 /\
         ipv4_cksum_ok (at_off r.2 IP) /\
         (l4_cksum_off (load8 m IP_PROTO) + 2 <= l4_len (at_off m IP) ->
          l4_cksum_ok (at_off r.2 IP) (at_off r.2 L4))
       else r = (-1, m) /\ s' = s)
    (fun _ _ _ => False) s t.
Proof.
  intros I Hr Hb H5 Hbk. eapply wp_mono; [by apply rewrite_l4_packet_spec| |done].
  intros r s' t' [-> B]. split; [done|]. split; [by eapply balanced_inv|].
  unfold balanced in B. destruct (is_l4 m) eqn:Hl; [|done].
  destruct B as (bk & h & Hk & _ & -> & _). exists bk. split; [done|]. cbv zeta. split; [done|].
  rewrite Forall_lookup in Hbk. destruct (Hbk _ _ Hk) as [Hi Hp]. by apply redirect_spec.
Qed.

(** The backends of the source are not in network byte order, as its comment says: the
    first packet that goes to backend 0 leaves with destination 101.0.168.192. *)
Theorem backend_address_reversed m t :
  is_l4 m = true -> room m HDRS -> bytes_ok m -> Z.land (load8 m IP) 15 = 5 ->
  wp (rewrite_l4_packet m)
    (fun r _ _ => load_bytes r.2 IP_DST 4 = [101; 0; 168; 192])
    (fun _ _ _ => False) lb_state0 t.
Proof.
  intros Hl Hr Hb H5. eapply wp_mono; [apply rewrite_l4_packet_spec; by split| |done].
  intros r s' t' [_ B]. unfold balanced in B. rewrite Hl in B.
  destruct B as (bk & h & [= <-] & _ & -> & _). set (bk := Backend _ 0).
  assert (b_ip bk = of_le32 101 0 168 192) as Eb by (apply RTE_IPV4_law; words).
  destruct (redirect_spec m bk Hr Hb H5) as (Ea & _ & F & _);
    [rewrite Eb; by split|by split|done|].
  apply frame_bytes in F. rewrite Eb in Ea.
  unfold load_bytes. simpl. apply (le32_bytes_of _ IP_DST 101 0 168 192); done.
Qed.

(** The load balancer never faults and never leaks or doubles a buffer, for any number
    of iterations; it exits only with EXIT_FAILURE before traffic; and its
    counters satisfy rx = tx + drop (as 64-bit integers), rx being the number of
    packets received. *)
Theorem lb_main_safe n :
  wp (main n)
    (fun r s t => owned [] t /\ forall c, r = Some c -> counters_ok c t)
    (fun c _ t => c = EXIT_FAILURE /\ rx_ids t = []) lb_state0 [].
Proof.
  unfold main. wp_steps; try done.
  eapply wp_mono; [apply (wp_for_each (fun _ _ s t => lb_inv s /\ rx_packets t = [] /\ out_ids t = [])
    _ (fun c _ t => c = EXIT_FAILURE /\ rx_ids t = []))| |done].
  - intros pre p post rs s1 t1 _ (I1 & Hrx & Hout). unfold setup_port.
    assert (rx_ids t1 = []) as Hid by (by rewrite rx_ids_packets, Hrx). wp_steps; try done.
    split; [|done]. destruct I1. by split.
  - by split.
  - intros rs s1 t1 (I1 & Hrx & Hout). wp_steps. unfold lcore_main.
    eapply wp_mono; [apply (wp_while run_ok _ (fun _ _ _ => False))| |done].
    + intros c2 s2 t2 R. by apply lb_loop_spec.
    + intros b c2 s2 t2 R. done.
    + split; [done|]. split.
      { apply (owned_acct [] t1); [done|]. unfold owned. by rewrite rx_ids_packets, Hrx, Hout. }
      split; [|done]. change (rx_packets _) with (rx_packets t1). by rewrite Hrx.
    + intros [[] c2] s2 t2 (I2 & O2 & C2); cbn beta iota; [|by wp_steps]. wp_steps.
      eapply wp_mono; [apply (wp_for_each (fun _ _ s t => same_acct t2 t) _ (fun _ _ _ => False))| |done].
      * intros pre p post rs' s3 t3 _ A3. by wp_steps.
      * done.
      * intros rs' s3 t3 A3. wp_steps. split; [by apply (owned_acct [] t2)|].
        intros c' [= <-]. destruct A3 as (_ & _ & E3 & _). unfold counters_ok in *.
        change (rx_packets (EvPrintf _ _ :: t3)) with (rx_packets t3). by rewrite E3.
Qed.

End LoadBalancer.

(** ** Witnesses *)

#[local] Existing Instances sim_byteorder sim_cksum.
#[local] Instance wenv : Env := sim_env quiet_script.

Definition w_tcp : mbuf := mk_packet 1 [10; 0; 0; 7] [10; 0; 0; 1] IPPROTO_TCP [4; 210] [0; 80].
Definition w_icmp : mbuf := mk_packet 2 [10; 0; 0; 7] [10; 0; 0; 1] IPPROTO_ICMP [4; 210] [0; 80].
Lemma lb_w_bytes : bytes_ok w_tcp. Proof. by apply Forall_u8_dec. Qed.
Lemma lb_w_inv : lb_inv lb_state0. Proof. by split. Qed.

Lemma round_robin_fair_witness :
  selections 0 [w_tcp; w_icmp; w_tcp; w_tcp; w_tcp] = [0; -1; 1; 2; 0] /\
  wp (for_each rewrite_l4_packet [w_tcp; w_icmp; w_tcp; w_tcp; w_tcp])
    (fun rs s' t' => t' = [] /\ lb_inv s' /\
       fair (0 + accepted [w_tcp; w_icmp; w_tcp; w_tcp; w_tcp]) s' /\
       map fst rs = selections 0 [w_tcp; w_icmp; w_tcp; w_tcp; w_tcp])
    (fun _ _ _ => False) lb_state0 [].
Proof. split; [by vm_compute|]. apply round_robin_fair; [apply lb_w_inv|done|done]. Defined.

Lemma rewrite_l4_packet_correct_witness :
  wp (rewrite_l4_packet w_tcp)
    (fun r s' t' => t' = [] /\ lb_inv s' /\
       if is_l4 w_tcp then
         exists bk, backends lb_state0 !! Z.to_nat (next_backend lb_state0) = Some bk /\
         let f := if load8 w_tcp IP_PROTO =? IPPROTO_TCP then TCP_CKSUM else UDP_CKSUM in
         r.1 = next_backend lb_state0 /\ load32 r.2 IP_DST = b_ip bk /\ load16 r.2 L4_DPORT = b_port bk /\
         frame_but [(IP_DST, 4); (L4_DPORT, 2); (f, 2); (IP_CKSUM, 2)] w_tcp r.2 /\
         ipv4_cksum_ok (at_off r.2 IP) /\
         (l4_cksum_off (load8 w_tcp IP_PROTO) + 2 <= l4_len (at_off w_tcp IP) ->
          l4_cksum_ok (at_off r.2 IP) (at_off r.2 L4))
       else r = (-1, w_tcp) /\ s' = lb_state0)
    (fun _ _ _ => False) lb_state0 [].
Proof.
  apply rewrite_l4_packet_correct; [apply lb_w_inv|done|apply lb_w_bytes|done|].
  repeat constructor; done.
Defined.

Lemma backend_address_reversed_witness :
  wp (rewrite_l4_packet w_tcp)
    (fun r _ _ => load_bytes r.2 IP_DST 4 = [101; 0; 168; 192])
    (fun _ _ _ => False) lb_state0 [].
Proof. apply backend_address_reversed; [done|done|apply lb_w_bytes|done]. Defined.
