(* ===== verification/NatV3.v ===== *)
(** * nat_project/version3: source NAT with a table of static mappings

    static_nat.c, config.c and main.c.  The state is the table, which maps the
    bytes of a private address to the address of a [struct nat_entry], and the
    heap of these entries.  The clock and the table of hash.c are locals of
    [main]; packets never enter that table, since the call of [hash_ips] is
    commented out. *)

From S2P Require Import Prelude Cstd Rte Env Packet Ownership NatRewrite NatIo NatHash Sim.

Definition MAX_NAT_ENTRIES := 1024.
Definition sizeof_nat_entry := 8.
Definition sizeof_uint32 := 4.
Definition BURST_SIZE := 32.
Definition port_id := 0.
Definition IDLE_SEC := 5.
Definition nat_config_file : string := "nat_config.txt".

Record nat_entry := NatEntry { private_ip : Z; public_ip : Z }.

Section NatV3.
Context {BO : Byteorder} {CK : Cksum} {RH : RteHash} {E : Env}.

Record nat_state := NatState { nat_table : rte_hash; entries : gmap Z nat_entry }.
Notation M := (M nat_state).

(** ** static_nat.c *)

Definition nat_table_create : M unit :=
  r <-- call (rte_hash_create "nat_table" MAX_NAT_ENTRIES sizeof_uint32) ;;
  when (r =? 0) (rte_exit EXIT_FAILURE) ;;
  modify (fun s => NatState (rte_hash_empty MAX_NAT_ENTRIES sizeof_uint32) (entries s)).

Definition nat_add_mapping (private_s public_s : string) : M unit :=
  a <-- malloc sizeof_nat_entry ;;
  when (a =? 0) (rte_exit EXIT_FAILURE) ;;
  priv <-- inet_pton_into private_s ;;
  pub <-- inet_pton_into public_s ;;
  modify (fun s => NatState (nat_table s) (<[a := NatEntry priv pub]> (entries s))) ;;
  ht <-- gets nat_table ;;
  let r := rte_hash_add_key_data ht (le32 priv) a in
  modify (fun s => NatState r.2 (entries s)) ;;
  when (r.1 <? 0) (rte_exit EXIT_FAILURE) ;;
  printf "NAT mapping added: %s -> %s\n" [PStr private_s; PStr public_s].

(** The body of the loop of [nat_apply]. *)
Definition nat_packet (m : mbuf) : M mbuf :=
  if negb (load16 m ETH_TYPE =? rte_cpu_to_be_16 RTE_ETHER_TYPE_IPV4) then ret m
  else
    ht <-- gets nat_table ;;
    match rte_hash_lookup_data ht (le32 (load32 m IP_SRC)) with
    | None => ret m
    | Some a =>
        h <-- gets entries ;;
        entry <-- deref (h !! a) ;;
        let m := recalc_cksums (store32 m IP_SRC (public_ip entry)) in
        printf "NAT applied: %s -> %s\n"
          [PStr (inet_ntop (private_ip entry)); PStr (inet_ntop (public_ip entry))] ;;
        ret m
    end.
Definition nat_apply (bufs : list mbuf) : M (list mbuf) := for_each nat_packet bufs.

Definition nat_dump : M unit :=
  printf "\n--- NAT Table ---\n" [] ;;
  ht <-- gets nat_table ;;
  _ <-- for_each (fun kv : list Z * Z =>
    h <-- gets entries ;;
    entry <-- deref (h !! kv.2) ;;
    printf "  %s -> %s\n" [PStr (inet_ntop (private_ip entry)); PStr (inet_ntop (public_ip entry))])
    (rte_hash_entries ht) ;;
  printf "-----------------\n" [].

(** ** config.c *)

Fixpoint mapping_lines (lines : list string) (count : Z) : M Z :=
  match lines with
  | [] => ret count
  | line :: rest =>
      if blank_or_comment line then mapping_lines rest count
      else
        match scan_pair line with
        | None => printf "Skipping invalid line: %s" [PStr line] ;; mapping_lines rest count
        | Some (priv, pub) => nat_add_mapping priv pub ;; mapping_lines rest (count + 1)
        end
  end.

Definition nat_load_from_file (filepath : string) : M unit :=
  f <-- fopen filepath ;;
  match f with
  | None => printf "Error: could not open NAT config file: %s\n" [PStr filepath]
  | Some content =>
      count <-- mapping_lines (file_lines content) 0 ;;
      printf "Loaded %d NAT mappings from %s\n" [PInt count; PStr filepath]
  end.

(** ** main.c *)

(** The manual entry loop, at most [k] mappings; the result says whether the
    user has typed "exit". *)
Fixpoint manual_entry (k : nat) : M bool :=
  match k with
  | O => ret false
  | S k' =>
      printf "Enter private IP (or 'exit' to finish): " [] ;;
      priv <-- scanf_word ;;
      if bool_decide (priv = "exit"%string) then ret true
      else
        printf "Enter public IP: " [] ;;
        pub <-- scanf_word ;;
        nat_add_mapping priv pub ;;
        manual_entry k'
  end.

Definition loop_body (l : clock * rte_hash) : M (clock * rte_hash) :=
  let (c, ht) := l in
  bufs <-- rte_eth_rx_burst port_id 0 BURST_SIZE ;;
  let nb_rx := zlen bufs in
  if 0 <? nb_rx then
    c <-- clock_start c ;;
    bufs <-- nat_apply bufs ;;
    c <-- clock_rx "Received %u packets | Time: %lu sec\n" nb_rx c ;;
    tx_or_free port_id 0 bufs ;;
    ret (c, ht)
  else
    let* (idle, c) := clock_idle IDLE_SEC "No packets for 5 seconds. Timer reset.\n" c in
    if idle : bool then
      hash_ips_dump ht ;;
      nat_dump ;;
      ret (c, reset_ip_hash ht)
    else ret (c, ht).

(** At most [k] manual mappings, then the first [n] iterations. *)
Definition main (k n : nat) : M unit :=
  _ <-- call rte_eal_init ;;
  mp <-- create_mempool ;;
  init_port port_id mp ;;
  ht <-- ip_hash_create ;;
  nat_table_create ;;
  printf "Enter 1 to LOAD Nat mapping from config file and 2 to Manually enter data\n" [] ;;
  option <-- scanf_int ;;
  option <-- match option with
             | Some v => ret v
             | None => bs <-- indet 4 ;; ret (of_le32 (get bs 0) (get bs 1) (get bs 2) (get bs 3))
             end ;;
  ready <-- (if option =? 1 then nat_load_from_file nat_config_file ;; ret true
             else manual_entry k) ;;
  if ready : bool then
    _ <-- forever n loop_body (clock0, ht) ;; ret tt
  else ret tt.

Definition nat_state0 : nat_state := NatState (rte_hash_empty 0 0) ∅.

(** ** The table and its entries *)

(** Every data pointer of the table is an entry for that key. *)
Definition table_ok (s : nat_state) : Prop :=
  forall k a, hash_map (nat_table s) !! k = Some a ->
    exists e, entries s !! a = Some e /\ k = le32 (private_ip e) /\ is_u32 (private_ip e) /\
      is_u32 (public_ip e).
Definition entries_live (s : nat_state) (t : trace) : Prop :=
  forall a, is_Some (entries s !! a) -> a ∈ live_blocks t.

(** What the program promises: the public address of a private one. *)
Definition binding (s : nat_state) (ip : Z) : option Z :=
  a ← hash_map (nat_table s) !! le32 ip; e ← entries s !! a; Some (public_ip e).

Lemma binding_u32 s ip p : table_ok s -> binding s ip = Some p -> is_u32 p.
Proof.
  unfold binding. intros H. destruct (hash_map (nat_table s) !! le32 ip) as [a|] eqn:G; [|done]. simpl.
  destruct (H _ _ G) as (e & -> & _ & _ & Hp). simpl. by intros [= <-].
Qed.

(** The state after entry [e], at the fresh address [a], is entered. *)
Lemma binding_add s a e h' ip :
  table_ok s -> entries s !! a = None -> is_u32 ip -> is_u32 (private_ip e) ->
  hash_map h' = <[le32 (private_ip e) := a]> (hash_map (nat_table s)) ->
  binding (NatState h' (<[a := e]> (entries s))) ip =
    if ip =? private_ip e then Some (public_ip e) else binding s ip.
Proof.
  intros H Ha Hip He Hh. unfold binding. simpl. rewrite Hh, lookup_insert.
  destruct (Z.eqb_spec ip (private_ip e)) as [->|Hne].
  - rewrite decide_True by done. simpl. by rewrite lookup_insert_eq.
  - rewrite decide_False by (intros G%le32_inj; [by subst|done|done]).
    destruct (hash_map (nat_table s) !! le32 ip) as [b|] eqn:G; [|done]. simpl.
    destruct (H _ _ G) as (e' & Hb & _). by rewrite lookup_insert_ne by congruence.
Qed.

Lemma table_ok_add s a e h' :
  table_ok s -> entries s !! a = None -> is_u32 (private_ip e) -> is_u32 (public_ip e) ->
  hash_map h' = <[le32 (private_ip e) := a]> (hash_map (nat_table s)) ->
  table_ok (NatState h' (<[a := e]> (entries s))).
Proof.
  intros H Ha He1 He2 Hh k b. simpl. rewrite Hh, lookup_insert. case_decide.
  - intros [= <-]. exists e. by rewrite lookup_insert_eq.
  - intros G. destruct (H _ _ G) as (e' & Hb & Hr). exists e'. by rewrite lookup_insert_ne by congruence.
Qed.

(** ** Adding mappings *)

(** What [nat_add_mapping] does to the bindings, the entry being [e]. *)
Definition bound (priv_s pub_s : string) (s s' : nat_state) : Prop :=
  exists e, is_u32 (private_ip e) /\ is_u32 (public_ip e) /\
    (forall v, inet_pton priv_s = Some v -> private_ip e = v) /\
    (forall v, inet_pton pub_s = Some v -> public_ip e = v) /\
    forall ip, is_u32 ip ->
      binding s' ip = if ip =? private_ip e then Some (public_ip e) else binding s ip.

(** No packet has been received yet. *)
Definition loading (s : nat_state) (t : trace) : Prop :=
  table_ok s /\ entries_live s t /\ rx_ids t = [] /\ out_ids t = [].

Lemma v3_loading_acct s t t' :
  same_acct t t' -> live_blocks t' = live_blocks t -> loading s t -> loading s t'.
Proof.
  intros (A1 & A2 & _ & _) L (H1 & H2 & H3 & H4).
  split; [done|]. split; [intros a; rewrite L; apply H2|]. by rewrite A1, A2.
Qed.

Lemma nat_add_mapping_spec priv_s pub_s s t :
  table_ok s -> entries_live s t ->
  wp (nat_add_mapping priv_s pub_s)
    (fun _ s' t' => table_ok s' /\ entries_live s' t' /\ same_acct t t' /\ bound priv_s pub_s s s')
    (fun c _ t' => c = EXIT_FAILURE /\ same_acct t t') s t.
Proof.
  intros Ht Hl. unfold nat_add_mapping. wp_step. apply wp_malloc; [by wp_steps|].
  intros a Ha Hfresh. apply Z.eqb_neq in Ha. rewrite Ha. wp_steps; [done|].
  assert (entries s !! a = None) as Hn.
  { destruct (entries s !! a) eqn:G; [|done]. destruct Hfresh. apply Hl. by rewrite G. }
  set (t1 := EvMalloc sizeof_nat_entry a :: t).
  assert (forall e t2, is_u32 (private_ip e) -> is_u32 (public_ip e) -> same_acct t t2 ->
    live_blocks t2 = live_blocks t1 ->
    (forall v, inet_pton priv_s = Some v -> private_ip e = v) ->
    (forall v, inet_pton pub_s = Some v -> public_ip e = v) ->
    let r := rte_hash_add_key_data (nat_table s) (le32 (private_ip e)) a in
    let s' := NatState r.2 (<[a := e]> (entries s)) in
    (r.1 <? 0) = false ->
    table_ok s' /\ entries_live s' t2 /\ same_acct t t2 /\ bound priv_s pub_s s s') as G.
  { intros e t2 He Hpe A2 L2 E1 E2 r s' Hr.
    assert (hash_map r.2 = <[le32 (private_ip e) := a]> (hash_map (nat_table s))) as Hm.
    { unfold r in *. rewrite hash_add_law. pose proof (hash_add_ret (nat_table s) (le32 (private_ip e)) a).
      destruct (Z.eqb_spec (rte_hash_add_key_data (nat_table s) (le32 (private_ip e)) a).1 0); [done|lia]. }
    split; [by apply table_ok_add|]. split; [|split; [done|]].
    - intros b. unfold s'. simpl. rewrite L2, lookup_insert. case_decide; [subst; set_solver|].
      intros Hb. apply Hl in Hb. simpl. set_solver.
    - exists e. split_and!; try done. intros ip Hip. by apply binding_add. }
  apply wp_inet_pton_into; [intros v Hv|intros v bs Hn' Hv]; wp_steps;
    (apply wp_inet_pton_into; [intros w Hw|intros w bs' Hn'' Hw]; wp_steps; [done| |done|];
     apply (G (NatEntry v w)); simpl; try done;
     try (by eapply inet_pton_range); try congruence).
Qed.

(** [nat_add_mapping] of two addresses in dotted notation either exits with status 1
    (no memory, table full) or makes the second the translation of the first,
    replacing an older one, and leaves every other binding alone; every data
    pointer of the table stays a live entry for its key. *)
Theorem nat_add_mapping_correct private public s t :
  table_ok s -> entries_live s t -> is_u32 private -> is_u32 public ->
  wp (nat_add_mapping (inet_ntop private) (inet_ntop public))
    (fun _ s' t' => table_ok s' /\ entries_live s' t' /\
       forall ip, is_u32 ip -> binding s' ip = if ip =? private then Some public else binding s ip)
    (fun c _ _ => c = EXIT_FAILURE) s t.
Proof.
  intros Ht Hl Hp1 Hp2. eapply wp_mono; [by apply nat_add_mapping_spec| |by intros ? ? ? []].
  intros _ s' t' (H1 & H2 & _ & e & _ & _ & E1 & E2 & Hb). split; [done|]. split; [done|].
  by rewrite (E1 _ (inet_pton_ntop _ Hp1)), (E2 _ (inet_pton_ntop _ Hp2)) in Hb.
Qed.

(** ** Loading a file *)

(** The mapping of a line, when it is one of two words. *)
Definition line_mapping (line : string) : option (string * string) :=
  if blank_or_comment line then None else scan_pair line.

(** Both words of every mapping are addresses. *)
Fixpoint addresses (l : list (string * string)) : option (list (Z * Z)) :=
  match l with
  | [] => Some []
  | (a, b) :: l' =>
      match inet_pton a, inet_pton b, addresses l' with
      | Some va, Some vb, Some r => Some ((va, vb) :: r)
      | _, _, _ => None
      end
  end.

(** The binding after more mappings: the last one of an address wins. *)
Definition last_binding (maps : list (Z * Z)) (old : Z -> option Z) (ip : Z) : option Z :=
  foldl (fun o ab => if ip =? ab.1 then Some ab.2 else o) (old ip) maps.

Lemma mapping_lines_spec lines count s t :
  loading s t ->
  wp (mapping_lines lines count)
    (fun _ s' t' => loading s' t' /\
       forall maps, addresses (omap line_mapping lines) = Some maps ->
         forall ip, is_u32 ip -> binding s' ip = last_binding maps (binding s) ip)
    (fun c _ t' => c = EXIT_FAILURE /\ rx_ids t' = []) s t.
Proof.
  revert count s t. induction lines as [|line rest IH]; intros count s t L.
  { split; [done|]. by intros maps [= <-]. }
  cbn [mapping_lines omap list_omap]. unfold line_mapping at 1.
  destruct (blank_or_comment line); [by apply IH|].
  destruct (scan_pair line) as [[a b]|].
  - destruct L as (Ht & Hl & H3 & H4). wp_step.
    eapply wp_mono; [by apply nat_add_mapping_spec| |].
    + intros _ s1 t1 (Ht1 & Hl1 & (A1 & A2 & _) & e & He1 & He2 & E1 & E2 & Hb).
      eapply wp_mono; [apply IH; split; [done|]; split; [done|]; by rewrite A1, A2| |done].
      intros n s2 t2 (L2 & H2). split; [done|]. intros maps Hm ip Hip. simpl in Hm.
      destruct (inet_pton a) as [va|] eqn:Ea; [|done]. destruct (inet_pton b) as [vb|] eqn:Eb; [|done].
      destruct (addresses (omap line_mapping rest)) as [ms|] eqn:Em; [|done].
      injection Hm as <-. rewrite (H2 ms eq_refl ip Hip). unfold last_binding. cbn [foldl fst snd].
      by rewrite Hb, (E1 va), (E2 vb).
    + intros c s1 t1 (-> & A1 & _). by rewrite A1.
  - wp_steps. apply IH. by eapply v3_loading_acct.
Qed.

(** [nat_load_from_file]: when the file can be read and every line that is neither blank
    nor a comment nor malformed holds two addresses, the bindings afterwards are
    the old ones updated by the lines in order (the last line for an address
    wins); when it cannot be read, nothing changes. Otherwise the program has
    exited with status 1. *)
Theorem static_load_correct path s t :
  loading s t ->
  wp (nat_load_from_file path)
    (fun _ s' t' => loading s' t' /\
       match env_file t path with
       | None => s' = s
       | Some content =>
           forall maps, addresses (omap line_mapping (file_lines content)) = Some maps ->
             forall ip, is_u32 ip -> binding s' ip = last_binding maps (binding s) ip
       end)
    (fun c _ t' => c = EXIT_FAILURE /\ rx_ids t' = []) s t.
Proof.
  intros L. unfold nat_load_from_file. wp_step. unfold wp at 1, fopen.
  destruct (env_file t path) as [content|].
  - wp_step. eapply wp_mono; [apply mapping_lines_spec; by eapply v3_loading_acct| |done].
    intros n s1 t1 [L1 H1]. wp_steps. split; [by eapply v3_loading_acct|done].
  - wp_steps. split; [by eapply v3_loading_acct|done].
Qed.

(** ** Packets *)

Definition public_of (s : nat_state) (m : mbuf) : option Z :=
  if load16 m ETH_TYPE =? rte_cpu_to_be_16 RTE_ETHER_TYPE_IPV4 then binding s (load32 m IP_SRC)
  else None.
Definition translated (s : nat_state) (m : mbuf) : mbuf :=
  match public_of s m with Some p => recalc_cksums (store32 m IP_SRC p) | None => m end.

Lemma translated_id s m : mb_id (translated s m) = mb_id m.
Proof. unfold translated. destruct (public_of s m); [|done]. by rewrite recalc_cksums_id. Qed.

Lemma v3_nat_packet_spec m s t :
  table_ok s ->
  wp (nat_packet m) (fun m' s' t' => m' = translated s m /\ s' = s /\ same_acct t t')
    (fun _ _ _ => False) s t.
Proof.
  intros H. unfold nat_packet, translated, public_of, binding.
  destruct (load16 m ETH_TYPE =? _); simpl; [|by wp_steps].
  wp_steps. rewrite hash_lookup_law.
  destruct (hash_map (nat_table s) !! le32 (load32 m IP_SRC)) as [a|] eqn:G; [|by wp_steps].
  destruct (H _ _ G) as (e & He & _). simpl. wp_steps. eapply wp_deref; [done|]. rewrite He.
  by wp_steps.
Qed.

Lemma nat_apply_spec bufs s t :
  table_ok s ->
  wp (nat_apply bufs) (fun r s' t' => r = map (translated s) bufs /\ s' = s /\ same_acct t t')
    (fun _ _ _ => False) s t.
Proof.
  intros H. apply (wp_for_each (fun pre rs s' t' =>
    rs = map (translated s) pre /\ s' = s /\ same_acct t t')); [|done].
  intros pre m post rs s1 t1 _ (-> & -> & A). eapply wp_mono; [by apply v3_nat_packet_spec| |done].
  intros m' s2 t2 (-> & -> & A2). split; [by rewrite map_app|]. split; [done|].
  by eapply same_acct_trans.
Qed.

(** [nat_apply] on a burst with 20-byte IPv4 headers: every IPv4 packet whose source has a
    mapping gets the mapped source, a valid IPv4 checksum and, for TCP and UDP,
    a valid L4 checksum, and changes nowhere else; all others stay as they are,
    and so does the table. *)
Theorem nat_apply_correct bufs s t :
  table_ok s -> Forall (fun m => room m HDRS /\ bytes_ok m /\ Z.land (load8 m IP) 15 = 5) bufs ->
  wp (nat_apply bufs)
    (fun bufs' s' t' => s' = s /\ same_acct t t' /\
       Forall2 (fun m m' =>
         match public_of s m with Some p => rewritten m m' p true | None => m' = m end) bufs bufs')
    (fun _ _ _ => False) s t.
Proof.
  intros H Hb. eapply wp_mono; [by apply nat_apply_spec| |done].
  intros bufs' s' t' (-> & -> & A). split; [done|]. split; [done|].
  clear A. induction Hb as [|m bufs (Hr & Ho & H5) Hb IH]; simpl; constructor; [|done].
  unfold translated. destruct (public_of s m) as [p|] eqn:G; [|done].
  change (recalc_cksums (store32 m IP_SRC p)) with (rewrite_and_recalc m p true).
  apply rewrite_and_recalc_spec; [done|done| |done]. unfold public_of in G.
  destruct (_ =? _); [|done]. by eapply binding_u32.
Qed.

(** ** The program *)

Lemma nat_dump_spec s t :
  table_ok s -> wp nat_dump (fun _ s' t' => s' = s /\ same_acct t t') (fun _ _ _ => False) s t.
Proof.
  intros H. unfold nat_dump. wp_steps.
  eapply wp_mono; [apply (wp_for_each (fun _ _ s' t' => s' = s /\ same_acct t t')
    _ (fun _ _ _ => False))| |done].
  - intros pre [k a] post rs s1 t1 Hl [-> A]. wp_steps.
    assert (hash_map (nat_table s) !! k = Some a) as Hk.
    { apply elem_of_map_to_list. rewrite <- hash_entries_law, Hl.
      rewrite elem_of_app, elem_of_cons. auto. }
    destruct (H _ _ Hk) as (e & He & _). eapply wp_deref; [done|]. by wp_steps.
  - done.
  - intros rs s1 t1 [-> A]. by wp_steps.
Qed.

Definition run_ok (l : clock * rte_hash) (s : nat_state) (t : trace) : Prop :=
  table_ok s /\ owned [] t /\ hash_map l.2 = ∅.

Lemma v3_loop_spec l s t :
  run_ok l s t -> wp (loop_body l) (fun l' s' t' => s' = s /\ run_ok l' s' t') (fun _ _ _ => False) s t.
Proof.
  destruct l as [c ht]. intros (H & Ho & Hh). cbn [snd] in Hh. unfold loop_body. wp_step. apply wp_rx.
  intros bufs _ _. apply (owned_rx _ port_id 0 BURST_SIZE bufs) in Ho. wp_step.
  - wp_step. eapply wp_mono; [apply clock_start_spec| |done].
    intros c1 s1 t1 (-> & A1 & _). wp_step. eapply wp_mono; [by apply nat_apply_spec| |done].
    intros bufs' s2 t2 (-> & -> & A2). wp_step. eapply wp_mono; [apply clock_rx_spec| |done].
    intros c3 s3 t3 (-> & A3 & _). wp_step.
    eapply (wp_tx_or_free _ _ _ []).
    + apply (owned_acct _ _ _ (same_acct_trans _ _ _ (same_acct_trans _ _ _ A1 A2) A3)) in Ho.
      rewrite map_map. by rewrite (map_ext _ _ (translated_id s)).
    + intros t4 O4 _ _. by wp_steps.
  - assert (bufs = []) as ->.
    { destruct bufs; [done|]. apply Z.ltb_ge in H0. unfold zlen in H0. simpl in H0. lia. }
    wp_step. unfold wp at 1. rewrite clock_idle_run.
    destruct (started c); simpl; [|done]. destruct (IDLE_SEC <=? _); [|done].
    wp_step. eapply wp_mono; [apply hash_dump_quiet; by rewrite Hh, map_to_list_empty| |done].
    intros _ s1 t1 (-> & A & _). wp_step. eapply wp_mono; [by apply nat_dump_spec| |done].
    intros _ s2 t2 (-> & A2). wp_steps. split; [done|]. split; [done|]. split.
    + eapply owned_acct; [exact A2|]. by eapply owned_acct.
    + simpl. apply hash_reset_law.
Qed.

Lemma manual_entry_spec k s t :
  loading s t ->
  wp (manual_entry k) (fun _ s' t' => loading s' t') (fun c _ t' => c = EXIT_FAILURE /\ rx_ids t' = []) s t.
Proof.
  revert s t. induction k as [|k IH]; intros s t L; cbn [manual_entry]; [done|].
  wp_steps; [by eapply v3_loading_acct|]. eapply wp_mono; [apply nat_add_mapping_spec; apply L| |].
  - intros _ s1 t1 (Ht & Hl & (A1 & A2 & _) & _). apply IH. destruct L as (_ & _ & L3 & L4).
    split; [done|]. split; [done|]. by rewrite A1, A2.
  - intros cc s1 t1 (-> & A1 & _). split; [done|]. rewrite A1. apply L.
Qed.

(** Version 3 never faults, however many mappings the user types and however long it runs;
    it exits only with status 1 and before any traffic; between iterations every
    received buffer was handed back exactly once; and traffic never changes the
    table. *)
Theorem static_main_safe k n :
  wp (main k n) (fun _ s t => table_ok s /\ owned [] t)
    (fun c _ t => c = EXIT_FAILURE /\ rx_ids t = []) nat_state0 [].
Proof.
  unfold main, create_mempool, init_port, nat_table_create. wp_steps; try done.
  apply ip_hash_create_spec; [|by intros t (-> & _)].
  intros t h (A1 & A2 & A3 & A4) L Hh. wp_steps; [split; [done|exact A1]|].
  assert (forall t', same_acct t t' -> live_blocks t' = live_blocks t ->
    loading (NatState (rte_hash_empty MAX_NAT_ENTRIES sizeof_uint32) (entries nat_state0)) t') as LD.
  { intros t' (B1 & B2 & _) L'. split; [|split; [|by rewrite B1, B2, A1, A2]].
    - intros x a. simpl. by rewrite hash_empty_law, lookup_empty.
    - intros a. simpl. rewrite lookup_empty. by intros []. }
  assert (forall s t, loading s t -> wp (forever n loop_body (clock0, h))
      (fun _ s t => table_ok s /\ owned [] t) (fun c _ t => c = EXIT_FAILURE /\ rx_ids t = []) s t) as Run.
  { intros s1 t1 (Ht & _ & R1 & R2). assert (owned [] t1) by (unfold owned; by rewrite R1, R2).
    eapply wp_mono; [apply (wp_forever run_ok _ (fun _ _ _ => False))| |done].
    - intros l s2 t2 R. eapply wp_mono; [by apply v3_loop_spec|by intros ? ? ? []|done].
    - done.
    - by intros l s2 t2 (Ht2 & O2 & _). }
  apply wp_scanf_int. intros r'.
  assert (forall v t', same_acct t t' -> live_blocks t' = live_blocks t ->
    wp (ready <-- (if v =? 1 then nat_load_from_file nat_config_file ;; ret true else manual_entry k) ;;
        if ready : bool then _ <-- forever n loop_body (clock0, h) ;; ret tt else ret tt)
      (fun _ s t => table_ok s /\ owned [] t) (fun c _ t => c = EXIT_FAILURE /\ rx_ids t = [])
      (NatState (rte_hash_empty MAX_NAT_ENTRIES sizeof_uint32) (entries nat_state0)) t') as G.
  { intros v t' A' L'. wp_step. apply wp_if; intros _.
    - wp_step. unfold nat_load_from_file. wp_steps. destruct c as [content|].
      + wp_step. eapply wp_mono; [by apply mapping_lines_spec, (LD (EvFopen _ _ :: t'))| |done].
        intros m s1 t1 [L1 _]. wp_steps. eapply wp_mono; [apply Run; by eapply v3_loading_acct|done|done].
      + wp_steps. eapply wp_mono; [apply Run; by apply LD|done|done].
    - eapply wp_mono; [by apply manual_entry_spec, LD| |done]. intros b s1 t1 L1.
      destruct b; wp_steps; [by eapply wp_mono; [apply Run|done|done]|].
      destruct L1 as (Ht & _ & R1 & R2). split; [done|]. unfold owned. by rewrite R1, R2. }
  wp_step. destruct r' as [v|]; cbn iota; [apply wp_ret; by apply G|].
  wp_step. apply wp_indet; [lia|]. intros bs _ _. apply wp_ret. by apply G.
Qed.
End NatV3.

(** ** Witnesses *)

#[local] Existing Instances sim_byteorder sim_cksum sim_hash.
#[local] Instance wenv : Env := sim_env (Script (fun _ => 1) [] 32 (fun t => Z.of_nat (length t)) true
  (Some "# private public
10.0.0.7 203.0.113.5
10.0.0.8 203.0.113.6
10.0.0.7 203.0.113.9
"%string) 1000).

Definition w_ip (d : Z) : Z := of_le32 10 0 0 d.
Definition w_pub (d : Z) : Z := of_le32 203 0 113 d.
(** One mapping: 10.0.0.7 to 203.0.113.5. *)
Definition w_table : nat_state :=
  NatState (SimTable 1024 {[le32 (w_ip 7) := 64]}) {[64 := NatEntry (w_ip 7) (w_pub 5)]}.
Definition w_trace : trace := [EvMalloc 8 64].
Definition w_mapped : mbuf := mk_packet 1 [10; 0; 0; 7] [9; 9; 9; 9] IPPROTO_TCP [4; 210] [0; 80].
Definition w_other : mbuf := mk_packet 2 [10; 0; 0; 9] [9; 9; 9; 9] IPPROTO_UDP [4; 210] [0; 80].

Lemma v3_w_table_ok : table_ok w_table.
Proof.
  intros k a. simpl. rewrite lookup_singleton. case_decide; [|done]. intros [= <-].
  exists (NatEntry (w_ip 7) (w_pub 5)). subst k. split; [by vm_compute|]. by split_and!.
Qed.
Lemma v3_w_live : entries_live w_table w_trace.
Proof. intros a. simpl. rewrite lookup_singleton. case_decide; [set_solver|by intros []]. Qed.

Lemma nat_add_mapping_correct_witness :
  wp (nat_add_mapping (inet_ntop (w_ip 7)) (inet_ntop (w_pub 9)))
    (fun _ s' t' => table_ok s' /\ entries_live s' t' /\
       forall ip, is_u32 ip -> binding s' ip = if ip =? w_ip 7 then Some (w_pub 9) else binding w_table ip)
    (fun c _ _ => c = EXIT_FAILURE) w_table w_trace.
Proof. apply nat_add_mapping_correct; [apply v3_w_table_ok|apply v3_w_live|done|done]. Defined.

Lemma static_load_correct_witness :
  addresses (omap line_mapping (file_lines "# private public
10.0.0.7 203.0.113.5
10.0.0.8 203.0.113.6
10.0.0.7 203.0.113.9
"%string)) = Some [(w_ip 7, w_pub 5); (w_ip 8, w_pub 6); (w_ip 7, w_pub 9)] /\
  wp (nat_load_from_file nat_config_file)
    (fun _ s' t' => loading s' t' /\
       match env_file w_trace nat_config_file with
       | None => s' = w_table
       | Some content =>
           forall maps, addresses (omap line_mapping (file_lines content)) = Some maps ->
             forall ip, is_u32 ip -> binding s' ip = last_binding maps (binding w_table) ip
       end)
    (fun c _ t' => c = EXIT_FAILURE /\ rx_ids t' = []) w_table w_trace.
Proof.
  split; [by vm_compute|]. apply static_load_correct.
  split; [apply v3_w_table_ok|]. split; [apply v3_w_live|done].
Defined.

Lemma nat_apply_correct_witness :
  public_of w_table w_mapped = Some (w_pub 5) /\ public_of w_table w_other = None /\
  wp (nat_apply [w_mapped; w_other])
    (fun bufs' s' t' => s' = w_table /\ same_acct w_trace t' /\
       Forall2 (fun m m' =>
         match public_of w_table m with Some p => rewritten m m' p true | None => m' = m end)
         [w_mapped; w_other] bufs')
    (fun _ _ _ => False) w_table w_trace.
Proof.
  split; [by vm_compute|]. split; [by vm_compute|].
  apply nat_apply_correct; [apply v3_w_table_ok|].
  repeat constructor; try done; by apply Forall_u8_dec.
Defined.
