(* ===== verification/StaticNat.v ===== *)
(** * NAT/static_nat/main.c: one static address pair on one port *)

From S2P Require Import Prelude Rte Env Packet Ownership Sim.

Definition NUM_MBUFS := 8192.
Definition MBUF_CACHE_SIZE := 256.
Definition BURST_SIZE := 32.
Definition PORT_ID := 0.
Definition RTE_MBUF_DEFAULT_BUF_SIZE := 2176.
Definition EXIT_FAILURE := 1.

Section StaticNat.
Context {BO : Byteorder} {CK : Cksum} {E : Env}.
Notation M := (M unit).

Definition PRIVATE_IP : Z := RTE_IPV4 172 22 116 70.
Definition PUBLIC_IP : Z := RTE_IPV4 203 0 113 10.

Definition print_ip (ip : Z) : M unit :=
  let ip := rte_be_to_cpu_32 ip in
  printf "%u.%u.%u.%u"
    [PInt (Z.land (Z.shiftr ip 24) 255); PInt (Z.land (Z.shiftr ip 16) 255);
     PInt (Z.land (Z.shiftr ip 8) 255); PInt (Z.land ip 255)].

(** The packet is changed in place; the result is the packet afterwards. *)
Definition simulate_nat (m : mbuf) : M mbuf :=
  if negb (load16 m ETH_TYPE =? rte_cpu_to_be_16 RTE_ETHER_TYPE_IPV4) then ret m
  else
    printf "\nBefore NAT: SRC=" [] ;;
    print_ip (load32 m IP_SRC) ;;
    printf " DST=" [] ;;
    print_ip (load32 m IP_DST) ;;
    printf "\n" [] ;;
    m <-- (if load32 m IP_SRC =? rte_cpu_to_be_32 PRIVATE_IP then
             let m := store32 m IP_SRC (rte_cpu_to_be_32 PUBLIC_IP) in
             printf "Outbound Static NAT Applied\n" [] ;; ret m
           else ret m) ;;
    m <-- (if load32 m IP_DST =? rte_cpu_to_be_32 PUBLIC_IP then
             let m := store32 m IP_DST (rte_cpu_to_be_32 PRIVATE_IP) in
             printf "Inbound Static NAT Applied\n" [] ;; ret m
           else ret m) ;;
    let m := recalc_ip m in
    printf "After NAT:  SRC=" [] ;;
    print_ip (load32 m IP_SRC) ;;
    printf " DST=" [] ;;
    print_ip (load32 m IP_DST) ;;
    printf "\n" [] ;;
    ret m.

Definition loop_body (_ : unit) : M unit :=
  bufs <-- rte_eth_rx_burst PORT_ID 0 BURST_SIZE ;;
  if zlen bufs =? 0 then ret tt
  else
    bufs <-- for_each simulate_nat bufs ;;
    _ <-- rte_eth_tx_burst PORT_ID 0 bufs ;;
    ret tt.

(** The first [n] iterations. *)
Definition lcore_main (n : nat) : M unit :=
  printf "Single Port NAT Simulation Started\n" [] ;;
  forever n loop_body tt.

Definition main (n : nat) : M unit :=
  r <-- call rte_eal_init ;;
  when (r <? 0) (rte_exit EXIT_FAILURE) ;;
  mbuf_pool <-- call (rte_pktmbuf_pool_create "MBUF_POOL" NUM_MBUFS MBUF_CACHE_SIZE 0
                        RTE_MBUF_DEFAULT_BUF_SIZE) ;;
  when (mbuf_pool =? 0) (rte_exit EXIT_FAILURE) ;;
  _ <-- call (rte_eth_dev_configure PORT_ID 1 1) ;;
  _ <-- call (rte_eth_rx_queue_setup PORT_ID 0 1024 mbuf_pool) ;;
  _ <-- call (rte_eth_tx_queue_setup PORT_ID 0 1024) ;;
  _ <-- call (rte_eth_dev_start PORT_ID) ;;
  _ <-- call (rte_eth_promiscuous_enable PORT_ID) ;;
  lcore_main n.

(** ** Translation *)

(** The two addresses as they are on the wire. *)
Definition private_be : Z := of_le32 172 22 116 70.
Definition public_be : Z := of_le32 203 0 113 10.

Lemma private_ip_be : rte_cpu_to_be_32 PRIVATE_IP = private_be.
Proof. unfold PRIVATE_IP. rewrite RTE_IPV4_law by words. by rewrite cpu_to_be_32_law. Qed.
Lemma public_ip_be : rte_cpu_to_be_32 PUBLIC_IP = public_be.
Proof. unfold PUBLIC_IP. rewrite RTE_IPV4_law by words. by rewrite cpu_to_be_32_law. Qed.

Definition is_ipv4 (m : mbuf) : bool := load16 m ETH_TYPE =? rte_cpu_to_be_16 RTE_ETHER_TYPE_IPV4.
Definition outbound (m : mbuf) : bool := load32 m IP_SRC =? private_be.
Definition inbound (m : mbuf) : bool := load32 m IP_DST =? public_be.
Definition rewritten_src (m : mbuf) : mbuf := if outbound m then store32 m IP_SRC public_be else m.
Definition natted (m : mbuf) : mbuf :=
  if is_ipv4 m then
    let m1 := rewritten_src m in
    recalc_ip (if inbound m1 then store32 m1 IP_DST private_be else m1)
  else m.

Lemma simulate_nat_run m s t :
  wp (simulate_nat m) (fun m' s' t' => m' = natted m /\ s' = s /\ same_acct t t') (fun _ _ _ => False) s t.
Proof.
  unfold simulate_nat, natted, rewritten_src, is_ipv4, outbound, inbound, print_ip.
  rewrite private_ip_be, public_ip_be.
  destruct (_ =? rte_cpu_to_be_16 _); simpl; [|by wp_steps].
  wp_steps; (split; [|done]).
  - by rewrite H, H0.
  - by rewrite H, H0.
  - by rewrite H, H0.
  - by rewrite H, H0.
Qed.

Lemma natted_id m : mb_id (natted m) = mb_id m.
Proof.
  unfold natted, rewritten_src. destruct (is_ipv4 m); [|done]. destruct (outbound m); cbv zeta;
    by match goal with |- context [inbound ?x] => destruct (inbound x) end.
Qed.

(** The translated packet, for a 20-byte IPv4 header. *)
Lemma natted_spec m :
  room m HDRS -> bytes_ok m -> Z.land (load8 m IP) 15 = 5 -> is_ipv4 m = true ->
  let m' := natted m in
  load32 m' IP_SRC = (if outbound m then public_be else load32 m IP_SRC) /\
  load32 m' IP_DST = (if inbound m then private_be else load32 m IP_DST) /\
  frame_but [(IP_SRC, 4); (IP_DST, 4); (IP_CKSUM, 2)] m m' /\
  ipv4_cksum_ok (at_off m' IP).
Proof.
  intros Hr Hb H5 H4. cbv zeta. unfold natted. rewrite H4. cbv zeta.
  set (m1 := rewritten_src m).
  assert (frame_but [(IP_SRC, 4)] m m1) as F1.
  { unfold m1, rewritten_src. destruct (outbound m); [by apply (frame_store32 _ _ _ HDRS)|].
    eapply frame_but_weaken; [by apply frame_but_refl|clear; set_solver]. }
  assert (load32 m1 IP_SRC = if outbound m then public_be else load32 m IP_SRC) as E1.
  { unfold m1, rewritten_src. destruct (outbound m); [|done]. by apply (load32_store32_eq _ _ _ HDRS). }
  assert (load32 m1 IP_DST = load32 m IP_DST) as Ed by (by apply (frame_load32 _ _ _ _ F1)).
  assert (inbound m1 = inbound m) as Ei by (unfold inbound; by rewrite Ed).
  rewrite Ei. pose proof (frame_room _ _ _ _ F1 Hr) as Hr1. pose proof (frame_bytes _ _ _ F1) as Hb1.
  clearbody m1. set (m2 := if inbound m then store32 m1 IP_DST private_be else m1).
  assert (frame_but [(IP_DST, 4)] m1 m2) as F2.
  { unfold m2. destruct (inbound m); [by apply (frame_store32 _ _ _ HDRS)|].
    eapply frame_but_weaken; [by apply frame_but_refl|clear; set_solver]. }
  assert (load32 m2 IP_DST = if inbound m then private_be else load32 m IP_DST) as E2.
  { unfold m2. destruct (inbound m); [by apply (load32_store32_eq _ _ _ HDRS)|done]. }
  pose proof (frame_room _ _ _ _ F2 Hr1) as Hr2. pose proof (frame_bytes _ _ _ F2) as Hb2.
  clearbody m2. pose proof (recalc_ip_frame m2 Hr2 Hb2) as F3.
  assert (load8 m2 IP = load8 m IP) as E0.
  { rewrite (frame_load8 _ _ _ _ F2) by done. by apply (frame_load8 _ _ _ _ F1). }
  split; [|split; [|split]].
  - rewrite (frame_load32 _ _ _ _ F3), (frame_load32 _ _ _ _ F2) by done. done.
  - by rewrite (frame_load32 _ _ _ _ F3) by done.
  - exact (frame_but_trans _ _ _ _ _ F1 (frame_but_trans _ _ _ _ _ F2 F3)).
  - apply recalc_ip_ok; [done|done|]. unfold ihl_ok, at_off. rewrite Z.add_0_r, E0, H5. done.
Qed.

(** ** The TCP and UDP checksums *)

(** Sum of the two words of an address. *)
Definition words32 (a : Z) : Z := match le32 a with [b0; b1; b2; b3] => of_le16 b0 b1 + of_le16 b2 b3 | _ => 0 end.

Lemma words32_load m o : bytes_ok m ->
  words32 (load32 m o) =
    of_le16 (load8 m o) (load8 m (o + 1)) + of_le16 (load8 m (o + 2)) (load8 m (o + 3)).
Proof. intros Hb. unfold words32, load32. by rewrite of_le32_mod by (by apply load8_byte). Qed.

Lemma phdr_words m : bytes_ok m ->
  phdr_sum (at_off m IP) = words32 (load32 m IP_SRC) + words32 (load32 m IP_DST) +
    of_le16 0 (load8 m IP_PROTO) + bswap16 (u16 (l4_len (at_off m IP))).
Proof. intros Hb. rewrite !words32_load by done. unfold phdr_sum. by rewrite !Z.add_assoc. Qed.

(** What the pseudo header sum changes by. *)
Definition delta (m : mbuf) : Z :=
  (if outbound m then 2876 - 23840 else 0) + (if inbound m then 23840 - 2876 else 0).

Lemma natted_l4_sum m :
  room m HDRS -> bytes_ok m -> Z.land (load8 m IP) 15 = 5 -> is_ipv4 m = true ->
  0 <= l4_len (at_off m IP) ->
  phdr_sum (at_off (natted m) IP) + l4_sum (at_off (natted m) L4) (l4_len (at_off (natted m) IP)) =
  phdr_sum (at_off m IP) + l4_sum (at_off m L4) (l4_len (at_off m IP)) + delta m.
Proof.
  intros Hr Hb H5 H4 Hlen. destruct (natted_spec m Hr Hb H5 H4) as (E1 & E2 & F & _).
  assert (l4_len (at_off (natted m) IP) = l4_len (at_off m IP)) as El
    by (unfold l4_len, at_off; by rewrite !(frame_load8 _ _ _ _ F)).
  assert (load8 (natted m) IP_PROTO = load8 m IP_PROTO) as Ep by (by apply (frame_load8 _ _ _ _ F)).
  rewrite !phdr_words by first [done|eapply frame_bytes; exact F]. rewrite E1, E2, El, Ep.
  assert (l4_sum (at_off (natted m) L4) (l4_len (at_off m IP)) =
          l4_sum (at_off m L4) (l4_len (at_off m IP))) as ->.
  { assert (forall i, 0 <= i -> at_off (natted m) L4 i = at_off m L4 i) as Eb.
    { intros i Hi. unfold at_off. apply (frame_load8 _ _ _ _ F); [unfold L4; lia|].
      unfold in_ranges, IP_SRC, IP_DST, IP_CKSUM, L4. simpl. lia. }
    unfold l4_sum. f_equal; [apply word_sum_ext; intros; apply Eb; lia|].
    destruct (Z.odd (l4_len (at_off m IP))) eqn:Ho; [|done]. apply Eb.
    assert (l4_len (at_off m IP) <> 0) by (intros Z0; by rewrite Z0 in Ho). lia. }
  unfold delta, outbound, inbound.
  destruct (Z.eqb_spec (load32 m IP_SRC) private_be) as [->|_];
    destruct (Z.eqb_spec (load32 m IP_DST) public_be) as [->|_];
    change (words32 private_be) with 23840; change (words32 public_be) with 2876; lia.
Qed.

Lemma l4_ok_delta a a' d :
  a' = a + d -> oc a = 65535 -> 0 <= a -> (oc a' = 65535 -> d mod 65535 = 0).
Proof.
  intros -> H Ha H'. assert (0 < a) as Hp by (assert (a <> 0) by (by intros ->); lia).
  apply oc_full in H; [|done].
  assert ((a + d) mod 65535 = 0) as G.
  { unfold oc in H'. destruct (Z.eqb_spec (a + d) 0) as [->|_]; [done|].
    assert ((a + d - 1) mod 65535 = 65534) as Em by lia. clear -Em. Z.div_mod_to_equations. lia. }
  rewrite <- (Zplus_mod_idemp_l a d), H in G. by rewrite Z.add_0_l in G.
Qed.

(** What the static NAT does to an IPv4 packet with a 20-byte header: the private source
    becomes the public one, the public destination the private one, the IPv4
    checksum is valid, nothing else changes. In particular the TCP or UDP
    checksum is not updated: if it was valid and just one address was
    translated, it is wrong afterwards. *)
Theorem simulate_nat_correct m s t :
  room m HDRS -> bytes_ok m -> Z.land (load8 m IP) 15 = 5 -> is_ipv4 m = true ->
  0 <= l4_len (at_off m IP) ->
  wp (simulate_nat m)
    (fun m' s' t' => same_acct t t' /\
       load32 m' IP_SRC = (if outbound m then public_be else load32 m IP_SRC) /\
       load32 m' IP_DST = (if inbound m then private_be else load32 m IP_DST) /\
       frame_but [(IP_SRC, 4); (IP_DST, 4); (IP_CKSUM, 2)] m m' /\
       ipv4_cksum_ok (at_off m' IP) /\
       (l4_cksum_ok (at_off m IP) (at_off m L4) -> xorb (outbound m) (inbound m) = true ->
        ~ l4_cksum_ok (at_off m' IP) (at_off m' L4)))
    (fun _ _ _ => False) s t.
Proof.
  intros Hr Hb H5 H4 Hlen. eapply wp_mono; [apply simulate_nat_run| |done].
  intros m' s' t' (-> & _ & A). split; [done|].
  destruct (natted_spec m Hr Hb H5 H4) as (E1 & E2 & F & Hc). do 4 (split; [done|]).
  intros Hok Hx Hok'. unfold l4_cksum_ok in *.
  assert (0 <= phdr_sum (at_off m IP) + l4_sum (at_off m L4) (l4_len (at_off m IP))) as Hn.
  { pose proof (phdr_nonneg (at_off m IP) ltac:(intros; by apply at_off_byte)).
    pose proof (l4_sum_nonneg (at_off m L4) (l4_len (at_off m IP)) ltac:(intros; by apply at_off_byte)). lia. }
  pose proof (l4_ok_delta _ _ _ (natted_l4_sum m Hr Hb H5 H4 Hlen) Hok Hn Hok') as D.
  unfold delta in D. by destruct (outbound m), (inbound m).
Qed.

(** ** The program *)

(** The static NAT never faults; it loses exactly the packets that the NIC refuses, since the
    result of the transmission is ignored. *)
Lemma static_nat_loop_spec s t :
  owned (refused_ids t) t ->
  wp (loop_body tt) (fun _ _ t' => owned (refused_ids t') t') (fun _ _ _ => False) s t.
Proof.
  intros Ho. unfold loop_body. wp_step. apply wp_rx. intros bufs _ _.
  apply (owned_rx _ PORT_ID 0 BURST_SIZE bufs) in Ho. wp_step.
  { assert (bufs = []) as -> by (destruct bufs; [done|by rewrite Z.eqb_eq in H]). done. }
  wp_step. eapply wp_mono; [apply (wp_for_each_ids (fun _ : unit => True) _ _ (fun _ _ _ => False)); [|done]| |done].
  { intros m s1 t1 _. eapply wp_mono; [apply simulate_nat_run| |done].
    intros m' s2 t2 (-> & _ & A). by rewrite natted_id. }
  intros bufs' s1 t1 (_ & Ei & A). apply (owned_acct _ _ _ A) in Ho. rewrite <- Ei in Ho.
  wp_step. apply wp_tx. intros k _. wp_steps. apply (owned_tx_ignored []).
  simpl. destruct A as (_ & _ & _ & ->). exact Ho.
Qed.

(** The static NAT never faults in any number of iterations and exits only with
    EXIT_FAILURE before traffic; every buffer it received was handed back
    exactly once or is one that the NIC refused, which is lost. *)
Theorem static_nat_main_leaks_refused n :
  wp (main n) (fun _ _ t => owned (refused_ids t) t)
    (fun c _ t => c = EXIT_FAILURE /\ rx_ids t = []) tt [].
Proof.
  unfold main, lcore_main. wp_steps; try done.
  apply (wp_forever (fun _ _ t => owned (refused_ids t) t)); [|apply owned_nil].
  intros [] s t Ho. eapply wp_mono; [by apply static_nat_loop_spec|done|done].
Qed.
End StaticNat.

#[local] Existing Instances sim_byteorder sim_cksum.
#[local] Instance wenv : Env := sim_env quiet_script.

(** A UDP packet from the private address, with a valid checksum. *)
Definition w_udp : mbuf :=
  recalc_l4 UDP_CKSUM (mk_packet 1 [172; 22; 116; 70] [9; 9; 9; 9] IPPROTO_UDP [4; 210] [0; 80]).

Lemma simulate_nat_correct_witness :
  l4_cksum_ok (at_off w_udp IP) (at_off w_udp L4) /\ xorb (outbound w_udp) (inbound w_udp) = true /\
  wp (simulate_nat w_udp)
    (fun m' s' t' => same_acct [] t' /\
       load32 m' IP_SRC = (if outbound w_udp then public_be else load32 w_udp IP_SRC) /\
       load32 m' IP_DST = (if inbound w_udp then private_be else load32 w_udp IP_DST) /\
       frame_but [(IP_SRC, 4); (IP_DST, 4); (IP_CKSUM, 2)] w_udp m' /\
       ipv4_cksum_ok (at_off m' IP) /\
       (l4_cksum_ok (at_off w_udp IP) (at_off w_udp L4) -> xorb (outbound w_udp) (inbound w_udp) = true ->
        ~ l4_cksum_ok (at_off m' IP) (at_off m' L4)))
    (fun _ _ _ => False) tt [].
Proof.
  split; [by vm_compute|]. split; [by vm_compute|].
  assert (bytes_ok w_udp) by (apply Forall_u8_dec; by vm_compute).
  apply simulate_nat_correct; [|done| | |]; by vm_compute.
Defined.
