(* ===== verification/MacLearn.v ===== *)
(** * hashing/mac_learning/main.c: learning and looking up MAC addresses

    The state is the table; keys are the six bytes of an address, data are
    ports, carried in the pointer. *)

From S2P Require Import Prelude Rte Env Ownership Sim.

Definition HASH_ENTRIES := 1024.
Definition EXIT_FAILURE := 1.
Definition sizeof_ether_addr := 6.

Section MacLearn.
Context {RH : RteHash} {E : Env}.
Notation M := (M rte_hash).

Definition create_mac_table : M unit :=
  hash <-- call (rte_hash_create "mac_table" HASH_ENTRIES sizeof_ether_addr) ;;
  when (hash =? 0) (rte_exit EXIT_FAILURE) ;;
  modify (fun _ => rte_hash_empty HASH_ENTRIES sizeof_ether_addr).

Definition mac_learn (src_mac : list Z) (port : Z) : M unit :=
  modify (fun h => (rte_hash_add_key_data h src_mac port).2).

(** The return value, and the port that is stored on success. *)
Definition mac_lookup (dst_mac : list Z) : M (Z * option Z) :=
  h <-- gets id ;;
  match rte_hash_lookup_data h dst_mac with
  | Some lookup => ret (0, Some (u16 lookup))
  | None => ret (-1, None)
  end.

Definition print_mac (addr : list Z) : M unit :=
  printf "%02X:%02X:%02X:%02X:%02X:%02X" (map PInt addr).

Definition mac1 : list Z := [170; 187; 204; 221; 238; 1].
Definition mac2 : list Z := [170; 187; 204; 221; 238; 2].
Definition mac3 : list Z := [170; 187; 204; 221; 238; 3].

Definition main : M unit :=
  r <-- call rte_eal_init ;;
  when (r <? 0) (rte_exit EXIT_FAILURE) ;;
  create_mac_table ;;
  mac_learn mac1 1 ;;
  mac_learn mac2 2 ;;
  printf "Learned MACs\n" [] ;;
  printf "\nLooking up MAC: " [] ;;
  print_mac mac1 ;;
  l1 <-- mac_lookup mac1 ;;
  (match l1 with
   | (0, Some out_port) => printf " -> Forward to port %u\n" [PInt out_port]
   | _ => printf " -> Flood\n" []
   end) ;;
  printf "\nLooking up MAC: " [] ;;
  print_mac mac3 ;;
  l3 <-- mac_lookup mac3 ;;
  match l3 with
  | (0, Some out_port) => printf " -> Forward to port %u\n" [PInt out_port]
  | _ => printf " -> Flood (unknown MAC)\n" []
  end.

(** What the table answers for an address. *)
Definition port_of (h : rte_hash) (mac : list Z) : option Z := u16 <$> hash_map h !! mac.

Lemma learn_port h mac port mac' :
  port_of (rte_hash_add_key_data h mac port).2 mac' =
    if decide (mac' = mac) then
      (if (rte_hash_add_key_data h mac port).1 =? 0 then Some (u16 port) else port_of h mac')
    else port_of h mac'.
Proof.
  unfold port_of. rewrite hash_add_law. destruct (_ =? 0); [|by case_decide].
  rewrite lookup_insert. case_decide as H1; case_decide as H2; try done; congruence.
Qed.

(** A learned address, found again: the last port learned for it, whatever was learned for
    other addresses in between; and looking up never changes the table. *)
Theorem learn_lookup mac port others h t :
  is_u16 port -> (rte_hash_add_key_data h mac port).1 = 0 -> Forall (fun o => o.1 <> mac) others ->
  wp (mac_learn mac port ;;
      _ <-- for_each (fun o : list Z * Z => mac_learn o.1 o.2) others ;;
      mac_lookup mac)
    (fun r h' t' => r = (0, Some port) /\ t' = t)
    (fun _ _ _ => False) h t.
Proof.
  intros Hp Hr Ho. unfold mac_learn at 1. wp_steps.
  assert (port_of (rte_hash_add_key_data h mac port).2 mac = Some port) as H0.
  { rewrite learn_port, decide_True, Hr by done. by rewrite u16_small. }
  eapply wp_mono; [apply (wp_for_each (fun _ _ h' t' => port_of h' mac = Some port /\ t' = t)
    _ (fun _ _ _ => False))| |done].
  - intros pre [m p] post rs h1 t1 Hl [H1 ->]. unfold mac_learn. wp_steps. split; [|done].
    rewrite learn_port, decide_False; [done|]. intros ->. rewrite Hl in Ho.
    apply Forall_app in Ho as [_ Ho]. by inversion Ho.
  - done.
  - intros rs h1 t1 [H1 ->]. unfold mac_lookup. wp_steps. unfold id. rewrite hash_lookup_law.
    unfold port_of in H1. destruct (hash_map h1 !! mac); [|done]. injection H1 as H1. simpl.
    wp_steps. by rewrite H1.
Qed.

(** The program prints the learned port for the first address and floods for the third. *)
Lemma mac_main_spec :
  let h0 := rte_hash_empty HASH_ENTRIES sizeof_ether_addr in
  let r1 := rte_hash_add_key_data h0 mac1 1 in
  let r2 := rte_hash_add_key_data r1.2 mac2 2 in
  r1.1 = 0 -> r2.1 = 0 ->
  forall h, wp main
    (fun _ h' t => hash_map h' = <[mac2 := 2]> {[mac1 := 1]} /\
       head t = Some (EvPrintf " -> Flood (unknown MAC)\n" []) /\
       EvPrintf " -> Forward to port %u\n" [PInt 1] ∈ t)
    (fun c _ _ => c = EXIT_FAILURE) h [].
Proof.
  cbv zeta. set (h0 := rte_hash_empty _ _). intros H1 H2 h.
  set (h2 := (rte_hash_add_key_data (rte_hash_add_key_data h0 mac1 1).2 mac2 2).2).
  assert (hash_map h2 = <[mac2 := 2]> {[mac1 := 1]}) as E2.
  { unfold h2. rewrite hash_add_law, H2. simpl. rewrite hash_add_law, H1. simpl.
    unfold h0. by rewrite hash_empty_law. }
  unfold main, create_mac_table, mac_learn, mac_lookup, print_mac. wp_steps; [done|done|].
  unfold id. fold h0 h2. rewrite !hash_lookup_law, E2.
  rewrite lookup_insert_ne, lookup_singleton_eq by done. cbv iota beta. wp_steps.
  unfold id. rewrite hash_lookup_law, E2, lookup_insert_ne, lookup_singleton_ne by done. wp_steps.
  split; [done|]. split; [done|]. rewrite !elem_of_cons. auto 10.
Qed.
End MacLearn.
