(* ===== verification/L2Fwd.v ===== *)
(** * l2_forwarding/main.c: a simulated learning switch

    The state is the MAC table.  Forwarding is simulated by printing, so what a
    packet does is read off the trace. *)

From S2P Require Import Prelude Rte Env Ownership Sim.

Definition HASH_ENTRIES := 1024.
Definition MAX_PORTS := 4.
Definition EXIT_FAILURE := 1.
Definition sizeof_ether_addr := 6.

Section L2Fwd.
Context {RH : RteHash} {E : Env}.
Notation M := (M rte_hash).

Definition create_mac_table : M unit :=
  hash <-- call (rte_hash_create "mac_table" HASH_ENTRIES sizeof_ether_addr) ;;
  when (hash =? 0) (rte_exit EXIT_FAILURE) ;;
  modify (fun _ => rte_hash_empty HASH_ENTRIES sizeof_ether_addr).

Definition print_mac (addr : list Z) : M unit :=
  printf "%02X:%02X:%02X:%02X:%02X:%02X" (map PInt addr).

Definition mac_learn (src_mac : list Z) (port : Z) : M unit :=
  modify (fun h => (rte_hash_add_key_data h src_mac port).2) ;;
  printf "Learned MAC " [] ;;
  print_mac src_mac ;;
  printf " -> Port %u\n" [PInt port].

(** The return value, and the port that is stored on success. *)
Definition mac_lookup (dst_mac : list Z) : M (Z * option Z) :=
  h <-- gets id ;;
  match rte_hash_lookup_data h dst_mac with
  | Some lookup => ret (0, Some (u16 lookup))
  | None => ret (-1, None)
  end.

Definition flood_packet (in_port : Z) : M unit :=
  printf "Flooding packet to ports: " [] ;;
  _ <-- for_ (Z.to_nat MAX_PORTS) 0 (fun p _ =>
          when (negb (p =? in_port)) (printf "%d " [PInt p])) tt ;;
  printf "\n" [].

Definition process_packet (src dst : list Z) (in_port : Z) : M unit :=
  printf "\nPacket Received on Port %u\n" [PInt in_port] ;;
  printf "SRC MAC: " [] ;;
  print_mac src ;;
  printf "\n" [] ;;
  printf "DST MAC: " [] ;;
  print_mac dst ;;
  printf "\n" [] ;;
  mac_learn src in_port ;;
  l <-- mac_lookup dst ;;
  match l with
  | (0, Some out_port) => printf "Forward packet to Port %u\n" [PInt out_port]
  | _ => printf "Destination unknown -> " [] ;; flood_packet in_port
  end.

Definition mac_A : list Z := [170; 187; 204; 221; 238; 1].
Definition mac_B : list Z := [170; 187; 204; 221; 238; 2].
Definition mac_C : list Z := [170; 187; 204; 221; 238; 3].

Definition main : M unit :=
  r <-- call rte_eal_init ;;
  when (r <? 0) (rte_exit EXIT_FAILURE) ;;
  create_mac_table ;;
  process_packet mac_A mac_C 0 ;;
  process_packet mac_C mac_A 2 ;;
  process_packet mac_A mac_C 0.

(** ** Where packets go *)

(** One packet: to one port, or to several. *)
Inductive decision := Forward (port : Z) | Flood (ports : list Z).

(** The ports that "%d " was printed for, newest last, up to the start of the flood. *)
Fixpoint flooded (t : trace) : list Z :=
  match t with
  | EvPrintf "%d " [PInt p] :: t' => flooded t' ++ [p]
  | _ => []
  end.

(** The decisions of a trace, oldest first. *)
Fixpoint decisions (t : trace) : list decision :=
  match t with
  | [] => []
  | e :: t' =>
      decisions t' ++
      match e with
      | EvPrintf fmt args =>
          if bool_decide (fmt = "Forward packet to Port %u\n") then
            match args with [PInt p] => [Forward p] | _ => [] end
          else if bool_decide (fmt = "\n") then
            match flooded t' with [] => [] | ps => [Flood ps] end
          else []
      | _ => []
      end
  end.

(** What a switch must do: the port learned for the destination, or every port
    but the one the packet came from. *)
Definition switch (h : rte_hash) (dst : list Z) (in_port : Z) : decision :=
  match hash_map h !! dst with
  | Some p => Forward (u16 p)
  | None => Flood (filter (fun p => p <> in_port) [0; 1; 2; 3])
  end.

Lemma print_mac_decisions addr t :
  decisions (EvPrintf "%02X:%02X:%02X:%02X:%02X:%02X" (map PInt addr) :: t) = decisions t.
Proof. simpl. by rewrite app_nil_r. Qed.

Lemma process_packet_spec src dst in_port h t :
  0 <= in_port < MAX_PORTS ->
  wp (process_packet src dst in_port)
    (fun _ h' t' => h' = (rte_hash_add_key_data h src in_port).2 /\
       decisions t' = decisions t ++ [switch h' dst in_port])
    (fun _ _ _ => False) h t.
Proof.
  intros Hp. unfold process_packet, mac_learn, mac_lookup, print_mac. wp_steps. unfold id, switch.
  rewrite hash_lookup_law. set (h' := (rte_hash_add_key_data h src in_port).2).
  destruct (hash_map h' !! dst) as [p|] eqn:G; rewrite ?G.
  - wp_steps. split; [done|]. rewrite G. simpl. by rewrite !app_nil_r.
  - wp_steps. assert (in_port = 0 \/ in_port = 1 \/ in_port = 2 \/ in_port = 3) as H
      by (unfold MAX_PORTS in Hp; lia).
    unfold flood_packet. change (Z.to_nat MAX_PORTS) with 4%nat.
    assert (forall t', decisions t' = decisions t -> wp (printf "Flooding packet to ports: " [] ;;
      _ <-- for_ 4 0 (fun p _ => when (negb (p =? in_port)) (printf "%d " [PInt p])) tt ;;
      printf "\n" []) (fun _ h2 t2 => h2 = h' /\
        decisions t2 = decisions t ++ [Flood (filter (fun p => p <> in_port) [0; 1; 2; 3])])
      (fun _ _ _ => False) h' t') as Hf.
    { intros t' <-. repeat destruct H as [->|H]; subst; (split; [done|]); simpl; by rewrite !app_nil_r. }
    eapply wp_mono; [apply Hf| |done].
    + simpl. by rewrite !app_nil_r.
    + intros u h2 t2 [-> ->]. by rewrite G.
Qed.

(** One packet through the switch: the table learns the source on the incoming port (if the
    table takes it), then the packet goes to the port of the destination, if the
    table has one, and to every port but the incoming one otherwise. *)
Theorem process_packet_correct src dst in_port h t :
  0 <= in_port < MAX_PORTS ->
  wp (process_packet src dst in_port)
    (fun _ h' t' =>
       hash_map h' = (if (rte_hash_add_key_data h src in_port).1 =? 0
                      then <[src := in_port]> (hash_map h) else hash_map h) /\
       decisions t' = decisions t ++ [switch h' dst in_port])
    (fun _ _ _ => False) h t.
Proof.
  intros Hp. eapply wp_mono; [by apply process_packet_spec| |done].
  intros _ h' t' [-> Hd]. split; [|done]. apply hash_add_law.
Qed.

(** The run of the program: when the table takes the addresses, the first packet (from A to
    C) is flooded to ports 1, 2 and 3, the answer of C goes to port 0 only, and
    the third packet (A to C again) to port 2 only. *)
Theorem l2_main_decisions h :
  let h0 := rte_hash_empty HASH_ENTRIES sizeof_ether_addr in
  let r1 := rte_hash_add_key_data h0 mac_A 0 in
  let r2 := rte_hash_add_key_data r1.2 mac_C 2 in
  let r3 := rte_hash_add_key_data r2.2 mac_A 0 in
  r1.1 = 0 -> r2.1 = 0 -> r3.1 = 0 ->
  wp main (fun _ _ t => decisions t = [Flood [1; 2; 3]; Forward 0; Forward 2])
    (fun c _ _ => c = EXIT_FAILURE) h [].
Proof.
  cbv zeta. set (h0 := rte_hash_empty _ _). intros H1 H2 H3.
  unfold main, create_mac_table. wp_steps; [done|done|]. fold h0.
  eapply wp_mono; [by apply process_packet_spec| |done]. intros _ h1 t1 [-> D1]. wp_steps.
  eapply wp_mono; [by apply process_packet_spec| |done]. intros _ h2 t2 [-> D2].
  eapply wp_mono; [by apply process_packet_spec| |done]. intros _ h3 t3 [-> D3].
  rewrite D3, D2, D1. unfold switch. rewrite !hash_add_law, H3, H2, H1. simpl Z.eqb. cbv iota.
  unfold h0. rewrite hash_empty_law.
  rewrite lookup_insert_ne, lookup_empty by done.
  rewrite (lookup_insert_ne _ mac_C mac_A), lookup_insert_eq by done.
  by rewrite (lookup_insert_ne _ mac_A mac_C), lookup_insert_eq by done.
Qed.
End L2Fwd.

#[local] Existing Instance sim_hash.
#[local] Instance wenv : Env := sim_env quiet_script.

Lemma process_packet_correct_witness :
  let h : rte_hash := SimTable 1024 {[mac_C := 2]} in
  wp (process_packet mac_A mac_C 0)
    (fun _ h' t' =>
       hash_map h' = (if (rte_hash_add_key_data h mac_A 0).1 =? 0
                      then <[mac_A := 0]> (hash_map h) else hash_map h) /\
       decisions t' = decisions [] ++ [switch h' mac_C 0])
    (fun _ _ _ => False) h [].
Proof. by apply process_packet_correct. Defined.

Lemma l2_main_decisions_witness :
  let h : rte_hash := SimTable 0 ∅ in
  wp main (fun _ _ t => decisions t = [Flood [1; 2; 3]; Forward 0; Forward 2])
    (fun c _ _ => c = EXIT_FAILURE) h [].
Proof. apply l2_main_decisions; by vm_compute. Defined.
