(* ===== verification/SwapAddr.v ===== *)
(** * tranmit_packet/swap_addr/main.c: MAC swap and forward from port 0 to port 1 *)

From S2P Require Import Prelude Rte Env Packet Ownership Sim.

Definition BURST_SIZE := 32.
Definition RTE_MBUF_DEFAULT_BUF_SIZE := 2176.
Definition EXIT_FAILURE := 1.
Definition rx_port := 0.
Definition tx_port := 1.

Section SwapAddr.
Context {E : Env}.
Notation M := (M unit).

(** [rte_ether_addr_copy] through [temp]; the header is changed in place. *)
Definition swap_macs (m : mbuf) : mbuf :=
  let temp := load_bytes m ETH_SRC 6 in
  let m := store_bytes m ETH_SRC (load_bytes m ETH_DST 6) in
  store_bytes m ETH_DST temp.

(** One packet of the burst: swapped, sent alone, freed when refused. *)
Definition forward (m : mbuf) : M unit :=
  let m := swap_macs m in
  nb_tx <-- rte_eth_tx_burst tx_port 0 [m] ;;
  when (nb_tx =? 0) (rte_pktmbuf_free m).

Definition loop_body (_ : unit) : M unit :=
  bufs <-- rte_eth_rx_burst rx_port 0 BURST_SIZE ;;
  if zlen bufs =? 0 then ret tt
  else _ <-- for_each forward bufs ;; ret tt.

Definition setup_port (port mbuf_pool : Z) : M unit :=
  r <-- call (rte_eth_dev_configure port 1 1) ;;
  when (r <? 0) (rte_exit EXIT_FAILURE) ;;
  r <-- call (rte_eth_rx_queue_setup port 0 1024 mbuf_pool) ;;
  when (r <? 0) (rte_exit EXIT_FAILURE) ;;
  r <-- call (rte_eth_tx_queue_setup port 0 1024) ;;
  when (r <? 0) (rte_exit EXIT_FAILURE) ;;
  r <-- call (rte_eth_dev_start port) ;;
  when (r <? 0) (rte_exit EXIT_FAILURE) ;;
  _ <-- call (rte_eth_promiscuous_enable port) ;; ret tt.

(** The first [n] iterations. *)
Definition main (n : nat) : M unit :=
  r <-- call rte_eal_init ;;
  when (r <? 0) (rte_exit EXIT_FAILURE) ;;
  r <-- call rte_eth_dev_count_avail ;;
  let nb_ports := u16 r in
  when (nb_ports <? 2) (rte_exit EXIT_FAILURE) ;;
  mbuf_pool <-- call (rte_pktmbuf_pool_create "MBUF_POOL" 8192 256 0 RTE_MBUF_DEFAULT_BUF_SIZE) ;;
  when (mbuf_pool =? 0) (rte_exit EXIT_FAILURE) ;;
  setup_port rx_port mbuf_pool ;;
  setup_port tx_port mbuf_pool ;;
  forever n loop_body tt.

(** ** The swapped packet *)

Lemma load_bytes_length m o n : length (load_bytes m o n) = n.
Proof. unfold load_bytes. by rewrite length_map, length_seq. Qed.
Lemma load_bytes_zlen m o n : zlen (load_bytes m o n) = Z.of_nat n.
Proof. unfold zlen. by rewrite load_bytes_length. Qed.
Lemma get_load_bytes m o n i : 0 <= i < Z.of_nat n -> get (load_bytes m o n) i = load8 m (o + i).
Proof.
  intros Hi. unfold get, load_bytes. rewrite (nth_indep _ 0 (load8 m (o + Z.of_nat 0))).
  - rewrite (map_nth (fun k => load8 m (o + Z.of_nat k))), seq_nth by lia. f_equal. lia.
  - rewrite length_map, length_seq. lia.
Qed.
Lemma load_bytes_u8 m o n : bytes_ok m -> Forall is_u8 (load_bytes m o n).
Proof. intros Hb. apply Forall_map, Forall_forall. intros k _. by apply load8_byte. Qed.

(** Byte [i] of the swapped packet comes from the other address. *)
Definition swap_index (i : Z) : Z := if i <? 6 then i + 6 else if i <? 12 then i - 6 else i.

Lemma swap_macs_spec m :
  room m 12 -> bytes_ok m ->
  same_frame m (swap_macs m) /\ bytes_ok (swap_macs m) /\
  forall i, 0 <= i -> load8 (swap_macs m) i = load8 m (swap_index i).
Proof.
  intros Hr Hb. unfold swap_macs. set (d := load_bytes m ETH_DST 6). set (s := load_bytes m ETH_SRC 6).
  assert (zlen d = 6) as Ld by apply load_bytes_zlen. assert (zlen s = 6) as Ls by apply load_bytes_zlen.
  split; [eapply same_frame_trans; apply same_frame_store_bytes|].
  split; [apply bytes_ok_store_bytes; [apply bytes_ok_store_bytes; [done|by apply load_bytes_u8]
    |by apply load_bytes_u8]|].
  intros i Hi. rewrite (load8_store_bytes _ _ _ _ 12), (load8_store_bytes _ _ _ _ 12);
    try apply room_store_bytes; try done; rewrite ?Ld, ?Ls; unfold ETH_DST, ETH_SRC in *; try lia.
  unfold swap_index. destruct (Z.leb_spec 0 i), (Z.ltb_spec i (0 + 6)), (Z.leb_spec 6 i),
    (Z.ltb_spec i (6 + 6)), (Z.ltb_spec i 6), (Z.ltb_spec i 12); try lia; simpl; try done;
    unfold s, d; rewrite get_load_bytes by lia; f_equal; lia.
Qed.

Lemma swap_macs_id m : mb_id (swap_macs m) = mb_id m.
Proof.
  unfold swap_macs.
  destruct (same_frame_store_bytes (load_bytes m ETH_SRC 6)
    (store_bytes m ETH_SRC (load_bytes m ETH_DST 6)) ETH_DST) as (-> & _).
  by destruct (same_frame_store_bytes (load_bytes m ETH_DST 6) m ETH_SRC) as (-> & _).
Qed.

(** Swapping twice gives the packet back. *)
Lemma swap_macs_invol m i :
  room m 12 -> bytes_ok m -> 0 <= i -> load8 (swap_macs (swap_macs m)) i = load8 m i.
Proof.
  intros Hr Hb Hi. destruct (swap_macs_spec m Hr Hb) as ((_ & E1 & _ & _ & E2) & B & F).
  destruct (swap_macs_spec (swap_macs m)) as (_ & _ & F2); [unfold room; by rewrite E1, E2|done|].
  assert (0 <= swap_index i) as Hs
    by (unfold swap_index; destruct (Z.ltb_spec i 6), (Z.ltb_spec i 12); lia).
  rewrite F2, F by done. f_equal. unfold swap_index.
  destruct (Z.ltb_spec i 6), (Z.ltb_spec i 12); try lia;
  repeat match goal with |- context [?a <? ?b] => destruct (Z.ltb_spec a b) end; lia.
Qed.

(** ** The program *)

(** The packets given to the NIC, newest first. *)
Fixpoint sent_packets (t : trace) : list mbuf :=
  match t with
  | [] => []
  | EvTx _ _ bufs _ :: t' => rev bufs ++ sent_packets t'
  | _ :: t' => sent_packets t'
  end.

Definition swap_inv (t : trace) : Prop :=
  owned [] t /\ sent_packets t ≡ₚ map swap_macs (rx_packets t).

Lemma swap_forward_spec m held s t :
  owned (mb_id m :: held) t ->
  wp (forward m)
    (fun _ _ t' => owned held t' /\ sent_packets t' = swap_macs m :: sent_packets t /\
       rx_packets t' = rx_packets t)
    (fun _ _ _ => False) s t.
Proof.
  intros Ho. unfold forward. wp_step. apply wp_tx. intros k Hk.
  rewrite <- swap_macs_id in Ho.
  change (mb_id (swap_macs m) :: held) with (ids [swap_macs m] ++ held) in Ho.
  apply (owned_tx _ tx_port 0 _ k) in Ho.
  change (zlen [swap_macs m]) with 1 in Hk. wp_steps.
  - split; [|done]. apply owned_free. assert (k = 0) as -> by lia. exact Ho.
  - split; [|done]. assert (k = 1) as -> by lia. exact Ho.
Qed.

Lemma swap_loop_spec s t :
  swap_inv t -> wp (loop_body tt) (fun _ _ t' => swap_inv t') (fun _ _ _ => False) s t.
Proof.
  intros [Ho Hs]. unfold loop_body. wp_step. apply wp_rx. intros bufs _ _.
  apply (owned_rx _ rx_port 0 BURST_SIZE bufs) in Ho. set (t1 := EvRx _ _ _ bufs :: t) in *. wp_step.
  { assert (bufs = []) as -> by (destruct bufs; [done|by rewrite Z.eqb_eq in H]). done. }
  wp_step. eapply wp_mono; [apply (wp_for_each (fun pre _ _ t' => rx_packets t' = rx_packets t1 /\
      sent_packets t' ≡ₚ map swap_macs pre ++ sent_packets t /\
      forall post, bufs = pre ++ post -> owned (ids post) t') _ (fun _ _ _ => False))| |done].
  - intros pre m post rs s2 t2 Hb (E2 & P2 & O2).
    eapply wp_mono; [apply (swap_forward_spec m (ids post)); by apply (O2 (m :: post))| |done].
    intros u s3 t3 (O3 & E3 & R3). split; [congruence|]. split.
    + rewrite E3, map_app, <- app_assoc. simpl. rewrite P2. apply Permutation_middle.
    + intros post' Hp. rewrite Hb, <- app_assoc in Hp. apply app_inv_head in Hp.
      injection Hp as Hp. by rewrite <- Hp.
  - split; [done|]. split; [done|]. intros post ->. by rewrite app_nil_r in Ho.
  - intros rs s2 t2 (E2 & P2 & O2). wp_steps. split; [by apply (O2 []), eq_sym, app_nil_r|].
    rewrite P2, E2, Hs. unfold t1. simpl. by rewrite map_app.
Qed.

(** The forwarder never faults in any number of iterations and exits only with
    EXIT_FAILURE before traffic. Every received buffer was handed back exactly
    once, freed if the NIC refused it; and what was given to the NIC is, packet
    for packet, what was received with the two MAC addresses swapped. *)
Theorem swap_main_correct n :
  wp (main n) (fun _ _ t => swap_inv t)
    (fun c _ t => c = EXIT_FAILURE /\ rx_ids t = []) tt [].
Proof.
  unfold main, setup_port. wp_steps; try done.
  apply (wp_forever (fun _ _ t => swap_inv t)); [|by split; [apply owned_nil|]].
  intros [] s t Hi. eapply wp_mono; [by apply swap_loop_spec|done|done].
Qed.

(** The swap itself: for a packet with room for two addresses, destination and source trade
    places, every other byte and the lengths stay, and a second swap restores
    the packet. *)
Theorem swap_macs_correct m :
  room m 12 -> bytes_ok m ->
  same_frame m (swap_macs m) /\
  load_bytes (swap_macs m) ETH_DST 6 = load_bytes m ETH_SRC 6 /\
  load_bytes (swap_macs m) ETH_SRC 6 = load_bytes m ETH_DST 6 /\
  (forall i, 12 <= i -> load8 (swap_macs m) i = load8 m i) /\
  (forall i, 0 <= i -> load8 (swap_macs (swap_macs m)) i = load8 m i).
Proof.
  intros Hr Hb. destruct (swap_macs_spec m Hr Hb) as (S & _ & F). split; [done|].
  split; [unfold load_bytes; simpl; by rewrite !F by done|].
  split; [unfold load_bytes; simpl; by rewrite !F by done|]. split.
  - intros i Hi. rewrite F by lia. unfold swap_index.
    by destruct (Z.ltb_spec i 6), (Z.ltb_spec i 12); [lia|lia|lia|].
  - intros i Hi. by apply swap_macs_invol.
Qed.
End SwapAddr.

Lemma swap_macs_correct_witness :
  let m := Mbuf 1 [1; 2; 3; 4; 5; 6; 11; 12; 13; 14; 15; 16; 8; 0] 0 14 14 in
  mb_buf (swap_macs m) = [11; 12; 13; 14; 15; 16; 1; 2; 3; 4; 5; 6; 8; 0] /\
  same_frame m (swap_macs m) /\
  load_bytes (swap_macs m) ETH_DST 6 = load_bytes m ETH_SRC 6 /\
  load_bytes (swap_macs m) ETH_SRC 6 = load_bytes m ETH_DST 6 /\
  (forall i, 12 <= i -> load8 (swap_macs m) i = load8 m i) /\
  (forall i, 0 <= i -> load8 (swap_macs (swap_macs m)) i = load8 m i).
Proof. split; [by vm_compute|]. apply swap_macs_correct; [done|]. by apply Forall_u8_dec. Defined.
