(* ===== verification/CtrlData.v ===== *)
(** * control_data_segregation/main.c: control and data packets into separate rings

    The state is the two rings; the counters and the time stamp are locals of
    [main]. *)

From S2P Require Import Prelude Rte Env Packet Ownership Sim.

Definition BURST_SIZE := 32.
Definition RING_SIZE := 2048.
Definition MBUF_POOL_SIZE := 8192.
Definition MBUF_CACHE_SIZE := 256.
Definition RTE_MBUF_DEFAULT_BUF_SIZE := 2176.
Definition EXIT_FAILURE := 1.
Definition RING_F_SP_ENQ := 1.
Definition RING_F_SC_DEQ := 2.

(** The locals of [main]. *)
Record counters := Counters { control_count : Z; data_count : Z; last_ts : Z }.

Section CtrlData.
Context {BO : Byteorder} {RR : RteRing mbuf} {E : Env}.

Record rings := Rings { control_ring : rte_ring; data_ring : rte_ring }.
Notation M := (M rings).

(** The switch statements. *)
Definition is_control_tcp_port (dport_be : Z) : Z :=
  let port := rte_be_to_cpu_16 dport_be in
  if (port =? 22) || (port =? 53) || (port =? 179) || (port =? 389) then 1 else 0.
Definition is_control_udp_port (dport_be : Z) : Z :=
  let port := rte_be_to_cpu_16 dport_be in
  if (port =? 53) || (port =? 67) || (port =? 68) || (port =? 123) || (port =? 161) then 1 else 0.

(** The part of [classify_packet] behind the Ethernet type. *)
Definition classify_ip (m : mbuf) (eth_type offset : Z) : Z :=
  if negb (eth_type =? RTE_ETHER_TYPE_IPV4) then 0
  else if data_len m <? offset + sizeof_ipv4_hdr then 0
  else
    let proto := load8 m (offset + 9) in
    let ihl := u16 (Z.land (load8 m offset) 15 * 4) in
    let offset := u16 (offset + ihl) in
    if proto =? IPPROTO_ICMP then 1
    else if proto =? 89 then 1
    else if proto =? IPPROTO_UDP then
      if data_len m <? offset + sizeof_udp_hdr then 0
      else is_control_udp_port (load16 m (offset + 2))
    else if proto =? IPPROTO_TCP then
      if data_len m <? offset + sizeof_tcp_hdr then 0
      else is_control_tcp_port (load16 m (offset + 2))
    else 0.

Definition classify_packet (m : mbuf) : Z :=
  if data_len m <? sizeof_ether_hdr then 0
  else
    let eth_type := rte_be_to_cpu_16 (load16 m ETH_TYPE) in
    let offset := sizeof_ether_hdr in
    if eth_type =? RTE_ETHER_TYPE_VLAN then
      if data_len m <? offset + sizeof_vlan_hdr then 0
      else
        let eth_type := rte_be_to_cpu_16 (load16 m (offset + 2)) in
        classify_ip m eth_type (u16 (offset + sizeof_vlan_hdr))
    else classify_ip m eth_type offset.

Definition init_port (port_id mbuf_pool : Z) : M unit :=
  r <-- call (rte_eth_dev_configure port_id 1 1) ;;
  when (r <? 0) (rte_exit EXIT_FAILURE) ;;
  r <-- call (rte_eth_rx_queue_setup port_id 0 1024 mbuf_pool) ;;
  when (r <? 0) (rte_exit EXIT_FAILURE) ;;
  r <-- call (rte_eth_tx_queue_setup port_id 0 1024) ;;
  when (r <? 0) (rte_exit EXIT_FAILURE) ;;
  r <-- call (rte_eth_dev_start port_id) ;;
  when (r <? 0) (rte_exit EXIT_FAILURE) ;;
  printf "Port %u initialized.\n" [PInt port_id].

(** Enqueue on a ring or free; whether it was enqueued. *)
Definition enqueue_control (m : mbuf) : M bool :=
  r <-- gets (fun s => rte_ring_enqueue (control_ring s) m) ;;
  modify (fun s => Rings r.2 (data_ring s)) ;;
  if r.1 =? 0 then ret true else rte_pktmbuf_free m ;; ret false.
Definition enqueue_data (m : mbuf) : M bool :=
  r <-- gets (fun s => rte_ring_enqueue (data_ring s) m) ;;
  modify (fun s => Rings (control_ring s) r.2) ;;
  if r.1 =? 0 then ret true else rte_pktmbuf_free m ;; ret false.

(** One packet of the burst, with the counters. *)
Definition segregate (m : mbuf) (c : counters) : M counters :=
  if negb (classify_packet m =? 0) then
    ok <-- enqueue_control m ;;
    ret (if ok : bool then Counters (u64 (control_count c + 1)) (data_count c) (last_ts c) else c)
  else
    ok <-- enqueue_data m ;;
    ret (if ok : bool then Counters (control_count c) (u64 (data_count c + 1)) (last_ts c) else c).

Definition drain_control (port_id : Z) : M unit :=
  r <-- gets (fun s => rte_ring_dequeue_burst (control_ring s) BURST_SIZE) ;;
  modify (fun s => Rings r.2 (data_ring s)) ;;
  when (0 <? zlen r.1) (_ <-- rte_eth_tx_burst port_id 0 r.1 ;; ret tt).
Definition drain_data (port_id : Z) : M unit :=
  r <-- gets (fun s => rte_ring_dequeue_burst (data_ring s) BURST_SIZE) ;;
  modify (fun s => Rings (control_ring s) r.2) ;;
  when (0 <? zlen r.1) (_ <-- rte_eth_tx_burst port_id 0 r.1 ;; ret tt).

(** The comparison with [2e9] is one of doubles; it agrees with the one of
    integers, since 2e9 is represented exactly and the conversion is monotone. *)
Definition stats (c : counters) : M counters :=
  now <-- rte_get_timer_cycles ;;
  let last := if last_ts c =? 0 then now else last_ts c in
  if 2000000000 <? u64 (now - last) then
    printf "Control packets: %lu, Data packets: %lu\n" [PInt (control_count c); PInt (data_count c)] ;;
    ret (Counters (control_count c) (data_count c) now)
  else ret (Counters (control_count c) (data_count c) last).

Definition loop_body (port_id : Z) (c : counters) : M counters :=
  bufs <-- rte_eth_rx_burst port_id 0 BURST_SIZE ;;
  c <-- for_ (length bufs) 0 (fun i c => m <-- deref (bufs !! Z.to_nat i) ;; segregate m c) c ;;
  drain_control port_id ;;
  drain_data port_id ;;
  stats c.

(** The first [n] iterations. *)
Definition main (n : nat) : M counters :=
  let port_id := 0 in
  r <-- call rte_eal_init ;;
  when (r <? 0) (rte_exit EXIT_FAILURE) ;;
  r <-- call rte_eth_dev_count_avail ;;
  when (u16 r =? 0) (rte_exit EXIT_FAILURE) ;;
  mbuf_pool <-- call (rte_pktmbuf_pool_create "MBUF_POOL" MBUF_POOL_SIZE MBUF_CACHE_SIZE 0
                        RTE_MBUF_DEFAULT_BUF_SIZE) ;;
  when (mbuf_pool =? 0) (rte_exit EXIT_FAILURE) ;;
  r1 <-- call (rte_ring_create "control_ring" RING_SIZE (Z.lor RING_F_SP_ENQ RING_F_SC_DEQ)) ;;
  r2 <-- call (rte_ring_create "data_ring" RING_SIZE (Z.lor RING_F_SP_ENQ RING_F_SC_DEQ)) ;;
  when ((r1 =? 0) || (r2 =? 0)) (rte_exit EXIT_FAILURE) ;;
  modify (fun _ => Rings (rte_ring_empty RING_SIZE) (rte_ring_empty RING_SIZE)) ;;
  init_port port_id mbuf_pool ;;
  printf "Control/Data segregation running. Segregating into rings.\n" [] ;;
  printf "Control: ICMP, OSPF, DNS/DHCP/NTP/SNMP (UDP), SSH/BGP/LDAP (TCP).\n" [] ;;
  printf "Data: all other traffic.\n\n" [] ;;
  forever n (loop_body port_id) (Counters 0 0 0).

(** ** Classification *)

(** Two packets that agree on the bytes the length field announces. *)
Definition same_data (m m' : mbuf) : Prop :=
  data_len m' = data_len m /\ forall i, 0 <= i < data_len m -> load8 m' i = load8 m i.

Lemma same_data16 m m' o : same_data m m' -> 0 <= o -> o + 2 <= data_len m -> load16 m' o = load16 m o.
Proof. intros [_ H] Ho Hl. unfold load16. by rewrite !H by lia. Qed.

Lemma classify_ip_bounded m m' ty o :
  same_data m m' -> 0 <= o < 100 -> classify_ip m' ty o = classify_ip m ty o.
Proof.
  intros H Ho. pose proof (proj1 H) as El. pose proof (proj2 H) as Eb.
  unfold classify_ip. rewrite El. destruct (negb _); [done|].
  unfold sizeof_ipv4_hdr, sizeof_udp_hdr, sizeof_tcp_hdr.
  destruct (Z.ltb_spec (data_len m) (o + 20)); [done|]. rewrite !Eb by lia.
  assert (0 <= Z.land (load8 m o) 15 < 16) as Hi.
  { change 15 with (Z.ones 4). rewrite Z.land_ones by lia. apply Z.mod_pos_bound. lia. }
  set (h := Z.land (load8 m o) 15) in *. clearbody h.
  rewrite (u16_small (h * 4)) by words. rewrite u16_small by words.
  destruct (load8 m (o + 9) =? IPPROTO_ICMP); [done|]. destruct (load8 m (o + 9) =? 89); [done|].
  destruct (load8 m (o + 9) =? IPPROTO_UDP).
  - destruct (Z.ltb_spec (data_len m) (o + h * 4 + 8)); [done|].
    by rewrite (same_data16 m m') by (done || lia).
  - destruct (load8 m (o + 9) =? IPPROTO_TCP); [|done].
    destruct (Z.ltb_spec (data_len m) (o + h * 4 + 20)); [done|].
    by rewrite (same_data16 m m') by (done || lia).
Qed.

(** Classification never looks beyond the packet: whatever bytes follow the [data_len] of
    the packet in its buffer, the answer is the same, however short or malformed
    the packet is. *)
Theorem classify_packet_bounded m m' : same_data m m' -> classify_packet m' = classify_packet m.
Proof.
  intros H. pose proof (proj1 H) as El. unfold classify_packet. rewrite El.
  unfold sizeof_ether_hdr, sizeof_vlan_hdr.
  destruct (Z.ltb_spec (data_len m) 14); [done|].
  rewrite (same_data16 m m' ETH_TYPE H) by (unfold ETH_TYPE; lia).
  destruct (_ =? RTE_ETHER_TYPE_VLAN).
  - destruct (Z.ltb_spec (data_len m) (14 + 4)); [done|].
    rewrite (same_data16 m m' (14 + 2) H) by lia. by apply classify_ip_bounded.
  - by apply classify_ip_bounded.
Qed.

(** *** The classes, by the bytes on the wire *)

(** Where the IPv4 header of a frame begins: behind the Ethernet header, or behind one
    VLAN tag. *)
Definition ipv4_at (m : mbuf) : option Z :=
  if data_len m <? 14 then None
  else if bool_decide (load_bytes m 12 2 = [8; 0]) then Some 14
  else if bool_decide (load_bytes m 12 2 = [129; 0]) && (18 <=? data_len m) &&
          bool_decide (load_bytes m 16 2 = [8; 0]) then Some 18
  else None.

(** The whole transport header, of [n] bytes behind the IPv4 header at [o], is there, and its
    destination port is one of [ports]. *)
Definition dst_port_in (m : mbuf) (o n : Z) (ports : list Z) : bool :=
  let l4 := o + 4 * (load8 m o mod 16) in
  (l4 + n <=? data_len m) &&
  existsb (fun p => bool_decide (load_bytes m (l4 + 2) 2 = [p / 256; p mod 256])) ports.

(** What README.md calls control packets: ICMP, OSPF, DNS, DHCP, NTP and SNMP over UDP, SSH,
    BGP and LDAP over TCP. *)
Definition readme_control (m : mbuf) : bool :=
  match ipv4_at m with
  | None => false
  | Some o =>
      (o + 20 <=? data_len m) &&
      ((load8 m (o + 9) =? 1) || (load8 m (o + 9) =? 89) ||
       (load8 m (o + 9) =? 17) && dst_port_in m o 8 [53; 67; 68; 123; 161] ||
       (load8 m (o + 9) =? 6) && dst_port_in m o 20 [22; 179; 389])
  end.
(** DNS over TCP, which README.md counts as data. *)
Definition dns_over_tcp (m : mbuf) : bool :=
  match ipv4_at m with
  | None => false
  | Some o => (o + 20 <=? data_len m) && (load8 m (o + 9) =? 6) && dst_port_in m o 20 [53]
  end.
Definition is_control (m : mbuf) : bool := readme_control m || dns_over_tcp m.

Lemma port_is m o p :
  bytes_ok m -> 0 <= p < 65536 ->
  (rte_be_to_cpu_16 (load16 m o) =? p) = bool_decide (load_bytes m o 2 = [p / 256; p mod 256]).
Proof.
  intros Hb Hp. rewrite <- be_load16_is; [|done|words|words].
  f_equal. rewrite (Z.div_mod p 256) at 1 by lia. done.
Qed.

Lemma classify_ip_wire m o :
  bytes_ok m -> 0 <= o < 100 ->
  negb (classify_ip m RTE_ETHER_TYPE_IPV4 o =? 0) =
    (o + 20 <=? data_len m) &&
    ((load8 m (o + 9) =? 1) || (load8 m (o + 9) =? 89) ||
     (load8 m (o + 9) =? 17) && dst_port_in m o 8 [53; 67; 68; 123; 161] ||
     (load8 m (o + 9) =? 6) && dst_port_in m o 20 [22; 53; 179; 389]).
Proof.
  intros Hb Ho. unfold classify_ip, sizeof_ipv4_hdr, sizeof_udp_hdr, sizeof_tcp_hdr.
  rewrite Z.eqb_refl. simpl negb. cbv iota.
  rewrite (Z.leb_antisym (data_len m)). destruct (data_len m <? o + 20); [done|]. cbn [negb andb].
  assert (Z.land (load8 m o) 15 = load8 m o mod 16) as Eh.
  { change 15 with (Z.ones 4). rewrite Z.land_ones by lia. done. }
  pose proof (Z.mod_pos_bound (load8 m o) 16). rewrite Eh.
  rewrite (u16_small (_ * 4)), u16_small, (Z.mul_comm _ 4) by words.
  unfold IPPROTO_ICMP, IPPROTO_UDP, IPPROTO_TCP, dst_port_in, is_control_udp_port, is_control_tcp_port.
  set (l4 := o + 4 * _). rewrite !(Z.leb_antisym (data_len m)), !port_is by (done || lia).
  destruct (Z.eqb_spec (load8 m (o + 9)) 1); [done|]. destruct (Z.eqb_spec (load8 m (o + 9)) 89); [done|].
  destruct (Z.eqb_spec (load8 m (o + 9)) 17) as [->|]; simpl.
  - destruct (data_len m <? l4 + 8); [done|]. simpl. rewrite !orb_false_r.
    by repeat case_bool_decide.
  - destruct (load8 m (o + 9) =? 6); [|done]. simpl.
    destruct (data_len m <? l4 + 20); [done|]. simpl. by repeat case_bool_decide.
Qed.

Lemma dst_port_split m o :
  dst_port_in m o 20 [22; 53; 179; 389] = dst_port_in m o 20 [22; 179; 389] || dst_port_in m o 20 [53].
Proof.
  unfold dst_port_in. cbn [existsb]. destruct (_ <=? data_len m); [|done].
  by repeat case_bool_decide.
Qed.

Lemma classify_wire m : bytes_ok m -> negb (classify_packet m =? 0) = is_control m.
Proof.
  intros Hb.
  assert (forall o, (o + 20 <=? data_len m) &&
      ((load8 m (o + 9) =? 1) || (load8 m (o + 9) =? 89) ||
       (load8 m (o + 9) =? 17) && dst_port_in m o 8 [53; 67; 68; 123; 161] ||
       (load8 m (o + 9) =? 6) && dst_port_in m o 20 [22; 53; 179; 389]) =
    (o + 20 <=? data_len m) &&
      ((load8 m (o + 9) =? 1) || (load8 m (o + 9) =? 89) ||
       (load8 m (o + 9) =? 17) && dst_port_in m o 8 [53; 67; 68; 123; 161] ||
       (load8 m (o + 9) =? 6) && dst_port_in m o 20 [22; 179; 389]) ||
    (o + 20 <=? data_len m) && (load8 m (o + 9) =? 6) && dst_port_in m o 20 [53]) as G.
  { intros o. rewrite (dst_port_split m o). generalize (dst_port_in m o 20 [22; 179; 389]), (dst_port_in m o 20 [53]),
      (dst_port_in m o 8 [53; 67; 68; 123; 161]). intros [] [] [];
      destruct (o + 20 <=? data_len m), (load8 m (o + 9) =? 1), (load8 m (o + 9) =? 89),
        (load8 m (o + 9) =? 17), (load8 m (o + 9) =? 6); done. }
  assert (forall ty o, ty <> RTE_ETHER_TYPE_IPV4 -> classify_ip m ty o = 0) as Gn.
  { intros ty o Hne. unfold classify_ip. by destruct (Z.eqb_spec ty RTE_ETHER_TYPE_IPV4). }
  unfold classify_packet, is_control, readme_control, dns_over_tcp, ipv4_at, sizeof_ether_hdr, sizeof_vlan_hdr, ETH_TYPE.
  destruct (data_len m <? 14); [done|].
  pose proof (port_is m 12 RTE_ETHER_TYPE_IPV4 Hb ltac:(done)) as E4.
  pose proof (port_is m 12 RTE_ETHER_TYPE_VLAN Hb ltac:(done)) as Ev.
  pose proof (port_is m 16 RTE_ETHER_TYPE_IPV4 Hb ltac:(done)) as E16.
  change (RTE_ETHER_TYPE_IPV4 / 256) with 8 in *. change (RTE_ETHER_TYPE_IPV4 mod 256) with 0 in *.
  change (RTE_ETHER_TYPE_VLAN / 256) with 129 in *. change (RTE_ETHER_TYPE_VLAN mod 256) with 0 in *.
  rewrite <- E4, <- Ev, <- E16, (Z.leb_antisym (data_len m) 18). cbv zeta.
  change (14 + 2) with 16. change (14 + 4) with 18. change (u16 18) with 18.
  destruct (Z.eqb_spec (rte_be_to_cpu_16 (load16 m 12)) RTE_ETHER_TYPE_VLAN) as [E1|E1].
  - rewrite E1. change (RTE_ETHER_TYPE_VLAN =? RTE_ETHER_TYPE_IPV4) with false. cbn [andb].
    destruct (data_len m <? 18); [done|]. cbn [negb andb].
    destruct (Z.eqb_spec (rte_be_to_cpu_16 (load16 m 16)) RTE_ETHER_TYPE_IPV4) as [->|E2]; [|by rewrite Gn].
    rewrite classify_ip_wire by (done || lia). apply G.
  - destruct (Z.eqb_spec (rte_be_to_cpu_16 (load16 m 12)) RTE_ETHER_TYPE_IPV4) as [->|E2]; [|by rewrite Gn].
    rewrite classify_ip_wire by (done || lia). apply G.
Qed.

(** ** Segregation *)

Definition controls (ms : list mbuf) : list mbuf := List.filter is_control ms.
Definition datas (ms : list mbuf) : list mbuf := List.filter (fun m => negb (is_control m)) ms.

(** Rings with the given contents and the usable size of the program's rings. *)
Definition holding (s : rings) (ctl dat : list mbuf) : Prop :=
  ring_items (control_ring s) = ctl /\ ring_items (data_ring s) = dat /\
  ring_cap (control_ring s) = RING_SIZE - 1 /\ ring_cap (data_ring s) = RING_SIZE - 1.

(** The counters after [ms] more packets. *)
Definition counted (c : counters) (ms : list mbuf) : counters :=
  Counters (u64 (control_count c + zlen (controls ms))) (u64 (data_count c + zlen (datas ms))) (last_ts c).

Lemma filter_zlen (f : mbuf -> bool) ms : zlen (List.filter f ms) <= zlen ms.
Proof. unfold zlen. induction ms as [|m ms IH]; simpl; [lia|]. destruct (f m); simpl; lia. Qed.

Lemma u64_add a b : u64 (u64 a + b) = u64 (a + b).
Proof. unfold u64. apply Zplus_mod_idemp_l. Qed.

Lemma segregate_spec m c s pre t :
  bytes_ok m -> zlen pre < BURST_SIZE -> holding s (controls pre) (datas pre) ->
  wp (segregate m (counted c pre))
    (fun c' s' t' => c' = counted c (pre ++ [m]) /\ t' = t /\
       holding s' (controls (pre ++ [m])) (datas (pre ++ [m])))
    (fun _ _ _ => False) s t.
Proof.
  intros Hb Hl (Hc & Hd & Kc & Kd). unfold segregate, controls, datas, counted, zlen.
  rewrite (classify_wire m Hb).
  pose proof (filter_zlen is_control pre). pose proof (filter_zlen (fun m => negb (is_control m)) pre).
  unfold controls, datas. rewrite !List.filter_app. simpl.
  destruct (is_control m) eqn:Hm; simpl.
  - unfold enqueue_control. pose proof (ring_enqueue_law (control_ring s) m) as L. unfold controls in Hc.
    destruct (Z.ltb_spec (zlen (ring_items (control_ring s))) (ring_cap (control_ring s))) as [_|B].
    2:{ rewrite Hc, Kc in B. unfold BURST_SIZE, RING_SIZE in *. lia. }
    destruct L as [L1 L2]. wp_steps.
    { split; [|split; [done|]].
      - rewrite app_nil_r. f_equal. simpl. rewrite u64_add. f_equal. rewrite length_app. simpl. lia.
      - unfold holding; simpl. rewrite app_nil_r, ring_enqueue_cap. split_and!; try done. by rewrite L2, Hc. }
    all: rewrite L1 in *; done.
  - unfold enqueue_data. pose proof (ring_enqueue_law (data_ring s) m) as L. unfold datas in Hd.
    destruct (Z.ltb_spec (zlen (ring_items (data_ring s))) (ring_cap (data_ring s))) as [_|B].
    2:{ rewrite Hd, Kd in B. unfold BURST_SIZE, RING_SIZE in *. lia. }
    destruct L as [L1 L2]. wp_steps.
    { split; [|split; [done|]].
      - rewrite app_nil_r. f_equal. simpl. rewrite u64_add. f_equal. rewrite length_app. simpl. lia.
      - unfold holding; simpl. rewrite app_nil_r, ring_enqueue_cap. split_and!; try done. by rewrite L2, Hd. }
    all: rewrite L1 in *; done.
Qed.

(** The trace after giving a burst, if there is one, to the NIC. *)
Definition send (port : Z) (pkts : list mbuf) (t : trace) : trace :=
  match pkts with [] => t | _ => EvTx port 0 pkts (env_tx t port 0 pkts) :: t end.

Lemma drain_control_spec p s t ctl dat :
  holding s ctl dat -> zlen ctl <= BURST_SIZE ->
  wp (drain_control p) (fun _ s' t' => holding s' [] dat /\ t' = send p ctl t) (fun _ _ _ => False) s t.
Proof.
  intros (Hc & Hd & Kc & Kd) Hl. unfold drain_control. wp_step. apply wp_gets. wp_step.
  destruct (ring_dequeue_law (control_ring s) BURST_SIZE) as (L1 & L2 & L3); [done|].
  rewrite Hc in L1, L2. rewrite take_ge in L1 by (unfold zlen in Hl; lia).
  rewrite drop_ge in L2 by (unfold zlen in Hl; lia).
  apply wp_modify. rewrite L1.
  assert (holding (Rings (rte_ring_dequeue_burst (control_ring s) BURST_SIZE).2 (data_ring s)) [] dat)
    by (unfold holding; simpl; by rewrite L2, L3).
  destruct ctl as [|m ctl]; [done|]. by split.
Qed.
Lemma drain_data_spec p s t ctl dat :
  holding s ctl dat -> zlen dat <= BURST_SIZE ->
  wp (drain_data p) (fun _ s' t' => holding s' ctl [] /\ t' = send p dat t) (fun _ _ _ => False) s t.
Proof.
  intros (Hc & Hd & Kc & Kd) Hl. unfold drain_data. wp_step. apply wp_gets. wp_step.
  destruct (ring_dequeue_law (data_ring s) BURST_SIZE) as (L1 & L2 & L3); [done|].
  rewrite Hd in L1, L2. rewrite take_ge in L1 by (unfold zlen in Hl; lia).
  rewrite drop_ge in L2 by (unfold zlen in Hl; lia).
  apply wp_modify. rewrite L1.
  assert (holding (Rings (control_ring s) (rte_ring_dequeue_burst (data_ring s) BURST_SIZE).2) ctl [])
    by (unfold holding; simpl; by rewrite L2, L3).
  destruct dat as [|m dat]; [done|]. by split.
Qed.

Lemma stats_spec c s t :
  wp (stats c) (fun c' s' t' => s' = s /\ same_acct t t' /\
     control_count c' = control_count c /\ data_count c' = data_count c) (fun _ _ _ => False) s t.
Proof. unfold stats. by wp_steps. Qed.

(** What an iteration receives, sends and counts. *)
Definition segregated (p : Z) (c : counters) (t : trace) (c' : counters) (s' : rings) (t' : trace) : Prop :=
  let bufs := env_rx t p 0 BURST_SIZE in
  holding s' [] [] /\
  same_acct (send p (datas bufs) (send p (controls bufs) (EvRx p 0 BURST_SIZE bufs :: t))) t' /\
  control_count c' = u64 (control_count c + zlen (controls bufs)) /\
  data_count c' = u64 (data_count c + zlen (datas bufs)).

Lemma segregate_loop_spec p c s t :
  is_u64 (control_count c) -> is_u64 (data_count c) -> holding s [] [] ->
  wp (loop_body p c) (fun c' s' t' => segregated p c t c' s' t') (fun _ _ _ => False) s t.
Proof.
  intros U1 U2 H. unfold loop_body, segregated. wp_step. unfold wp at 1, rte_eth_rx_burst.
  pose proof (env_rx_len t p 0 BURST_SIZE ltac:(done)) as Hl.
  pose proof (env_rx_bytes t p 0 BURST_SIZE) as Hb.
  set (bufs := env_rx t p 0 BURST_SIZE) in *. set (t1 := EvRx _ _ _ bufs :: t). clearbody bufs. wp_step.
  eapply wp_mono; [apply (wp_for (fun i c' s' t' => c' = counted c (take (Z.to_nat i) bufs) /\ t' = t1 /\
      holding s' (controls (take (Z.to_nat i) bufs)) (datas (take (Z.to_nat i) bufs)))
      _ (fun _ _ _ => False))| |done].
  - intros i c' s' t' Hi (-> & -> & Hh). destruct (lookup_lt_is_Some_2 bufs (Z.to_nat i)) as [m Hm]; [lia|].
    wp_step. eapply wp_deref; [done|]. replace (Z.to_nat (i + 1)) with (S (Z.to_nat i)) by lia.
    rewrite (take_S_r _ _ _ Hm). apply segregate_spec; [by eapply Forall_lookup_1|  |done].
    unfold zlen in *. rewrite length_take. lia.
  - simpl. unfold counted, controls, datas, zlen. simpl. rewrite !Z.add_0_r, !u64_small by done.
    by destruct c.
  - intros c' s1 t2 (-> & -> & Hh). rewrite Z.add_0_l, Nat2Z.id, firstn_all in *.
    pose proof (filter_zlen is_control bufs). pose proof (filter_zlen (fun m => negb (is_control m)) bufs).
    wp_step. eapply wp_mono; [apply drain_control_spec; [done|unfold controls; lia]| |done].
    intros _ s3 t3 [Hh3 ->]. wp_step.
    eapply wp_mono; [apply drain_data_spec; [done|unfold datas; lia]| |done].
    intros _ s4 t4 [Hh4 ->]. eapply wp_mono; [apply stats_spec| |done].
    by intros c5 s5 t5 (-> & A & -> & ->).
Qed.

Lemma filter_split (f : mbuf -> bool) ms :
  ms ≡ₚ List.filter f ms ++ List.filter (fun m => negb (f m)) ms.
Proof.
  induction ms as [|m ms IH]; simpl; [done|]. destruct (f m); simpl; [by constructor|].
  by rewrite <- Permutation_middle, <- IH.
Qed.

(** What the NIC refuses of a burst. *)
Definition refused (p : Z) (pkts : list mbuf) (t : trace) : list mbuf :=
  drop (Z.to_nat (env_tx t p 0 pkts)) pkts.

Lemma send_refused p pkts held t :
  owned (ids pkts ++ held) t -> owned (ids (refused p pkts t) ++ held) (send p pkts t).
Proof.
  unfold refused. intros H. destruct pkts as [|m pkts]; [by rewrite drop_nil|]. by apply owned_tx.
Qed.

(** C18: One iteration, with empty rings. The control packets of the burst are those of
    README.md, by the bytes on the wire, and, which README.md counts as data, DNS
    over TCP. Every received packet goes through the ring of its class: none is
    freed, since no ring gets full; the NIC gets first the control packets of
    the burst, then the data packets, each class in order of arrival and in
    one burst; the counters grow by the numbers of the classes, and the rings
    are empty again. What the NIC refuses of the two bursts, and nothing else, stays
    in the program's hands, which has no pointer to it any more: it is lost. *)
Theorem segregate_iteration p c s t :
  is_u64 (control_count c) -> is_u64 (data_count c) -> holding s [] [] ->
  wp (loop_body p c) (fun c' s' t' => segregated p c t c' s' t' /\
      let bufs := env_rx t p 0 BURST_SIZE in
      let t1 := EvRx p 0 BURST_SIZE bufs :: t in
      let t2 := send p (controls bufs) t1 in
      forall held, owned held t ->
        owned (ids (refused p (controls bufs) t1) ++ ids (refused p (datas bufs) t2) ++ held) t')
    (fun _ _ _ => False) s t.
Proof.
  intros U1 U2 H. eapply wp_mono; [by apply segregate_loop_spec| |done].
  intros c' s' t' Hs. split; [done|]. intros bufs t1 t2 held Ho.
  destruct Hs as (_ & A & _). fold bufs t1 t2 in A. eapply owned_acct; [exact A|].
  rewrite app_assoc, (Permutation_app_comm (ids (refused p (controls bufs) t1))), <- app_assoc.
  apply send_refused. rewrite app_assoc, (Permutation_app_comm (ids (datas bufs))), <- app_assoc.
  apply send_refused. rewrite app_assoc, <- map_app. unfold controls, datas.
  rewrite <- (filter_split is_control). by apply owned_rx.
Qed.

(** ** The program *)

Lemma send_owned p pkts held t :
  owned (ids pkts ++ held ++ refused_ids t) t ->
  owned (held ++ refused_ids (send p pkts t)) (send p pkts t).
Proof. intros H. destruct pkts as [|m pkts]; [done|]. by apply owned_tx_ignored. Qed.

(** The program never faults and exits only before traffic; between iterations both rings are
    empty, and what it still owns of the received buffers is what the NIC
    refused, which is lost. *)
Lemma segregation_main_leaks_refused n :
  wp (main n) (fun _ s t => holding s [] [] /\ owned (refused_ids t) t)
    (fun c _ t => c = EXIT_FAILURE /\ rx_ids t = [])
    (Rings (rte_ring_empty 0) (rte_ring_empty 0)) [].
Proof.
  unfold main, init_port. wp_steps; try done.
  eapply wp_mono; [apply (wp_forever (fun c s t => is_u64 (control_count c) /\ is_u64 (data_count c) /\
    holding s [] [] /\ owned (refused_ids t) t) _ (fun _ _ _ => False))| |done].
  - intros c s t (U1 & U2 & Hr0 & Ho). eapply wp_mono; [by apply segregate_loop_spec| |done].
    intros c' s' t' (Hh & A & -> & ->). split; [apply u64_range|]. split; [apply u64_range|].
    split; [done|].
    set (bufs := env_rx t 0 0 BURST_SIZE) in *.
    apply (owned_rx _ 0 0 BURST_SIZE bufs) in Ho. set (t1 := EvRx 0 0 BURST_SIZE bufs :: t) in *.
    change (refused_ids t) with (refused_ids t1) in Ho.
    rewrite (filter_split is_control bufs), map_app, <- app_assoc in Ho.
    apply (send_owned 0), (send_owned 0 _ []) in Ho.
    destruct A as (A1 & A2 & A3 & A4) eqn:HA. rewrite A4. eapply owned_acct; [|exact Ho]. done.
  - split; [done|]. split; [done|]. split; [|apply owned_nil].
    destruct (ring_empty_law RING_SIZE) as [E1 E2]. by split_and!.
  - intros c s t (_ & _ & Hr0 & Ho). done.
Qed.
End CtrlData.

#[local] Existing Instances sim_byteorder.
#[local] Instance w_ring : RteRing mbuf := sim_ring mbuf.

Definition w_ssh : mbuf := mk_packet 1 [10; 0; 0; 7] [10; 0; 0; 1] IPPROTO_TCP [4; 210] [0; 22].
Definition w_web : mbuf := mk_packet 2 [10; 0; 0; 7] [10; 0; 0; 1] IPPROTO_TCP [4; 210] [0; 80].
Definition w_ping : mbuf := mk_packet 3 [10; 0; 0; 7] [10; 0; 0; 1] IPPROTO_ICMP [8; 0] [0; 0].
Definition w_dns : mbuf := mk_packet 4 [10; 0; 0; 7] [10; 0; 0; 1] IPPROTO_TCP [4; 210] [0; 53].
(** The NIC accepts two packets of a burst. *)
#[local] Instance wenv : Env := sim_env
  (Script (fun _ => 1) [[w_web; w_ssh; w_ping; w_dns]] 2 (fun t => Z.of_nat (length t)) true None 1000).

(** DNS over TCP is sent as control, and README.md says data. *)
Lemma segregate_iteration_witness :
  let bufs := env_rx [] 0 0 BURST_SIZE in
  let t1 := [EvRx 0 0 BURST_SIZE bufs] in
  let t2 := send 0 (controls bufs) t1 in
  map mb_id (controls bufs) = [1; 3; 4] /\ map mb_id (datas bufs) = [2] /\
  map mb_id (List.filter readme_control bufs) = [1; 3] /\
  ids (refused 0 (controls bufs) t1) = [4] /\
  let s : rings := Rings (2047, []) (2047, []) in
  wp (loop_body 0 (Counters 0 0 0))
    (fun c' s' t' => segregated 0 (Counters 0 0 0) [] c' s' t' /\
      forall held, owned held [] ->
        owned (ids (refused 0 (controls bufs) t1) ++ ids (refused 0 (datas bufs) t2) ++ held) t')
    (fun _ _ _ => False) s [].
Proof.
  intros bufs t1 t2. do 4 (split; [by vm_compute|]). intros s. by apply segregate_iteration.
Defined.

(** The same packet in a buffer with other bytes behind it. *)
Lemma classify_packet_bounded_witness :
  classify_packet (Mbuf 9 (mb_buf w_ssh ++ [1; 2; 3]) 0 54 54) = classify_packet w_ssh /\
  classify_packet w_ssh = 1.
Proof.
  split; [|by vm_compute]. apply classify_packet_bounded. split; [done|].
  intros i Hi. change (get (mb_buf w_ssh ++ [1; 2; 3]) (0 + i) = get (mb_buf w_ssh) (0 + i)).
  unfold get. apply app_nth1. change (data_len w_ssh) with 54 in Hi.
  change (length (mb_buf w_ssh)) with 54%nat. lia.
Defined.
