(* ===== verification/Lpm.v ===== *)
(** * longest_prefix_match_lpm: a router that prints next hops (simple/main.c) and a single
    lookup (ipv4table/main.c)

    The state is the table.  Destinations are looked up in host order. *)

From S2P Require Import Prelude Rte Env Packet Ownership Sim.

Definition NB_MBUF := 8192.
Definition RX_RING_SIZE := 1024.
Definition TX_RING_SIZE := 1024.
Definition BURST_SIZE := 32.
Definition MAX_ROUTES := 1024.
Definition MAX_TBL8S := 256.
Definition RTE_MBUF_DEFAULT_BUF_SIZE := 2176.
Definition EXIT_FAILURE := 1.

(** The IPv4 macro of simple/main.c. *)
Definition IPv4 (a b c d : Z) : Z :=
  u32 (Z.lor (Z.lor (Z.lor (Z.shiftl (Z.land a 255) 24) (Z.shiftl (Z.land b 255) 16))
                    (Z.shiftl (Z.land c 255) 8)) (Z.land d 255)).

Section Lpm.
Context {BO : Byteorder} {RL : RteLpm} {E : Env}.
Notation M := (M rte_lpm).

Definition lpm_add (ip depth hop : Z) : M unit :=
  modify (fun t => (rte_lpm_add t ip depth hop).2).

(** ** simple/main.c *)

Definition init_lpm : M unit :=
  r <-- call (rte_lpm_create "LPM_TABLE" 1024 256) ;;
  when (r =? 0) (rte_exit EXIT_FAILURE) ;;
  modify (fun _ => rte_lpm_empty 1024) ;;
  lpm_add (IPv4 10 1 2 0) 24 1 ;;
  lpm_add (IPv4 10 1 0 0) 16 2 ;;
  lpm_add (IPv4 192 0 0 0) 8 3 ;;
  lpm_add (IPv4 172 0 0 0) 4 4 ;;
  printf "LPM routes added successfully!\n" [].

Definition init_port (port mbuf_pool : Z) : M unit :=
  r <-- call (rte_eth_dev_configure port 1 1) ;;
  when (r <? 0) (rte_exit EXIT_FAILURE) ;;
  r <-- call (rte_eth_rx_queue_setup port 0 RX_RING_SIZE mbuf_pool) ;;
  when (r <? 0) (rte_exit EXIT_FAILURE) ;;
  r <-- call (rte_eth_tx_queue_setup port 0 TX_RING_SIZE) ;;
  when (r <? 0) (rte_exit EXIT_FAILURE) ;;
  r <-- call (rte_eth_dev_start port) ;;
  when (r <? 0) (rte_exit EXIT_FAILURE) ;;
  _ <-- call (rte_eth_promiscuous_enable port) ;;
  printf "Port %u initialized.\n" [PInt port].

Definition ip_args (ip : Z) : list parg :=
  [PInt (Z.land (Z.shiftr ip 24) 255); PInt (Z.land (Z.shiftr ip 16) 255);
   PInt (Z.land (Z.shiftr ip 8) 255); PInt (Z.land ip 255)].

(** One packet of the burst. *)
Definition route (port : Z) (m : mbuf) : M unit :=
  if negb (load16 m ETH_TYPE =? rte_cpu_to_be_16 RTE_ETHER_TYPE_IPV4) then
    printf "Non-IPv4 packet ignored\n" []
  else
    let dst_ip := rte_be_to_cpu_32 (load32 m IP_DST) in
    t <-- gets id ;;
    (match rte_lpm_lookup t dst_ip with
     | Some next_hop => printf "IP %u.%u.%u.%u → Next Hop %u\n" (ip_args dst_ip ++ [PInt next_hop])
     | None => printf "No route for IP %u.%u.%u.%u\n" (ip_args dst_ip)
     end) ;;
    _ <-- rte_eth_tx_burst port 0 [m] ;; ret tt.

Definition loop_body (port : Z) (_ : unit) : M unit :=
  pkts <-- rte_eth_rx_burst port 0 BURST_SIZE ;;
  if zlen pkts =? 0 then ret tt
  else _ <-- for_each (route port) pkts ;; ret tt.

(** The first [n] iterations. *)
Definition main_loop (n : nat) (port : Z) : M unit := forever n (loop_body port) tt.

Definition main (n : nat) : M unit :=
  r <-- call rte_eal_init ;;
  when (r <? 0) (rte_exit EXIT_FAILURE) ;;
  mbuf_pool <-- call (rte_pktmbuf_pool_create "MBUF_POOL" NB_MBUF 0 0 RTE_MBUF_DEFAULT_BUF_SIZE) ;;
  when (mbuf_pool =? 0) (rte_exit EXIT_FAILURE) ;;
  let port := 0 in
  init_lpm ;;
  init_port port mbuf_pool ;;
  printf "Starting main loop (LPM router)...\n" [] ;;
  main_loop n port.

(** ** ipv4table/main.c *)

Definition table_main : M unit :=
  r <-- call rte_eal_init ;;
  when (r <? 0) (rte_exit EXIT_FAILURE) ;;
  r <-- call (rte_lpm_create "LPM_TABLE" MAX_ROUTES MAX_TBL8S) ;;
  when (r =? 0) (rte_exit EXIT_FAILURE) ;;
  modify (fun _ => rte_lpm_empty MAX_ROUTES) ;;
  lpm_add (RTE_IPV4 10 0 0 0) 8 1 ;;
  lpm_add (RTE_IPV4 10 1 0 0) 16 2 ;;
  lpm_add (RTE_IPV4 10 1 1 0) 24 3 ;;
  printf "Routes added successfully\n" [] ;;
  let dst_ip := RTE_IPV4 10 1 1 25 in
  t <-- gets id ;;
  match rte_lpm_lookup t dst_ip with
  | Some next_hop => printf "IP %d.%d.%d.%d -> Next hop %u\n" (ip_args dst_ip ++ [PInt next_hop])
  | None => printf "No route found\n" []
  end.

(** ** Routes *)

(** The rules of simple/main.c, when every one is taken. *)
Definition lpm_ready (t : rte_lpm) : Prop :=
  lpm_rules t = <[(prefix (IPv4 172 0 0 0) 4, 4) := 4]> (<[(prefix (IPv4 192 0 0 0) 8, 8) := 3]>
    (<[(prefix (IPv4 10 1 0 0) 16, 16) := 2]> {[(prefix (IPv4 10 1 2 0) 24, 24) := 1]})).

(** The routes by the octets of the destination. *)
Definition next_hop_of (a b c : Z) : option Z :=
  if (a =? 10) && (b =? 1) && (c =? 2) then Some 1
  else if (a =? 10) && (b =? 1) then Some 2
  else if a =? 192 then Some 3
  else if a / 16 =? 10 then Some 4
  else None.

Lemma prefix_div ip d : 0 <= d <= 32 -> prefix ip d = ip / 2 ^ (32 - d) * 2 ^ (32 - d).
Proof. intros H. unfold prefix. by rewrite Z.shiftl_mul_pow2, Z.shiftr_div_pow2 by lia. Qed.

(** An address in host order, by its octets. *)
Definition host_ip (a b c d : Z) : Z := of_le32 d c b a.

Lemma prefix_host a b c d :
  is_u8 a -> is_u8 b -> is_u8 c -> is_u8 d ->
  prefix (host_ip a b c d) 24 = host_ip a b c 0 /\ prefix (host_ip a b c d) 16 = host_ip a b 0 0 /\
  prefix (host_ip a b c d) 8 = host_ip a 0 0 0 /\
  prefix (host_ip a b c d) 4 = host_ip (a / 16 * 16) 0 0 0.
Proof.
  intros. rewrite !prefix_div by lia. simpl (2 ^ (32 - _)). unfold host_ip, of_le32.
  autounfold with words in *. split_and!; Z.div_mod_to_equations; lia.
Qed.

Lemma host_eqb a b c d a' b' c' d' :
  is_u8 a -> is_u8 b -> is_u8 c -> is_u8 d -> is_u8 a' -> is_u8 b' -> is_u8 c' -> is_u8 d' ->
  (host_ip a b c d =? host_ip a' b' c' d') = (a =? a') && (b =? b') && (c =? c') && (d =? d').
Proof. unfold host_ip, of_le32. autounfold with words. lia. Qed.

Lemma rule_at (rules : gmap (Z * Z) Z) p q d e v :
  <[(p, d) := v]> rules !! (q, e) = if (q =? p) && (e =? d) then Some v else rules !! (q, e).
Proof.
  rewrite lookup_insert. case_decide as K.
  - injection K as -> ->. by rewrite !Z.eqb_refl.
  - destruct (Z.eqb_spec q p) as [->|], (Z.eqb_spec e d) as [->|]; done.
Qed.

(** Elements without an answer can be left out. *)
Lemma omap_filter {A B} (f : A -> option B) (p : A -> bool) l :
  (forall x, p x = false -> f x = None) -> omap f l = omap f (List.filter p l).
Proof.
  intros H. induction l as [|x l IH]; [done|]. cbn [List.filter]. destruct (p x) eqn:G.
  - change (match f x with Some y => y :: omap f l | None => omap f l end =
            match f x with Some y => y :: omap f (List.filter p l) | None => omap f (List.filter p l) end).
    by rewrite IH.
  - change (match f x with Some y => y :: omap f l | None => omap f l end = omap f (List.filter p l)).
    by rewrite (H x G).
Qed.

(** A table without rules at the other depths is searched at four depths. *)
Lemma lpm_match_four rules ip :
  (forall p d, d <> 24 -> d <> 16 -> d <> 8 -> d <> 4 -> rules !! (p, d) = None) ->
  lpm_match rules ip =
    head (omap (fun d => rules !! (prefix ip d, d)) [24; 16; 8; 4]).
Proof.
  intros H. unfold lpm_match.
  change [24; 16; 8; 4] with
    (List.filter (fun d => (d =? 24) || (d =? 16) || (d =? 8) || (d =? 4)) lpm_depths).
  f_equal. apply omap_filter. intros d Hd. apply H; intros ->; done.
Qed.

Lemma lpm_ready_match t a b c d :
  lpm_ready t -> is_u8 a -> is_u8 b -> is_u8 c -> is_u8 d ->
  lpm_match (lpm_rules t) (host_ip a b c d) = next_hop_of a b c.
Proof.
  intros Hr Ha Hb Hc Hd. rewrite Hr, <- insert_empty.
  change (prefix (IPv4 172 0 0 0) 4) with (host_ip 160 0 0 0).
  change (prefix (IPv4 192 0 0 0) 8) with (host_ip 192 0 0 0).
  change (prefix (IPv4 10 1 0 0) 16) with (host_ip 10 1 0 0).
  change (prefix (IPv4 10 1 2 0) 24) with (host_ip 10 1 2 0).
  rewrite lpm_match_four.
  2:{ intros p e H1 H2 H3 H4. rewrite !rule_at, lookup_empty.
      destruct (Z.eqb_spec e 4), (Z.eqb_spec e 8), (Z.eqb_spec e 16), (Z.eqb_spec e 24); try done.
      by rewrite !andb_false_r. }
  destruct (prefix_host a b c d) as (P1 & P2 & P3 & P4); try done.
  cbn [omap list_omap]. rewrite P1, P2, P3, P4. rewrite !rule_at, !lookup_empty.
  assert (is_u8 (a / 16 * 16)) by words.
  rewrite !host_eqb by first [done|words]. simpl (_ =? _). rewrite ?andb_false_r, ?andb_true_r.
  unfold next_hop_of.
  assert ((a / 16 * 16 =? 160) = (a / 16 =? 10)) as -> by lia.
  destruct (a =? 10), (b =? 1), (c =? 2), (a =? 192), (a / 16 =? 10); done.
Qed.

(** C34: The routes of the LPM router, when the table takes its four rules: 10.1.2.x goes to next
    hop 1, the rest of 10.1.x.x to 2, 192.x.x.x to 3, and nothing else has a
    route but 160.x.x.x to 175.x.x.x, since the rule for 172.0.0.0 has depth 4.
    A packet is looked up by the destination on the wire and sent back out. *)
Theorem route_correct t m port tr :
  lpm_ready t -> bytes_ok m -> load16 m ETH_TYPE = rte_cpu_to_be_16 RTE_ETHER_TYPE_IPV4 ->
  wp (route port m)
    (fun _ t' tr' => t' = t /\
       exists sent, tr' = EvTx port 0 [m] sent ::
         (let b i := load8 m (IP_DST + i) in
          let args := map PInt [b 0; b 1; b 2; b 3] in
          match next_hop_of (b 0) (b 1) (b 2) with
          | Some hop => EvPrintf "IP %u.%u.%u.%u → Next Hop %u\n" (args ++ [PInt hop])
          | None => EvPrintf "No route for IP %u.%u.%u.%u\n" args
          end) :: tr)
    (fun _ _ _ => False) t tr.
Proof.
  intros Hr Hb Ht. unfold route. rewrite Ht, Z.eqb_refl. cbn [negb]. wp_steps. unfold id.
  assert (forall i, is_u8 (load8 m i)) as Hu by (intros; by apply load8_byte).
  assert (rte_be_to_cpu_32 (load32 m IP_DST) =
    host_ip (load8 m (IP_DST + 0)) (load8 m (IP_DST + 1)) (load8 m (IP_DST + 2)) (load8 m (IP_DST + 3))) as ->.
  { rewrite be_to_cpu_32_law by auto with words. unfold load32. by rewrite bswap32_bytes. }
  set (b0 := load8 m (IP_DST + 0)). set (b1 := load8 m (IP_DST + 1)). set (b2 := load8 m (IP_DST + 2)).
  set (b3 := load8 m (IP_DST + 3)).
  assert (is_u8 b0) by apply Hu. assert (is_u8 b1) by apply Hu. assert (is_u8 b2) by apply Hu.
  assert (is_u8 b3) by apply Hu. clearbody b0 b1 b2 b3.
  assert (is_u32 (host_ip b0 b1 b2 b3)) by (by apply of_le32_range).
  assert (ip_args (host_ip b0 b1 b2 b3) = map PInt [b0; b1; b2; b3]) as ->.
  { unfold ip_args. change 255 with (Z.ones 8). rewrite !Z.land_ones, !Z.shiftr_div_pow2 by lia.
    unfold host_ip, of_le32. simpl (2 ^ _). autounfold with words in *. simpl.
    repeat f_equal; Z.div_mod_to_equations; lia. }
  rewrite lpm_lookup_law, lpm_ready_match by done.
  destruct (next_hop_of b0 b1 b2) as [hop|]; wp_steps; apply wp_tx; intros k _; wp_steps;
    (split; [done|by exists k]).
Qed.

Lemma wp_lpm_add ip depth hop (Q : unit -> rte_lpm -> trace -> Prop) X t tr :
  Q tt (rte_lpm_add t ip depth hop).2 tr -> wp (lpm_add ip depth hop) Q X t tr.
Proof. done. Qed.

(** A rule that a table with room takes. *)
Lemma lpm_add_taken :
  (forall l ip depth hop, Z.of_nat (size (lpm_rules l)) < 1024 -> (rte_lpm_add l ip depth hop).1 = 0) ->
  forall l ip depth hop n, 1 <= depth <= 32 -> is_u32 ip -> 0 <= hop < 16777216 ->
    (size (lpm_rules l) <= n)%nat -> (n < 1000)%nat ->
    lpm_rules (rte_lpm_add l ip depth hop).2 = <[(prefix ip depth, depth) := hop]> (lpm_rules l) /\
    (size (lpm_rules (rte_lpm_add l ip depth hop).2) <= S n)%nat.
Proof.
  intros Ha l ip depth hop n Hd Hi Hh Hs Hn. rewrite lpm_add_law by done. rewrite Ha by lia. simpl.
  split; [done|]. rewrite map_size_insert. destruct (lpm_rules l !! _); simpl; lia.
Qed.

(** [init_lpm] leaves the table ready when every rule is taken. *)
Lemma init_lpm_ready t tr :
  (forall l ip depth hop, Z.of_nat (size (lpm_rules l)) < 1024 -> (rte_lpm_add l ip depth hop).1 = 0) ->
  wp init_lpm (fun _ t' _ => lpm_ready t') (fun c _ _ => c = EXIT_FAILURE) t tr.
Proof.
  intros Ha. unfold init_lpm. wp_steps; [done|]. unfold lpm_ready.
  pose proof (lpm_add_taken Ha) as G.
  do 4 (apply wp_lpm_add; wp_steps).
  set (l0 := rte_lpm_empty 1024). set (l1 := (rte_lpm_add l0 _ _ _).2).
  set (l2 := (rte_lpm_add l1 _ _ _).2). set (l3 := (rte_lpm_add l2 _ _ _).2).
  assert (size (lpm_rules l0) <= 0)%nat as S0 by (unfold l0; by rewrite lpm_empty_law, map_size_empty).
  destruct (G l0 (IPv4 10 1 2 0) 24 1 0%nat) as [E1 S1]; [lia|by apply u32_range|lia|done|lia|].
  fold l1 in E1, S1.
  destruct (G l1 (IPv4 10 1 0 0) 16 2 1%nat) as [E2 S2]; [lia|by apply u32_range|lia|done|lia|].
  fold l2 in E2, S2.
  destruct (G l2 (IPv4 192 0 0 0) 8 3 2%nat) as [E3 S3]; [lia|by apply u32_range|lia|done|lia|].
  fold l3 in E3, S3.
  destruct (G l3 (IPv4 172 0 0 0) 4 4 3%nat) as [E4 _]; [lia|by apply u32_range|lia|done|lia|].
  rewrite E4, E3, E2, E1. unfold l0. by rewrite lpm_empty_law, insert_empty.
Qed.

(** ** The router *)

Definition is_ipv4 (m : mbuf) : bool := load16 m ETH_TYPE =? rte_cpu_to_be_16 RTE_ETHER_TYPE_IPV4.
(** The received packets that are not IPv4. *)
Definition ignored (t : trace) : list mbuf := List.filter (fun m => negb (is_ipv4 m)) (rx_packets t).

Lemma route_spec m held p s t :
  owned (mb_id m :: held ++ refused_ids t) t ->
  wp (route p m)
    (fun _ _ t' => rx_packets t' = rx_packets t /\
       owned ((if is_ipv4 m then [] else [mb_id m]) ++ held ++ refused_ids t') t')
    (fun _ _ _ => False) s t.
Proof.
  intros Ho. unfold route. fold (is_ipv4 m). destruct (is_ipv4 m); cbn [negb app]; [|by wp_steps].
  wp_steps.
  assert (forall t1, same_acct t t1 -> wp (_ <-- rte_eth_tx_burst p 0 [m] ;; ret tt)
    (fun (_ : unit) (_ : rte_lpm) t' => rx_packets t' = rx_packets t /\ owned (held ++ refused_ids t') t')
    (fun _ _ _ => False) s t1) as G.
  { intros t1 A. wp_step. apply wp_tx. intros k _. wp_steps. split; [apply A|].
    apply owned_tx_ignored. simpl. apply (owned_acct _ t); [done|]. by destruct A as (_ & _ & _ & ->). }
  destruct (rte_lpm_lookup _ _); wp_step; (eapply wp_mono; [by apply G|done|done]).
Qed.

Lemma lpm_loop_spec p s t :
  owned (ids (ignored t) ++ refused_ids t) t ->
  wp (loop_body p tt) (fun _ _ t' => owned (ids (ignored t') ++ refused_ids t') t')
    (fun _ _ _ => False) s t.
Proof.
  intros Ho. unfold loop_body. wp_step. apply wp_rx. intros bufs _ _.
  apply (owned_rx _ p 0 BURST_SIZE bufs) in Ho. set (t1 := EvRx _ _ _ bufs :: t) in *.
  change (refused_ids t) with (refused_ids t1) in Ho. wp_step.
  { assert (bufs = []) as Hb by (destruct bufs; [done|by rewrite Z.eqb_eq in H]).
    unfold ignored. unfold t1 in *. rewrite Hb in *. exact Ho. }
  wp_step. eapply wp_mono; [apply (wp_for_each (fun pre _ _ t' => rx_packets t' = rx_packets t1 /\
      forall post, bufs = pre ++ post ->
        owned (ids post ++ (ids (List.filter (fun m => negb (is_ipv4 m)) pre) ++ ids (ignored t)) ++ refused_ids t') t')
      _ (fun _ _ _ => False))| |done].
  - intros pre m post rs s2 t2 Hb (E2 & O2).
    eapply wp_mono; [apply (route_spec m (ids post ++ ids (List.filter (fun m => negb (is_ipv4 m)) pre) ++ ids (ignored t)))| |done].
    { specialize (O2 (m :: post) Hb). simpl in O2. by rewrite <- !app_assoc in *. }
    intros u s3 t3 (E3 & O3). split; [congruence|].
    intros post' Hp. rewrite Hb, <- app_assoc in Hp. apply app_inv_head in Hp. injection Hp as Hp.
    rewrite <- Hp, List.filter_app, map_app. simpl. rewrite <- !app_assoc in *.
    destruct (is_ipv4 m); simpl in *; [done|]. by rewrite <- !Permutation_middle.
  - split; [done|]. intros post ->. simpl. by rewrite app_assoc in Ho |- *.
  - intros rs s2 t2 (E2 & O2). wp_steps. specialize (O2 [] (eq_sym (app_nil_r _))). simpl in O2.
    unfold ignored at 1. rewrite E2. unfold t1. simpl. by rewrite List.filter_app, map_app.
Qed.

(** The LPM router never faults in any number of iterations and exits only with
    EXIT_FAILURE before traffic; but every received packet that is not IPv4
    stays with the program for good, neither sent nor freed, like every packet
    the NIC refuses: between iterations it owns exactly these. *)
Theorem lpm_main_leaks n l :
  wp (main n) (fun _ _ t => owned (ids (ignored t) ++ refused_ids t) t)
    (fun c _ t => c = EXIT_FAILURE /\ rx_ids t = []) l [].
Proof.
  unfold main, init_lpm, init_port, main_loop, lpm_add. wp_steps; try done.
  apply (wp_forever (fun _ _ t => owned (ids (ignored t) ++ refused_ids t) t)); [|apply owned_nil].
  intros [] s t Ho. eapply wp_mono; [by apply lpm_loop_spec|done|done].
Qed.

(** The single lookup of ipv4table/main.c finds the longest of its three matching rules. *)
Lemma table_main_spec l :
  (forall l ip depth hop, Z.of_nat (size (lpm_rules l)) < 1024 -> (rte_lpm_add l ip depth hop).1 = 0) ->
  wp table_main
    (fun _ _ t => head t = Some (EvPrintf "IP %d.%d.%d.%d -> Next hop %u\n"
       [PInt 10; PInt 1; PInt 1; PInt 25; PInt 3]))
    (fun c _ _ => c = EXIT_FAILURE) l [].
Proof.
  intros Ha. unfold table_main. rewrite !RTE_IPV4_law by words.
  pose proof (lpm_add_taken Ha) as G.
  wp_steps; [done|done|]. do 3 (apply wp_lpm_add; wp_steps). unfold id.
  set (l0 := rte_lpm_empty MAX_ROUTES).
  assert (size (lpm_rules l0) <= 0)%nat as S0 by (unfold l0; by rewrite lpm_empty_law, map_size_empty).
  set (l1 := (rte_lpm_add l0 _ _ _).2). set (l2 := (rte_lpm_add l1 _ _ _).2).
  destruct (G l0 (of_le32 0 0 0 10) 8 1 0%nat) as [E1 S1]; [lia|done|lia|done|lia|]. fold l1 in E1, S1.
  destruct (G l1 (of_le32 0 0 1 10) 16 2 1%nat) as [E2 S2]; [lia|done|lia|done|lia|]. fold l2 in E2, S2.
  destruct (G l2 (of_le32 0 1 1 10) 24 3 2%nat) as [E3 S3]; [lia|done|lia|done|lia|].
  rewrite lpm_lookup_law by done. rewrite E3, E2, E1. unfold l0. rewrite lpm_empty_law.
  assert (lpm_match (<[(prefix (of_le32 0 1 1 10) 24, 24) := 3]>
    (<[(prefix (of_le32 0 0 1 10) 16, 16) := 2]>
    (<[(prefix (of_le32 0 0 0 10) 8, 8) := 1]> ∅))) (of_le32 25 1 1 10) = Some 3) as -> by (by vm_compute).
  by wp_steps.
Qed.
End Lpm.

#[local] Existing Instances sim_byteorder sim_lpm.
#[local] Instance wenv : Env := sim_env quiet_script.

Definition w_routed : mbuf := mk_packet 1 [10; 0; 0; 7] [10; 1; 2; 9] IPPROTO_UDP [4; 210] [0; 80].

Lemma route_correct_witness :
  let t : rte_lpm := (1024, <[(prefix (IPv4 172 0 0 0) 4, 4) := 4]> (<[(prefix (IPv4 192 0 0 0) 8, 8) := 3]>
    (<[(prefix (IPv4 10 1 0 0) 16, 16) := 2]> {[(prefix (IPv4 10 1 2 0) 24, 24) := 1]}))) in
  next_hop_of 10 1 2 = Some 1 /\
  wp (route 0 w_routed)
    (fun _ t' tr' => t' = t /\
       exists sent, tr' = EvTx 0 0 [w_routed] sent ::
         (let b i := load8 w_routed (IP_DST + i) in
          let args := map PInt [b 0; b 1; b 2; b 3] in
          match next_hop_of (b 0) (b 1) (b 2) with
          | Some hop => EvPrintf "IP %u.%u.%u.%u → Next Hop %u\n" (args ++ [PInt hop])
          | None => EvPrintf "No route for IP %u.%u.%u.%u\n" args
          end) :: [])
    (fun _ _ _ => False) t [].
Proof.
  intros t. split; [done|]. apply route_correct; [done| |done]. by apply Forall_u8_dec.
Defined.
