(* ===== verification/PacketOps.v ===== *)
(** * packet_change/main.c: growing and shrinking received packets

    [parser] and [operations] on every received packet, which is then freed. *)

From S2P Require Import Prelude Rte Env Packet Ownership Sim.

Definition RTE_MBUF_DEFAULT_BUF_SIZE := 2176.
Definition EXIT_FAILURE := 1.
Definition port_id := 0.

(** "DPDK-MBUF" with its terminating zero. *)
Definition msg : list Z := [68; 80; 68; 75; 45; 77; 66; 85; 70; 0].

Definition rte_pktmbuf_headroom (m : mbuf) : Z := data_off m.
Definition rte_pktmbuf_tailroom (m : mbuf) : Z := u16 (zlen (mb_buf m) - data_off m - data_len m).

Section PacketOps.
Context {BO : Byteorder} {PM : Pktmbuf} {E : Env}.
Notation M := (M unit).

Definition mac_args (m : mbuf) (o : Z) : list parg := map PInt (load_bytes m o 6).

(** The type of the packet is read but not used. *)
Definition parser (m : mbuf) : M unit :=
  printf "packet length = %u\n" [PInt (pkt_len m)] ;;
  printf "L2: Ethernet\n" [] ;;
  printf "   SRC MAC: %02x:%02x:%02x:%02x:%02x:%02x\n" (mac_args m ETH_SRC) ;;
  printf "   DST MAC: %02x:%02x:%02x:%02x:%02x:%02x\n" (mac_args m ETH_DST).

Definition print_state (m : mbuf) : M unit :=
  printf "data_off   = %u\n" [PInt (data_off m)] ;;
  printf "data_len   = %u\n" [PInt (data_len m)] ;;
  printf "pkt_len    = %u\n" [PInt (pkt_len m)] ;;
  printf "headroom   = %u\n" [PInt (rte_pktmbuf_headroom m)] ;;
  printf "tailroom   = %u\n" [PInt (rte_pktmbuf_tailroom m)].

(** What the program prints before each state. *)
Record titles := Titles { t_initial : string; t_append : string; t_prepend : string; t_adj : string; t_trim : string }.

(** [rte_pktmbuf_append] returns the address of the old end of the data, at the
    offset of the old length; [rte_pktmbuf_prepend] that of the new start. *)
Definition run_operations (ts : titles) (m : mbuf) : M mbuf :=
  printf (t_initial ts) [] ;;
  print_state m ;;
  let len := zlen msg in
  m <-- match rte_pktmbuf_append m len with
        | None => rte_exit EXIT_FAILURE
        | Some m' => ret (store_bytes m' (data_len m) msg)
        end ;;
  printf (t_append ts) [PInt len] ;;
  print_state m ;;
  let m := match rte_pktmbuf_prepend m 10 with
           | Some m' => store_bytes m' 0 (repeat 72 10)
           | None => m
           end in
  printf (t_prepend ts) [] ;;
  print_state m ;;
  let m := match rte_pktmbuf_adj m 5 with Some m' => m' | None => m end in
  printf (t_adj ts) [] ;;
  print_state m ;;
  let m := match rte_pktmbuf_trim m 4 with Some m' => m' | None => m end in
  printf (t_trim ts) [] ;;
  print_state m ;;
  ret m.

Definition operations (m : mbuf) : M mbuf :=
  run_operations
    (Titles "\nInitial Mbuf State\n" "\nAfter Append(%u bytes) \n" "\nAfter Prepend(10 bytes)\n"
       "\n After Adj(5 bytes removed)\n" "\nAfter Trim(4 bytes)\n") m.

(** One packet of the burst. *)
Definition handle (m : mbuf) : M unit :=
  parser m ;;
  m <-- operations m ;;
  rte_pktmbuf_free m.

Definition loop_body (_ : unit) : M unit :=
  bufs <-- rte_eth_rx_burst port_id 0 32 ;;
  when (0 <? zlen bufs)
    (printf "Received %u packets\n" [PInt (zlen bufs)] ;;
     _ <-- for_each handle bufs ;; ret tt).

(** The first [n] iterations. *)
Definition main (n : nat) : M unit :=
  rt <-- call rte_eal_init ;;
  when (rt <? 0) (rte_exit EXIT_FAILURE) ;;
  mbuf_pool <-- call (rte_pktmbuf_pool_create "MBUF_POOL" 1024 32 0 RTE_MBUF_DEFAULT_BUF_SIZE) ;;
  when (mbuf_pool =? 0) (rte_exit EXIT_FAILURE) ;;
  printf "Mempool created\n" [] ;;
  r <-- call (rte_eth_dev_configure port_id 1 1) ;;
  when (r <? 0) (rte_exit EXIT_FAILURE) ;;
  r <-- call (rte_eth_rx_queue_setup port_id 0 1024 mbuf_pool) ;;
  when (r <? 0) (rte_exit EXIT_FAILURE) ;;
  r <-- call (rte_eth_tx_queue_setup port_id 0 1024) ;;
  when (r <? 0) (rte_exit EXIT_FAILURE) ;;
  r <-- call (rte_eth_dev_start port_id) ;;
  when (r <? 0) (rte_exit EXIT_FAILURE) ;;
  printf "Port %u initialized and started.\n" [PInt port_id] ;;
  forever n loop_body tt.

(** ** The bytes of a buffer under the four operations *)

(** Byte [i] of the data area, by the address in the buffer. *)
Lemma load8_resize m off dl pl i : load8 (resize m off dl pl) i = load8 m (off - data_off m + i).
Proof. unfold load8, resize. simpl. f_equal. lia. Qed.

(** The packet after [operations], for an mbuf with enough room at both ends. *)
Definition operated (m : mbuf) : mbuf :=
  let m1 := store_bytes (resize m (data_off m) (u16 (data_len m + 10)) (u32 (pkt_len m + 10)))
              (data_len m) msg in
  let m2 := store_bytes (resize m1 (data_off m1 - 10) (u16 (data_len m1 + 10)) (u32 (pkt_len m1 + 10)))
              0 (repeat 72 10) in
  let m3 := resize m2 (data_off m2 + 5) (u16 (data_len m2 - 5)) (u32 (pkt_len m2 - 5)) in
  resize m3 (data_off m3) (u16 (data_len m3 - 4)) (u32 (pkt_len m3 - 4)).

Lemma wp_print_state m (Q : unit -> unit -> trace -> Prop) X s t :
  (forall t', same_acct t t' -> Q tt s t') -> wp (print_state m) Q X s t.
Proof. intros H. unfold print_state. wp_steps. by apply H. Qed.

Lemma frame_fields bs m o :
  data_off (store_bytes m o bs) = data_off m /\ data_len (store_bytes m o bs) = data_len m /\
  pkt_len (store_bytes m o bs) = pkt_len m /\ mb_id (store_bytes m o bs) = mb_id m /\
  zlen (mb_buf (store_bytes m o bs)) = zlen (mb_buf m).
Proof. destruct (same_frame_store_bytes bs m o) as (? & ? & ? & ? & ?). by split_and!. Qed.

Lemma id_store_bytes bs m o : mb_id (store_bytes m o bs) = mb_id m.
Proof. apply frame_fields. Qed.

(** What the room at the ends means for an mbuf. *)
Record roomy (m : mbuf) : Prop := {
  ry_head : 10 <= data_off m;
  ry_len : 0 <= data_len m /\ data_len m + 20 < 65536;
  ry_pkt : 0 <= pkt_len m /\ pkt_len m + 20 < 4294967296;
  ry_tail : data_off m + data_len m + 10 <= zlen (mb_buf m) }.

Lemma operations_run ts m s t :
  roomy m ->
  wp (run_operations ts m) (fun m' s' t' => m' = operated m /\ s' = s /\ same_acct t t') (fun _ _ _ => False) s t.
Proof.
  intros [H1 H2 H3 H4]. unfold run_operations. change (zlen msg) with 10. wp_step. wp_step. wp_step.
  apply wp_print_state. intros t1 A1. rewrite append_law by done.
  destruct (Z.ltb_spec (zlen (mb_buf m) - data_off m - data_len m) 10); [lia|].
  wp_steps. set (m1 := store_bytes (resize m _ _ _) (data_len m) msg).
  apply wp_print_state. intros t2 A2. wp_steps. rewrite prepend_law by done.
  assert (data_off m1 = data_off m) as E1 by (unfold m1; by destruct (frame_fields msg
    (resize m (data_off m) (u16 (data_len m + 10)) (u32 (pkt_len m + 10))) (data_len m)) as (-> & _)).
  assert (data_len m1 = data_len m + 10) as E1l.
  { unfold m1. destruct (frame_fields msg (resize m (data_off m) (u16 (data_len m + 10))
      (u32 (pkt_len m + 10))) (data_len m)) as (_ & -> & _). apply u16_small. words. }
  destruct (Z.ltb_spec (data_off m1) 10); [lia|].
  set (m2 := store_bytes (resize m1 _ _ _) 0 (repeat 72 10)).
  apply wp_print_state. intros t3 A3. wp_steps.
  assert (data_len m2 = data_len m + 20) as E2l.
  { transitivity (u16 (data_len m1 + 10)); [|rewrite E1l, u16_small; words].
    apply (frame_fields (repeat 72 10) (resize m1 (data_off m1 - 10) (u16 (data_len m1 + 10))
      (u32 (pkt_len m1 + 10))) 0). }
  rewrite adj_law by done. destruct (Z.ltb_spec (data_len m2) 5); [lia|].
  set (m3 := resize m2 _ _ _). apply wp_print_state. intros t4 A4. wp_steps.
  assert (data_len m3 = data_len m + 15) as E3l
    by (transitivity (u16 (data_len m2 - 5)); [done|rewrite E2l, u16_small; words]).
  rewrite trim_law by done. destruct (Z.ltb_spec (data_len m3) 4); [lia|].
  apply wp_print_state. intros t5 A5. wp_steps. split; [done|]. split; [done|].
  unfold same_acct in *. simpl in *. intuition congruence.
Qed.

(** Byte [k] behind the first byte of the changed packet. *)
Lemma operated_byte m k :
  roomy m -> 0 <= k < data_len m + 11 ->
  load8 (operated m) k =
    if k <? 5 then 72 else if k <? 5 + data_len m then load8 m (k - 5) else get msg (k - 5 - data_len m).
Proof.
  intros [H1 H2 H3 H4] Hk. unfold operated.
  set (r1 := resize m _ _ _). set (m1 := store_bytes r1 (data_len m) msg).
  set (r2 := resize m1 _ _ _). set (m2 := store_bytes r2 0 (repeat 72 10)).
  assert (data_off m1 = data_off m /\ zlen (mb_buf m1) = zlen (mb_buf m)) as [E1 Z1]
    by (destruct (frame_fields msg r1 (data_len m)) as (? & ? & ? & ? & ?); done).
  assert (data_off m2 = data_off m - 10) as E2
    by (destruct (frame_fields (repeat 72 10) r2 0) as (G & _); unfold m2; rewrite G; unfold r2; simpl; lia).
  rewrite !load8_resize. cbn [data_off resize]. replace (data_off m2 + 5 - (data_off m2 + 5) + k) with k by lia.
  replace (data_off m2 + 5 - data_off m2 + k) with (k + 5) by lia.
  assert (room r2 10) as R2 
    by (unfold room; change (data_off r2) with (data_off m1 - 10); change (mb_buf r2) with (mb_buf m1); lia).
  unfold m2. rewrite (load8_store_bytes _ _ _ _ 10) by (done || lia).
  change (zlen (repeat 72 10)) with 10. rewrite Z.sub_0_r.
  destruct (Z.ltb_spec k 5).
  - destruct (Z.leb_spec 0 (k + 5)), (Z.ltb_spec (k + 5) (0 + 10)); try lia. simpl andb. cbv iota.
    assert (k = 0 \/ k = 1 \/ k = 2 \/ k = 3 \/ k = 4) as K by lia.
    by repeat destruct K as [->|K]; subst.
  - destruct (Z.leb_spec 0 (k + 5)), (Z.ltb_spec (k + 5) (0 + 10)); try lia. simpl andb. cbv iota.
    unfold r2. rewrite load8_resize. replace (data_off m1 - 10 - data_off m1 + (k + 5)) with (k - 5) by lia.
    assert (room r1 (data_len m + 10)) as R1 
      by (unfold room; change (data_off r1) with (data_off m); change (mb_buf r1) with (mb_buf m); lia).
    unfold m1. rewrite (load8_store_bytes _ _ _ _ (data_len m + 10)) by (done || change (zlen msg) with 10; lia).
    change (zlen msg) with 10. unfold r1 at 1. rewrite load8_resize.
    replace (data_off m - data_off m + (k - 5)) with (k - 5) by lia.
    destruct (Z.leb_spec (data_len m) (k - 5)), (Z.ltb_spec (k - 5) (data_len m + 10)),
      (Z.ltb_spec k (5 + data_len m)); try lia; done.
Qed.

Lemma operated_fields m :
  roomy m ->
  mb_id (operated m) = mb_id m /\ data_off (operated m) = data_off m - 5 /\
  data_len (operated m) = data_len m + 11 /\ pkt_len (operated m) = pkt_len m + 11.
Proof.
  intros [H1 H2 H3 H4]. unfold operated.
  set (r1 := resize m _ _ _). set (m1 := store_bytes r1 (data_len m) msg).
  set (r2 := resize m1 _ _ _). set (m2 := store_bytes r2 0 (repeat 72 10)).
  destruct (frame_fields msg r1 (data_len m)) as (A1 & A2 & A3 & A4 & _). fold m1 in A1, A2, A3, A4.
  destruct (frame_fields (repeat 72 10) r2 0) as (B1 & B2 & B3 & B4 & _). fold m2 in B1, B2, B3, B4.
  cbn [resize mb_id data_off data_len pkt_len]. rewrite B1, B2, B3, B4.
  unfold r2. cbn [resize mb_id data_off data_len pkt_len]. rewrite A1, A2, A3, A4.
  unfold r1. cbn [resize mb_id data_off data_len pkt_len].
  split; [done|]. split; [lia|]. split.
  - rewrite (u16_small (data_len m + 10)) by words. rewrite (u16_small (data_len m + 10 + 10)) by words.
    rewrite (u16_small (_ - 5)) by words. rewrite u16_small by words. lia.
  - rewrite (u32_small (pkt_len m + 10)) by words. rewrite (u32_small (pkt_len m + 10 + 10)) by words.
    rewrite (u32_small (_ - 5)) by words. rewrite u32_small by words. lia.
Qed.

(** [operations] on a packet with room at both ends: it gets 11 bytes longer and starts 5
    bytes earlier, and its data are now five bytes 'H', the old packet, and
    "DPDK-M". Without 10 bytes of tailroom the program exits with status 1. *)
Theorem operations_correct m s t :
  (roomy m ->
   wp (operations m)
     (fun m' s' t' => same_acct t t' /\ mb_id m' = mb_id m /\ data_off m' = data_off m - 5 /\
        data_len m' = data_len m + 11 /\ pkt_len m' = pkt_len m + 11 /\
        forall k, 0 <= k < data_len m' ->
          load8 m' k = if k <? 5 then 72 else if k <? 5 + data_len m then load8 m (k - 5)
                       else get [68; 80; 68; 75; 45; 77] (k - 5 - data_len m))
     (fun _ _ _ => False) s t) /\
  (zlen (mb_buf m) - data_off m - data_len m < 10 ->
   wp (operations m) (fun _ _ _ => False) (fun c _ _ => c = EXIT_FAILURE) s t).
Proof.
  split; intros H.
  - eapply wp_mono; [by apply operations_run| |done]. intros m' s' t' (-> & -> & A).
    destruct (operated_fields m H) as (E1 & E2 & E3 & E4). do 5 (split; [done|]).
    rewrite E3. intros k Hk. rewrite operated_byte by done.
    destruct (k <? 5); [done|]. destruct (Z.ltb_spec k (5 + data_len m)); [done|].
    assert (k - 5 - data_len m = 0 \/ k - 5 - data_len m = 1 \/ k - 5 - data_len m = 2 \/
      k - 5 - data_len m = 3 \/ k - 5 - data_len m = 4 \/ k - 5 - data_len m = 5) as K by lia.
    by repeat destruct K as [->|K]; [..|rewrite K].
  - unfold operations, run_operations. wp_step. wp_step. wp_step. apply wp_print_state. intros t1 _.
    rewrite append_law by done. change (zlen msg) with 10.
    destruct (Z.ltb_spec (zlen (mb_buf m) - data_off m - data_len m) 10); [|lia]. by wp_steps.
Qed.

(** Every received packet is freed, unless the program exits because one of them has no
    tailroom. *)
Lemma operations_id m (Q : mbuf -> unit -> trace -> Prop) s t :
  (forall m' t', mb_id m' = mb_id m -> same_acct t t' -> Q m' s t') ->
  wp (operations m) Q (fun c _ _ => c = EXIT_FAILURE) s t.
Proof.
  intros H. unfold operations, run_operations. change (zlen msg) with 10. wp_step. wp_step. wp_step.
  apply wp_print_state. intros t1 A1. wp_step. rewrite append_law by done.
  destruct (_ <? 10); [done|]. wp_steps. set (m1 := store_bytes _ _ msg).
  assert (mb_id m1 = mb_id m) as E1 by (unfold m1; by rewrite id_store_bytes).
  apply wp_print_state. intros t2 A2. wp_steps.
  set (m2 := match rte_pktmbuf_prepend m1 10 with Some m' => _ | None => m1 end).
  assert (mb_id m2 = mb_id m) as E2.
  { unfold m2. rewrite prepend_law by done. destruct (data_off m1 <? 10); [done|].
    by rewrite <- E1, id_store_bytes. }
  apply wp_print_state. intros t3 A3. wp_steps.
  set (m3 := match rte_pktmbuf_adj m2 5 with Some m' => m' | None => m2 end).
  assert (mb_id m3 = mb_id m) as E3
    by (unfold m3; rewrite adj_law by done; by destruct (data_len m2 <? 5)).
  apply wp_print_state. intros t4 A4. wp_steps.
  set (m4 := match rte_pktmbuf_trim m3 4 with Some m' => m' | None => m3 end).
  assert (mb_id m4 = mb_id m) as E4
    by (unfold m4; rewrite trim_law by done; by destruct (data_len m3 <? 4)).
  apply wp_print_state. intros t5 A5. wp_steps. apply H; [done|].
  unfold same_acct in *. simpl in *. intuition congruence.
Qed.

Lemma packet_change_main_spec n :
  wp (main n) (fun _ _ t => owned [] t) (fun c _ _ => c = EXIT_FAILURE) tt [].
Proof.
  unfold main. wp_steps; try done.
  apply (wp_forever (fun _ _ t => owned [] t)); [|apply owned_nil].
  intros [] s t Ho. unfold loop_body. wp_step. apply wp_rx. intros bufs _ _.
  apply (owned_rx _ port_id 0 32 bufs) in Ho. set (t1 := EvRx _ _ _ bufs :: t) in *.
  apply wp_when; intros Hl.
  - wp_steps. eapply wp_mono; [apply (wp_for_each (fun pre _ _ t' =>
      forall post, bufs = pre ++ post -> owned (ids post) t') _ (fun c _ _ => c = EXIT_FAILURE))| |done].
    + intros pre m post rs s2 t2 Hb O2. unfold handle, parser. wp_steps.
      apply operations_id. intros m' t3 Ei A3. wp_steps. intros post' Hp.
      rewrite Hb, <- app_assoc in Hp. apply app_inv_head in Hp. injection Hp as Hp. rewrite <- Hp.
      apply owned_free. rewrite Ei. eapply owned_acct; [exact A3|].
      apply (O2 (m :: post)). by rewrite Hb.
    + intros post ->. by rewrite app_nil_r in Ho.
    + intros rs s2 t2 O2. wp_steps. apply (O2 []), eq_sym, app_nil_r.
  - assert (bufs = []) as Hb.
    { destruct bufs; [done|]. apply Z.ltb_ge in Hl. unfold zlen in Hl. simpl in Hl. lia. }
    unfold t1 in *. by rewrite Hb in *.
Qed.
End PacketOps.

#[local] Existing Instances sim_pktmbuf.
#[local] Instance wenv : Env := sim_env quiet_script.

(** Three bytes of data between 10 bytes of headroom and 12 of tailroom. *)
Definition w_small : mbuf := Mbuf 1 (repeat 0 10 ++ [1; 2; 3] ++ repeat 0 12) 10 3 3.

Lemma operations_correct_witness :
  load_bytes (operated w_small) 0 14 = [72; 72; 72; 72; 72; 1; 2; 3; 68; 80; 68; 75; 45; 77] /\
  wp (operations w_small)
     (fun m' s' t' => same_acct [] t' /\ mb_id m' = mb_id w_small /\ data_off m' = data_off w_small - 5 /\
        data_len m' = data_len w_small + 11 /\ pkt_len m' = pkt_len w_small + 11 /\
        forall k, 0 <= k < data_len m' ->
          load8 m' k = if k <? 5 then 72 else if k <? 5 + data_len w_small then load8 w_small (k - 5)
                       else get [68; 80; 68; 75; 45; 77] (k - 5 - data_len w_small))
     (fun _ _ _ => False) tt [].
Proof. split; [by vm_compute|]. apply operations_correct. by split. Defined.
