(* ===== verification/Vxlan.v ===== *)
(** * vxlan/main.c: a VXLAN encapsulating and decapsulating forwarder *)

From S2P Require Import Prelude Rte Env Packet Ownership Sim.

Definition NUM_MBUFS := 8191.
Definition MBUF_CACHE_SIZE := 250.
Definition BURST_SIZE := 32.
Definition VXLAN_PORT := 4789.
Definition VXLAN_VNI := 100.
Definition RTE_MBUF_DEFAULT_BUF_SIZE := 2176.
Definition EXIT_FAILURE := 1.

(** The MAKE_IPV4 macro. *)
Definition MAKE_IPV4 (a b c d : Z) : Z :=
  u32 (Z.lor (Z.lor (Z.lor (Z.shiftl (Z.land a 255) 24) (Z.shiftl (Z.land b 255) 16))
                    (Z.shiftl (Z.land c 255) 8)) (Z.land d 255)).

Definition ENCAP_LEN := sizeof_ether_hdr + sizeof_ipv4_hdr + sizeof_udp_hdr + sizeof_vxlan_hdr.

(** Offsets of the UDP and VXLAN headers of an encapsulated packet. *)
Definition UDP_SPORT := 34.
Definition UDP_DPORT := 36.
Definition VX_FLAGS := 42.
Definition VX_VNI := 46.

Section Vxlan.
Context {BO : Byteorder} {CK : Cksum} {PM : Pktmbuf} {E : Env}.
Notation M := (M unit).

(** The headers, field by field, into the prepended bytes. *)
Definition write_headers (pkt_len : Z) (m : mbuf) : mbuf :=
  let m := store_bytes m ETH_DST [8; 0; 39; 171; 205; 239] in
  let m := store_bytes m ETH_SRC [8; 0; 39; 18; 52; 86] in
  let m := store16 m ETH_TYPE (rte_cpu_to_be_16 RTE_ETHER_TYPE_IPV4) in
  let m := store8 m IP_VERSION_IHL 69 in
  let m := store8 m IP_TOS 0 in
  let m := store16 m IP_TOTAL_LENGTH (rte_cpu_to_be_16
             (u16 (sizeof_ipv4_hdr + sizeof_udp_hdr + sizeof_vxlan_hdr + pkt_len))) in
  let m := store16 m IP_PACKET_ID 0 in
  let m := store16 m IP_FRAGMENT_OFFSET 0 in
  let m := store8 m IP_TTL 64 in
  let m := store8 m IP_PROTO IPPROTO_UDP in
  let m := store32 m IP_SRC (rte_cpu_to_be_32 (MAKE_IPV4 10 0 0 1)) in
  store32 m IP_DST (rte_cpu_to_be_32 (MAKE_IPV4 10 0 0 2)).

Definition write_udp_vxlan (pkt_len : Z) (m : mbuf) : mbuf :=
  let m := store16 m UDP_SPORT (rte_cpu_to_be_16 12345) in
  let m := store16 m UDP_DPORT (rte_cpu_to_be_16 VXLAN_PORT) in
  let m := store16 m UDP_LEN (rte_cpu_to_be_16
             (u16 (sizeof_udp_hdr + sizeof_vxlan_hdr + pkt_len))) in
  let m := store16 m UDP_CKSUM 0 in
  let m := store32 m VX_FLAGS (rte_cpu_to_be_32 134217728) in
  store32 m VX_VNI (rte_cpu_to_be_32 (Z.shiftl VXLAN_VNI 8)).

Definition vxlan_encap (m : mbuf) : M mbuf :=
  let pkt_len := u16 (pkt_len m) in
  m <-- deref (rte_pktmbuf_prepend m ENCAP_LEN) ;;
  let m := write_headers pkt_len m in
  let m := store16 m IP_CKSUM (rte_ipv4_cksum (at_off m IP)) in
  let m := write_udp_vxlan pkt_len m in
  printf "Encapsulated packet into VXLAN VNI=%d len=%u\n" [PInt VXLAN_VNI; PInt pkt_len] ;;
  ret m.

(** The result is the return value and the packet; a failed [rte_pktmbuf_adj]
    goes unnoticed. *)
Definition vxlan_decap (m : mbuf) : M (Z * mbuf) :=
  if negb (load16 m ETH_TYPE =? rte_cpu_to_be_16 RTE_ETHER_TYPE_IPV4) then ret (-1, m)
  else if negb (load8 m IP_PROTO =? IPPROTO_UDP) then ret (-1, m)
  else if negb (load16 m UDP_DPORT =? rte_cpu_to_be_16 VXLAN_PORT) then ret (-1, m)
  else
    let m := match rte_pktmbuf_adj m ENCAP_LEN with Some m' => m' | None => m end in
    printf "Decapsulated VXLAN packet\n" [] ;;
    ret (0, m).

Definition port_init (mbuf_pool port : Z) : M Z :=
  r <-- call (rte_eth_dev_configure port 1 1) ;;
  if negb (r =? 0) then ret r else
  r <-- call (rte_eth_rx_queue_setup port 0 128 mbuf_pool) ;;
  if r <? 0 then ret r else
  r <-- call (rte_eth_tx_queue_setup port 0 512) ;;
  if r <? 0 then ret r else
  r <-- call (rte_eth_dev_start port) ;;
  if r <? 0 then ret r else
  _ <-- call (rte_eth_promiscuous_enable port) ;;
  printf "Initialized port %u\n" [PInt port] ;;
  ret 0.

(** One packet of the burst: decapsulated or encapsulated, then sent alone. *)
Definition forward (m : mbuf) : M unit :=
  let* (r, m) := vxlan_decap m in
  m <-- (if r =? 0 then printf "Forwarding decapsulated packet\n" [] ;; ret m
         else printf "Encapsulating packet\n" [] ;; vxlan_encap m) ;;
  _ <-- rte_eth_tx_burst 1 0 [m] ;; ret tt.

Definition loop_body (_ : unit) : M unit :=
  bufs <-- rte_eth_rx_burst 0 0 BURST_SIZE ;;
  when (negb (zlen bufs =? 0)) (printf "Received %u packets\n" [PInt (zlen bufs)]) ;;
  _ <-- for_each forward bufs ;; ret tt.

(** The first [n] iterations. *)
Definition main (n : nat) : M unit :=
  r <-- call rte_eal_init ;;
  when (r <? 0) (rte_exit EXIT_FAILURE) ;;
  mbuf_pool <-- call (rte_pktmbuf_pool_create "MBUF_POOL" (NUM_MBUFS * 2) MBUF_CACHE_SIZE 0
                        RTE_MBUF_DEFAULT_BUF_SIZE) ;;
  when (mbuf_pool =? 0) (rte_exit EXIT_FAILURE) ;;
  r0 <-- port_init mbuf_pool 0 ;;
  when (negb (r0 =? 0)) (rte_exit EXIT_FAILURE) ;;
  r1 <-- port_init mbuf_pool 1 ;;
  when (negb (r1 =? 0)) (rte_exit EXIT_FAILURE) ;;
  printf "VXLAN forwarder started\n" [] ;;
  forever n loop_body tt.

(** ** The encapsulated packet *)

#[local] Ltac offs :=
  unfold ENCAP_LEN, ETH_DST, ETH_SRC, ETH_TYPE, IP_VERSION_IHL, IP_TOS, IP_TOTAL_LENGTH, IP_PACKET_ID,
    IP_FRAGMENT_OFFSET, IP_TTL, IP_PROTO, IP_CKSUM, IP_SRC, IP_DST, UDP_SPORT, UDP_DPORT, UDP_LEN,
    UDP_CKSUM, VX_FLAGS, VX_VNI, IP, sizeof_ether_hdr, sizeof_ipv4_hdr, sizeof_udp_hdr,
    sizeof_vxlan_hdr, IPPROTO_UDP in *.

(** The IPv4 header as written before its checksum is computed, then the whole. *)
Definition headed (plen : Z) (m : mbuf) : mbuf :=
  let m1 := write_headers plen m in
  write_udp_vxlan plen (store16 m1 IP_CKSUM (rte_ipv4_cksum (at_off m1 IP))).

Section Encap.
Context (m : mbuf) (Hr : room m 50) (Hb : bytes_ok m) (plen : Z).

Lemma write_headers_frame : frame_but [(0, 50)] m (write_headers plen m).
Proof. unfold write_headers. offs. frame_in 50. eapply frame_but_weaken; [by apply frame_but_refl|]. clear; set_solver. Qed.

Lemma write_headers_room : room (write_headers plen m) 50.
Proof. eapply frame_room; [apply write_headers_frame|done]. Qed.
Lemma write_headers_bytes : bytes_ok (write_headers plen m).
Proof. eapply frame_bytes, write_headers_frame. Qed.

Lemma headed_frame : frame_but [(0, 50)] m (headed plen m).
Proof.
  unfold headed, write_udp_vxlan. offs. cbv zeta. pose proof write_headers_frame as F.
  set (m1 := write_headers plen m) in *. clearbody m1. by frame_in 50.
Qed.

(** Below the UDP header nothing changes after the checksum is stored. *)
Lemma headed_ip i :
  0 <= i < 34 ->
  load8 (headed plen m) i =
    load8 (store16 (write_headers plen m) IP_CKSUM
             (rte_ipv4_cksum (at_off (write_headers plen m) IP))) i.
Proof.
  intros Hi. pose proof write_headers_room as R. unfold headed, write_udp_vxlan. cbv zeta.
  set (m1 := write_headers plen m) in *. clearbody m1. offs. by mem 50.
Qed.

Lemma write_headers_loads :
  let m1 := write_headers plen m in
  load16 m1 ETH_TYPE = bswap16 2048 /\ load8 m1 IP_VERSION_IHL = 69 /\ load8 m1 IP_PROTO = 17 /\
  load16 m1 IP_TOTAL_LENGTH = bswap16 (u16 (36 + plen)) /\
  load16 m1 IP_CKSUM = load16 m IP_CKSUM /\
  load32 m1 IP_SRC = of_le32 10 0 0 1 /\ load32 m1 IP_DST = of_le32 10 0 0 2.
Proof.
  unfold write_headers. offs. rewrite !cpu_to_be_16_law by first [done | apply u16_range].
  rewrite !cpu_to_be_32_law by (unfold MAKE_IPV4; apply u32_range). cbv zeta.
  change (rte_cpu_to_be_16 RTE_ETHER_TYPE_IPV4) with (rte_cpu_to_be_16 2048).
  split_and!; mem 50; done.
Qed.

Lemma headed_loads :
  let m' := headed plen m in
  load16 m' ETH_TYPE = bswap16 2048 /\ load8 m' IP_VERSION_IHL = 69 /\ load8 m' IP_PROTO = 17 /\
  load16 m' IP_TOTAL_LENGTH = bswap16 (u16 (36 + plen)) /\
  load32 m' IP_SRC = of_le32 10 0 0 1 /\ load32 m' IP_DST = of_le32 10 0 0 2 /\
  load16 m' UDP_DPORT = bswap16 4789 /\ load16 m' UDP_LEN = bswap16 (u16 (16 + plen)) /\
  load16 m' UDP_CKSUM = 0 /\
  load32 m' VX_FLAGS = of_le32 8 0 0 0 /\ load32 m' VX_VNI = of_le32 0 0 100 0.
Proof.
  pose proof write_headers_room as R. pose proof write_headers_loads as L. cbv zeta in L |- *.
  unfold headed, write_udp_vxlan. cbv zeta.
  set (m1 := write_headers plen m) in *. clearbody m1. unfold VXLAN_PORT, VXLAN_VNI.
  rewrite !cpu_to_be_16_law by first [done | apply u16_range]. rewrite !cpu_to_be_32_law by done.
  offs. destruct L as (L1 & L2 & L3 & L4 & _ & L5 & L6).
  split_and!; mem 50; done.
Qed.

End Encap.

(** ** Encapsulation and decapsulation *)

Definition prepended (m : mbuf) : mbuf :=
  resize m (data_off m - 50) (u16 (data_len m + 50)) (u32 (pkt_len m + 50)).

Lemma wp_encap m (Q : mbuf -> unit -> trace -> Prop) X s t :
  50 <= data_off m ->
  (forall t', same_acct t t' -> Q (headed (u16 (pkt_len m)) (prepended m)) s t') ->
  wp (vxlan_encap m) Q X s t.
Proof.
  intros Ho HQ. unfold vxlan_encap. wp_step. eapply wp_deref.
  { rewrite prepend_law by done. destruct (Z.ltb_spec (data_off m) ENCAP_LEN) as [Hl|_]; [|done].
    change ENCAP_LEN with 50 in Hl. lia. }
  wp_steps. by apply HQ.
Qed.

Lemma prepended_room m : 50 <= data_off m -> room m 0 -> room (prepended m) 50.
Proof. unfold room, prepended. simpl. lia. Qed.

Lemma load8_prepended m i : load8 (prepended m) i = load8 m (i - 50).
Proof. unfold load8, prepended. simpl. f_equal. lia. Qed.

(** Decapsulation only looks at three fields. *)
Definition is_vxlan (m : mbuf) : bool :=
  (load16 m ETH_TYPE =? bswap16 2048) && (load8 m IP_PROTO =? 17) && (load16 m UDP_DPORT =? bswap16 4789).

Lemma headed_vxlan plen m : room m 50 -> bytes_ok m -> is_vxlan (headed plen m) = true.
Proof.
  intros R B. destruct (headed_loads m R B plen) as (L1 & _ & L3 & _ & _ & _ & L7 & _).
  unfold is_vxlan. by rewrite L1, L3, L7, !Z.eqb_refl.
Qed.

(** Taking the 50 bytes off again. *)
Lemma resize_back m m' :
  frame_but [(0, 50)] (prepended m) m' -> is_u16 (data_len m + 50) -> 0 <= data_len m ->
  is_u32 (pkt_len m) ->
  let m2 := resize m' (data_off m' + 50) (u16 (data_len m' - 50)) (u32 (pkt_len m' - 50)) in
  data_len m' = data_len m + 50 /\ same_frame m m2 /\ forall i, 0 <= i -> load8 m2 i = load8 m i.
Proof.
  intros ((S1 & S2 & S3 & S4 & S5) & _ & F) Hl Hl0 Hp. cbv zeta.
  change (data_off (prepended m)) with (data_off m - 50) in S2.
  change (data_len (prepended m)) with (u16 (data_len m + 50)) in S3.
  change (pkt_len (prepended m)) with (u32 (pkt_len m + 50)) in S4.
  rewrite u16_small in S3 by done. split; [done|]. split.
  - unfold same_frame, resize. cbn [mb_id mb_buf data_off data_len pkt_len]. rewrite S2, S3, S4.
    split_and!; [done|lia| | |done].
    + replace (data_len m + 50 - 50) with (data_len m) by lia. apply u16_small. words.
    + unfold u32. rewrite Zminus_mod_idemp_l.
      replace (pkt_len m + 50 - 50) with (pkt_len m) by lia. by apply u32_small.
  - intros i Hi. transitivity (load8 m' (50 + i)).
    + unfold load8, resize. cbn [mb_buf data_off]. f_equal. lia.
    + rewrite F, load8_prepended; [f_equal; lia|lia|simpl; lia].
Qed.

Lemma vxlan_decap_spec m s t :
  wp (vxlan_decap m) (fun r s' t' => s' = s /\ same_acct t t' /\
  r = if is_vxlan m then
          (0, if data_len m <? 50 then m
              else resize m (data_off m + 50) (u16 (data_len m - 50)) (u32 (pkt_len m - 50)))
        else (-1, m)) (fun _ _ _ => False) s t.
Proof.
  unfold vxlan_decap, is_vxlan, RTE_ETHER_TYPE_IPV4, VXLAN_PORT.
  rewrite !cpu_to_be_16_law by done. unfold IPPROTO_UDP.
  destruct (_ =? bswap16 2048); simpl; [|by wp_steps].
  destruct (_ =? 17); simpl; [|by wp_steps].
  destruct (_ =? bswap16 4789); simpl; [|by wp_steps].
  wp_steps. split; [done|]. split; [done|]. f_equal. rewrite adj_law by done.
  change ENCAP_LEN with 50. by destruct (data_len m <? 50).
Qed.

(** C22: Decapsulation undoes encapsulation: for every packet with 50 bytes of headroom whose
    length leaves 16 bits room for them, [vxlan_decap] accepts what
    [vxlan_encap] made and gives back the packet: same place, same lengths,
    same bytes. *)
Theorem decap_encap m s t :
  50 <= data_off m -> room m 0 -> bytes_ok m -> is_u16 (data_len m + 50) -> 0 <= data_len m ->
  is_u32 (pkt_len m) ->
  wp (m' <-- vxlan_encap m ;; vxlan_decap m')
    (fun r s' t' => same_acct t t' /\ r.1 = 0 /\ same_frame m r.2 /\
  forall i, 0 <= i -> load8 r.2 i = load8 m i)
    (fun _ _ _ => False) s t.
Proof.
  intros Ho Hr Hb Hl Hl0 Hp. wp_step. apply wp_encap; [done|]. intros t1 A1.
  pose proof (prepended_room m Ho Hr) as R. assert (bytes_ok (prepended m)) as B by done.
  set (plen := u16 (pkt_len m)).
  pose proof (headed_frame _ R B plen) as F. pose proof (headed_vxlan plen _ R B) as V.
  set (m' := headed plen (prepended m)) in *. clearbody m'.
  destruct (resize_back m m' F Hl Hl0 Hp) as (El & S & L).
  eapply wp_mono; [apply vxlan_decap_spec| |done]. intros r s2 t2 (_ & A2 & ->).
  split; [by eapply same_acct_trans|]. rewrite V. cbn [fst snd].
  destruct (Z.ltb_spec (data_len m') 50); [lia|]. by split_and!.
Qed.

(** What [vxlan_encap] produces: the packet behind the new headers is untouched; the outer
    headers are IPv4 from 10.0.0.1 to 10.0.0.2, UDP to port 4789 without
    checksum and VXLAN with VNI 100, with the lengths of the packet; but the
    IPv4 checksum, computed over a field that is never cleared, is valid exactly
    when the two headroom bytes it overwrites were 0 modulo 65535. *)
Theorem vxlan_encap_correct m s t :
  50 <= data_off m -> room m 0 -> bytes_ok m -> is_u16 (pkt_len m + 36) -> 0 <= pkt_len m ->
  wp (vxlan_encap m)
    (fun m' s' t' => same_acct t t' /\ mb_id m' = mb_id m /\ data_off m' = data_off m - 50 /\
  pkt_len m' = pkt_len m + 50 /\
  (forall i, 0 <= i -> load8 m' (50 + i) = load8 m i) /\
  load16 m' ETH_TYPE = bswap16 2048 /\ load8 m' IP_PROTO = 17 /\
  load16 m' IP_TOTAL_LENGTH = bswap16 (36 + pkt_len m) /\
  load_bytes m' IP_SRC 4 = [10; 0; 0; 1] /\ load_bytes m' IP_DST 4 = [10; 0; 0; 2] /\
  load16 m' UDP_DPORT = bswap16 4789 /\ load16 m' UDP_LEN = bswap16 (16 + pkt_len m) /\
  load16 m' UDP_CKSUM = 0 /\
  load_bytes m' VX_FLAGS 4 = [8; 0; 0; 0] /\ load_bytes m' VX_VNI 4 = [0; 0; 100; 0] /\
  (ipv4_cksum_ok (at_off m' IP) <-> load16 m (-26) mod 65535 = 0))
    (fun _ _ _ => False) s t.
Proof.
  intros Ho Hr Hb Hl Hp. apply wp_encap; [done|]. intros t1 A1. split; [done|].
  pose proof (prepended_room m Ho Hr) as R. assert (bytes_ok (prepended m)) as B by done.
  rewrite (u16_small (pkt_len m)) by words.
  pose proof (headed_frame _ R B (pkt_len m)) as F. pose proof (headed_loads _ R B (pkt_len m)) as L.
  pose proof (headed_ip _ R B (pkt_len m)) as I. pose proof (write_headers_loads _ R (pkt_len m)) as W.
  pose proof (write_headers_room _ R B (pkt_len m)) as Rw.
  pose proof (write_headers_bytes _ R B (pkt_len m)) as Bw. cbv zeta in L, W.
  set (m1 := write_headers (pkt_len m) (prepended m)) in *.
  set (m' := headed (pkt_len m) (prepended m)) in *. clearbody m' m1.
  destruct L as (L1 & L2 & L3 & L4 & L5 & L6 & L7 & L8 & L9 & L10 & L11).
  pose proof (frame_bytes _ _ _ F) as B'.
  rewrite !u16_small in L4, L8 by words.
  destruct F as ((S1 & S2 & S3 & S4 & S5) & _ & F).
  unfold prepended in S1, S2, S4. simpl in S1, S2, S4. rewrite u32_small in S4 by words.
  split; [done|]. split; [done|]. split; [done|]. split.
  { intros i Hi. rewrite F, load8_prepended; [f_equal; lia|lia|simpl; lia]. }
  split; [done|]. split; [done|]. split; [done|].
  split; [by apply (le32_bytes_of _ IP_SRC 10 0 0 1)|].
  split; [by apply (le32_bytes_of _ IP_DST 10 0 0 2)|].
  split; [done|]. split; [done|]. split; [done|].
  split; [by apply (le32_bytes_of _ VX_FLAGS 8 0 0 0)|].
  split; [by apply (le32_bytes_of _ VX_VNI 0 0 100 0)|].
  destruct W as (_ & W2 & _ & _ & W5 & _).
  replace (load16 m (-26)) with (load16 m1 IP_CKSUM).
  2:{ rewrite W5. unfold load16. by rewrite !load8_prepended. }
  set (m2 := store16 m1 IP_CKSUM (rte_ipv4_cksum (at_off m1 IP))) in *.
  assert (forall i, 0 <= i < 10 \/ 12 <= i -> at_off m2 IP i = at_off m1 IP i) as E2.
  { intros i Hi. unfold at_off. apply (load8_store16_ne _ _ _ _ 50); try done.
    unfold outside, IP, IP_CKSUM. lia. }
  rewrite (ipv4_cksum_ok_ext (at_off m2 IP)).
  - apply (ipv4_cksum_stored (at_off m1 IP)).
    + intros. by apply at_off_byte.
    + unfold ihl_ok, at_off. change (IP + 0) with IP_VERSION_IHL. by rewrite W2.
    + intros i Hi Hi1 Hi2. apply E2. lia.
    + by rewrite at_off_load16.
    + rewrite at_off_load16. apply (load16_store16_eq _ _ _ 50); [done|done|done|].
      apply ipv4_cksum_range. intros. by apply at_off_byte.
  - rewrite E2 by lia. unfold at_off. change (IP + 0) with IP_VERSION_IHL. by rewrite W2.
  - intros i Hi. unfold at_off. apply I. unfold IP. lia.
Qed.
(** ** The forwarder *)

Lemma headed_id plen m : mb_id (headed plen m) = mb_id m.
Proof. done. Qed.

Lemma forward_spec m held s t :
  50 <= data_off m -> owned (mb_id m :: held ++ refused_ids t) t ->
  wp (forward m) (fun _ s' t' => owned (held ++ refused_ids t') t') (fun _ _ _ => False) s t.
Proof.
  intros Ho Hw. unfold forward. wp_step. eapply wp_mono; [apply vxlan_decap_spec| |done].
  assert (forall m' k t2, mb_id m' = mb_id m -> same_acct t t2 ->
    owned (held ++ refused_ids (EvTx 1 0 [m'] k :: t2)) (EvTx 1 0 [m'] k :: t2)) as Htx.
  { intros m' k t2 Hid A. apply owned_tx_ignored.
    simpl. rewrite Hid. apply (owned_acct _ t); [done|]. by destruct A as (_ & _ & _ & ->). }
  intros [r m1] s2 t2 (_ & A2 & Er). cbn beta iota. wp_step.
  destruct (is_vxlan m); injection Er as -> ->; cbn [Z.eqb].
  - wp_steps. apply wp_tx. intros k _. wp_steps.
    apply Htx; [by destruct (data_len m <? 50)|by eapply same_acct_trans].
  - wp_steps. apply wp_encap; [done|]. intros t4 A4. wp_steps. apply wp_tx. intros k _. wp_steps.
    apply Htx; [done|]. eapply same_acct_trans; [exact A2|]. by eapply same_acct_trans; [|exact A4].
Qed.

(** A packet without 50 bytes of headroom that is not VXLAN makes the forwarder write its
    headers through the NULL that [rte_pktmbuf_prepend] returns. *)
Theorem encap_without_headroom m s t :
  data_off m < 50 -> is_vxlan m = false -> exists t', forward m s t = Fault s t'.
Proof.
  intros Ho Hv. unfold forward. unfold bind at 1.
  pose proof (vxlan_decap_spec m s t) as D. unfold wp in D.
  destruct (vxlan_decap m s t) as [r s1 t1|c s1 t1|s1 t1]; [|done|done].
  destruct D as (-> & _ & ->). rewrite Hv. cbn beta iota. unfold vxlan_encap.
  rewrite prepend_law by done. change ENCAP_LEN with 50.
  destruct (Z.ltb_spec (data_off m) 50); [|lia]. by eexists.
Qed.

(** Given the headroom (the default of DPDK is 128 bytes), the forwarder never faults in any
    number of iterations, exits only before traffic, and every buffer it
    received was handed back exactly once or is one that the NIC refused: those
    are lost, since the result of the transmission is ignored. *)
Theorem vxlan_main_leaks_refused n :
  (forall t p q k, Forall (fun m => 50 <= data_off m) (env_rx t p q k)) ->
  wp (main n) (fun _ _ t => owned (refused_ids t) t)
    (fun c _ t => c = EXIT_FAILURE /\ rx_ids t = []) tt [].
Proof.
  intros Hh.
  assert (forall pool port (s : unit) t, owned [] t -> rx_ids t = [] -> refused_ids t = [] ->
    wp (port_init pool port) (fun _ _ t' => owned [] t' /\ rx_ids t' = [] /\ refused_ids t' = [])
      (fun _ _ _ => False) s t) as Hport by (intros; unfold port_init; by wp_steps).
  unfold main. wp_steps; try done.
  eapply wp_mono; [apply Hport; [apply owned_nil|done|done]| |done]. intros v0 s0 t0 (O0 & R0 & F0). wp_steps; [done|].
  eapply wp_mono; [by apply Hport| |done]. intros v1 s1 t1 (O1 & R1 & F1). wp_steps; [done|].
  eapply wp_mono; [apply (wp_forever (fun _ _ t => owned (refused_ids t) t) _ (fun _ _ _ => False))| |done].
  2:{ simpl. by rewrite F1. }
  2: done.
  intros [] s2 t2 O2. unfold loop_body. wp_step.
  unfold wp at 1, rte_eth_rx_burst. set (bufs := env_rx t2 0 0 BURST_SIZE).
  pose proof (Hh t2 0 0 BURST_SIZE) as Hb. fold bufs in Hb.
  apply (owned_rx _ 0 0 BURST_SIZE bufs) in O2. change (refused_ids t2) with (refused_ids (EvRx 0 0 BURST_SIZE bufs :: t2)) in O2.
  set (t3 := EvRx 0 0 BURST_SIZE bufs :: t2) in *. clearbody t3 bufs.
  wp_step.
  eapply (wp_mono _ (fun _ _ t' => same_acct t3 t') _ (fun _ _ _ => False)); [by wp_steps| |done].
  intros _ s3 t4 A. apply (owned_acct _ _ t4 A) in O2.
  replace (refused_ids t3) with (refused_ids t4) in O2 by apply A.
  wp_step. eapply wp_mono; [apply (wp_for_each (fun pre _ _ t' =>
    forall post, bufs = pre ++ post -> owned (ids post ++ refused_ids t') t') _ (fun _ _ _ => False))| |done].
  - intros pre m post rs s5 t5 Hbufs H5.
    assert (50 <= data_off m) as Hm.
    { rewrite Hbufs in Hb. apply Forall_app in Hb as [_ Hb]. by inversion Hb. }
    eapply wp_mono; [apply (forward_spec m (ids post)); [done|by apply (H5 (m :: post))]| |done].
    intros u6 s6 t6 O6 post' Hp. rewrite Hbufs, <- app_assoc in Hp. apply app_inv_head in Hp.
    injection Hp as Hp. by rewrite <- Hp.
  - intros post ->. done.
  - intros rs s5 t5 H5. wp_steps. by apply (H5 []), eq_sym, app_nil_r.
Qed.
End Vxlan.

(** ** Witnesses *)

#[local] Existing Instances sim_byteorder sim_cksum sim_pktmbuf.

(** A TCP packet behind 128 bytes of headroom. *)
Definition with_headroom (b : Z) (m : mbuf) : mbuf :=
  Mbuf (mb_id m) (repeat b 128 ++ mb_buf m) 128 (data_len m) (pkt_len m).
Definition w_plain : mbuf :=
  mk_packet 1 [192; 168; 0; 2] [192; 168; 0; 3] IPPROTO_TCP [4; 210] [0; 80].
Definition w_room : mbuf := with_headroom 7 w_plain.
#[local] Instance wenv : Env :=
  sim_env (Script (fun a => match a with rte_pktmbuf_pool_create _ _ _ _ _ => 1 | _ => 0 end)
             [] 0 (fun _ => 0) true None 1000).

Lemma vx_w_bytes : bytes_ok w_room. Proof. by apply Forall_u8_dec. Qed.

Lemma decap_encap_witness :
  wp (m' <-- vxlan_encap w_room ;; vxlan_decap m')
    (fun r s' t' => same_acct [] t' /\ r.1 = 0 /\ same_frame w_room r.2 /\
       forall i, 0 <= i -> load8 r.2 i = load8 w_room i)
    (fun _ _ _ => False) tt [].
Proof. apply decap_encap; [done|done|apply vx_w_bytes|done|done|done]. Defined.

(** With a headroom of sevens the IPv4 checksum is wrong. *)
Lemma vxlan_encap_correct_witness :
  load16 w_room (-26) mod 65535 <> 0 /\
  wp (vxlan_encap w_room)
    (fun m' s' t' => same_acct [] t' /\ mb_id m' = mb_id w_room /\ data_off m' = data_off w_room - 50 /\
       pkt_len m' = pkt_len w_room + 50 /\
       (forall i, 0 <= i -> load8 m' (50 + i) = load8 w_room i) /\
       load16 m' ETH_TYPE = bswap16 2048 /\ load8 m' IP_PROTO = 17 /\
       load16 m' IP_TOTAL_LENGTH = bswap16 (36 + pkt_len w_room) /\
       load_bytes m' IP_SRC 4 = [10; 0; 0; 1] /\ load_bytes m' IP_DST 4 = [10; 0; 0; 2] /\
       load16 m' UDP_DPORT = bswap16 4789 /\ load16 m' UDP_LEN = bswap16 (16 + pkt_len w_room) /\
       load16 m' UDP_CKSUM = 0 /\
       load_bytes m' VX_FLAGS 4 = [8; 0; 0; 0] /\ load_bytes m' VX_VNI 4 = [0; 0; 100; 0] /\
       (ipv4_cksum_ok (at_off m' IP) <-> load16 w_room (-26) mod 65535 = 0))
    (fun _ _ _ => False) tt [].
Proof.
  split; [by vm_compute|]. apply vxlan_encap_correct; [done|done|apply vx_w_bytes|done|done].
Defined.

Lemma encap_without_headroom_witness : exists t', forward w_plain tt [] = Fault tt t'.
Proof. by apply encap_without_headroom. Defined.

Lemma vxlan_main_leaks_refused_witness :
  wp (main 3) (fun _ _ t => owned (refused_ids t) t)
    (fun c _ t => c = EXIT_FAILURE /\ rx_ids t = []) tt [].
Proof.
  apply vxlan_main_leaks_refused. intros t p q k. apply Forall_take, Forall_forall.
  intros m [_ H]%list_elem_of_filter. cbn [sc_bursts] in H. destruct (count_rx t); inversion H.
Defined.
