(* ===== verification/RteAcl.v ===== *)
(** * Access control lists: the interface of rte_acl.h

    A context holds rules; [rte_acl_build] compiles the rules added so far for a
    layout of the key, and [rte_acl_classify] looks a key up.  The ghost
    contents of a context are its rules and what was built of them. *)

From S2P Require Import Prelude Rte.

(** ** Fields and rules *)

Inductive acl_field_type := BITMASK | MASK | RANGE.

(** [struct rte_acl_field_def]: fields with the same [input_index] are in the
    same 4 bytes of the key. *)
Record acl_field_def := FieldDef {
  fd_type : acl_field_type; fd_size : Z; field_index : Z; input_index : Z; fd_offset : Z }.

(** [struct rte_acl_rule]: per field the value and the [mask_range], in host
    order. *)
Record acl_rule := AclRule {
  priority : Z; category_mask : Z; userdata : Z; fields : list (Z * Z) }.

(** The [n] bytes at [o] as a number in network order. *)
Fixpoint be_value (key : list Z) (o : Z) (n : nat) : Z :=
  match n with
  | O => 0
  | S k => 256 * be_value key o k + get key (o + Z.of_nat k)
  end.

Definition field_value (d : acl_field_def) (key : list Z) : Z :=
  be_value key (fd_offset d) (Z.to_nat (fd_size d)).

(** A bit mask of the bits that matter; the length of a prefix; the upper end
    of a range whose lower end is the value. *)
Definition field_matches (d : acl_field_def) (f : Z * Z) (key : list Z) : bool :=
  let v := field_value d key in
  match fd_type d with
  | BITMASK => Z.land v f.2 =? Z.land f.1 f.2
  | MASK => Z.shiftr v (8 * fd_size d - f.2) =? Z.shiftr f.1 (8 * fd_size d - f.2)
  | RANGE => (f.1 <=? v) && (v <=? f.2)
  end.

Fixpoint fields_match (ds : list acl_field_def) (fs : list (Z * Z)) (key : list Z) : bool :=
  match ds, fs with
  | d :: ds', f :: fs' => field_matches d f key && fields_match ds' fs' key
  | [], [] => true
  | _, _ => false
  end.

(** Rules of category 0, the only category of the programs. *)
Definition rule_matches (ds : list acl_field_def) (r : acl_rule) (key : list Z) : bool :=
  Z.testbit (category_mask r) 0 && fields_match ds (fields r) key.

(** The result for a key: 0 if no rule matches, or else the user data of a
    matching rule of the highest priority. *)
Definition acl_verdict (ds : list acl_field_def) (rs : list acl_rule) (key : list Z) (res : Z) : Prop :=
  (res = 0 /\ forall r, r ∈ rs -> rule_matches ds r key = false) \/
  (exists r, r ∈ rs /\ rule_matches ds r key = true /\ userdata r = res /\
     forall r', r' ∈ rs -> rule_matches ds r' key = true -> priority r' <= priority r).

Class RteAcl := {
  rte_acl_ctx : Type;
  acl_rules : rte_acl_ctx -> list acl_rule;
  acl_built : rte_acl_ctx -> option (list acl_field_def * list acl_rule);
  rte_acl_empty : Z -> rte_acl_ctx;                                     (* for max_rule_num *)
  rte_acl_add_rules : rte_acl_ctx -> list acl_rule -> Z * rte_acl_ctx;
  rte_acl_build : rte_acl_ctx -> list acl_field_def -> Z * rte_acl_ctx; (* for one category *)
  rte_acl_classify : rte_acl_ctx -> list Z -> Z;
  acl_empty_law n : acl_rules (rte_acl_empty n) = [] /\ acl_built (rte_acl_empty n) = None;
  acl_add_law c rs :
    acl_rules (rte_acl_add_rules c rs).2 =
      (if (rte_acl_add_rules c rs).1 <? 0 then acl_rules c else acl_rules c ++ rs) /\
    acl_built (rte_acl_add_rules c rs).2 = acl_built c;
  acl_build_law c ds :
    acl_rules (rte_acl_build c ds).2 = acl_rules c /\
    ((rte_acl_build c ds).1 = 0 -> acl_built (rte_acl_build c ds).2 = Some (ds, acl_rules c));
  acl_classify_law c ds rs key :
    acl_built c = Some (ds, rs) -> acl_verdict ds rs key (rte_acl_classify c key)
}.

(** ** Verdicts of short rule lists *)

Lemma verdict_one ds r key res :
  acl_verdict ds [r] key res -> res = if rule_matches ds r key then userdata r else 0.
Proof.
  intros [[-> H]|(r' & Hr & Hm & <- & _)].
  - by rewrite (H r) by (by apply list_elem_of_singleton).
  - apply list_elem_of_singleton in Hr as ->. by rewrite Hm.
Qed.

(** The first of the matching rules, when the priorities decrease strictly. *)
Fixpoint first_match (ds : list acl_field_def) (rs : list acl_rule) (key : list Z) : Z :=
  match rs with
  | [] => 0
  | r :: rs' => if rule_matches ds r key then userdata r else first_match ds rs' key
  end.
Fixpoint decreasing (rs : list acl_rule) : Prop :=
  match rs with
  | [] => True
  | r :: rs' => Forall (fun r' => priority r' < priority r) rs' /\ decreasing rs'
  end.

Lemma verdict_decreasing ds rs key res :
  decreasing rs -> acl_verdict ds rs key res -> res = first_match ds rs key.
Proof.
  induction rs as [|r rs IH]; intros Hd Hv; simpl.
  - destruct Hv as [[-> _]|(r & Hr & _)]; [done|]. by apply not_elem_of_nil in Hr.
  - destruct Hd as [Hf Hd]. destruct (rule_matches ds r key) eqn:Hm.
    + destruct Hv as [[_ H]|(r' & Hr & _ & <- & Hp)].
      * rewrite (H r) in Hm; [done|left].
      * apply elem_of_cons in Hr as [->|Hr]; [done|].
        rewrite Forall_forall in Hf. specialize (Hf r' Hr). specialize (Hp r ltac:(left) Hm). lia.
    + apply IH; [done|]. destruct Hv as [[-> H]|(r' & Hr & Hm' & <- & Hp)].
      * left. split; [done|]. intros r' Hr. apply H. by right.
      * apply elem_of_cons in Hr as [->|Hr]; [congruence|]. right. exists r'.
        split_and!; try done. intros r2 Hr2. apply Hp. by right.
Qed.

(** ** A concrete instance *)

Fixpoint best_match (ds : list acl_field_def) (rs : list acl_rule) (key : list Z) : option acl_rule :=
  match rs with
  | [] => None
  | r :: rs' =>
      match best_match ds rs' key with
      | Some b => if rule_matches ds r key && (priority b <? priority r) then Some r else Some b
      | None => if rule_matches ds r key then Some r else None
      end
  end.

Lemma best_match_verdict ds rs key :
  acl_verdict ds rs key (match best_match ds rs key with Some r => userdata r | None => 0 end) /\
  (best_match ds rs key = None -> forall r, r ∈ rs -> rule_matches ds r key = false) /\
  (forall b, best_match ds rs key = Some b -> b ∈ rs /\ rule_matches ds b key = true /\
     forall r, r ∈ rs -> rule_matches ds r key = true -> priority r <= priority b).
Proof.
  assert (G : (best_match ds rs key = None -> forall r, r ∈ rs -> rule_matches ds r key = false) /\
    (forall b, best_match ds rs key = Some b -> b ∈ rs /\ rule_matches ds b key = true /\
     forall r, r ∈ rs -> rule_matches ds r key = true -> priority r <= priority b)).
  { induction rs as [|r rs [IH1 IH2]]; simpl.
    - split; [|done]. intros _ r Hr. by apply not_elem_of_nil in Hr.
    - destruct (best_match ds rs key) as [b|].
      + destruct (IH2 b eq_refl) as (Hb & Hm & Hp). split; [by destruct (_ && _)|]. intros b'.
        destruct (rule_matches ds r key) eqn:Hr; simpl; [destruct (Z.ltb_spec (priority b) (priority r))|];
          intros [= <-].
        * split; [left|]. split; [done|]. intros r' [->|Hr']%elem_of_cons Hm'; [lia|].
          specialize (Hp r' Hr' Hm'). lia.
        * split; [by right|]. split; [done|]. intros r' [->|Hr']%elem_of_cons Hm'; [lia|auto].
        * split; [by right|]. split; [done|]. intros r' [->|Hr']%elem_of_cons Hm'; [congruence|auto].
      + destruct (rule_matches ds r key) eqn:Hr; (split; [|]); try done.
        * intros b [= <-]. split; [left|]. split; [done|].
          intros r' [->|Hr']%elem_of_cons Hm'; [lia|]. by rewrite (IH1 eq_refl r' Hr') in Hm'.
        * intros _ r' [->|Hr']%elem_of_cons; [done|]. by apply IH1. }
  split; [|done]. destruct G as [G1 G2]. destruct (best_match ds rs key) as [b|].
  - right. exists b. destruct (G2 b eq_refl) as (? & ? & ?). by split_and!.
  - left. split; [done|]. by apply G1.
Qed.

(** The capacity, the rules and what was built; a full context refuses rules. *)
Definition sim_acl : RteAcl.
Proof.
  refine {| rte_acl_ctx := Z * list acl_rule * option (list acl_field_def * list acl_rule);
            acl_rules c := c.1.2; acl_built c := c.2;
            rte_acl_empty n := (n, [], None);
            rte_acl_add_rules c rs :=
              if c.1.1 <? zlen (c.1.2 ++ rs) then (-12, c) else (0, (c.1.1, c.1.2 ++ rs, c.2));
            rte_acl_build c ds := (0, (c.1, Some (ds, c.1.2)));
            rte_acl_classify c key :=
              match c.2 with
              | Some (ds, rs) => match best_match ds rs key with Some r => userdata r | None => 0 end
              | None => 0
              end |}.
  - done.
  - intros [[n rs0] b] rs. simpl. by destruct (_ <? _).
  - intros [[n rs0] b] ds. done.
  - intros [[n rs0] b] ds rs key. simpl. intros ->. apply best_match_verdict.
Defined.
