(* ===== verification/PacketParse.v ===== *)
(** * ports/packet_parsing and ports/port_mempool: parsing packets and printing what is found

    [parse_packet] is packet_parsing.c; thread_parsing/threaded_project/parser.c
    has the same function, and [Pipeline] uses it from here.  It is compared
    with a grammar of well-formed frames: [encode] gives the bytes of a frame
    and [describe] the lines that should be printed for it. *)

From S2P Require Import Prelude Rte Env Packet Ownership NatIo Sim.

Definition BURST_SIZE := 32.

(** Offsets in rte_ipv6_hdr and rte_tcp_hdr. *)
Definition IP6_PROTO := 6.
Definition IP6_SRC := 8.
Definition IP6_DST := 24.

(** What the driver notes about a packet in its mbuf besides the lengths. *)
Record mbuf_meta := MbufMeta {
  mb_port : Z; nb_segs : Z; rss : Z; vlan_tci : Z; packet_type : Z;
  l2_type : Z; l3_type : Z; l4_type : Z; tun_type : Z;
  inner_l2_type : Z; inner_l3_type : Z; inner_l4_type : Z }.

(** mk_buff_info.c *)
Definition l2_to_str (t : Z) : string :=
  if t =? 1 then "Ethernet" else if t =? 2 then "VLAN" else if t =? 3 then "QinQ" else "Unknown-L2".
Definition l3_to_str (t : Z) : string :=
  if t =? 1 then "IPv4" else if t =? 2 then "IPv4-EXT" else if t =? 3 then "IPv6"
  else if t =? 4 then "IPv6-EXT" else "Unknown-L3".
Definition l4_to_str (t : Z) : string :=
  if t =? 1 then "TCP" else if t =? 2 then "UDP" else if t =? 3 then "SCTP"
  else if t =? 4 then "ICMP" else "Unknown-L4".

Section Parse.
Context {BO : Byteorder} {E : Env} {S : Type}.
Notation M := (M S).

(** ** packet_parsing.c *)

(** [a] is the array of 16 bytes. *)
Definition print_ipv6_addr (a : list Z) : M unit :=
  for_ 8 0 (fun k _ =>
    let i := 2 * k in
    printf "%02x%02x" [PInt (get a i); PInt (get a (i + 1))] ;;
    when (i <? 14) (printf ":" [])) tt.

Definition print_ports (m : mbuf) (offset : Z) : M unit :=
  printf "   SRC PORT: %u\n" [PInt (rte_be_to_cpu_16 (load16 m offset))] ;;
  printf "   DST PORT: %u\n" [PInt (rte_be_to_cpu_16 (load16 m (offset + 2)))].

(** The branches for the L4 protocols; the results are the values of [offset]. *)
Definition parse_udp (name : string) (m : mbuf) (offset : Z) : M Z :=
  printf name [] ;;
  print_ports m offset ;;
  ret (u16 (offset + sizeof_udp_hdr)).

Definition parse_tcp (m : mbuf) (offset : Z) : M Z :=
  printf "L4: TCP\n" [] ;;
  print_ports m offset ;;
  printf "   SEQ NUM:  %u\n" [PInt (rte_be_to_cpu_32 (load32 m (offset + 4)))] ;;
  printf "   ACK NUM:  %u\n" [PInt (rte_be_to_cpu_32 (load32 m (offset + 8)))] ;;
  printf "   FLAGS:    0x%x\n" [PInt (load8 m (offset + 13))] ;;
  let tcp_hlen := u16 (Z.land (Z.shiftr (load8 m (offset + 12)) 4) 15 * 4) in
  ret (u16 (offset + tcp_hlen)).

Definition parse_tcp6 (m : mbuf) (offset : Z) : M Z :=
  printf "L4: TCP (IPv6)\n" [] ;;
  print_ports m offset ;;
  ret (u16 (offset + sizeof_tcp_hdr)).

Definition parse_icmp (m : mbuf) (offset : Z) : M Z :=
  printf "L4: ICMP\n" [] ;;
  printf "   TYPE: %u\n" [PInt (load8 m offset)] ;;
  printf "   CODE: %u\n" [PInt (load8 m (offset + 1))] ;;
  ret (u16 (offset + sizeof_icmp_hdr)).

(** The four bytes of an address in memory order. *)
Definition ip_args (a : Z) : list parg :=
  [PInt (Z.land a 255); PInt (Z.land (Z.shiftr a 8) 255);
   PInt (Z.land (Z.shiftr a 16) 255); PInt (Z.land (Z.shiftr a 24) 255)].

Definition parse_ipv4 (m : mbuf) (offset : Z) : M Z :=
  printf "L3: IPv4\n" [] ;;
  printf "   SRC IP: %d.%d.%d.%d\n" (ip_args (load32 m (offset + 12))) ;;
  printf "   DST IP: %d.%d.%d.%d\n" (ip_args (load32 m (offset + 16))) ;;
  let proto := load8 m (offset + 9) in
  let ihl := u16 (Z.land (load8 m offset) 15 * 4) in
  let offset := u16 (offset + ihl) in
  if proto =? IPPROTO_UDP then parse_udp "L4: UDP\n" m offset
  else if proto =? IPPROTO_TCP then parse_tcp m offset
  else if proto =? IPPROTO_ICMP then parse_icmp m offset
  else ret offset.

Definition parse_ipv6 (m : mbuf) (offset : Z) : M Z :=
  printf "L3: IPv6\n" [] ;;
  printf "SRC IPv6: " [] ;;
  print_ipv6_addr (load_bytes m (offset + IP6_SRC) 16) ;;
  printf "\nDST IPv6: " [] ;;
  print_ipv6_addr (load_bytes m (offset + IP6_DST) 16) ;;
  printf "\n" [] ;;
  let proto := load8 m (offset + IP6_PROTO) in
  let offset := u16 (offset + sizeof_ipv6_hdr) in
  if proto =? IPPROTO_UDP then parse_udp "L4: UDP (IPv6)\n" m offset
  else if proto =? IPPROTO_TCP then parse_tcp6 m offset
  else ret offset.

Definition mac_args (m : mbuf) (o : Z) : list parg := map PInt (load_bytes m o 6).

(** The last value of [offset] is not used. *)
Definition parse_packet (m : mbuf) : M unit :=
  printf "\n========== PACKET PARSING ==========\n" [] ;;
  printf "L2: Ethernet\n" [] ;;
  printf "   SRC MAC: %02x:%02x:%02x:%02x:%02x:%02x\n" (mac_args m ETH_SRC) ;;
  printf "   DST MAC: %02x:%02x:%02x:%02x:%02x:%02x\n" (mac_args m ETH_DST) ;;
  let eth_type := rte_be_to_cpu_16 (load16 m ETH_TYPE) in
  let offset := sizeof_ether_hdr in
  let* (eth_type, offset) :=
    if eth_type =? RTE_ETHER_TYPE_VLAN then
      printf "L2: VLAN Tag - TCI=%u\n" [PInt (rte_be_to_cpu_16 (load16 m offset))] ;;
      ret (rte_be_to_cpu_16 (load16 m (offset + 2)), u16 (offset + sizeof_vlan_hdr))
    else ret (eth_type, offset) in
  _ <-- (if eth_type =? RTE_ETHER_TYPE_IPV4 then parse_ipv4 m offset
         else if eth_type =? RTE_ETHER_TYPE_IPV6 then parse_ipv6 m offset
         else ret offset) ;;
  ret tt.

(** ** eal_init.c, main.c and rx_tx.c *)

Definition init_eal : M Z :=
  r <-- call rte_eal_init ;;
  when (r <? 0) (rte_exit EXIT_FAILURE) ;;
  printf "EAL initialized.\n" [] ;;
  ret r.

(** What the two programs do with the packet number [i] of a burst. *)
Definition show_parsed (i : Z) (m : mbuf) : M unit :=
  let len := data_len m in
  parse_packet m ;;
  printf "Packet %d: len=%u: " [PInt i; PInt len] ;;
  printf "\n" [].

Definition loop_body (show : Z -> mbuf -> M unit) (port_id : Z) (_ : unit) : M unit :=
  bufs <-- rte_eth_rx_burst port_id 0 BURST_SIZE ;;
  let nb_rx := zlen bufs in
  if nb_rx =? 0 then ret tt
  else
    printf "Received %u packets\n" [PInt nb_rx] ;;
    for_ (length bufs) 0 (fun i _ => m <-- deref (bufs !! Z.to_nat i) ;; show i m) tt ;;
    tx_or_free port_id 0 bufs.

(** The first [n] iterations. *)
Definition run_rx_tx_loop (show : Z -> mbuf -> M unit) (n : nat) (port_id : Z) : M unit :=
  forever n (loop_body show port_id) tt.

(** port.c of ports/port_mempool, which does not ask for the driver. *)
Definition init_port_mempool (port_id mp : Z) : M unit :=
  r <-- call (rte_eth_dev_configure port_id 1 1) ;;
  when (r <? 0) (rte_exit EXIT_FAILURE) ;;
  r <-- call (rte_eth_rx_queue_setup port_id 0 1024 mp) ;;
  when (r <? 0) (rte_exit EXIT_FAILURE) ;;
  r <-- call (rte_eth_tx_queue_setup port_id 0 1024) ;;
  when (r <? 0) (rte_exit EXIT_FAILURE) ;;
  r <-- call (rte_eth_dev_start port_id) ;;
  when (r <? 0) (rte_exit EXIT_FAILURE) ;;
  printf "Port %u initialized and started.\n" [PInt port_id].

(** The two programs share main.c; they differ in port.c and in what they show
    of a packet. *)
Definition main (init_port : Z -> Z -> M unit) (show : Z -> mbuf -> M unit) (n : nat) : M unit :=
  _ <-- init_eal ;;
  r <-- call rte_eth_dev_count_avail ;;
  let nb_ports := u16 r in
  printf "Ports available: %u\n" [PInt nb_ports] ;;
  when (nb_ports =? 0) (rte_exit EXIT_FAILURE) ;;
  let port_id := 0 in
  mp <-- create_mempool ;;
  init_port port_id mp ;;
  run_rx_tx_loop show n port_id.

(** ** ports/port_mempool: mk_buff_info.c and rx_tx.c *)

Definition print_mbuf_info (meta : mbuf -> mbuf_meta) (m : mbuf) : M unit :=
  let i := meta m in
  printf "\n========== MBUF INFO ==========\n" [] ;;
  printf "Port: %u\n" [PInt (mb_port i)] ;;
  printf "Total Packet Length: %u bytes\n" [PInt (pkt_len m)] ;;
  printf "Segment Data Length: %u bytes\n" [PInt (data_len m)] ;;
  printf "Segments: %u\n" [PInt (nb_segs i)] ;;
  printf "RSS Hash: 0x%x\n" [PInt (rss i)] ;;
  printf "VLAN TCI: %u\n" [PInt (vlan_tci i)] ;;
  printf "Packet Type Raw: 0x%x\n" [PInt (packet_type i)] ;;
  printf "L2: %s (%u)\n" [PStr (l2_to_str (l2_type i)); PInt (l2_type i)] ;;
  printf "L3: %s (%u)\n" [PStr (l3_to_str (l3_type i)); PInt (l3_type i)] ;;
  printf "L4: %s (%u)\n" [PStr (l4_to_str (l4_type i)); PInt (l4_type i)] ;;
  printf "Tunnel Type: %u\n" [PInt (tun_type i)] ;;
  printf "Inner L2: %u | Inner L3: %u | Inner L4: %u\n"
    [PInt (inner_l2_type i); PInt (inner_l3_type i); PInt (inner_l4_type i)] ;;
  printf "================================\n\n" [].

(** The mbuf's notes, then every byte of the packet. *)
Definition show_bytes (meta : mbuf -> mbuf_meta) (i : Z) (m : mbuf) : M unit :=
  print_mbuf_info meta m ;;
  let len := data_len m in
  printf "Packet %d: len=%u: " [PInt i; PInt len] ;;
  for_ (Z.to_nat len) 0 (fun j _ => printf "%02x " [PInt (load8 m j)]) tt ;;
  printf "\n" [].

Definition packet_parsing_main (n : nat) : M unit := main init_port2 show_parsed n.
Definition port_mempool_main (meta : mbuf -> mbuf_meta) (n : nat) : M unit :=
  main init_port_mempool (show_bytes meta) n.
End Parse.

(** ** The grammar of frames

    Only what the parser looks at has a name; the other header fields are byte
    lists.  The header of TCP is cut behind its flags, those of UDP and ICMP
    behind their first fields: what follows is as free as the payload. *)

Inductive l4 :=
| Udp (sport dport : Z)
| Tcp (sport dport seq ack off flags : Z)
| Icmp (ty code : Z)
| OtherL4 (proto : Z).

Inductive l3 :=
| IPv4 (ver : Z) (tos_to_ttl cksum src dst options : list Z) (p : l4)
| IPv6 (class_to_len : list Z) (hop : Z) (src dst : list Z) (p : l4)
| OtherL3 (eth_type : Z).

Record frame := Frame { f_dst : list Z; f_src : list Z; f_vlan : option Z; f_l3 : l3 }.

Definition be16 (v : Z) : list Z := rev (le16 v).
Definition be32 (v : Z) : list Z := rev (le32 v).

Definition proto_of (p : l4) : Z :=
  match p with Udp _ _ => IPPROTO_UDP | Tcp _ _ _ _ _ _ => IPPROTO_TCP
             | Icmp _ _ => IPPROTO_ICMP | OtherL4 n => n end.
Definition type_of (p : l3) : Z :=
  match p with IPv4 _ _ _ _ _ _ _ => RTE_ETHER_TYPE_IPV4 | IPv6 _ _ _ _ _ => RTE_ETHER_TYPE_IPV6
             | OtherL3 ty => ty end.

Definition encode_l4 (p : l4) : list Z :=
  match p with
  | Udp sp dp => be16 sp ++ be16 dp
  | Tcp sp dp seq ack off flags => be16 sp ++ be16 dp ++ be32 seq ++ be32 ack ++ [off; flags]
  | Icmp ty code => [ty; code]
  | OtherL4 _ => []
  end.
Definition encode_l3 (p : l3) : list Z :=
  match p with
  | IPv4 ver tos ck src dst opts q =>
      [16 * ver + (5 + zlen opts / 4)] ++ tos ++ [proto_of q] ++ ck ++ src ++ dst ++ opts ++ encode_l4 q
  | IPv6 cls hop src dst q => cls ++ [proto_of q; hop] ++ src ++ dst ++ encode_l4 q
  | OtherL3 _ => []
  end.
Definition encode (f : frame) : list Z :=
  f_dst f ++ f_src f ++
  match f_vlan f with Some tci => be16 RTE_ETHER_TYPE_VLAN ++ be16 tci | None => [] end ++
  be16 (type_of (f_l3 f)) ++ encode_l3 (f_l3 f).

Definition wf_l4 (p : l4) : Prop :=
  match p with
  | Udp sp dp => is_u16 sp /\ is_u16 dp
  | Tcp sp dp seq ack off flags => is_u16 sp /\ is_u16 dp /\ is_u32 seq /\ is_u32 ack
  | Icmp _ _ => True
  | OtherL4 n => n <> IPPROTO_UDP /\ n <> IPPROTO_TCP /\ n <> IPPROTO_ICMP
  end.
Definition wf_l3 (p : l3) : Prop :=
  match p with
  | IPv4 ver tos ck src dst opts q =>
      0 <= ver < 16 /\ length tos = 8%nat /\ length ck = 2%nat /\ length src = 4%nat /\ length dst = 4%nat /\
      (exists k, length opts = (4 * k)%nat /\ (k <= 10)%nat) /\ wf_l4 q /\ Forall is_u8 (src ++ dst)
  | IPv6 cls hop src dst q =>
      length cls = 6%nat /\ length src = 16%nat /\ length dst = 16%nat /\ wf_l4 q
  | OtherL3 ty => is_u16 ty /\ ty <> RTE_ETHER_TYPE_IPV4 /\ ty <> RTE_ETHER_TYPE_IPV6 /\ ty <> RTE_ETHER_TYPE_VLAN
  end.
Definition wf_frame (f : frame) : Prop :=
  length (f_dst f) = 6%nat /\ length (f_src f) = 6%nat /\
  match f_vlan f with Some tci => is_u16 tci | None => True end /\ wf_l3 (f_l3 f).

(** ** The lines that should be printed *)

Definition line (fmt : string) (vs : list Z) : event := EvPrintf fmt (map PInt vs).

Definition describe_ports (sp dp : Z) : list event :=
  [line "   SRC PORT: %u\n" [sp]; line "   DST PORT: %u\n" [dp]].
Definition describe_l4_v4 (p : l4) : list event :=
  match p with
  | Udp sp dp => line "L4: UDP\n" [] :: describe_ports sp dp
  | Tcp sp dp seq ack _ flags =>
      line "L4: TCP\n" [] :: describe_ports sp dp ++
      [line "   SEQ NUM:  %u\n" [seq]; line "   ACK NUM:  %u\n" [ack]; line "   FLAGS:    0x%x\n" [flags]]
  | Icmp ty code => [line "L4: ICMP\n" []; line "   TYPE: %u\n" [ty]; line "   CODE: %u\n" [code]]
  | OtherL4 _ => []
  end.
(** Over IPv6 only the ports are shown, and ICMP for IPv4 is not expected. *)
Definition describe_l4_v6 (p : l4) : list event :=
  match p with
  | Udp sp dp => line "L4: UDP (IPv6)\n" [] :: describe_ports sp dp
  | Tcp sp dp _ _ _ _ => line "L4: TCP (IPv6)\n" [] :: describe_ports sp dp
  | _ => []
  end.
Fixpoint describe_ip6 (a : list Z) : list event :=
  match a with
  | [x; y] => [line "%02x%02x" [x; y]]
  | x :: y :: a' => line "%02x%02x" [x; y] :: line ":" [] :: describe_ip6 a'
  | _ => []
  end.
Definition describe_l3 (p : l3) : list event :=
  match p with
  | IPv4 _ _ _ src dst _ q =>
      [line "L3: IPv4\n" []; line "   SRC IP: %d.%d.%d.%d\n" src; line "   DST IP: %d.%d.%d.%d\n" dst] ++
      describe_l4_v4 q
  | IPv6 _ _ src dst q =>
      [line "L3: IPv6\n" []; line "SRC IPv6: " []] ++ describe_ip6 src ++
      [line "\nDST IPv6: " []] ++ describe_ip6 dst ++ [line "\n" []] ++ describe_l4_v6 q
  | OtherL3 _ => []
  end.
Definition describe (f : frame) : list event :=
  [line "\n========== PACKET PARSING ==========\n" []; line "L2: Ethernet\n" [];
   line "   SRC MAC: %02x:%02x:%02x:%02x:%02x:%02x\n" (f_src f);
   line "   DST MAC: %02x:%02x:%02x:%02x:%02x:%02x\n" (f_dst f)] ++
  match f_vlan f with Some tci => [line "L2: VLAN Tag - TCI=%u\n" [tci]] | None => [] end ++
  describe_l3 (f_l3 f).

(** ** Bytes of a packet *)

(** Adds up the constants of the offsets in [H]. *)
Ltac fold_sums H :=
  repeat match type of H with
    | context [Z.of_nat ?n] =>
        let c := eval vm_compute in (Z.of_nat n) in
        lazymatch c with Z0 => idtac | Z.pos _ => idtac end; change (Z.of_nat n) with c in H
    | context [Z.add ?a ?b] =>
        let c := eval vm_compute in (Z.add a b) in
        lazymatch c with Z0 => idtac | Z.pos _ => idtac end; change (Z.add a b) with c in H
    end.

Definition bytes_at (m : mbuf) (o : Z) (bs : list Z) : Prop :=
  forall k, 0 <= k < zlen bs -> load8 m (o + k) = get bs k.

Lemma bytes_at_app m o a b :
  bytes_at m o (a ++ b) <-> bytes_at m o a /\ bytes_at m (o + zlen a) b.
Proof.
  unfold bytes_at, zlen. split.
  - intros H. split; intros k Hk.
    + rewrite H by (rewrite length_app; lia). unfold get. apply app_nth1. lia.
    + rewrite <- Z.add_assoc, H by (rewrite length_app; lia).
      unfold get. rewrite app_nth2 by lia. f_equal. lia.
  - intros [Ha Hb] k Hk. rewrite length_app in Hk.
    destruct (Z.ltb_spec k (Z.of_nat (length a))) as [L|L].
    + rewrite Ha by lia. unfold get. by rewrite app_nth1 by lia.
    + replace (o + k) with (o + Z.of_nat (length a) + (k - Z.of_nat (length a))) by lia.
      rewrite Hb by lia. unfold get. rewrite app_nth2 by lia. f_equal. lia.
Qed.

Lemma bytes_at_cons m o x b : bytes_at m o (x :: b) <-> load8 m o = x /\ bytes_at m (o + 1) b.
Proof.
  change (x :: b) with ([x] ++ b). rewrite bytes_at_app. change (zlen [x]) with 1.
  split; intros [H1 H2]; (split; [|done]).
  - rewrite <- (Z.add_0_r o). by apply (H1 0).
  - intros k Hk. change (zlen [x]) with 1 in Hk. replace k with 0 by lia. by rewrite Z.add_0_r.
Qed.

Lemma bytes_at_load m o bs n : bytes_at m o bs -> length bs = n -> load_bytes m o n = bs.
Proof.
  intros H <-. unfold load_bytes. apply nth_ext with (d := 0) (d' := 0); rewrite length_map, length_seq; [done|].
  intros k Hk. rewrite (nth_indep _ 0 (load8 m (o + Z.of_nat 0))) by (by rewrite length_map, length_seq).
  rewrite (map_nth (fun k => load8 m (o + Z.of_nat k)) (seq 0 (length bs)) 0%nat k), seq_nth by done.
  simpl. rewrite H by (unfold zlen; lia). unfold get. by rewrite Nat2Z.id.
Qed.

Lemma bytes_at4 m o a b c d :
  bytes_at m o [a; b; c; d] ->
  load8 m o = a /\ load8 m (o + 1) = b /\ load8 m (o + 2) = c /\ load8 m (o + 3) = d.
Proof.
  intros H. rewrite !bytes_at_cons in H. destruct H as (H1 & H2 & H3 & H4 & _).
  split_and!; [done|done|rewrite <- H3|rewrite <- H4]; f_equal; lia.
Qed.

(** A field in network order holds [v]. *)
Lemma bytes_at16 m o v : bytes_at m o (be16 v) -> is_u16 v -> load16 m o = bswap16 v.
Proof.
  intros H (a & b & Ha & Hb & ->)%split16. unfold be16 in H. rewrite of_le16_mod in H by done.
  simpl in H. rewrite !bytes_at_cons in H. destruct H as (H1 & H2 & _).
  unfold load16. by rewrite H1, H2, bswap16_bytes.
Qed.
Lemma bytes_at32 m o v : bytes_at m o (be32 v) -> is_u32 v -> load32 m o = bswap32 v.
Proof.
  intros H (a & b & c & d & Ha & Hb & Hc & Hd & ->)%split32. unfold be32 in H. rewrite of_le32_mod in H by done.
  apply bytes_at4 in H as (H1 & H2 & H3 & H4).
  unfold load32. by rewrite H1, H2, H3, H4, bswap32_bytes.
Qed.

Section Fields.
Context {BO : Byteorder}.

Lemma field16 m o v : bytes_at m o (be16 v) -> is_u16 v -> rte_be_to_cpu_16 (load16 m o) = v.
Proof.
  intros H Hv. rewrite (bytes_at16 m o v) by done. rewrite be_to_cpu_16_law by apply bswap16_range.
  by apply bswap16_invol.
Qed.
Lemma field32 m o v : bytes_at m o (be32 v) -> is_u32 v -> rte_be_to_cpu_32 (load32 m o) = v.
Proof.
  intros H Hv. rewrite (bytes_at32 m o v) by done. rewrite be_to_cpu_32_law by apply bswap32_range.
  by apply bswap32_invol.
Qed.
End Fields.

Lemma zlen_be16 v : zlen (be16 v) = 2. Proof. done. Qed.
Lemma zlen_be32 v : zlen (be32 v) = 4. Proof. done. Qed.

(** An IPv4 address in memory order is printed byte by byte. *)
Lemma ip_args_bytes m o a :
  bytes_at m o a -> length a = 4%nat -> Forall is_u8 a -> ip_args (load32 m o) = map PInt a.
Proof.
  intros H Hl Hb. destruct a as [|a [|b [|c [|d [|]]]]]; try done.
  apply bytes_at4 in H as (H0 & H1 & H2 & H3).
  unfold load32. rewrite H0, H1, H2, H3.
  rewrite !Forall_cons in Hb. destruct Hb as (Ba & Bb & Bc & Bd & _).
  unfold ip_args, of_le32. simpl.
  change 255 with (Z.ones 8). rewrite !Z.land_ones, !Z.shiftr_div_pow2 by lia.
  change (2 ^ 8) with 256. change (2 ^ 16) with (256 * 256). change (2 ^ 24) with (256 * 256 * 256).
  replace (a + 256 * b + 65536 * c + 16777216 * d) with (a + 256 * (b + 256 * (c + 256 * d))) by lia.
  rewrite <- !Z.div_div by lia.
  destruct (byte_at a (b + 256 * (c + 256 * d)) Ba) as [-> ->].
  destruct (byte_at b (c + 256 * d) Bb) as [-> ->].
  destruct (byte_at c d Bc) as [-> ->]. by rewrite (Z.mod_small d 256) by words.
Qed.

(** ** The parser prints the description *)

Section Correct.
Context {BO : Byteorder} {E : Env} {S : Type}.

Lemma print_ports_ok m o sp dp :
  bytes_at m o (be16 sp ++ be16 dp) -> is_u16 sp -> is_u16 dp ->
  prints (S:=S) (print_ports m o) (describe_ports sp dp) tt.
Proof.
  intros [H1 H2]%bytes_at_app Hs Hd. rewrite zlen_be16 in H2. unfold print_ports, describe_ports.
  rewrite (field16 _ _ sp), (field16 _ _ dp) by done. by apply prints_line, prints_printf.
Qed.

Lemma parse_udp_ok name m o sp dp :
  bytes_at m o (encode_l4 (Udp sp dp)) -> wf_l4 (Udp sp dp) ->
  prints (S:=S) (parse_udp name m o) (line name [] :: describe_ports sp dp) (u16 (o + sizeof_udp_hdr)).
Proof.
  intros H [Hs Hd]. unfold parse_udp. apply prints_line.
  rewrite <- (app_nil_r (describe_ports sp dp)). eapply prints_bind; [by apply print_ports_ok|done].
Qed.

Lemma parse_tcp_ok m o sp dp seq ack off flags :
  let p := Tcp sp dp seq ack off flags in
  bytes_at m o (encode_l4 p) -> wf_l4 p ->
  exists o', prints (S:=S) (parse_tcp m o) (describe_l4_v4 p) o'.
Proof.
  intros p H (Hs & Hd & Hq & Ha). unfold p in *. cbn [encode_l4] in H. rewrite app_assoc, !bytes_at_app in H.
  rewrite zlen_app, !zlen_be16, !zlen_be32, <- !Z.add_assoc in H. fold_sums H.
  destruct H as (H1 & H2 & H3 & H4). 
  rewrite !bytes_at_cons in H4. destruct H4 as (_ & H4 & _). rewrite <- Z.add_assoc in H4. fold_sums H4.
  eexists. unfold parse_tcp. apply prints_line. eapply prints_bind.
  { apply print_ports_ok; [by apply bytes_at_app|done|done]. }
  rewrite (field32 _ _ seq), (field32 _ _ ack) by done. rewrite H4.
  by repeat apply prints_line.
Qed.

Lemma parse_tcp6_ok m o sp dp seq ack off flags :
  let p := Tcp sp dp seq ack off flags in
  bytes_at m o (encode_l4 p) -> wf_l4 p ->
  prints (S:=S) (parse_tcp6 m o) (describe_l4_v6 p) (u16 (o + sizeof_tcp_hdr)).
Proof.
  intros p H (Hs & Hd & Hq & Ha). unfold p in *. cbn [encode_l4] in H. rewrite app_assoc, bytes_at_app in H. destruct H as [H _].
  unfold parse_tcp6. apply prints_line. rewrite <- (app_nil_r (describe_ports sp dp)).
  eapply prints_bind; [by apply print_ports_ok|done].
Qed.

Lemma parse_icmp_ok m o ty code :
  bytes_at m o [ty; code] ->
  prints (S:=S) (parse_icmp m o) (describe_l4_v4 (Icmp ty code)) (u16 (o + sizeof_icmp_hdr)).
Proof.
  rewrite !bytes_at_cons. intros (H1 & H2 & _). unfold parse_icmp. rewrite H1, H2.
  by repeat apply prints_line.
Qed.

(** Dispatch on the protocol number. *)
Lemma parse_l4_v4_ok m o p :
  bytes_at m o (encode_l4 p) -> wf_l4 p ->
  exists o', prints (S:=S)
    (if proto_of p =? IPPROTO_UDP then parse_udp "L4: UDP\n" m o
     else if proto_of p =? IPPROTO_TCP then parse_tcp m o
     else if proto_of p =? IPPROTO_ICMP then parse_icmp m o
     else ret o) (describe_l4_v4 p) o'.
Proof.
  intros H Hw. destruct p as [sp dp|sp dp seq ack off flags|ty code|n]; cbn [proto_of]; simpl Z.eqb; cbv iota.
  - eexists. by apply parse_udp_ok.
  - by apply parse_tcp_ok.
  - eexists. by apply parse_icmp_ok.
  - destruct Hw as (H1 & H2 & H3). apply Z.eqb_neq in H1, H2, H3. rewrite H1, H2, H3. by eexists.
Qed.
Lemma parse_l4_v6_ok m o p :
  bytes_at m o (encode_l4 p) -> wf_l4 p ->
  exists o', prints (S:=S)
    (if proto_of p =? IPPROTO_UDP then parse_udp "L4: UDP (IPv6)\n" m o
     else if proto_of p =? IPPROTO_TCP then parse_tcp6 m o
     else ret o) (describe_l4_v6 p) o'.
Proof.
  intros H Hw. destruct p as [sp dp|sp dp seq ack off flags|ty code|n]; cbn [proto_of]; simpl Z.eqb; cbv iota.
  - eexists. by apply parse_udp_ok.
  - eexists. by apply parse_tcp6_ok.
  - by eexists.
  - destruct Hw as (H1 & H2 & H3). apply Z.eqb_neq in H1, H2. rewrite H1, H2. by eexists.
Qed.

Lemma ihl_nibble ver k : 0 <= ver -> 0 <= k < 16 -> Z.land (16 * ver + k) 15 = k.
Proof. intros Hv Hk. change 15 with (Z.ones 4). rewrite Z.land_ones by lia. words. Qed.

Lemma parse_ipv4_ok m o ver tos ck src dst opts p :
  let ip := IPv4 ver tos ck src dst opts p in
  0 <= o < 100 -> bytes_at m o (encode_l3 ip) -> wf_l3 ip ->
  exists o', prints (S:=S) (parse_ipv4 m o) (describe_l3 ip) o'.
Proof.
  intros ip Ho H (Hv & Ht & Hc & Hs & Hd & (k & Hk & Kb) & Hp & Hb). unfold ip in *. cbn [encode_l3] in H.
  assert (zlen opts = 4 * Z.of_nat k) as Hz by (unfold zlen; lia).
  replace (zlen opts / 4) with (Z.of_nat k) in H by (rewrite Hz, Z.mul_comm, Z.div_mul; lia).
  rewrite !bytes_at_app in H. unfold zlen in H. rewrite Ht, Hc, Hs, Hd, Hk in H. cbn [length] in H.
  rewrite <- !Z.add_assoc in H. fold_sums H. destruct H as (H0 & _ & H9 & _ & H12 & H16 & _ & H20).
  apply bytes_at_cons in H0 as [H0 _]. apply bytes_at_cons in H9 as [H9 _].
  apply Forall_app in Hb as [Bs Bd].
  match type of H20 with bytes_at _ ?x _ => replace x with (o + (5 + Z.of_nat k) * 4) in H20 by lia end.
  destruct (parse_l4_v4_ok m _ p H20 Hp) as (o' & Ho').
  exists o'. unfold parse_ipv4, describe_l3. apply prints_line.
  rewrite (ip_args_bytes m (o + 12) src), (ip_args_bytes m (o + 16) dst) by done.
  do 2 apply prints_line. cbv zeta. rewrite H0, H9. rewrite ihl_nibble by lia.
  rewrite (u16_small (_ * 4)) by words. by rewrite u16_small by words.
Qed.

Lemma print_ipv6_addr_ok a :
  length a = 16%nat -> prints (S:=S) (print_ipv6_addr a) (describe_ip6 a) tt.
Proof.
  intros H. do 16 (destruct a as [|? a]; [done|]). destruct a; [|done]. by intros s t.
Qed.

Lemma parse_ipv6_ok m o cls hop src dst p :
  let ip := IPv6 cls hop src dst p in
  0 <= o < 100 -> bytes_at m o (encode_l3 ip) -> wf_l3 ip ->
  exists o', prints (S:=S) (parse_ipv6 m o) (describe_l3 ip) o'.
Proof.
  intros ip Ho H (Hc & Hs & Hd & Hp). unfold ip in *. cbn [encode_l3] in H.
  rewrite !bytes_at_app in H. unfold zlen in H. rewrite Hc, Hs, Hd in H. cbn [length] in H.
  rewrite <- !Z.add_assoc in H. fold_sums H. destruct H as (_ & H6 & H8 & H24 & H40).
  apply bytes_at_cons in H6 as [H6 _].
  destruct (parse_l4_v6_ok m _ p H40 Hp) as (o' & Ho').
  exists o'. unfold parse_ipv6, describe_l3, IP6_SRC, IP6_DST, IP6_PROTO, sizeof_ipv6_hdr.
  rewrite (bytes_at_load m (o + 8) src), (bytes_at_load m (o + 24) dst) by done.
  do 2 apply prints_line. eapply prints_bind; [by apply print_ipv6_addr_ok|]. apply prints_line.
  eapply prints_bind; [by apply print_ipv6_addr_ok|]. apply prints_line.
  cbv zeta. rewrite H6. by rewrite u16_small by words.
Qed.

Lemma parse_l3_ok m o p :
  0 <= o < 100 -> bytes_at m o (encode_l3 p) -> wf_l3 p ->
  exists o', prints (S:=S)
    (if type_of p =? RTE_ETHER_TYPE_IPV4 then parse_ipv4 m o
     else if type_of p =? RTE_ETHER_TYPE_IPV6 then parse_ipv6 m o
     else ret o) (describe_l3 p) o'.
Proof.
  intros Ho H Hw. destruct p as [ver tos ck src dst opts q|cls hop src dst q|ty];
    cbn [type_of]; simpl Z.eqb; cbv iota.
  - by apply parse_ipv4_ok.
  - by apply parse_ipv6_ok.
  - destruct Hw as (_ & H1 & H2 & _). apply Z.eqb_neq in H1, H2. rewrite H1, H2. by eexists.
Qed.

Lemma type_of_range p : wf_l3 p -> is_u16 (type_of p).
Proof. destruct p; [done|done|]. by intros [? _]. Qed.
Lemma type_of_not_vlan p : wf_l3 p -> type_of p <> RTE_ETHER_TYPE_VLAN.
Proof. destruct p; [done|done|]. by intros (_ & _ & _ & ?). Qed.

Lemma parse_packet_frame m f :
  wf_frame f -> bytes_at m 0 (encode f) -> prints (S:=S) (parse_packet m) (describe f) tt.
Proof.
  intros (Hd & Hs & Hv & Hw) H. unfold encode in H. rewrite !bytes_at_app in H.
  unfold zlen in H. rewrite Hd, Hs in H. fold_sums H. destruct H as (H0 & H6 & Hv12 & Ht & H3).
  pose proof (type_of_range _ Hw) as Hr. pose proof (type_of_not_vlan _ Hw) as Hn.
  unfold parse_packet, describe, mac_args, ETH_DST, ETH_SRC, ETH_TYPE, sizeof_ether_hdr.
  rewrite (bytes_at_load m 0 (f_dst f)), (bytes_at_load m 6 (f_src f)) by done.
  do 4 apply prints_line. destruct (f_vlan f) as [tci|].
  - rewrite bytes_at_app in Hv12. destruct Hv12 as [Hv12 Htci]. rewrite zlen_be16 in Htci.
    rewrite (field16 m 12 RTE_ETHER_TYPE_VLAN) by done. change (length (be16 RTE_ETHER_TYPE_VLAN ++ be16 tci)) with 4%nat in Ht, H3. fold_sums Htci. fold_sums Ht. fold_sums H3.
    rewrite (field16 m 14 tci), (field16 m (14 + 2) (type_of (f_l3 f))) by done.
    destruct (parse_l3_ok m 18 _ ltac:(lia) H3 Hw) as (o' & Ho').
    eapply prints_bind; [by apply prints_line, prints_ret|]. cbv beta iota.
    change (u16 (14 + sizeof_vlan_hdr)) with 18.
    rewrite <- (app_nil_r (describe_l3 _)). eapply prints_bind; [exact Ho'|done].
  - change (length []) with 0%nat in Ht, H3. fold_sums Ht. fold_sums H3. rewrite (field16 m 12 (type_of (f_l3 f))) by done.
    apply Z.eqb_neq in Hn. rewrite Hn.
    destruct (parse_l3_ok m 14 _ ltac:(lia) H3 Hw) as (o' & Ho').
    eapply prints_bind; [by apply prints_ret|]. cbv beta iota.
    rewrite <- (app_nil_r (describe_l3 _)). eapply prints_bind; [exact Ho'|done].
Qed.

(** C9: [parse_packet] inverts the layout of packets: for every well-formed frame (Ethernet,
    with or without one VLAN tag, over it IPv4 with or without options or IPv6,
    over that UDP, TCP, ICMP or another protocol) and every packet that starts
    with the bytes of the frame, it prints exactly the addresses, ports, numbers
    and flags of the frame, and does nothing else. *)
Theorem parse_packet_describes m f :
  wf_frame f -> bytes_at m 0 (encode f) -> prints (S:=S) (parse_packet m) (describe f) tt.
Proof. apply parse_packet_frame. Qed.
End Correct.

(** ** What the parser reads *)

(** The packets agree on their first [n] bytes. *)
Definition same_first (n : Z) (m m' : mbuf) : Prop := forall k, 0 <= k < n -> load8 m' k = load8 m k.

Lemma same_first16 n m m' o : same_first n m m' -> 0 <= o -> o + 2 <= n -> load16 m' o = load16 m o.
Proof. intros H ??. unfold load16. by rewrite !H by lia. Qed.
Lemma same_first32 n m m' o : same_first n m m' -> 0 <= o -> o + 4 <= n -> load32 m' o = load32 m o.
Proof. intros H ??. unfold load32. by rewrite !H by lia. Qed.
Lemma same_first_bytes n m m' o len :
  same_first n m m' -> 0 <= o -> o + Z.of_nat len <= n -> load_bytes m' o len = load_bytes m o len.
Proof.
  intros H ??. unfold load_bytes. apply map_ext_in. intros k Hk%in_seq. apply H. lia.
Qed.

Section Reads.
Context {BO : Byteorder} {E : Env} {S : Type}.

Lemma l4_reads m m' o :
  same_first 92 m m' -> 0 <= o -> o + 14 <= 92 ->
  (forall name, parse_udp (S:=S) name m' o = parse_udp name m o) /\
  parse_tcp (S:=S) m' o = parse_tcp m o /\ parse_tcp6 (S:=S) m' o = parse_tcp6 m o /\
  parse_icmp (S:=S) m' o = parse_icmp m o.
Proof.
  intros H H0 H1. unfold parse_udp, parse_tcp, parse_tcp6, parse_icmp, print_ports.
  rewrite !(same_first16 92 m m'), !(same_first32 92 m m'), !H by (done || lia). by split_and!.
Qed.

Lemma l3_reads m m' o :
  same_first 92 m m' -> 0 <= o <= 18 ->
  parse_ipv4 (S:=S) m' o = parse_ipv4 m o /\ parse_ipv6 (S:=S) m' o = parse_ipv6 m o.
Proof.
  intros H Ho. unfold parse_ipv4, parse_ipv6, IP6_SRC, IP6_DST, IP6_PROTO, sizeof_ipv6_hdr.
  rewrite !(same_first32 92 m m'), !(same_first_bytes 92 m m'), !H by (done || lia).
  assert (0 <= Z.land (load8 m o) 15 < 16) as Hi.
  { change 15 with (Z.ones 4). rewrite Z.land_ones by lia. apply Z.mod_pos_bound. lia. }
  set (h := Z.land (load8 m o) 15) in *. clearbody h.
  rewrite (u16_small (h * 4)) by words. rewrite (u16_small (o + _)), (u16_small (o + 40)) by words.
  destruct (l4_reads m m' (o + h * 4) H ltac:(lia) ltac:(lia)) as (A1 & A2 & A3 & A4).
  destruct (l4_reads m m' (o + 40) H ltac:(lia) ltac:(lia)) as (B1 & B2 & B3 & B4).
  by rewrite !A1, A2, A4, !B1, B3.
Qed.

Definition same_data (m m' : mbuf) : Prop :=
  data_len m' = data_len m /\ same_first (data_len m) m m'.

(** An Ethernet header without anything behind it in the packet; [b] is the
    first byte of a source address left in the buffer. *)
Definition stub (b : Z) : mbuf := Mbuf 1 (repeat 0 12 ++ [8; 0] ++ repeat 0 12 ++ [b] ++ repeat 0 80) 0 14 14.

(** What [parse_packet] reads: the first 92 bytes of the buffer decide what it prints,
    whatever the packet claims; but it does not respect the length of the packet:
    two packets with the same length and the same bytes up to it can be printed
    differently, the rest being read from behind the packet. *)
Theorem parse_packet_reads :
  (forall m m' s t, same_first 92 m m' -> parse_packet (S:=S) m' s t = parse_packet m s t) /\
  (exists m m', same_data m m' /\ bytes_ok m /\ bytes_ok m' /\
     forall s t, parse_packet (S:=S) m s t <> parse_packet m' s t).
Proof.
  split.
  - intros m m' s t H. unfold parse_packet, mac_args, ETH_SRC, ETH_DST, ETH_TYPE, sizeof_ether_hdr.
    rewrite !(same_first16 92 m m'), !(same_first_bytes 92 m m') by (done || lia).
    destruct (l3_reads m m' 14 H ltac:(lia)) as [A4 A6].
    destruct (l3_reads m m' 18 H ltac:(lia)) as [B4 B6].
    destruct (_ =? RTE_ETHER_TYPE_VLAN); unfold bind at 1 5; simpl;
      change (u16 (14 + sizeof_vlan_hdr)) with 18; by rewrite ?A4, ?A6, ?B4, ?B6.
  - exists (stub 1), (stub 2). split; [|split; [|split]].
    + split; [done|]. intros k Hk. change (data_len (stub 1)) with 14 in Hk.
      change (get ((repeat 0 12 ++ [8; 0]) ++ repeat 0 12 ++ [2] ++ repeat 0 80) (0 + k) =
              get ((repeat 0 12 ++ [8; 0]) ++ repeat 0 12 ++ [1] ++ repeat 0 80) (0 + k)).
      unfold get. by rewrite !(app_nth1 (repeat 0 12 ++ [8; 0])) by (simpl; lia).
    + by apply Forall_u8_dec.
    + by apply Forall_u8_dec.
    + intros s t. unfold parse_packet.
      assert (forall b, rte_be_to_cpu_16 (load16 (stub b) ETH_TYPE) = RTE_ETHER_TYPE_IPV4) as Ht
        by (intros b; by rewrite be_to_cpu_16_law by (split; done)).
      rewrite !Ht. clear Ht. by vm_compute.
Qed.
End Reads.

(** ** The two programs *)

Section Mains.
Context {BO : Byteorder} {E : Env} {S : Type}.

Notation quiet := (quiet (S:=S)).

Lemma quiet_ipv6_addr a : quiet (print_ipv6_addr a).
Proof. unfold print_ipv6_addr. quiet_lines. Qed.

Lemma parse_packet_quiet m : quiet (parse_packet m).
Proof.
  unfold parse_packet, parse_ipv4, parse_ipv6, parse_udp, parse_tcp, parse_tcp6, parse_icmp, print_ports.
  repeat match goal with
    | |- context [let '(_, _) := ?x in _] => destruct x
    | _ => progress quiet_lines
    | _ => apply quiet_ipv6_addr
    end.
Qed.

Lemma print_mbuf_info_quiet meta m : quiet (print_mbuf_info meta m).
Proof. unfold print_mbuf_info. cbv zeta. quiet_lines. Qed.

Lemma show_parsed_quiet i m : quiet (show_parsed i m).
Proof. unfold show_parsed. apply quiet_bind; [apply parse_packet_quiet|intros _]. quiet_lines. Qed.
Lemma show_bytes_quiet meta i m : quiet (show_bytes meta i m).
Proof. unfold show_bytes. apply quiet_bind; [apply print_mbuf_info_quiet|intros _]. quiet_lines. Qed.

(** A main loop that shows the packets of a burst and sends them back. *)
Lemma rx_tx_loop_spec (show : Z -> mbuf -> M S unit) n port s t :
  (forall i m, quiet (show i m)) -> owned [] t ->
  wp (run_rx_tx_loop show n port) (fun _ s' t' => s' = s /\ owned [] t') (fun _ _ _ => False) s t.
Proof.
  intros Hq Ho. unfold run_rx_tx_loop.
  apply (wp_forever (fun _ s' t' => s' = s /\ owned [] t')); [|done].
  intros [] s1 t1 [-> O1]. unfold loop_body. wp_step. apply wp_rx. intros bufs _ _.
  apply (owned_rx _ port 0 BURST_SIZE bufs) in O1. set (t2 := EvRx _ _ _ bufs :: t1) in *. wp_steps.
  { destruct bufs; [by rewrite app_nil_r in O1|done]. }
  eapply wp_mono; [apply (wp_for (fun _ _ s' t' => s' = s /\ same_acct t2 t') _ (fun _ _ _ => False))| |done].
  - intros i l s3 t3 Hi [-> A3]. destruct (lookup_lt_is_Some_2 bufs (Z.to_nat i)) as [m Hm]; [lia|].
    wp_step. eapply wp_deref; [done|]. apply wp_quiet; [apply Hq|]. intros u t4 A4.
    split; [done|]. eapply same_acct_trans; [exact A3|by apply only_printed_acct].
  - done.
  - intros u s3 t3 [-> A3]. eapply (wp_tx_or_free _ _ _ []); [by eapply owned_acct|]. by intros.
Qed.

Lemma wp_init_eal (Q : Z -> S -> trace -> Prop) s t :
  (forall r t', same_acct t t' -> Q r s t') -> wp init_eal Q (fun c _ _ => c = EXIT_FAILURE) s t.
Proof. intros H. unfold init_eal. wp_steps; [done|]. by apply H. Qed.

(** The two programs never fault, exit only with status 1 before traffic, and
    hand every received buffer back exactly once. *)
Lemma rx_tx_main_safe init_port show n s :
  (forall i m, quiet (show i m)) ->
  (forall p mp (Q : unit -> S -> trace -> Prop) s t, (forall t', same_acct t t' -> Q tt s t') ->
     wp (init_port p mp) Q (fun c _ _ => c = EXIT_FAILURE) s t) ->
  wp (main init_port show n) (fun _ s' t => s' = s /\ owned [] t) (fun c _ t => c = EXIT_FAILURE) s [].
Proof.
  intros Hq Hi. unfold main. wp_step. apply wp_init_eal. intros r t1 A1. unfold create_mempool. wp_steps; try done.
  apply Hi. intros t2 A2. eapply wp_mono; [apply rx_tx_loop_spec; [done|]|done|done].
  eapply owned_acct; [|apply owned_nil]. unfold same_acct in *. simpl in *. intuition congruence.
Qed.

Lemma packet_parsing_safe n (s : S) :
  wp (packet_parsing_main n) (fun _ s' t => s' = s /\ owned [] t) (fun c _ t => c = EXIT_FAILURE) s [].
Proof.
  apply rx_tx_main_safe; [apply show_parsed_quiet|]. intros p mp Q s1 t1 H. unfold init_port2.
  wp_steps; try done. by apply H.
Qed.
Lemma port_mempool_safe meta n (s : S) :
  wp (port_mempool_main meta n) (fun _ s' t => s' = s /\ owned [] t) (fun c _ t => c = EXIT_FAILURE) s [].
Proof.
  apply rx_tx_main_safe; [apply show_bytes_quiet|]. intros p mp Q s1 t1 H. unfold init_port_mempool.
  wp_steps; try done. by apply H.
Qed.
End Mains.

#[local] Existing Instances sim_byteorder.
#[local] Instance wenv : Env := sim_env quiet_script.

(** A TCP segment with four bytes of IPv4 options under a VLAN tag. *)
Definition w_frame : frame :=
  Frame [1; 2; 3; 4; 5; 6] [7; 8; 9; 10; 11; 12] (Some 100)
    (IPv4 4 (repeat 0 8) [0; 0] [10; 0; 0; 1] [10; 0; 0; 2] [1; 1; 1; 0] (Tcp 1234 80 7 8 80 2)).
Definition w_vlan : mbuf := Mbuf 1 (encode w_frame ++ repeat 0 20) 0 76 76.

Lemma parse_packet_describes_witness :
  wf_frame w_frame /\ prints (S:=unit) (parse_packet w_vlan) (describe w_frame) tt.
Proof.
  assert (wf_frame w_frame) as H.
  { split_and!; try done. split_and!; try done; [by exists 1%nat; split; [|lia]|by apply Forall_u8_dec]. }
  split; [done|]. apply parse_packet_describes; [done|].
  intros k Hk. change (get (encode w_frame ++ repeat 0 20) (0 + k) = get (encode w_frame) k).
  unfold get. apply app_nth1. unfold zlen in Hk. change (length (encode w_frame)) with 56%nat in *. lia.
Defined.
