(* ===== verification/RteGraph.v ===== *)
(** * rte_graph: nodes, streams of objects, and the walk

    The library is a parameter: [RteGraph] has its operations with the laws that
    its documentation states.  [rte_graph_walk] runs every source node once and
    then the nodes that have objects, in an order the library chooses, until no
    objects are left; what a node does is a function of the program. *)

From S2P Require Import Prelude Rte Env.

(** [node]: the nodes of a program; [obj]: what they pass on. *)
Class RteGraph (node obj : Type) := {
  rte_graph : Type;
  rte_graph_new : rte_graph;                              (* rte_graph_create *)
  objs_of : rte_graph -> node -> list obj;                (* the stream of a node *)
  rte_node_enqueue : rte_graph -> node -> list obj -> rte_graph;
  graph_next : rte_graph -> option (node * rte_graph);    (* the node that runs next *)
  graph_ok : rte_graph -> Prop;                           (* no node waits without objects *)
  graph_new_law n : graph_ok rte_graph_new /\ objs_of rte_graph_new n = [];
  enqueue_same_law g n os : objs_of (rte_node_enqueue g n os) n = objs_of g n ++ os;
  enqueue_other_law g n os n' : n' <> n -> objs_of (rte_node_enqueue g n os) n' = objs_of g n';
  enqueue_ok_law g n os : graph_ok g -> objs_of g n ++ os <> [] -> graph_ok (rte_node_enqueue g n os);
  next_law g : graph_ok g ->
    match graph_next g with
    | None => forall n, objs_of g n = []
    | Some (n, g') => objs_of g n <> [] /\ graph_ok g' /\ objs_of g' n = [] /\
                      forall n', n' <> n -> objs_of g' n' = objs_of g n'
    end
}.

(** The state of a program: the graph and its own variables. *)
Record gstate (G A : Type) := GState { graph : G; app : A }.
Arguments GState {G A}.
Arguments graph {G A}.
Arguments app {G A}.

Section Walk.
Context {node obj : Type} {RG : RteGraph node obj} {A : Type}.
Notation M := (M (gstate rte_graph A)).

Definition put_graph (g : rte_graph) : M unit := modify (fun s => GState g (app s)).
Definition put_app (f : A -> A) : M unit := modify (fun s => GState (graph s) (f (app s))).
Definition enqueue (n : node) (os : list obj) : M unit :=
  g <-- gets graph ;; put_graph (rte_node_enqueue g n os).

(** [process]: the function registered for a node; its result, the number of
    objects, is only counted.  [tick]: what the other threads of the program do
    in between.  Out of fuel is a fault: a program that never faults has enough. *)
Fixpoint drain (process : node -> list obj -> M Z) (tick : M unit) (fuel : nat) : M unit :=
  match fuel with
  | O => fault
  | S fuel' =>
      tick ;;
      g <-- gets graph ;;
      match graph_next g with
      | None => ret tt
      | Some (n, g') =>
          put_graph g' ;;
          _ <-- process n (objs_of g n) ;;
          drain process tick fuel'
      end
  end.

Definition rte_graph_walk (process : node -> list obj -> M Z) (tick : M unit) (sources : list node) (fuel : nat) : M unit :=
  _ <-- for_each (fun n => tick ;; process n []) sources ;;
  drain process tick fuel.
End Walk.

(** ** What is in the graph, and how much is left to do *)

Section Contents.
Context {node obj : Type} {EQ : EqDecision node} {RG : RteGraph node obj}.
(** All nodes, and how many edges away from the end each is. *)
Context (nodes : list node) (height : node -> nat).
Context (nodes_nodup : NoDup nodes) (nodes_all : forall n, n ∈ nodes).

Definition in_graph (g : rte_graph) : list obj := concat (map (objs_of g) nodes).
Definition work (g : rte_graph) : nat := sum_list_with (fun n => length (objs_of g n) * S (height n))%nat nodes.

(** Two graphs that differ in the stream of one node. *)
Lemma contents_split g g' n :
  (forall n', n' <> n -> objs_of g' n' = objs_of g n') ->
  exists rest w, in_graph g ≡ₚ objs_of g n ++ rest /\ in_graph g' ≡ₚ objs_of g' n ++ rest /\
    work g = (length (objs_of g n) * S (height n) + w)%nat /\
    work g' = (length (objs_of g' n) * S (height n) + w)%nat.
Proof.
  intros H. destruct (list_elem_of_split nodes n (nodes_all n)) as (l1 & l2 & E).
  assert (n ∉ l1 /\ n ∉ l2) as [N1 N2].
  { rewrite E in nodes_nodup. apply NoDup_app in nodes_nodup as (_ & H1 & H2). apply NoDup_cons in H2 as [H2 _].
    split; [|done]. intros Hi. apply (H1 _ Hi). by left. }
  assert (forall ls, n ∉ ls -> map (objs_of g') ls = map (objs_of g) ls) as Hmap.
  { intros ls Hl. apply map_ext_in. intros n' Hi%list_elem_of_In. apply H. by intros ->. }
  assert (forall ls, n ∉ ls -> sum_list_with (fun n => length (objs_of g' n) * S (height n))%nat ls =
                              sum_list_with (fun n => length (objs_of g n) * S (height n))%nat ls) as Hsum.
  { induction ls as [|n' ls IH]; simpl; [done|]. intros [Hne Hl]%not_elem_of_cons. by rewrite IH, H by done. }
  exists (concat (map (objs_of g) l1) ++ concat (map (objs_of g) l2)),
    (sum_list_with (fun n => length (objs_of g n) * S (height n)) l1 +
     sum_list_with (fun n => length (objs_of g n) * S (height n)) l2)%nat.
  unfold in_graph, work. rewrite E, !map_app, !concat_app, !sum_list_with_app. cbn [map concat sum_list_with].
  rewrite !Hmap, !Hsum by done. split_and!; [solve_Permutation|solve_Permutation|lia|lia].
Qed.

Lemma in_graph_enqueue g n os : in_graph (rte_node_enqueue g n os) ≡ₚ os ++ in_graph g.
Proof.
  destruct (contents_split g (rte_node_enqueue g n os) n (enqueue_other_law g n os)) as (rest & w & -> & -> & _).
  rewrite enqueue_same_law. solve_Permutation.
Qed.
Lemma work_enqueue g n os : work (rte_node_enqueue g n os) = (work g + length os * S (height n))%nat.
Proof.
  destruct (contents_split g (rte_node_enqueue g n os) n (enqueue_other_law g n os)) as (rest & w & _ & _ & -> & ->).
  rewrite enqueue_same_law, length_app. lia.
Qed.
Lemma in_graph_next g n g' :
  graph_ok g -> graph_next g = Some (n, g') ->
  in_graph g ≡ₚ objs_of g n ++ in_graph g' /\
  work g = (length (objs_of g n) * S (height n) + work g')%nat.
Proof.
  intros Hok Hn. pose proof (next_law g Hok) as L. rewrite Hn in L. destruct L as (_ & _ & Hem & Hoth).
  destruct (contents_split g g' n Hoth) as (rest & w & -> & -> & -> & ->). rewrite Hem. done.
Qed.
Lemma in_graph_empty g : (forall n, objs_of g n = []) -> in_graph g = [] /\ work g = O.
Proof.
  intros H. unfold in_graph, work. generalize nodes as ns.
  induction ns as [|n ns [IH1 IH2]]; simpl; [done|]. by rewrite H, IH1, IH2.
Qed.

(** [g2] is [g] with the objects [os] in addition for the node [n]. *)
Record added (g : rte_graph) (n : node) (os : list obj) (g2 : rte_graph) : Prop := {
  a_same : objs_of g2 n = objs_of g n ++ os;
  a_other n' : n' <> n -> objs_of g2 n' = objs_of g n';
  a_ok : graph_ok g -> graph_ok g2;
  a_in : in_graph g2 ≡ₚ os ++ in_graph g;
  a_work : work g2 = (work g + length os * S (height n))%nat }.

(** The node [n] with the objects [os] runs next, in [g']. *)
Record taken (g : rte_graph) (n : node) (os : list obj) (g' : rte_graph) : Prop := {
  t_same : objs_of g n = os;
  t_some : os <> [];
  t_ok : graph_ok g';
  t_empty : objs_of g' n = [];
  t_other n' : n' <> n -> objs_of g' n' = objs_of g n';
  t_in : in_graph g ≡ₚ os ++ in_graph g';
  t_work : work g = (work g' + length os * S (height n))%nat }.

Lemma added_enqueue g n os : os <> [] -> added g n os (rte_node_enqueue g n os).
Proof.
  intros Hos. split; [apply enqueue_same_law|apply enqueue_other_law| |apply in_graph_enqueue|apply work_enqueue].
  intros Hok. apply enqueue_ok_law; [done|]. by destruct (objs_of g n), os.
Qed.
Lemma added_nil g n : added g n [] g.
Proof. split; [by rewrite app_nil_r|done|done|done|simpl; lia]. Qed.

Lemma next_taken g n g' : graph_ok g -> graph_next g = Some (n, g') -> taken g n (objs_of g n) g'.
Proof.
  intros Hok Hn. pose proof (next_law g Hok) as L. rewrite Hn in L. destruct L as (Hne & Hok' & Hem & Hoth).
  destruct (in_graph_next _ _ _ Hok Hn). split; done || lia.
Qed.

(** ** The walk ends, and keeps what the nodes keep *)

Section Rules.
Context {A : Type}.
Notation gst := (gstate rte_graph A).
Implicit Types (s : gst) (t : trace).

Lemma wp_put_graph g (Q : unit -> gst -> trace -> Prop) X s t : Q tt (GState g (app s)) t -> wp (put_graph g) Q X s t.
Proof. done. Qed.
Lemma wp_put_app f (Q : unit -> gst -> trace -> Prop) X s t :
  Q tt (GState (graph s) (f (app s))) t -> wp (put_app f) Q X s t.
Proof. done. Qed.
Lemma wp_enqueue n os (Q : unit -> gst -> trace -> Prop) X s t :
  Q tt (GState (rte_node_enqueue (graph s) n os) (app s)) t -> wp (enqueue n os) Q X s t.
Proof. done. Qed.

(** [I] holds whenever no node is running; the nodes keep it and reduce the work. *)
Definition keeps (I : gst -> trace -> Prop) (process : node -> list obj -> M gst Z) (X : Z -> gst -> trace -> Prop) : Prop :=
  forall s t n os g', I s t -> taken (graph s) n os g' ->
    wp (process n os)
      (fun _ s' t' => I s' t' /\ graph_ok (graph s') /\ (work (graph s') < work (graph s))%nat) X (GState g' (app s)) t.

Definition idle (s : gst) : Prop := graph_ok (graph s) /\ forall n, objs_of (graph s) n = [].

Lemma wp_drain (I : gst -> trace -> Prop) process (tick : M gst unit) X fuel s t :
  (forall s t, I s t -> wp tick (fun _ s' t' => I s' t' /\ graph s' = graph s) X s t) ->
  keeps I process X -> I s t -> graph_ok (graph s) -> (work (graph s) < fuel)%nat ->
  wp (drain process tick fuel) (fun _ s' t' => I s' t' /\ idle s') X s t.
Proof.
  intros Ht Hp. revert s t. induction fuel as [|fuel IH]; intros s t HI Hok Hf; [lia|]. cbn [drain].
  wp_step. eapply wp_mono; [by apply Ht| |done]. intros u s1 t1 [I1 G1]. rewrite <- G1 in Hok, Hf.
  wp_step. apply wp_gets. pose proof (next_law _ Hok) as L.
  destruct (graph_next (graph s1)) as [[n g']|] eqn:E; [|by apply wp_ret].
  wp_step. apply wp_put_graph. wp_step.
  eapply wp_mono; [by apply Hp; [|apply next_taken]| |done].
  intros r s2 t2 (I2 & Hok2 & W). apply IH; [done|done|lia].
Qed.

(** A walk from an empty graph; [J] holds when so many source nodes have run. *)
Lemma wp_walk (J : nat -> gst -> trace -> Prop) (I : gst -> trace -> Prop) process (tick : M gst unit) sources X fuel s t :
  (forall i s t, J i s t -> wp tick (fun _ s' t' => J i s' t' /\ graph s' = graph s) X s t) ->
  (forall s t, I s t -> wp tick (fun _ s' t' => I s' t' /\ graph s' = graph s) X s t) ->
  (forall s t i n, J i s t -> graph_ok (graph s) -> sources !! i = Some n ->
     wp (process n []) (fun _ s' t' => J (S i) s' t' /\ graph_ok (graph s')) X s t) ->
  (forall s t, J (length sources) s t -> I s t /\ (work (graph s) < fuel)%nat) ->
  keeps I process X -> J O s t -> idle s ->
  wp (rte_graph_walk process tick sources fuel) (fun _ s' t' => I s' t' /\ idle s') X s t.
Proof.
  intros Htj Hti Hs HJ Hp H0 [Hok He]. unfold rte_graph_walk. wp_step.
  eapply wp_mono; [apply (wp_for_each (fun pre _ s t => J (length pre) s t /\ graph_ok (graph s)))| |done].
  - intros pre n post rs s1 t1 E (J1 & Hok1). wp_step.
    eapply wp_mono; [by apply Htj| |done]. intros u s2 t2 [J2 G2]. rewrite <- G2 in Hok1.
    rewrite length_app, Nat.add_1_r. apply Hs; [done|done|]. rewrite E. by apply list_lookup_middle.
  - done.
  - intros rs s1 t1 (J1 & Hok1). destruct (HJ _ _ J1). by apply wp_drain.
Qed.

(** When one node only has objects, it runs next, and the rest is empty. *)
Definition only (n : node) (os : list obj) (g : rte_graph) : Prop :=
  os <> [] /\ graph_ok g /\ objs_of g n = os /\ forall n', n' <> n -> objs_of g n' = [].

Lemma wp_drain_only process (tick : M gst unit) n os fuel (Q : unit -> gst -> trace -> Prop) X s t :
  wp tick (fun _ s' t' => only n os (graph s') /\
    forall g, graph_ok g -> (forall n, objs_of g n = []) ->
      wp (_ <-- process n os ;; drain process tick fuel) Q X (GState g (app s')) t') X s t ->
  wp (drain process tick (S fuel)) Q X s t.
Proof.
  intros Ht. cbn [drain]. wp_step. eapply wp_mono; [exact Ht| |done]. intros u s1 t1 [(Hne & Hok & Ho & He) Hp].
  wp_step. apply wp_gets. pose proof (next_law _ Hok) as L.
  destruct (graph_next (graph s1)) as [[n' g']|]; [|by rewrite L in Ho].
  destruct L as (Hne' & Hok' & Hem & Hoth). assert (n' = n) as ->.
  { destruct (decide (n' = n)); [done|]. by rewrite He in Hne'. }
  rewrite Ho. wp_step. apply wp_put_graph. apply Hp; [done|]. intros n'.
  destruct (decide (n' = n)) as [->|Hn]; [done|]. rewrite Hoth by done. auto.
Qed.
Lemma wp_drain_idle process (tick : M gst unit) fuel (Q : unit -> gst -> trace -> Prop) X s t :
  wp tick (fun _ s' t' => idle s' /\ Q tt s' t') X s t -> wp (drain process tick (S fuel)) Q X s t.
Proof.
  intros Ht. cbn [drain]. wp_step. eapply wp_mono; [exact Ht| |done]. intros u s1 t1 [[Hok He] HQ].
  wp_step. apply wp_gets. pose proof (next_law _ Hok) as L.
  destruct (graph_next (graph s1)) as [[n' g']|]; [|by apply wp_ret]. destruct L as (Hne' & _). by rewrite He in Hne'.
Qed.
Lemma only_enqueue g n os :
  graph_ok g -> (forall n, objs_of g n = []) -> os <> [] -> only n os (rte_node_enqueue g n os).
Proof.
  intros Hok He Hne. split; [done|]. split; [|split].
  - apply enqueue_ok_law; [done|]. by rewrite He.
  - by rewrite enqueue_same_law, He.
  - intros n' Hn. by rewrite enqueue_other_law, He.
Qed.
End Rules.
End Contents.

Arguments a_same {node obj RG nodes height g n os g2}.
Arguments a_other {node obj RG nodes height g n os g2}.
Arguments a_ok {node obj RG nodes height g n os g2}.
Arguments a_in {node obj RG nodes height g n os g2}.
Arguments a_work {node obj RG nodes height g n os g2}.
Arguments t_same {node obj RG nodes height g n os g'}.
Arguments t_some {node obj RG nodes height g n os g'}.
Arguments t_ok {node obj RG nodes height g n os g'}.
Arguments t_empty {node obj RG nodes height g n os g'}.
Arguments t_other {node obj RG nodes height g n os g'}.
Arguments t_in {node obj RG nodes height g n os g'}.
Arguments t_work {node obj RG nodes height g n os g'}.

(** Rewrites the streams of later graphs into those of the first one. *)
Ltac streams :=
  repeat match goal with
  | A : added _ _ _ ?n _ ?g2 |- context [objs_of ?g2 ?n] => rewrite (a_same A)
  | A : added _ _ _ _ _ ?g2 |- context [objs_of ?g2 ?n] => rewrite (a_other A n) by done
  | T : taken _ _ _ ?n _ ?g2 |- context [objs_of ?g2 ?n] => rewrite (t_empty T)
  | T : taken _ _ _ _ _ ?g2 |- context [objs_of ?g2 ?n] => rewrite (t_other T n) by done
  end.

(** ** A concrete instance: the streams in the order in which they were first filled *)

Section Sim.
Context {node obj : Type} {EQ : EqDecision node}.

Fixpoint stream (g : list (node * list obj)) (n : node) : list obj :=
  match g with
  | [] => []
  | (n', os) :: g' => if decide (n' = n) then os else stream g' n
  end.
Fixpoint stream_add (g : list (node * list obj)) (n : node) (os : list obj) : list (node * list obj) :=
  match g with
  | [] => [(n, os)]
  | (n', os') :: g' => if decide (n' = n) then (n', os' ++ os) :: g' else (n', os') :: stream_add g' n os
  end.

Lemma stream_add_same g n os : stream (stream_add g n os) n = stream g n ++ os.
Proof.
  induction g as [|[n' os'] g IH]; simpl; [by rewrite decide_True|].
  by destruct (decide (n' = n)); simpl; [rewrite decide_True|rewrite decide_False].
Qed.
Lemma stream_add_other g n os n' : n' <> n -> stream (stream_add g n os) n' = stream g n'.
Proof.
  intros Hne. induction g as [|[n2 os2] g IH]; simpl; [by rewrite decide_False by congruence|].
  destruct (decide (n2 = n)) as [->|]; simpl; [by rewrite !decide_False by congruence|]. by rewrite IH.
Qed.

(** Every node at most once, and none without objects. *)
Definition streams_ok (g : list (node * list obj)) : Prop :=
  NoDup (map fst g) /\ Forall (fun p => p.2 <> []) g.

Lemma stream_add_keys g n os k : k ∈ map fst (stream_add g n os) -> k = n \/ k ∈ map fst g.
Proof.
  induction g as [|[n' os'] g IH]; simpl; [set_solver|].
  destruct (decide (n' = n)); simpl; rewrite !elem_of_cons; intuition.
Qed.
Lemma stream_none g n : n ∉ map fst g -> stream g n = [].
Proof.
  induction g as [|[n' os'] g IH]; simpl; [done|]. intros [Hne Hn]%not_elem_of_cons.
  rewrite decide_False by congruence. auto.
Qed.
Lemma stream_add_ok g n os : streams_ok g -> stream g n ++ os <> [] -> streams_ok (stream_add g n os).
Proof.
  intros [Hd Hf]. induction g as [|[n' os'] g IH]; simpl in *.
  - intros H. split; [by repeat constructor; set_solver|by repeat constructor].
  - apply NoDup_cons in Hd as [Hn Hd]. inversion_clear Hf. intros Hne.
    destruct (decide (n' = n)) as [->|Hnn].
    + split; simpl; [by constructor|]. by constructor.
    + destruct (IH Hd H0 Hne) as [D F]. split; simpl; [|by constructor].
      constructor; [|done]. intros [->|Hi]%stream_add_keys; done.
Qed.

Definition sim_graph : RteGraph node obj.
Proof.
  refine {| rte_graph := list (node * list obj); rte_graph_new := []; objs_of := stream;
            rte_node_enqueue := stream_add;
            graph_next g := match g with [] => None | (n, _) :: g' => Some (n, g') end;
            graph_ok := streams_ok |}.
  - intros n. by repeat constructor.
  - apply stream_add_same.
  - intros g n os n'. apply stream_add_other.
  - apply stream_add_ok.
  - intros [|[n os] g] [Hd Hf]; [done|]. simpl in *. rewrite decide_True by done.
    apply NoDup_cons in Hd as [Hn Hd]. inversion_clear Hf. split_and!; try done.
    + by apply stream_none.
    + intros n' Hne. by rewrite decide_False by congruence.
Defined.
End Sim.
