(* ===== verification/GraphPipe.v ===== *)
(** * graph/pipeline: RX -> L2 -> IPv4/IPv6 -> TX as a packet graph

    pipeline.c registers six nodes; [process] is their functions.  The walk is
    that of [RteGraph]; nothing is assumed about the order in which it runs the
    nodes. *)

From S2P Require Import Prelude Rte Env Packet Ownership RteGraph Sim.

Inductive node := RX_NODE | L2_NODE | IPV4_NODE | IPV6_NODE | TX_NODE | DROP_NODE.
#[export] Instance node_eq_dec : EqDecision node.
Proof. solve_decision. Defined.

Definition BURST := 32.
Definition NB_MBUFS := 8192.
Definition MBUF_CACHE := 256.
Definition RX_RING_SIZE := 1024.
Definition TX_RING_SIZE := 1024.
Definition RTE_MBUF_DEFAULT_BUF_SIZE := 2176.
Definition EXIT_FAILURE := 1.

Section Nodes.
Context {BO : Byteorder} {RG : RteGraph node mbuf} {E : Env}.
Notation M := (M (gstate rte_graph unit)).

Definition rx_node_process (objs : list mbuf) : M Z :=
  pkts <-- rte_eth_rx_burst 0 0 BURST ;;
  let n := zlen pkts in
  when (negb (n =? 0))
    (printf "Rx Node received %u packets\n" [PInt n] ;; enqueue L2_NODE pkts) ;;
  ret n.

(** The edge a packet takes: the switch on its type. *)
Definition l2_edge (m : mbuf) : Z :=
  let ty := rte_be_to_cpu_16 (load16 m ETH_TYPE) in
  if ty =? RTE_ETHER_TYPE_IPV4 then 0 else if ty =? RTE_ETHER_TYPE_IPV6 then 1 else 2.
Definition on_edge (k : Z) (objs : list mbuf) : list mbuf := filter (fun m => l2_edge m = k) objs.

(** The three arrays have [BURST] places; filling more is undefined. *)
Definition enqueue_edge (n : node) (os : list mbuf) : M unit :=
  when (negb (zlen os =? 0)) (enqueue n os).
Definition l2_node_process (objs : list mbuf) : M Z :=
  printf "In node process L2 \n" [] ;;
  _ <-- for_each (fun m => printf "Eth type %u\n" [PInt (load16 m ETH_TYPE)]) objs ;;
  let ipv4 := on_edge 0 objs in
  let ipv6 := on_edge 1 objs in
  let drop := on_edge 2 objs in
  when ((BURST <? zlen ipv4) || (BURST <? zlen ipv6) || (BURST <? zlen drop)) fault ;;
  enqueue_edge IPV4_NODE ipv4 ;;
  enqueue_edge IPV6_NODE ipv6 ;;
  enqueue_edge DROP_NODE drop ;;
  ret (zlen objs).

Definition ipv4_node_process (objs : list mbuf) : M Z :=
  printf "In node process IPv4 \n" [] ;;
  enqueue TX_NODE objs ;;
  ret (zlen objs).
Definition ipv6_node_process (objs : list mbuf) : M Z :=
  printf "In node process IPv6\n" [] ;;
  enqueue TX_NODE objs ;;
  ret (zlen objs).
Definition tx_node_process (objs : list mbuf) : M Z :=
  printf "In node process TX \n" [] ;;
  tx_or_free 0 0 objs ;;
  ret (zlen objs).
Definition drop_node_process (objs : list mbuf) : M Z :=
  free_all objs ;;
  ret (zlen objs).

(** The registrations: which function belongs to which node. *)
Definition process (n : node) : list mbuf -> M Z :=
  match n with
  | RX_NODE => rx_node_process
  | L2_NODE => l2_node_process
  | IPV4_NODE => ipv4_node_process
  | IPV6_NODE => ipv6_node_process
  | TX_NODE => tx_node_process
  | DROP_NODE => drop_node_process
  end.

(** A walk runs at most 32 packets over at most three edges behind RX. *)
Definition WALK_FUEL : nat := 100.
Definition walk : M unit := rte_graph_walk process (ret tt) [RX_NODE] WALK_FUEL.

(** The results of the calls that configure the port are not looked at. *)
Definition main (n : nat) : M unit :=
  r <-- call rte_eal_init ;;
  when (r <? 0) (rte_exit EXIT_FAILURE) ;;
  _ <-- call (signal_handler_install "SIGINT") ;;
  pool <-- call (rte_pktmbuf_pool_create "MBUF_POOL" NB_MBUFS MBUF_CACHE 0 RTE_MBUF_DEFAULT_BUF_SIZE) ;;
  when (pool =? 0) (rte_exit EXIT_FAILURE) ;;
  _ <-- call (rte_eth_dev_configure 0 1 1) ;;
  _ <-- call (rte_eth_rx_queue_setup 0 0 RX_RING_SIZE pool) ;;
  _ <-- call (rte_eth_tx_queue_setup 0 0 TX_RING_SIZE) ;;
  _ <-- call (rte_eth_dev_start 0) ;;
  graph_id <-- call (api_call "rte_graph_create" []) ;;
  when (u16 graph_id =? 65535) (rte_exit EXIT_FAILURE) ;;
  put_graph rte_graph_new ;;
  _ <-- call (api_call "rte_graph_lookup" []) ;;
  printf "Running RX → L2 → IPv4/IPv6 → TX Pipeline...\n" [] ;;
  r <-- call (api_call "rte_graph_worker_model_no_check_get" []) ;;
  printf "model %d\n" [PInt r] ;;
  let* (ended, _) := while_running n (fun _ => walk) tt in
  if ended : bool then
    _ <-- call (api_call "rte_graph_destroy" [u16 graph_id]) ;;
    _ <-- call (rte_eth_dev_stop 0) ;;
    _ <-- call (rte_eth_dev_close 0) ;;
    ret tt
  else ret tt.
End Nodes.

(** ** What the graph holds *)

Definition nodes : list node := [RX_NODE; L2_NODE; IPV4_NODE; IPV6_NODE; TX_NODE; DROP_NODE].
Lemma pipe_nodes_nodup : NoDup nodes.
Proof. by apply (bool_decide_unpack _). Qed.
Lemma pipe_nodes_all n : n ∈ nodes.
Proof. destruct n; by apply (bool_decide_unpack _). Qed.
Definition height (n : node) : nat :=
  match n with RX_NODE => 3 | L2_NODE => 2 | IPV4_NODE | IPV6_NODE => 1 | TX_NODE | DROP_NODE => 0 end.

Section Contents.
Context {BO : Byteorder} {RG : RteGraph node mbuf} {E : Env}.
Notation gst := (gstate rte_graph unit).
Notation in_graph := (in_graph nodes).
Notation added := (added nodes height).
Notation taken := (taken nodes height).

(** The node of the packets with a type. *)
Definition lane (c : Z) : node := if c =? 0 then IPV4_NODE else IPV6_NODE.
Definition is_ip (m : mbuf) : Prop := l2_edge m = 0 \/ l2_edge m = 1.

Lemma on_edge_app c l1 l2 : on_edge c (l1 ++ l2) = on_edge c l1 ++ on_edge c l2.
Proof. apply filter_app. Qed.
Lemma on_edge_all c l : Forall (fun m => l2_edge m = c) l -> on_edge c l = l.
Proof. intros H. induction H; [done|]. unfold on_edge in *. rewrite filter_cons_True by done. by f_equal. Qed.
Lemma on_edge_none c d l : c <> d -> Forall (fun m => l2_edge m = d) l -> on_edge c l = [].
Proof. intros Hne H. induction H; [done|]. unfold on_edge in *. by rewrite filter_cons_False by congruence. Qed.
Lemma on_edge_Forall c l : Forall (fun m => l2_edge m = c) (on_edge c l).
Proof. apply Forall_forall. intros m Hm. by apply list_elem_of_filter in Hm as [? _]. Qed.
Lemma on_edge_le c l : zlen (on_edge c l) <= zlen l.
Proof. unfold zlen, on_edge. pose proof (length_filter (fun m => l2_edge m = c) l). lia. Qed.
Lemma on_edges l : l ≡ₚ on_edge 0 l ++ on_edge 1 l ++ on_edge 2 l.
Proof.
  induction l as [|m l IH]; [done|]. unfold on_edge in *. rewrite !filter_cons.
  assert (l2_edge m = 0 \/ l2_edge m = 1 \/ l2_edge m = 2) as H.
  { unfold l2_edge. destruct (_ =? _); [auto|]. destruct (_ =? _); auto. }
  rewrite IH at 1. destruct H as [->|[->| ->]]; simpl; solve_Permutation.
Qed.

(** Between two nodes: where the packets of each kind are, in their order. *)
Record inv (s : gst) (t : trace) : Prop := {
  i_fifo c : c = 0 \/ c = 1 ->
    on_edge c (received t) =
    on_edge c (given t) ++ on_edge c (objs_of (graph s) TX_NODE) ++ objs_of (graph s) (lane c) ++
    on_edge c (objs_of (graph s) L2_NODE);
  i_lane c : c = 0 \/ c = 1 -> Forall (fun m => l2_edge m = c) (objs_of (graph s) (lane c));
  i_ip : Forall is_ip (given t ++ objs_of (graph s) TX_NODE);
  i_source : objs_of (graph s) RX_NODE = [];
  i_bytes : Forall bytes_ok (received t);
  i_owned : owned (ids (in_graph (graph s))) t;
  i_len : zlen (in_graph (graph s)) <= BURST }.

(** Events that are no part of it. *)
Lemma pipe_inv_acct s t t' :
  received t' = received t -> given t' = given t -> same_acct t t' -> inv s t -> inv s t'.
Proof.
  intros R G A []. split; try done; rewrite ?R, ?G; try done. by eapply owned_acct.
Qed.
Lemma pipe_inv_printed s t t' : only_printed t t' -> inv s t -> inv s t'.
Proof.
  intros H. apply pipe_inv_acct; [| |by apply only_printed_acct]; (eapply only_printed_ext; [|exact H]); by intros [] ?.
Qed.

Lemma wp_enqueue_edge n os (Q : unit -> gst -> trace -> Prop) X s t :
  (forall g, added (graph s) n os g -> Q tt (GState g (app s)) t) -> wp (enqueue_edge n os) Q X s t.
Proof.
  intros H. unfold enqueue_edge. apply wp_when.
  - intros Hn. apply wp_enqueue, H. apply added_enqueue; [apply pipe_nodes_nodup|apply pipe_nodes_all|]. by destruct os.
  - intros Hn. assert (os = []) as -> by (by destruct os). destruct s as [g []]. apply H, added_nil.
Qed.

Lemma wp_eth_types os (Q : list unit -> gst -> trace -> Prop) X s t :
  (forall us t', only_printed t t' -> Q us s t') ->
  wp (for_each (fun m => printf "Eth type %u\n" [PInt (load16 m ETH_TYPE)]) os) Q X s t.
Proof.
  intros H. eapply wp_mono; [apply (wp_for_each (fun _ _ s' t' => s' = s /\ only_printed t t'))| |done].
  - intros pre m post rs s1 t1 _ [-> A]. apply wp_printf. split; [done|].
    eapply only_printed_trans; [exact A|]. by exists [EvPrintf "Eth type %u\n" [PInt (load16 m ETH_TYPE)]]; split; [|repeat constructor].
  - done.
  - intros us s' t' [-> A]. by apply H.
Qed.

(** What running one node must establish. *)
Definition done_with (s : gst) (s' : gst) (t' : trace) : Prop :=
  inv s' t' /\ graph_ok (graph s') /\ (work nodes height (graph s') < work nodes height (graph s))%nat.

Lemma taken_len s t n os g' : inv s t -> taken (graph s) n os g' -> zlen os <= BURST /\ zlen (os ++ in_graph g') <= BURST.
Proof.
  intros I T. pose proof (i_len _ _ I) as L. unfold zlen in *.
  rewrite (Permutation_length (t_in T)) in L. rewrite length_app in L |- *. lia.
Qed.

Lemma l2_keeps s t os g' X :
  inv s t -> taken (graph s) L2_NODE os g' ->
  wp (l2_node_process os) (fun _ s' t' => done_with s s' t') X (GState g' (app s)) t.
Proof.
  intros I T. unfold l2_node_process. wp_step. apply wp_printf. wp_step.
  apply wp_eth_types. intros us t1 A1. destruct (taken_len _ _ _ _ _ I T) as [Hl Hl2].
  apply (pipe_inv_acct s t (EvPrintf "In node process L2 \n" [] :: t)) in I; [|done..].
  apply (pipe_inv_printed _ _ _ A1) in I. destruct I as [F L IP SRC BO1 OW LEN].
  wp_step. apply wp_when.
  { pose proof (on_edge_le 0 os). pose proof (on_edge_le 1 os). pose proof (on_edge_le 2 os).
    intros [[?%Z.ltb_lt|?%Z.ltb_lt]%orb_prop|?%Z.ltb_lt]%orb_prop; lia. }
  intros _. wp_step. apply wp_enqueue_edge. intros g1 A. cbn [graph app]. wp_step.
  apply wp_enqueue_edge. intros g2 B. cbn [graph app] in *. wp_step.
  apply wp_enqueue_edge. intros g3 C. cbn [graph app] in *. apply wp_ret.
  assert (in_graph g3 ≡ₚ os ++ in_graph g') as P.
  { rewrite (a_in C), (a_in B), (a_in A). transitivity ((on_edge 0 os ++ on_edge 1 os ++ on_edge 2 os) ++ in_graph g');
      [solve_Permutation|by rewrite <- on_edges]. }
  split; [split|]; cbn [graph].
  - intros c Hc. rewrite (F c Hc). destruct Hc as [-> | ->]; unfold lane; cbn [Z.eqb]; streams;
      rewrite (t_same T); rewrite ?app_nil_r; done.
  - intros c Hc. specialize (L c Hc). destruct Hc as [-> | ->]; unfold lane in *; cbn [Z.eqb] in *; streams;
      (apply Forall_app; split; [done|apply on_edge_Forall]).
  - by streams.
  - by streams.
  - done.
  - rewrite P, <- (t_in T). done.
  - by unfold zlen in *; rewrite (Permutation_length P).
  - split; [by apply (a_ok C), (a_ok B), (a_ok A), (t_ok T)|].
    rewrite (a_work C), (a_work B), (a_work A), (t_work T). cbn [height].
    pose proof (Permutation_length (on_edges os)) as Le. rewrite !length_app in Le.
    pose proof (t_some T). destruct os; [done|]. cbn [length] in Le |- *. lia.
Qed.

(** The nodes that pass everything on to TX. *)
Lemma lane_keeps c s t os g' fmt X :
  c = 0 \/ c = 1 -> inv s t -> taken (graph s) (lane c) os g' ->
  wp (printf fmt [] ;; enqueue TX_NODE os ;; ret (zlen os)) (fun _ s' t' => done_with s s' t') X (GState g' (app s)) t.
Proof.
  intros Hc I T. wp_step. apply wp_printf. wp_step. apply wp_enqueue. apply wp_ret.
  apply (pipe_inv_acct s t (EvPrintf fmt [] :: t)) in I; [|done..]. pose proof (i_lane _ _ I c Hc) as Lc. rewrite (t_same T) in Lc.
  destruct I as [F L IP SRC BO1 OW LEN]. cbn [graph app].
  pose proof (added_enqueue nodes height pipe_nodes_nodup pipe_nodes_all g' TX_NODE os (t_some T)) as A. set (g2 := rte_node_enqueue _ _ _) in *.
  assert (in_graph g2 ≡ₚ in_graph (graph s)) as P by (by rewrite (a_in A), (t_in T)).
  split; [split|]; cbn [graph].
  - intros d Hd. rewrite (F d Hd), (a_same A). destruct Hc as [-> | ->], Hd as [-> | ->]; unfold lane in *; cbn [Z.eqb] in *; streams;
      rewrite ?(t_same T), ?app_nil_r, on_edge_app, ?(on_edge_all _ _ Lc), ?(on_edge_none 0 1 _ ltac:(done) Lc),
        ?(on_edge_none 1 0 _ ltac:(done) Lc), ?app_nil_r, <- ?app_assoc; done.
  - intros d Hd. specialize (L d Hd). destruct Hc as [-> | ->], Hd as [-> | ->]; unfold lane in *; cbn [Z.eqb] in *; by streams.
  - rewrite (a_same A). destruct Hc as [-> | ->]; unfold lane in *; cbn [Z.eqb] in *; streams; rewrite app_assoc;
      (apply Forall_app; split; [done|]); (eapply Forall_impl; [exact Lc|]); intros m Hm; unfold is_ip; auto.
  - destruct Hc as [-> | ->]; unfold lane in *; cbn [Z.eqb] in *; by streams.
  - done.
  - by rewrite P.
  - by unfold zlen in *; rewrite (Permutation_length P).
  - split; [by apply (a_ok A), (t_ok T)|]. rewrite (a_work A), (t_work T).
    pose proof (t_some T). assert (height (lane c) = 1%nat) as -> by (by destruct Hc as [-> | ->]).
    destruct os; [done|]. cbn [length height]. lia.
Qed.

Lemma tx_given p q bufs s t (Q : unit -> gst -> trace -> Prop) X :
  (forall t', received t' = received t -> given t' = given t ++ bufs ->
     (forall held, owned (ids bufs ++ held) t -> owned held t') -> Q tt s t') ->
  wp (tx_or_free p q bufs) Q X s t.
Proof.
  intros H. unfold tx_or_free, tx_count_or_free. wp_step. wp_step. apply wp_tx. intros k Hk. wp_step.
  apply wp_when; intros Hc.
  - apply wp_free_all. do 2 apply wp_ret. apply H.
    + by rewrite received_free_all.
    + by rewrite given_free_all.
    + intros held. apply owned_tx_all.
  - do 2 apply wp_ret. apply H; [done|done|]. intros held Ho. apply owned_tx_full; [done|]. by apply Z.ltb_ge.
Qed.

Lemma pipe_tx_keeps s t os g' X :
  inv s t -> taken (graph s) TX_NODE os g' ->
  wp (tx_node_process os) (fun _ s' t' => done_with s s' t') X (GState g' (app s)) t.
Proof.
  intros I T. unfold tx_node_process. wp_step. apply wp_printf. wp_step.
  apply (pipe_inv_acct s t (EvPrintf "In node process TX \n" [] :: t)) in I; [|done..].
  destruct I as [F L IP SRC BO1 OW LEN]. apply tx_given. intros t' R G O. apply wp_ret.
  split; [split|]; cbn [graph].
  - intros c Hc. rewrite R, G, (F c Hc), on_edge_app, <- app_assoc. destruct Hc as [-> | ->]; unfold lane; cbn [Z.eqb];
      streams; by rewrite (t_same T).
  - intros c Hc. specialize (L c Hc). destruct Hc as [-> | ->]; unfold lane in *; cbn [Z.eqb] in *; by streams.
  - streams. by rewrite G, app_nil_r, <- (t_same T).
  - by streams.
  - by rewrite R.
  - apply O. rewrite <- map_app, <- (t_in T). done.
  - unfold zlen in *. rewrite (Permutation_length (t_in T)), length_app in LEN. lia.
  - split; [apply (t_ok T)|]. rewrite (t_work T). pose proof (t_some T). destruct os; [done|]. cbn [length height]. lia.
Qed.

Lemma pipe_drop_keeps s t os g' X :
  inv s t -> taken (graph s) DROP_NODE os g' ->
  wp (drop_node_process os) (fun _ s' t' => done_with s s' t') X (GState g' (app s)) t.
Proof.
  intros [F L IP SRC BO1 OW LEN] T. unfold drop_node_process. wp_step. apply wp_free_all. apply wp_ret.
  split; [split|]; cbn [graph].
  - intros c Hc. rewrite received_free_all, given_free_all, (F c Hc).
    destruct Hc as [-> | ->]; unfold lane; cbn [Z.eqb]; by streams.
  - intros c Hc. specialize (L c Hc). destruct Hc as [-> | ->]; unfold lane in *; cbn [Z.eqb] in *; by streams.
  - rewrite given_free_all. by streams.
  - by streams.
  - by rewrite received_free_all.
  - apply owned_free_all. rewrite <- map_app, <- (t_in T). done.
  - unfold zlen in *. rewrite (Permutation_length (t_in T)), length_app in LEN. lia.
  - split; [apply (t_ok T)|]. rewrite (t_work T). pose proof (t_some T). destruct os; [done|]. cbn [length height]. lia.
Qed.

Lemma pipe_process_keeps X : keeps nodes height inv process X.
Proof.
  intros s t n os g' I T. destruct n.
  - pose proof (t_some T) as Hn. by rewrite <- (t_same T), (i_source _ _ I) in Hn.
  - by apply l2_keeps.
  - apply (lane_keeps 0); auto.
  - apply (lane_keeps 1); auto.
  - by apply pipe_tx_keeps.
  - by apply pipe_drop_keeps.
Qed.

(** The source, on an empty graph. *)
Lemma pipe_rx_spec s t X :
  inv s t -> idle s ->
  wp (rx_node_process [])
    (fun _ s' t' => (inv s' t' /\ (work nodes height (graph s') < WALK_FUEL)%nat) /\ graph_ok (graph s')) X s t.
Proof.
  intros I [Hok He]. destruct (in_graph_empty nodes height _ He) as [Em W0].
  unfold rx_node_process. wp_step. apply wp_rx. intros pkts Hl Hb.
  assert (zlen pkts <= BURST) as Hl2 by (by apply Hl). clear Hl.
  destruct I as [F L IP SRC BO1 OW LEN]. wp_step. apply wp_when.
  - intros Hn. wp_step. apply wp_printf. apply wp_enqueue. apply wp_ret.
    assert (pkts <> []) as Hne by (by destruct pkts).
    pose proof (added_enqueue nodes height pipe_nodes_nodup pipe_nodes_all (graph s) L2_NODE pkts Hne) as A.
    set (g2 := rte_node_enqueue _ _ _) in *. cbn [graph]. split; [split; [split|]|]; cbn [graph].
    + intros c Hc. cbn [received given]. rewrite on_edge_app, (F c Hc).
      destruct Hc as [-> | ->]; unfold lane; cbn [Z.eqb]; streams; by rewrite !He, !app_nil_r.
    + intros c Hc. destruct Hc as [-> | ->]; unfold lane; cbn [Z.eqb]; streams; by rewrite He.
    + streams. done.
    + by streams.
    + cbn [received]. by apply Forall_app.
    + rewrite (a_in A), Em, app_nil_r. rewrite Em in OW. apply (owned_rx _ 0 0 BURST pkts) in OW. simpl in OW.
      rewrite app_nil_r in OW. done.
    + unfold zlen in *. by rewrite (Permutation_length (a_in A)), Em, app_nil_r.
    + rewrite (a_work A), W0. unfold zlen, BURST, WALK_FUEL in *. cbn [height]. lia.
    + by apply (a_ok A).
  - intros Hn. apply wp_ret. assert (pkts = []) as -> by (by destruct pkts). split; [split; [split|]|]; try done.
    + intros c Hc. cbn [received given]. rewrite app_nil_r. by apply F.
    + cbn [received]. by rewrite app_nil_r.
    + rewrite W0. unfold WALK_FUEL. lia.
Qed.

Lemma pipe_walk_spec s t X :
  inv s t -> idle s -> wp walk (fun _ s' t' => inv s' t' /\ idle s') X s t.
Proof.
  intros I Hi. unfold walk.
  apply (wp_walk nodes height pipe_nodes_nodup pipe_nodes_all (fun i s t => inv s t /\ match i with
    | O => idle s | _ => (work nodes height (graph s) < WALK_FUEL)%nat end)); try done.
  - intros s1 t1 i n [I1 C1] Hok Hn. destruct i as [|i]; [|done]. injection Hn as <-. by apply pipe_rx_spec.
  - apply pipe_process_keeps.
Qed.

(** ** The program *)

(** IPv4 and IPv6 packets, by the bytes on the wire. *)
Definition ip4 (m : mbuf) : Prop := load_bytes m 12 2 = [8; 0].
Definition ip6 (m : mbuf) : Prop := load_bytes m 12 2 = [134; 221].

Lemma l2_edge_wire m : bytes_ok m -> (l2_edge m = 0 <-> ip4 m) /\ (l2_edge m = 1 <-> ip6 m).
Proof.
  intros Hm. unfold l2_edge, ip4, ip6.
  change RTE_ETHER_TYPE_IPV4 with (256 * 8 + 0). change RTE_ETHER_TYPE_IPV6 with (256 * 134 + 221).
  change ETH_TYPE with 12. rewrite !be_load16_is by (done || words).
  destruct (bool_decide_reflect (load_bytes m 12 2 = [8; 0])) as [->|H4]; [done|].
  by destruct (bool_decide_reflect (load_bytes m 12 2 = [134; 221])).
Qed.

Lemma filter_edge c (P : mbuf -> Prop) `{forall m, Decision (P m)} l :
  Forall bytes_ok l -> (forall m, bytes_ok m -> l2_edge m = c <-> P m) -> on_edge c l = filter P l.
Proof.
  intros Hl HP. induction Hl as [|m l Hm Hl IH]; [done|]. unfold on_edge in *.
  destruct (decide (P m)) as [Hp|Hp].
  - rewrite (filter_cons_True P), filter_cons_True by (done || by apply HP). by f_equal.
  - rewrite (filter_cons_False P), filter_cons_False by (done || by rewrite HP). done.
Qed.

#[local] Instance ip4_dec m : Decision (ip4 m).
Proof. unfold ip4. apply _. Defined.
#[local] Instance ip6_dec m : Decision (ip6 m).
Proof. unfold ip6. apply _. Defined.

Lemma pipe_inv_new (s : gst) t : received t = [] -> given t = [] -> owned [] t -> inv (GState rte_graph_new (app s)) t.
Proof.
  intros R G O. pose proof (fun n => proj2 (graph_new_law n)) as Hnew.
  destruct (in_graph_empty nodes height rte_graph_new Hnew) as [Em _].
  split; cbn [graph]; rewrite ?R, ?G, ?Em; try done.
  - intros c _. rewrite !Hnew. done.
  - intros c _. by rewrite Hnew.
  - by rewrite Hnew.
Qed.

(** What has been forwarded when no node has anything left. *)
Definition forwarded (t : trace) : Prop :=
  filter ip4 (given t) = filter ip4 (received t) /\ filter ip6 (given t) = filter ip6 (received t) /\
  Forall (fun m => ip4 m \/ ip6 m) (given t) /\ owned [] t.

Lemma inv_idle s t : inv s t -> idle s -> forwarded t.
Proof.
  intros [F L IP SRC B O Le] [_ He]. destruct (in_graph_empty nodes height _ He) as [Em _].
  assert (forall c, c = 0 \/ c = 1 -> on_edge c (received t) = on_edge c (given t)) as F'.
  { intros c Hc. by rewrite (F c Hc), !He, !app_nil_r. }
  rewrite He, app_nil_r in IP. assert (Forall bytes_ok (given t)) as Bg.
  { rewrite Forall_forall in IP, B |- *. intros m Hm. apply B.
    destruct (IP m Hm) as [Hc|Hc]; (assert (m ∈ on_edge (l2_edge m) (received t)) as Hr;
      [rewrite F' by (rewrite Hc; auto); by apply list_elem_of_filter|by apply list_elem_of_filter in Hr as [_ ?]]). }
  split_and!.
  - rewrite <- !(filter_edge 0) by (done || intros m Hm; by apply l2_edge_wire). symmetry. auto.
  - rewrite <- !(filter_edge 1) by (done || intros m Hm; by apply l2_edge_wire). symmetry. auto.
  - rewrite Forall_forall in IP, Bg |- *. intros m Hm. destruct (l2_edge_wire m (Bg m Hm)) as [<- <-]. by apply IP.
  - by rewrite Em in O.
Qed.

(** C17: The pipeline forwards exactly the IPv4 and IPv6 packets it receives, those of each kind in the
    order received, whatever order the library runs the nodes in; every buffer
    received is handed back exactly once, by transmission or by
    [rte_pktmbuf_free], when a walk is over, and every walk ends. *)
Theorem pipeline_forwards_ip n (s : gst) :
  wp (main n)
    (fun _ _ t => forwarded t)
    (fun c _ t => c = EXIT_FAILURE /\ received t = []) s [].
Proof.
  unfold main. wp_steps; try done. apply wp_put_graph. cbn [app]. wp_steps.
  eapply wp_mono; [apply (wp_while (fun _ s t => inv s t /\ idle s) (fun _ => walk) (fun _ _ _ => False))| |done].
  - intros u s1 t1 [I1 Hi]. by apply pipe_walk_spec.
  - intros b u s1 t1 [I1 Hi]. split; [by apply (pipe_inv_acct s1 t1)|done].
  - split; [apply pipe_inv_new; try done; constructor|]. split; [apply (graph_new_law RX_NODE)|intros m; apply graph_new_law].
  - intros [ended u] s1 t1 [I1 Hi]. pose proof (inv_idle _ _ I1 Hi). by wp_steps.
Qed.
End Contents.
