(* ===== verification/GraphDrop.v ===== *)
(** * graph/rx_drop_sample: RX -> IPv4 check -> TX or DROP as a packet graph

    sample/main.c registers four nodes.  The nodes are those of graph/pipeline
    in small, but the transmitting node ignores what the NIC refuses. *)

From S2P Require Import Prelude Rte Env Packet Ownership RteGraph Sim.

Inductive node := RX_NODE | IPV4_NODE | TX_NODE | DROP_NODE.
#[export] Instance node_eq_dec : EqDecision node.
Proof. solve_decision. Defined.

Definition NB_MBUFS := 8192.
Definition MBUF_CACHE := 256.
Definition RX_RING_SIZE := 1024.
Definition TX_RING_SIZE := 1024.
Definition BURST_SIZE := 256.     (* RTE_GRAPH_BURST_SIZE *)
Definition RTE_MBUF_DEFAULT_BUF_SIZE := 2176.
Definition EXIT_FAILURE := 1.

Section Nodes.
Context {BO : Byteorder} {RG : RteGraph node mbuf} {E : Env}.
Notation M := (M (gstate rte_graph unit)).

Definition rx_node_process (objs : list mbuf) : M Z :=
  pkts <-- rte_eth_rx_burst 0 0 BURST_SIZE ;;
  let nb_rx := zlen pkts in
  when (0 <? nb_rx) (enqueue IPV4_NODE pkts) ;;
  ret nb_rx.

Definition is_ipv4 (pkt : mbuf) : bool := load16 pkt ETH_TYPE =? rte_cpu_to_be_16 RTE_ETHER_TYPE_IPV4.
Definition ipv4_node_process (objs : list mbuf) : M Z :=
  printf "Got %u packets\n" [PInt (zlen objs)] ;;
  _ <-- for_each (fun pkt =>
    if is_ipv4 pkt then enqueue TX_NODE [pkt] else enqueue DROP_NODE [pkt]) objs ;;
  ret (zlen objs).

(** The result of the transmission is ignored. *)
Definition tx_node_process (objs : list mbuf) : M Z :=
  _ <-- rte_eth_tx_burst 0 0 objs ;;
  ret (zlen objs).
Definition drop_node_process (objs : list mbuf) : M Z :=
  free_all objs ;;
  ret (zlen objs).

Definition process (n : node) : list mbuf -> M Z :=
  match n with
  | RX_NODE => rx_node_process
  | IPV4_NODE => ipv4_node_process
  | TX_NODE => tx_node_process
  | DROP_NODE => drop_node_process
  end.

(** A walk moves at most 256 packets over two edges behind RX. *)
Definition WALK_FUEL : nat := 600.
Definition walk : M unit := rte_graph_walk process (ret tt) [RX_NODE] WALK_FUEL.

Definition main (n : nat) : M (option Z) :=
  r <-- call rte_eal_init ;;
  when (r <? 0) (rte_exit EXIT_FAILURE) ;;
  _ <-- call (signal_handler_install "SIGINT") ;;
  _ <-- call (signal_handler_install "SIGTERM") ;;
  mbuf_pool <-- call (rte_pktmbuf_pool_create "MBUF_POOL" NB_MBUFS MBUF_CACHE 0 RTE_MBUF_DEFAULT_BUF_SIZE) ;;
  when (mbuf_pool =? 0) (rte_exit EXIT_FAILURE) ;;
  _ <-- call (rte_eth_dev_configure 0 1 1) ;;
  _ <-- call (rte_eth_rx_queue_setup 0 0 RX_RING_SIZE mbuf_pool) ;;
  _ <-- call (rte_eth_tx_queue_setup 0 0 TX_RING_SIZE) ;;
  _ <-- call (rte_eth_dev_start 0) ;;
  graph_id <-- call (api_call "rte_graph_create" []) ;;
  when (u16 graph_id =? 65535) (rte_exit EXIT_FAILURE) ;;
  put_graph rte_graph_new ;;
  r <-- call (api_call "rte_graph_lookup" []) ;;
  when (r =? 0) (rte_exit EXIT_FAILURE) ;;
  printf "DPDK Graph running (Ctrl+C to quit)\n" [] ;;
  let* (ended, _) := while_running n (fun _ => walk) tt in
  if ended : bool then
    _ <-- call (api_call "rte_graph_destroy" [u16 graph_id]) ;;
    _ <-- call (rte_eth_dev_stop 0) ;;
    _ <-- call (rte_eth_dev_close 0) ;;
    printf "Exited cleanly\n" [] ;;
    ret (Some 0)
  else ret None.
End Nodes.

(** ** What the graph holds *)

Definition nodes : list node := [RX_NODE; IPV4_NODE; TX_NODE; DROP_NODE].
Lemma sample_nodes_nodup : NoDup nodes.
Proof. by apply (bool_decide_unpack _). Qed.
Lemma sample_nodes_all n : n ∈ nodes.
Proof. destruct n; by apply (bool_decide_unpack _). Qed.
Definition height (n : node) : nat :=
  match n with RX_NODE => 2 | IPV4_NODE => 1 | TX_NODE | DROP_NODE => 0 end.

Section Contents.
Context {BO : Byteorder} {RG : RteGraph node mbuf} {E : Env}.
Notation gst := (gstate rte_graph unit).
Notation in_graph := (in_graph nodes).
Notation work := (work nodes height).
Notation added := (added nodes height).
Notation taken := (taken nodes height).

Definition v4 (l : list mbuf) : list mbuf := filter (fun m => is_ipv4 m) l.

Record inv (s : gst) (t : trace) : Prop := {
  i_fifo : v4 (received t) = given t ++ objs_of (graph s) TX_NODE ++ v4 (objs_of (graph s) IPV4_NODE);
  i_source : objs_of (graph s) RX_NODE = [];
  i_bytes : Forall bytes_ok (received t);
  i_owned : owned (ids (in_graph (graph s)) ++ refused_ids t) t }.

Lemma sample_inv_acct s t t' :
  received t' = received t -> given t' = given t -> same_acct t t' -> inv s t -> inv s t'.
Proof.
  intros R G A []. split; try done; rewrite ?R, ?G; try done.
  pose proof A as (_ & _ & _ & ->). by eapply owned_acct.
Qed.
Lemma v4_app l1 l2 : v4 (l1 ++ l2) = v4 l1 ++ v4 l2.
Proof. apply filter_app. Qed.

Definition done_with (s : gst) (s' : gst) (t' : trace) : Prop :=
  inv s' t' /\ graph_ok (graph s') /\ (work (graph s') < work (graph s))%nat.

(** The loop of the IPv4 node, from the graph [g0]. *)
Record checked (g0 : rte_graph) (pre : list mbuf) (g : rte_graph) : Prop := {
  c_tx : objs_of g TX_NODE = objs_of g0 TX_NODE ++ v4 pre;
  c_other n : n <> TX_NODE -> n <> DROP_NODE -> objs_of g n = objs_of g0 n;
  c_ok : graph_ok g0 -> graph_ok g;
  c_in : in_graph g ≡ₚ pre ++ in_graph g0;
  c_work : work g = (work g0 + length pre)%nat }.

Lemma checked_step g0 pre g m :
  checked g0 pre g -> checked g0 (pre ++ [m]) (rte_node_enqueue g (if is_ipv4 m then TX_NODE else DROP_NODE) [m]).
Proof.
  intros [T O K I W]. set (n := if is_ipv4 m then TX_NODE else DROP_NODE).
  pose proof (added_enqueue nodes height sample_nodes_nodup sample_nodes_all g n [m] ltac:(done)) as A.
  set (g2 := rte_node_enqueue _ _ _) in *. split.
  - rewrite v4_app, app_assoc, <- T. unfold v4 at 1. rewrite filter_cons, filter_nil. subst n.
    destruct (is_ipv4 m); [rewrite (a_same A), decide_True by done; done|].
    rewrite decide_False by (by intros []). rewrite app_nil_r. by streams.
  - intros n' H1 H2. rewrite (a_other A); [auto|]. subst n. by destruct (is_ipv4 m).
  - intros Hok. by apply (a_ok A), K.
  - rewrite (a_in A), I. solve_Permutation.
  - rewrite (a_work A), W, length_app. assert (height n = 0%nat) as -> by (subst n; by destruct (is_ipv4 m)). simpl. lia.
Qed.

Lemma ipv4_keeps s t os g' X :
  inv s t -> taken (graph s) IPV4_NODE os g' ->
  wp (ipv4_node_process os) (fun _ s' t' => done_with s s' t') X (GState g' (app s)) t.
Proof.
  intros I T. unfold ipv4_node_process. wp_step. apply wp_printf. wp_step.
  apply (sample_inv_acct s t (EvPrintf "Got %u packets\n" [PInt (zlen os)] :: t)) in I; [|done..].
  set (t1 := _ :: t) in *.
  eapply wp_mono; [apply (wp_for_each (fun pre _ s' t' => t' = t1 /\ checked g' pre (graph s')) _ X)| |done].
  - intros pre m post rs s1 t2 _ [-> C]. apply (checked_step _ _ _ m) in C.
    destruct (is_ipv4 m); apply wp_enqueue; by split.
  - split; [done|]. split; cbn [graph]; rewrite ?app_nil_r; done.
  - intros us s1 t2 [-> C]. apply wp_ret. destruct I as [F SRC B O]. split; [split|].
    + rewrite F, (c_tx _ _ _ C), (c_other _ _ _ C IPV4_NODE) by done. streams. rewrite (t_same T), app_nil_r. done.
    + rewrite (c_other _ _ _ C) by done. by streams.
    + done.
    + by rewrite (c_in _ _ _ C), <- (t_in T).
    + split; [apply (c_ok _ _ _ C), (t_ok T)|]. rewrite (c_work _ _ _ C), (t_work T). cbn [height].
      pose proof (t_some T). destruct os; [done|]. cbn [length]. lia.
Qed.

Lemma sample_tx_keeps s t os g' X :
  inv s t -> taken (graph s) TX_NODE os g' ->
  wp (tx_node_process os) (fun _ s' t' => done_with s s' t') X (GState g' (app s)) t.
Proof.
  intros [F SRC B O] T. unfold tx_node_process. wp_step. apply wp_tx. intros k Hk. apply wp_ret.
  split; [split|]; cbn [graph].
  - cbn [received given]. rewrite F, <- app_assoc. streams. by rewrite (t_same T).
  - by streams.
  - done.
  - apply owned_tx_ignored. rewrite app_assoc, <- map_app. by rewrite <- (t_in T).
  - split; [apply (t_ok T)|]. rewrite (t_work T). pose proof (t_some T). destruct os; [done|]. cbn [length height]. lia.
Qed.

Lemma sample_drop_keeps s t os g' X :
  inv s t -> taken (graph s) DROP_NODE os g' ->
  wp (drop_node_process os) (fun _ s' t' => done_with s s' t') X (GState g' (app s)) t.
Proof.
  intros [F SRC B O] T. unfold drop_node_process. wp_step. apply wp_free_all. apply wp_ret.
  split; [split|]; cbn [graph]; rewrite ?received_free_all, ?given_free_all, ?refused_free_all.
  - rewrite F. by streams.
  - by streams.
  - done.
  - apply owned_free_all. rewrite app_assoc, <- map_app. by rewrite <- (t_in T).
  - split; [apply (t_ok T)|]. rewrite (t_work T). pose proof (t_some T). destruct os; [done|]. cbn [length height]. lia.
Qed.

Lemma sample_process_keeps X : keeps nodes height inv process X.
Proof.
  intros s t n os g' I T. destruct n.
  - pose proof (t_some T) as Hn. by rewrite <- (t_same T), (i_source _ _ I) in Hn.
  - by apply ipv4_keeps.
  - by apply sample_tx_keeps.
  - by apply sample_drop_keeps.
Qed.

Lemma sample_rx_spec s t X :
  inv s t -> idle s ->
  wp (rx_node_process [])
    (fun _ s' t' => (inv s' t' /\ (work (graph s') < WALK_FUEL)%nat) /\ graph_ok (graph s')) X s t.
Proof.
  intros I [Hok He]. destruct (in_graph_empty nodes height _ He) as [Em W0].
  unfold rx_node_process. wp_step. apply wp_rx. intros pkts Hl Hb.
  assert (zlen pkts <= BURST_SIZE) as Hl2 by (by apply Hl). clear Hl.
  destruct I as [F SRC B O]. rewrite !He, Em in *. wp_step. apply wp_when.
  - intros Hn. apply wp_enqueue. apply wp_ret. assert (pkts <> []) as Hne by (by destruct pkts).
    pose proof (added_enqueue nodes height sample_nodes_nodup sample_nodes_all (graph s) IPV4_NODE pkts Hne) as A.
    set (g2 := rte_node_enqueue _ _ _) in *. cbn [graph]. split; [split; [split|]|]; cbn [graph].
    + cbn [received given]. streams. by rewrite v4_app, F, !He, !app_nil_r.
    + streams. by rewrite He.
    + cbn [received]. by apply Forall_app.
    + rewrite (a_in A), Em, app_nil_r. apply (owned_rx _ 0 0 BURST_SIZE pkts) in O. done.
    + rewrite (a_work A), W0. unfold zlen, BURST_SIZE, WALK_FUEL in *. cbn [height]. lia.
    + by apply (a_ok A).
  - intros Hn. apply wp_ret. assert (pkts = []) as -> by (by destruct pkts). split; [split; [split|]|]; rewrite ?He, ?Em; try done.
    + cbn [received given]. rewrite app_nil_r. done.
    + cbn [received]. by rewrite app_nil_r.
    + rewrite W0. unfold WALK_FUEL. lia.
Qed.

Lemma sample_walk_spec s t X :
  inv s t -> idle s -> wp walk (fun _ s' t' => inv s' t' /\ idle s') X s t.
Proof.
  intros I Hi. unfold walk.
  apply (wp_walk nodes height sample_nodes_nodup sample_nodes_all (fun i s t => inv s t /\ match i with
    | O => idle s | _ => (work (graph s) < WALK_FUEL)%nat end)); try done.
  - intros s1 t1 i n [I1 C1] Hok Hn. destruct i as [|i]; [|done]. injection Hn as <-. by apply sample_rx_spec.
  - apply sample_process_keeps.
Qed.

(** ** The program *)

(** IPv4 by the bytes on the wire. *)
Definition ip4 (m : mbuf) : Prop := load_bytes m 12 2 = [8; 0].
#[local] Instance ip4_dec m : Decision (ip4 m).
Proof. unfold ip4. apply _. Defined.

Lemma is_ipv4_wire m : bytes_ok m -> (is_ipv4 m <-> ip4 m).
Proof.
  intros Hm. unfold is_ipv4, ip4. rewrite cpu_to_be_16_law by (by split).
  change (bswap16 RTE_ETHER_TYPE_IPV4) with (of_le16 8 0). change ETH_TYPE with 12.
  rewrite load16_is by (done || words). rewrite bool_decide_spec. done.
Qed.
Lemma v4_wire l : Forall bytes_ok l -> v4 l = filter ip4 l.
Proof.
  intros Hl. induction Hl as [|m l Hm Hl IH]; [done|]. unfold v4 in *. destruct (decide (ip4 m)) as [Hp|Hp].
  - rewrite (filter_cons_True ip4), filter_cons_True by (done || by apply is_ipv4_wire). by f_equal.
  - rewrite (filter_cons_False ip4), filter_cons_False by (done || by rewrite is_ipv4_wire). done.
Qed.

Lemma sample_inv_new (s : gst) t : received t = [] -> given t = [] -> owned [] t -> refused_ids t = [] -> inv (GState rte_graph_new (app s)) t.
Proof.
  intros R G O F. pose proof (fun n => proj2 (graph_new_law n)) as Hnew.
  destruct (in_graph_empty nodes height rte_graph_new Hnew) as [Em _].
  split; cbn [graph]; rewrite ?R, ?G, ?Em, ?F, ?Hnew; done.
Qed.

(** The sample forwards exactly the IPv4 packets it receives, in the order received, in whatever
    order the library runs the nodes; the buffers it received and never hands
    back are exactly those the NIC refused, which are lost. Every walk ends. *)
Theorem drop_sample_forwards n (s : gst) :
  wp (main n)
    (fun _ _ t => given t = filter ip4 (received t) /\ owned (refused_ids t) t)
    (fun c _ t => c = EXIT_FAILURE /\ received t = []) s [].
Proof.
  unfold main. wp_steps; try done. apply wp_put_graph. cbn [app]. wp_steps; try done.
  eapply wp_mono; [apply (wp_while (fun _ s t => inv s t /\ idle s) (fun _ => walk) (fun _ _ _ => False))| |done].
  - intros u s1 t1 [I1 Hi]. by apply sample_walk_spec.
  - intros b u s1 t1 [I1 Hi]. split; [by apply (sample_inv_acct s1 t1)|done].
  - split; [apply sample_inv_new; try done; constructor|]. split; [apply (graph_new_law RX_NODE)|intros m; apply graph_new_law].
  - intros [ended u] s1 t1 [[F SRC B O] [_ He]]. destruct (in_graph_empty nodes height _ He) as [Em _].
    rewrite Em in O. rewrite !He, v4_wire, app_nil_r in F by done. by wp_steps.
Qed.
End Contents.
