(* ===== verification/GraphFw.v ===== *)
(** * dpdk-graph-fw: a packet graph with a firewall that a command line turns on and off

    main.c walks the graph, while the thread of control/cli.c reads commands
    and sets [firewall_enabled] and [app_running].  The nodes are in nodes/. *)

From Stdlib Require Import String.
From S2P Require Import Prelude Rte Env Packet Ownership RteGraph Sim.

Inductive node := RX_NODE | PARSER_NODE | FIREWALL_NODE | TX_NODE.
#[export] Instance node_eq_dec : EqDecision node.
Proof. solve_decision. Defined.

Definition NUM_MBUFS := 8192.
Definition MBUF_CACHE_SIZE := 250.
Definition RTE_MBUF_DEFAULT_BUF_SIZE := 2176.

(** The global variables, the local [cmd] of [run_cli], and what is still to come
    for the CLI thread: at each moment at which it may act, [None] if it does not,
    [Some (Some line)] if a call of [fgets] gives it that line (at most 63
    characters), [Some None] if [fgets] fails at the end of the input. *)
Record fw := Fw {
  firewall_enabled : bool; app_running : bool;
  rx_count : Z; parser_count : Z; firewall_count : Z; tx_count : Z;
  cmd : string; cli : list (option (option string)) }.

Definition set_enabled (b : bool) (v : fw) : fw :=
  Fw b (app_running v) (rx_count v) (parser_count v) (firewall_count v) (tx_count v) (cmd v) (cli v).
Definition set_running (b : bool) (v : fw) : fw :=
  Fw (firewall_enabled v) b (rx_count v) (parser_count v) (firewall_count v) (tx_count v) (cmd v) (cli v).
Definition set_rx (n : Z) (v : fw) : fw :=
  Fw (firewall_enabled v) (app_running v) n (parser_count v) (firewall_count v) (tx_count v) (cmd v) (cli v).
Definition set_parser (n : Z) (v : fw) : fw :=
  Fw (firewall_enabled v) (app_running v) (rx_count v) n (firewall_count v) (tx_count v) (cmd v) (cli v).
Definition set_firewall (n : Z) (v : fw) : fw :=
  Fw (firewall_enabled v) (app_running v) (rx_count v) (parser_count v) n (tx_count v) (cmd v) (cli v).
Definition set_tx (n : Z) (v : fw) : fw :=
  Fw (firewall_enabled v) (app_running v) (rx_count v) (parser_count v) (firewall_count v) n (cmd v) (cli v).
Definition set_cmd (c : string) (v : fw) : fw :=
  Fw (firewall_enabled v) (app_running v) (rx_count v) (parser_count v) (firewall_count v) (tx_count v) c (cli v).
Definition set_cli (l : list (option (option string))) (v : fw) : fw :=
  Fw (firewall_enabled v) (app_running v) (rx_count v) (parser_count v) (firewall_count v) (tx_count v) (cmd v) l.

Section Nodes.
Context {RG : RteGraph node mbuf} {E : Env}.
Notation M := (M (gstate rte_graph fw)).
Definition getv {T} (f : fw -> T) : M T := gets (fun s => f (app s)).

(** ** control/cli.c *)

(** One iteration of the loop of [run_cli]; when [fgets] fails, [cmd] keeps its contents. *)
Definition run_cli (line : option string) : M unit :=
  printf "cli> " [] ;;
  put_app (fun v => match line with Some l => set_cmd l v | None => v end) ;;
  c <-- getv cmd ;;
  if String.prefix "enable firewall" c then
    put_app (set_enabled true) ;; printf "Firewall enabled\n" []
  else if String.prefix "disable firewall" c then
    put_app (set_enabled false) ;; printf "Firewall disabled\n" []
  else if String.prefix "show stats" c then
    r <-- getv rx_count ;; p <-- getv parser_count ;; f <-- getv firewall_count ;; x <-- getv tx_count ;;
    printf "\nNode statistics\n" [] ;;
    printf "RX node:       %lu packets\n" [PInt r] ;;
    printf "Parser node:   %lu packets\n" [PInt p] ;;
    printf "Firewall node: %lu packets\n" [PInt f] ;;
    printf "TX node:       %lu packets\n\n" [PInt x]
  else if String.prefix "quit" c then
    printf "Stopping application\n" [] ;; put_app (set_running false)
  else
    printf "Commands:\n" [] ;;
    printf "enable firewall\n" [] ;;
    printf "disable firewall\n" [] ;;
    printf "show stats\n" [] ;;
    printf "quit\n" [].

(** What the CLI thread does between two steps of the walking thread; it ends
    with [app_running]. *)
Definition cli_thread : M unit :=
  l <-- getv cli ;;
  match l with
  | [] => ret tt
  | e :: rest =>
      put_app (set_cli rest) ;;
      running <-- getv app_running ;;
      match e with
      | Some line => when running (run_cli line)
      | None => ret tt
      end
  end.

(** ** nodes/ *)

Definition rx_node_process (objs : list mbuf) : M Z :=
  pkts <-- rte_eth_rx_burst 0 0 32 ;;
  let nb_rx := zlen pkts in
  put_app (fun v => set_rx (u64 (rx_count v + nb_rx)) v) ;;
  when (negb (nb_rx =? 0))
    (c <-- getv rx_count ;;
     when (c mod 1000 <? nb_rx) (printf "[RX] total=%lu (last burst=%u)\n" [PInt c; PInt nb_rx]) ;;
     enqueue PARSER_NODE pkts) ;;
  ret nb_rx.

(** The flag is read for the choice and again for the message. *)
Definition parser_node_process (objs : list mbuf) : M Z :=
  let nb_objs := zlen objs in
  put_app (fun v => set_parser (u64 (parser_count v + nb_objs)) v) ;;
  on <-- getv firewall_enabled ;;
  let next := if on : bool then FIREWALL_NODE else TX_NODE in
  c <-- getv parser_count ;;
  when (c mod 1000 <? nb_objs)
    (on' <-- getv firewall_enabled ;;
     if on' : bool then printf "[Parser] -> FIREWALL\n" [] else printf "[Parser] -> TX\n" []) ;;
  enqueue next objs ;;
  ret nb_objs.

(** One packet of the burst: dropped, or kept for [objs]. *)
Definition firewall_rule (m : mbuf) : M (option mbuf) :=
  if pkt_len m <? 60 then rte_pktmbuf_free m ;; ret None else ret (Some m).
Definition firewall_node_process (objs : list mbuf) : M Z :=
  let nb_objs := zlen objs in
  put_app (fun v => set_firewall (u64 (firewall_count v + nb_objs)) v) ;;
  c <-- getv firewall_count ;;
  when (c mod 1000 <? nb_objs) (printf "[Firewall] processing %u packets\n" [PInt nb_objs]) ;;
  kept <-- for_each firewall_rule objs ;;
  let out := omap id kept in
  when (negb (zlen out =? 0)) (enqueue TX_NODE out) ;;
  ret nb_objs.

(** The result of the transmission is ignored. *)
Definition tx_node_process (objs : list mbuf) : M Z :=
  let nb_objs := zlen objs in
  put_app (fun v => set_tx (u64 (tx_count v + nb_objs)) v) ;;
  c <-- getv tx_count ;;
  when (c mod 1000 <? nb_objs) (printf "[TX] total sent=%lu\n" [PInt c]) ;;
  _ <-- rte_eth_tx_burst 0 0 objs ;;
  ret nb_objs.

Definition process (n : node) : list mbuf -> M Z :=
  match n with
  | RX_NODE => rx_node_process
  | PARSER_NODE => parser_node_process
  | FIREWALL_NODE => firewall_node_process
  | TX_NODE => tx_node_process
  end.

(** ** main.c *)

Definition port_init (port mbuf_pool : Z) : M unit :=
  _ <-- call (rte_eth_dev_configure port 1 1) ;;
  _ <-- call (rte_eth_rx_queue_setup port 0 1024 mbuf_pool) ;;
  _ <-- call (rte_eth_tx_queue_setup port 0 1024) ;;
  _ <-- call (rte_eth_dev_start port) ;;
  ret tt.

(** Behind RX a walk runs at most three nodes. *)
Definition WALK_FUEL : nat := 4.
Definition walk : M unit := rte_graph_walk process cli_thread [RX_NODE] WALK_FUEL.

(** At most [n] rounds of [while (app_running)]; the result says whether it ended. *)
Fixpoint main_loop (graph : Z) (n : nat) : M bool :=
  cli_thread ;;
  running <-- getv app_running ;;
  match n with
  | O => ret (negb running)
  | S n' => if running : bool then when (graph =? 0) fault ;; walk ;; main_loop graph n' else ret true
  end.

(** A failure of [rte_graph_create] shows in the walk of a NULL graph. *)
Definition main (n : nat) : M (option Z) :=
  _ <-- call rte_eal_init ;;
  mbuf_pool <-- call (rte_pktmbuf_pool_create "MBUF_POOL" NUM_MBUFS MBUF_CACHE_SIZE 0 RTE_MBUF_DEFAULT_BUF_SIZE) ;;
  port_init 0 mbuf_pool ;;
  _ <-- call (api_call "rte_graph_create" []) ;;
  put_graph rte_graph_new ;;
  graph <-- call (api_call "rte_graph_lookup" []) ;;
  _ <-- call (api_call "pthread_create" []) ;;
  ended <-- main_loop graph n ;;
  if ended : bool then printf "Application exiting\n" [] ;; ret (Some 0) else ret None.
End Nodes.

(** ** A walk *)

Section Walk.
Context {RG : RteGraph node mbuf} {E : Env}.
Notation gst := (gstate rte_graph fw).
Implicit Types (s : gst) (t : trace) (v : fw).

Lemma only_printed_cons t t' fmt args : only_printed t t' -> only_printed t (EvPrintf fmt args :: t').
Proof. intros (ls & -> & H). exists (EvPrintf fmt args :: ls). by split; [|constructor]. Qed.

Lemma wp_put_app' f (Q : unit -> gst -> trace -> Prop) X s t :
  Q tt (GState (graph s) (f (app s))) t -> wp (put_app f) Q X s t.
Proof. done. Qed.
Lemma wp_getv {T} (f : fw -> T) (Q : T -> gst -> trace -> Prop) X s t : Q (f (app s)) s t -> wp (getv f) Q X s t.
Proof. done. Qed.

(** The steps on the variables, the lines printed, and the branches. *)
Ltac fw_step :=
  lazymatch goal with
  | |- wp (put_app _) _ _ _ _ => apply wp_put_app'; cbn [graph app]
  | |- wp (getv _) _ _ _ _ => apply wp_getv; cbn [graph app]
  | |- wp (enqueue _ _) _ _ _ _ => apply wp_enqueue; cbn [graph app]
  | _ => wp_step; cbn beta
  end.
Ltac fw_steps := repeat fw_step.

(** What the CLI thread leaves alone. *)
Definition same_counts v v' : Prop :=
  rx_count v' = rx_count v /\ parser_count v' = parser_count v /\ firewall_count v' = firewall_count v /\
  tx_count v' = tx_count v.

(** A line that stops the program, and: it has been stopped, or the line is still to come. *)
Definition quit_line (e : option (option string)) : Prop :=
  match e with Some (Some l) => String.prefix "quit" l = true | _ => False end.
Definition quitting v : Prop := app_running v = false \/ Exists quit_line (cli v).
Definition advances v v' : Prop :=
  (quitting v -> quitting v') /\ (length (cli v') <= length (cli v))%nat.

Lemma quit_not c : String.prefix "quit" c = true ->
  String.prefix "enable firewall" c = false /\ String.prefix "disable firewall" c = false /\
  String.prefix "show stats" c = false.
Proof.
  destruct c as [|[[] [] [] [] [] [] [] []] c]; try (by intros H); done.
Qed.

Lemma wp_run_cli line (Q : unit -> gst -> trace -> Prop) X s t :
  (forall v' t', only_printed t t' -> same_counts (app s) v' -> cli v' = cli (app s) ->
     (app_running (app s) = false \/ quit_line (Some line) -> app_running v' = false) -> Q tt (GState (graph s) v') t') ->
  wp (run_cli line) Q X s t.
Proof.
  intros H. unfold run_cli.
  wp_step. apply wp_printf. wp_step. apply wp_put_app'. wp_step. apply wp_getv. cbn [graph app].
  set (v := match line with Some l => _ | None => _ end).
  assert (same_counts (app s) v /\ cli v = cli (app s) /\ app_running v = app_running (app s)) as (Hv & Hc & Hr) by (by destruct line).
  assert (quit_line (Some line) -> String.prefix "quit" (cmd v) = true) as Hq by (by destruct line).
  set (c := cmd v) in *. clearbody c v.
  destruct (String.prefix "quit" c) eqn:Eq.
  - destruct (quit_not c Eq) as (-> & -> & ->). fw_steps. apply H; [by repeat apply only_printed_cons|done..].
  - assert (app_running (app s) = false \/ quit_line (Some line) -> app_running v = false) as Hs.
    { intros [Hf|Hf]; [by rewrite Hr|]. by apply Hq in Hf. }
    destruct (String.prefix "enable firewall" c).
    { fw_steps. apply H; [by repeat apply only_printed_cons|done..]. }
    destruct (String.prefix "disable firewall" c).
    { fw_steps. apply H; [by repeat apply only_printed_cons|done..]. }
    destruct (String.prefix "show stats" c); fw_steps; (apply H; [by repeat apply only_printed_cons|done..]).
Qed.

Lemma wp_cli (Q : unit -> gst -> trace -> Prop) X s t :
  (forall v' t', only_printed t t' -> same_counts (app s) v' -> (cli (app s) = [] -> v' = app s) ->
     cli v' = tail (cli (app s)) -> (quitting (app s) -> quitting v') -> Q tt (GState (graph s) v') t') ->
  wp cli_thread Q X s t.
Proof.
  intros H. unfold cli_thread. wp_step. apply wp_getv. destruct s as [g v]. cbn [app graph] in *.
  destruct (cli v) as [|e rest] eqn:Ec; [apply wp_ret, (H v); try done; by rewrite Ec|].
  wp_step. apply wp_put_app'. wp_step. apply wp_getv. cbn [app graph].
  assert (forall v', cli v' = rest -> (app_running v = false \/ quit_line e -> app_running v' = false) ->
    quitting v -> quitting v') as Hq.
  { intros v' E1 E2 [Hr|Hx]; [left; auto|]. rewrite Ec in Hx. apply Exists_cons in Hx as [Hx|Hx]; [left; auto|].
    right. by rewrite E1. }
  destruct e as [line|]; [apply wp_when; intros Hr|].
  - apply wp_run_cli. intros v' t' P C E1 E2. apply H; try done. by apply Hq.
  - apply H; try done. apply Hq; [done|]. intros _. exact Hr.
  - apply wp_ret. apply H; try done. apply Hq; [done|]. by intros [?|[]].
Qed.

(** The packets the firewall drops and those it lets through. *)
Definition short (l : list mbuf) : list mbuf := filter (fun m => pkt_len m < 60) l.
Definition long (l : list mbuf) : list mbuf := filter (fun m => 60 <= pkt_len m) l.

Lemma short_long l : l ≡ₚ short l ++ long l.
Proof.
  induction l as [|m l IH]; [done|]. unfold short, long in *. rewrite !filter_cons.
  etransitivity; [apply Permutation_skip, IH|].
  destruct (decide (pkt_len m < 60)), (decide (60 <= pkt_len m)); try lia; [done|apply Permutation_middle].
Qed.

Lemma rules_run os s t :
  for_each firewall_rule os s t =
    Done (map (fun m => if pkt_len m <? 60 then None else Some m) os) s (rev (map EvFree (short os)) ++ t).
Proof.
  revert t. induction os as [|m os IH]; intros t; [done|]. cbn [for_each map]. unfold bind at 1, firewall_rule at 1.
  unfold short. rewrite filter_cons. destruct (Z.ltb_spec (pkt_len m) 60).
  - rewrite decide_True by done. unfold bind, rte_pktmbuf_free, emit, ret. rewrite IH. simpl. by rewrite <- app_assoc.
  - rewrite decide_False by lia. unfold bind, ret. by rewrite IH.
Qed.
Lemma kept_long os : omap id (map (fun m => if pkt_len m <? 60 then None else Some m) os) = long os.
Proof.
  induction os as [|m os IH]; [done|]. unfold long in *. rewrite filter_cons. cbn [map].
  destruct (Z.ltb_spec (pkt_len m) 60); [rewrite decide_False by lia; exact IH|].
  rewrite decide_True by lia. exact (f_equal (cons m) IH).
Qed.

Lemma wp_parser os (Q : Z -> gst -> trace -> Prop) X s t :
  (forall t', only_printed t t' ->
     Q (zlen os) (GState (rte_node_enqueue (graph s) (if firewall_enabled (app s) then FIREWALL_NODE else TX_NODE) os)
                    (set_parser (u64 (parser_count (app s) + zlen os)) (app s))) t') ->
  wp (parser_node_process os) Q X s t.
Proof.
  intros H. unfold parser_node_process. fw_step. fw_step. fw_step. fw_step. fw_step. fw_step. fw_step.
  cbn [firewall_enabled set_parser]. apply wp_when; intros _.
  - fw_step. fw_step. destruct (firewall_enabled (app s)); fw_steps; (apply H; by repeat apply only_printed_cons).
  - fw_steps. by apply H.
Qed.

Lemma wp_firewall os (Q : Z -> gst -> trace -> Prop) X s t :
  (forall t', only_printed t t' ->
     Q (zlen os) (GState (if zlen (long os) =? 0 then graph s else rte_node_enqueue (graph s) TX_NODE (long os))
                    (set_firewall (u64 (firewall_count (app s) + zlen os)) (app s)))
       (rev (map EvFree (short os)) ++ t')) ->
  wp (firewall_node_process os) Q X s t.
Proof.
  intros H. unfold firewall_node_process. fw_step. fw_step. fw_step. fw_step. fw_step.
  assert (forall t', only_printed t t' ->
    wp (kept <-- for_each firewall_rule os;;
        let out := omap id kept in when (negb (zlen out =? 0)) (enqueue TX_NODE out);; ret (zlen os)) Q X
      (GState (graph s) (set_firewall (u64 (firewall_count (app s) + zlen os)) (app s))) t') as G.
  { intros t' P. wp_step. unfold wp at 1. rewrite rules_run, kept_long. apply H in P. cbv zeta.
    destruct (zlen (long os) =? 0); cbn [negb when]; fw_steps; exact P. }
  apply wp_when; intros _; [fw_step|]; apply G; [by apply only_printed_cons|done].
Qed.

Lemma wp_send os (Q : Z -> gst -> trace -> Prop) X s t :
  (forall t' k, only_printed t t' ->
     Q (zlen os) (GState (graph s) (set_tx (u64 (tx_count (app s) + zlen os)) (app s))) (EvTx 0 0 os k :: t')) ->
  wp (tx_node_process os) Q X s t.
Proof.
  intros H. unfold tx_node_process. fw_step. fw_step. fw_step. fw_step. fw_step.
  apply wp_when; intros _; [fw_step|]; (fw_step; apply wp_tx; intros k Hk; fw_steps; apply H).
  - by apply only_printed_cons.
  - done.
Qed.

(** What a walk does: [bufs] were received, and [on] was the flag the parser saw. *)
Record walked (v v' : fw) (t t' : trace) (bufs : list mbuf) (on : bool) : Prop := {
  w_received : received t' = received t ++ bufs;
  w_given : given t' = given t ++ (if on then long bufs else bufs);
  w_owned : owned (refused_ids t) t -> owned (refused_ids t') t';
  w_rx : u64 (rx_count v') = u64 (rx_count v + zlen bufs);
  w_parser : u64 (parser_count v') = u64 (parser_count v + zlen bufs);
  w_firewall : u64 (firewall_count v') = u64 (firewall_count v + (if on then zlen bufs else 0));
  w_tx : u64 (tx_count v') = u64 (tx_count v + zlen (if on then long bufs else bufs));
  w_advances : advances v v';
  w_quiet : cli v = [] -> on = firewall_enabled v /\ firewall_enabled v' = firewall_enabled v /\
    app_running v' = app_running v /\ cli v' = [] }.

Lemma advances_trans v1 v2 v3 : advances v1 v2 -> advances v2 v3 -> advances v1 v3.
Proof. intros [H1 L1] [H2 L2]. split; [auto|lia]. Qed.
(** The counters have no part in it. *)
Lemma advances_same v1 v1' v2 v2' :
  app_running v1 = app_running v1' -> cli v1 = cli v1' -> app_running v2 = app_running v2' -> cli v2 = cli v2' ->
  advances v1 v2 -> advances v1' v2'.
Proof. unfold advances, quitting. by intros -> -> -> ->. Qed.

(** Prints and CLI steps in between. *)
Definition calm v v' t t' : Prop :=
  only_printed t t' /\ same_counts v v' /\ (cli v = [] -> v' = v) /\ advances v v'.

Lemma wp_calm (Q : unit -> gst -> trace -> Prop) X s t :
  (forall v' t', calm (app s) v' t t' -> Q tt (GState (graph s) v') t') -> wp cli_thread Q X s t.
Proof.
  intros H. apply wp_cli. intros v' t' P C K Ec Hq. apply H. split_and!; try done. split; [done|]. rewrite Ec.
  destruct (cli (app s)); simpl; lia.
Qed.

Lemma printed_same t t' :
  only_printed t t' -> received t' = received t /\ given t' = given t /\ same_acct t t'.
Proof.
  intros P. split_and!; try (by apply only_printed_acct); (eapply only_printed_ext; [|exact P]); by intros [] ?.
Qed.

(** The last two rounds of a walk: TX, then nothing. *)
Lemma drain_end fuel (Q : unit -> gst -> trace -> Prop) X s t :
  idle s -> (forall v' t', calm (app s) v' t t' -> Q tt (GState (graph s) v') t') ->
  wp (drain process cli_thread (S fuel)) Q X s t.
Proof. intros Hi H. apply wp_drain_idle. apply wp_calm. intros v' t' C. split; [exact Hi|]. by apply H. Qed.

Lemma drain_tx os fuel (Q : unit -> gst -> trace -> Prop) X s t :
  only TX_NODE os (graph s) ->
  (forall g v1 v2 t1 t2 k, idle (GState g v2) -> calm (app s) v1 t t1 ->
     calm (set_tx (u64 (tx_count v1 + zlen os)) v1) v2 (EvTx 0 0 os k :: t1) t2 -> Q tt (GState g v2) t2) ->
  wp (drain process cli_thread (S (S fuel))) Q X s t.
Proof.
  intros Ho H. apply (wp_drain_only _ _ TX_NODE os). apply wp_calm. intros v1 t1 C1. split; [done|].
  intros g Hok He. fw_step. apply wp_send. intros t' k P. cbn [graph app].
  apply drain_end; [done|]. intros v2 t2 C2. apply (H _ v1 _ t' _ k); [done| |done].
  destruct C1 as (P1 & S1 & K1). split; [by eapply only_printed_trans|done].
Qed.

(** The firewall, and then what it lets through. *)
Lemma drain_firewall os (Q : unit -> gst -> trace -> Prop) X s t :
  only FIREWALL_NODE os (graph s) ->
  (forall g v1 v2 t1 t2, idle (GState g v2) -> calm (app s) v1 t t1 ->
     (forall held, owned (ids os ++ held ++ refused_ids t1) t1 -> owned (held ++ refused_ids t2) t2) ->
     received t2 = received t1 -> given t2 = given t1 ++ long os ->
     rx_count v2 = rx_count v1 -> parser_count v2 = parser_count v1 ->
     firewall_count v2 = u64 (firewall_count v1 + zlen os) ->
     u64 (tx_count v2) = u64 (tx_count v1 + zlen (long os)) ->
     advances v1 v2 ->
     (cli v1 = [] -> firewall_enabled v2 = firewall_enabled v1 /\ app_running v2 = app_running v1 /\ cli v2 = []) ->
     Q tt (GState g v2) t2) ->
  wp (drain process cli_thread 3) Q X s t.
Proof.
  intros Ho H. apply (wp_drain_only _ _ FIREWALL_NODE os). apply wp_calm. intros v1 t1 C1. split; [done|].
  intros g Hok He. fw_step. apply wp_firewall. intros t' P. cbn [graph app].
  assert (calm (app s) v1 t t') as C1'.
  { destruct C1 as (P1 & S1 & K1). split; [by eapply only_printed_trans|done]. }
  set (t2 := rev _ ++ t').
  assert (forall held, owned (ids os ++ held ++ refused_ids t') t' -> owned (ids (long os) ++ held ++ refused_ids t2) t2) as Ow.
  { intros held O. subst t2. rewrite refused_free_all. apply owned_free_all. rewrite app_assoc, <- map_app.
    by rewrite <- short_long. }
  assert (received t2 = received t' /\ given t2 = given t') as [R2 G2].
  { subst t2. by rewrite received_free_all, given_free_all. }
  destruct (Z.eqb_spec (zlen (long os)) 0) as [Hz|Hz].
  - assert (long os = []) as El by (destruct (long os); [done|unfold zlen in Hz; simpl in Hz; lia]).
    rewrite El in *. apply drain_end; [done|]. intros v2 t3 (P3 & (Cr & Cp & Cf & Ct) & K3 & V3). cbn [app] in *.
    destruct (printed_same _ _ P3) as (R3 & G3 & A3). pose proof A3 as (_ & _ & _ & F3).
    apply (H _ v1 v2 t'); try done.
    + intros held O. rewrite F3. eapply owned_acct; [exact A3|]. by apply (Ow held).
    + by rewrite R3.
    + by rewrite G3, app_nil_r.
    + rewrite Ct. cbn. by rewrite Z.add_0_r.
    + intros Hc. by rewrite (K3 Hc).
  - assert (long os <> []) as Hne by (by destruct (long os)).
    apply (drain_tx (long os)); [by apply only_enqueue|]. cbn [app graph].
    intros g2 v2 v3 t3 t4 k Hi (P2 & (Cr & Cp & Cf & Ct) & K2 & V2) (P3 & (Dr & Dp & Df & Dt) & K3 & V3). cbn in Cr, Cp, Cf, Ct, Dr, Dp, Df, Dt.
    destruct (printed_same _ _ P2) as (R3 & G3 & A3). pose proof A3 as (_ & _ & _ & F3).
    destruct (printed_same _ _ P3) as (R4 & G4 & A4). pose proof A4 as (_ & _ & _ & F4).
    apply (H _ v1 v3 t'); try done.
    + intros held O. rewrite F4. eapply owned_acct; [exact A4|]. apply owned_tx_ignored. rewrite F3.
      eapply owned_acct; [exact A3|]. by apply Ow.
    + rewrite R4. cbn [received]. by rewrite R3.
    + rewrite G4. cbn [given]. by rewrite G3, G2.
    + by rewrite Dr.
    + by rewrite Dp.
    + by rewrite Df.
    + rewrite Dt, Ct. words.
    + by eapply advances_trans; [exact V2|].
    + intros Hc. rewrite (K2 Hc) in *. by rewrite (K3 Hc).
Qed.

(** From the parser on; [on] is the flag it finds. *)
Lemma drain_parser os (Q : unit -> gst -> trace -> Prop) X s t :
  only PARSER_NODE os (graph s) ->
  (forall s' t' (on : bool), idle s' ->
     (forall held, owned (ids os ++ held ++ refused_ids t) t -> owned (held ++ refused_ids t') t') ->
     received t' = received t -> given t' = given t ++ (if on then long os else os) ->
     rx_count (app s') = rx_count (app s) ->
     u64 (parser_count (app s')) = u64 (parser_count (app s) + zlen os) ->
     u64 (firewall_count (app s')) = u64 (firewall_count (app s) + (if on then zlen os else 0)) ->
     u64 (tx_count (app s')) = u64 (tx_count (app s) + zlen (if on then long os else os)) ->
     advances (app s) (app s') ->
     (cli (app s) = [] -> on = firewall_enabled (app s) /\ firewall_enabled (app s') = firewall_enabled (app s) /\
        app_running (app s') = app_running (app s) /\ cli (app s') = []) ->
     Q tt s' t') ->
  wp (drain process cli_thread 4) Q X s t.
Proof.
  intros Ho H. apply (wp_drain_only _ _ PARSER_NODE os). apply wp_calm.
  intros v1 t1 (P1 & (Cr & Cp & Cf & Ct) & K1 & V1). split; [done|].
  destruct (printed_same _ _ P1) as (R1 & G1 & A1). pose proof A1 as (_ & _ & _ & F1).
  intros g Hok He. fw_step. apply wp_parser. intros t2 P2. cbn [graph app].
  destruct (printed_same _ _ P2) as (R2 & G2 & A2). pose proof A2 as (_ & _ & _ & F2).
  destruct Ho as [Hne _].
  destruct (firewall_enabled v1) eqn:En.
  - apply (drain_firewall os); [by apply only_enqueue|]. cbn [app].
    intros g2 v2 v3 t3 t4 Hi (P3 & (Dr & Dp & Df & Dt) & K3 & V3) Ow R4 G4 Er Ep Ef Et V4 Kq. cbn in Dr, Dp, Df, Dt.
    destruct (printed_same _ _ P3) as (R3 & G3 & A3). pose proof A3 as (_ & _ & _ & F3).
    apply (H _ _ true); try done; cbn [app].
    + intros held O. apply Ow. rewrite F3, F2, F1. do 3 (eapply owned_acct; [done|]). done.
    + by rewrite R4, R3, R2.
    + by rewrite G4, G3, G2, G1.
    + by rewrite Er, Dr.
    + rewrite Ep, Dp, Cp. words.
    + rewrite Ef, Df, Cf. words.
    + rewrite Et, Dt, Ct. done.
    + eapply advances_trans; [exact V1|]. eapply advances_trans; [exact V3|done].
    + intros Hc. specialize (K1 Hc). subst v1. specialize (K3 Hc). subst v2. specialize (Kq Hc). cbn in Kq. by destruct Kq as (-> & -> & ->).
  - apply (drain_tx os); [by apply only_enqueue|]. cbn [app].
    intros g2 v2 v3 t3 t4 k Hi (P3 & (Dr & Dp & Df & Dt) & K3 & V3) (P4 & (Er & Ep & Ef & Et) & K4 & V4).
    cbn in Dr, Dp, Df, Dt, Er, Ep, Ef, Et.
    destruct (printed_same _ _ P3) as (R3 & G3 & A3). pose proof A3 as (_ & _ & _ & F3).
    destruct (printed_same _ _ P4) as (R4 & G4 & A4). pose proof A4 as (_ & _ & _ & F4).
    apply (H _ _ false); try done; cbn [app].
    + intros held O. rewrite F4. eapply owned_acct; [exact A4|]. apply owned_tx_ignored. rewrite F3, F2, F1.
      do 3 (eapply owned_acct; [done|]). done.
    + rewrite R4. cbn [received]. by rewrite R3, R2.
    + rewrite G4. cbn [given]. by rewrite G3, G2, G1.
    + by rewrite Er, Dr.
    + rewrite Ep, Dp, Cp. words.
    + by rewrite Ef, Df, Cf, Z.add_0_r.
    + rewrite Et, Dt, Ct. words.
    + eapply advances_trans; [exact V1|]. eapply advances_trans; [exact V3|exact V4].
    + intros Hc. specialize (K1 Hc). subst v1. specialize (K3 Hc). subst v2. by rewrite (K4 Hc).
Qed.

Lemma walk_run s t X :
  idle s ->
  wp walk (fun _ s' t' => idle s' /\ exists bufs on, walked (app s) (app s') t t' bufs on) X s t.
Proof.
  intros [Hok He]. unfold walk, rte_graph_walk. wp_step. cbn [for_each]. wp_step. wp_step. apply wp_calm.
  intros v1 t1 (P1 & (Cr & Cp & Cf & Ct) & K1 & V1). destruct (printed_same _ _ P1) as (R1 & G1 & A1). pose proof A1 as (_ & _ & _ & F1).
  cbn [process]. unfold rx_node_process. fw_step. apply wp_rx. intros bufs Hl Hb. fw_step. fw_step. fw_step.
  assert (owned (refused_ids t) t -> owned (ids bufs ++ [] ++ refused_ids t1) (EvRx 0 0 32 bufs :: t1)) as O1.
  { intros O. apply owned_rx. rewrite F1. by eapply owned_acct. }
  apply wp_when; intros Hn.
  - assert (bufs <> []) as Hne by (by destruct bufs). fw_step. fw_step. fw_step.
    assert (forall t2, only_printed (EvRx 0 0 32 bufs :: t1) t2 ->
      wp (drain process cli_thread WALK_FUEL)
        (fun _ s' t' => idle s' /\ exists bufs on, walked (app s) (app s') t t' bufs on) X
        (GState (rte_node_enqueue (graph s) PARSER_NODE bufs) (set_rx (u64 (rx_count v1 + zlen bufs)) v1)) t2) as Hd.
    { intros t2 P2. destruct (printed_same _ _ P2) as (R2 & G2 & A2). pose proof A2 as (_ & _ & _ & F2).
      apply (drain_parser bufs); [by apply only_enqueue|].
      cbn [app]. intros s' t' on Hi Ow R4 G4 Er Ep Ef Et V4 Kq. cbn in Er, Ep, Ef, Et. split; [done|]. exists bufs, on. split.
      - rewrite R4, R2. cbn [received]. by rewrite R1.
      - by rewrite G4, G2, <- G1.
      - intros O. apply (Ow []). rewrite F2. eapply owned_acct; [exact A2|]. by apply O1.
      - rewrite Er, Cr. words.
      - by rewrite Ep, Cp.
      - by rewrite Ef, Cf.
      - by rewrite Et, Ct.
      - by eapply advances_trans; [exact V1|].
      - intros Hc. specialize (K1 Hc). subst v1. by apply Kq. }
    apply wp_when; intros _; [fw_step|]; do 4 fw_step; cbn [graph app]; apply Hd.
    + by apply only_printed_cons.
    + done.
  - assert (bufs = []) as -> by (by destruct bufs). do 3 fw_step. cbn [graph app].
    apply drain_end; [done|]. intros v2 t2 (P2 & (Dr & Dp & Df & Dt) & K2 & V2). cbn [app graph] in *. cbn in Dr, Dp, Df, Dt.
    destruct (printed_same _ _ P2) as (R2 & G2 & A2). pose proof A2 as (_ & _ & _ & F2).
    split; [done|]. exists [], (firewall_enabled (app s)). split.
    + rewrite R2. cbn [received]. by rewrite R1.
    + rewrite G2. cbn [given]. rewrite G1. destruct (firewall_enabled _); by rewrite app_nil_r.
    + intros O. rewrite F2. eapply owned_acct; [exact A2|]. cbn [refused_ids]. by apply O1.
    + rewrite Dr, Cr. change (zlen []) with 0. words.
    + by rewrite Dp, Cp, Z.add_0_r.
    + rewrite Df, Cf. change (zlen []) with 0. by destruct (firewall_enabled _); rewrite Z.add_0_r.
    + rewrite Dt, Ct. destruct (firewall_enabled _); by rewrite Z.add_0_r.
    + by eapply advances_trans; [exact V1|].
    + intros Hc. specialize (K1 Hc). subst v1. by rewrite (K2 Hc).
Qed.

(** C8: The firewall as its flag says: a walk during which the command line is silent
    transmits, of the packets it received and in their order, all of them when
    the firewall is off and exactly those of at least 60 bytes when it is on;
    the counters of the four nodes grow by the numbers of packets they saw. *)
Theorem fw_walk_policy s t :
  idle s -> cli (app s) = [] ->
  wp walk (fun _ s' t' => idle s' /\ exists bufs,
      let on := firewall_enabled (app s) in
      received t' = received t ++ bufs /\
      given t' = given t ++ (if on then filter (fun m => 60 <= pkt_len m) bufs else bufs) /\
      firewall_enabled (app s') = on /\
      u64 (rx_count (app s')) = u64 (rx_count (app s) + zlen bufs) /\
      u64 (parser_count (app s')) = u64 (parser_count (app s) + zlen bufs) /\
      u64 (firewall_count (app s')) = u64 (firewall_count (app s) + (if on then zlen bufs else 0)) /\
      u64 (tx_count (app s')) = u64 (tx_count (app s) + zlen (if on then long bufs else bufs)))
    (fun _ _ _ => False) s t.
Proof.
  intros Hi Hc. eapply wp_mono; [by apply (walk_run s t (fun _ _ _ => False))| |done]. intros u s' t' [Hi' (bufs & on & [R G O Cr Cp Cf Ct _ Q])].
  destruct (Q Hc) as (-> & Qf & _). split; [done|]. exists bufs. by split_and!.
Qed.

(** ** The program *)

(** What holds between two walks, whatever was typed. *)
Record fw_ok v t : Prop := {
  k_long : long (given t) = long (received t);
  k_order : given t `sublist_of` received t;
  k_owned : owned (refused_ids t) t;
  k_rx : u64 (rx_count v) = u64 (zlen (received t));
  k_parser : u64 (parser_count v) = u64 (zlen (received t));
  k_tx : u64 (tx_count v) = u64 (zlen (given t)) }.

Lemma fw_ok_printed v v' t t' : only_printed t t' -> same_counts v v' -> fw_ok v t -> fw_ok v' t'.
Proof.
  intros P (Er & Ep & Ef & Et) [L S O Cr Cp Ct]. destruct (printed_same _ _ P) as (R & G & A).
  pose proof A as (_ & _ & _ & F). split; rewrite ?R, ?G, ?F, ?Er, ?Ep, ?Et; try done. by eapply owned_acct.
Qed.
Lemma long_app l1 l2 : long (l1 ++ l2) = long l1 ++ long l2.
Proof. apply filter_app. Qed.
Lemma long_long l : long (long l) = long l.
Proof.
  induction l as [|m l IH]; [done|]. unfold long in *. rewrite (filter_cons _ m l).
  case_decide; [|done]. by rewrite filter_cons_True, IH.
Qed.
Lemma fw_ok_walked v v' t t' bufs on : walked v v' t t' bufs on -> fw_ok v t -> fw_ok v' t'.
Proof.
  intros [R G Ow Cr Cp Cf Ct _ _] [L S O Kr Kp Kt]. split.
  - rewrite R, G, !long_app, L. f_equal. destruct on; [apply long_long|done].
  - rewrite R, G. apply sublist_app; [done|]. destruct on; [apply sublist_filter|done].
  - by apply Ow.
  - rewrite Cr, R, zlen_app. clear -Kr. words.
  - rewrite Cp, R, zlen_app. clear -Kp. words.
  - rewrite Ct, G, zlen_app. clear -Kt. words.
Qed.

Lemma loop_spec n g s t X :
  g <> 0 -> idle s -> fw_ok (app s) t ->
  wp (main_loop g n) (fun r s' t' => fw_ok (app s') t' /\
    (quitting (app s) -> (length (cli (app s)) <= n)%nat -> r = true)) X s t.
Proof.
  intros Hg. revert s t. induction n as [|n IH]; intros s t Hi Hok; cbn [main_loop].
  - wp_step. apply wp_cli. intros v t1 P C _ Ec Hq. fw_steps. split; [by eapply fw_ok_printed|].
    intros [Hr|Hx]%Hq Hn; [by rewrite Hr|]. rewrite Ec in Hx. destruct (cli (app s)); [|simpl in Hn; lia]. by inversion Hx.
  - wp_step. apply wp_cli. intros v t1 P C _ Ec Hq. fw_step. fw_step.
    assert (fw_ok v t1) as Hok1 by (by eapply fw_ok_printed).
    destruct (app_running v); [|by fw_steps]. fw_step. apply wp_when; [intros ?%Z.eqb_eq; done|intros _].
    wp_step. eapply wp_mono; [by apply walk_run| |done]. intros u s2 t2 [Hi2 (bufs & on & W)]. cbn [app] in W.
    eapply wp_mono; [apply IH; [done|by eapply fw_ok_walked]| |done]. intros r s3 t3 [Hok3 Hr]. split; [done|].
    intros Hq0 Hn. destruct (w_advances _ _ _ _ _ _ W) as [Aq Al]. apply Hr; [auto|].
    rewrite Ec in Al. destruct (cli (app s)); simpl in *; lia.
Qed.

Lemma wp_call_exact a (Q : Z -> gst -> trace -> Prop) X s t :
  Q (env_call t a) s (EvApi a (env_call t a) :: t) -> wp (call a) Q X s t.
Proof. done. Qed.
Lemma idle_new v : idle (GState rte_graph_new v).
Proof. split; [apply (graph_new_law RX_NODE)|intros n; apply graph_new_law]. Qed.

Section Main.
(** The graph that was created is found. *)
Hypothesis lookup_ok : forall t, env_call t (api_call "rte_graph_lookup" []) <> 0.

Lemma main_spec n (s : gst) X :
  rx_count (app s) = 0 -> parser_count (app s) = 0 -> tx_count (app s) = 0 ->
  wp (main n) (fun r s' t => fw_ok (app s') t /\
    (quitting (app s) -> (length (cli (app s)) <= n)%nat -> r = Some 0)) X s [].
Proof.
  intros Hr Hp Ht. unfold main, port_init. do 17 fw_step. apply wp_put_graph. cbn [graph app].
  wp_step. apply wp_call_exact. set (t1 := _ :: _ :: _). pose proof (lookup_ok t1) as Hg.
  set (g := env_call t1 _) in *. fw_step. fw_step. fw_step.
  eapply wp_mono; [apply (loop_spec n g _ _ X Hg); [apply idle_new|]| |done].
  - cbn [app]. split; try done; try (by rewrite Hr || by rewrite Hp || by rewrite Ht). constructor.
  - cbn [app]. intros r' s2 t2 [Ok Q]. destruct r'; fw_steps.
    + split; [|done]. by eapply fw_ok_printed; [apply only_printed_cons| |].
    + split; [done|]. intros Hq Hn. by specialize (Q Hq Hn).
Qed.

(** Whatever is typed, and whenever: main never faults or exits early; every packet of at least
    60 bytes is given to the NIC, nothing is duplicated or reordered, the
    buffers received and never handed back are exactly those the NIC refused,
    and the counters agree with what passed the nodes, modulo 2^64. *)
Theorem fw_main_correct n (s : gst) :
  rx_count (app s) = 0 -> parser_count (app s) = 0 -> tx_count (app s) = 0 ->
  wp (main n) (fun _ s' t => fw_ok (app s') t) (fun _ _ _ => False) s [].
Proof. intros Hr Hp Ht. eapply wp_mono; [by apply (main_spec n s (fun _ _ _ => False))| |done]. by intros r s' t' [H _]. Qed.

(** The program stops when it is told to: if the line quit comes at some
    point of the input, [main] returns 0, after at most as many walks as the
    CLI thread has turns. *)
Theorem fw_main_ends (s : gst) :
  rx_count (app s) = 0 -> parser_count (app s) = 0 -> tx_count (app s) = 0 ->
  Exists quit_line (cli (app s)) ->
  wp (main (length (cli (app s)))) (fun r _ _ => r = Some 0) (fun _ _ _ => False) s [].
Proof.
  intros Hr Hp Ht Hq. eapply wp_mono; [by apply (main_spec _ s (fun _ _ _ => False))| |done]. intros r s' t' [_ H]. apply H; [by right|done].
Qed.
End Main.
End Walk.

(** ** Concrete runs *)

#[local] Instance wgraph : RteGraph node mbuf := sim_graph.

(** A packet of 54 bytes and one of 74. *)
Definition w_short : mbuf := mk_packet 1 [10; 0; 0; 7] [10; 0; 0; 1] IPPROTO_TCP [4; 210] [0; 80].
Definition w_long : mbuf := Mbuf 2 (mb_buf w_short ++ repeat 0 20) 0 74 74.
#[local] Instance wenv : Env := sim_env
  (Script (fun _ => 1) [[w_short; w_long]; [w_long]] 32 (fun t => Z.of_nat (length t)) true None 1000).

Definition w_state (on : bool) (cs : list (option (option string))) : gstate (rte_graph (RteGraph:=wgraph)) fw :=
  GState rte_graph_new (Fw on true 0 0 0 0 EmptyString cs).

Lemma fw_walk_policy_witness :
  (idle (w_state true []) /\ cli (app (w_state true [])) = []) /\
  wp walk (fun _ s' t' => exists bufs, received t' = bufs /\ given t' = filter (fun m => 60 <= pkt_len m) bufs)
    (fun _ _ _ => False) (w_state true []) [] /\
  wp walk (fun _ s' t' => received t' = [w_short; w_long] /\ given t' = [w_long] /\ firewall_count (app s') = 2)
    (fun _ _ _ => False) (w_state true []) [].
Proof.
  assert (idle (w_state true [])) as Hi by apply idle_new. split; [done|]. split; [|by vm_compute].
  eapply wp_mono; [apply (fw_walk_policy (w_state true []) []); done| |done].
  intros u s' t' [_ (bufs & R & G & _)]. by exists bufs.
Defined.

(** The firewall is turned on before the first walk, and quit comes later. *)
Definition w_lines : list (option (option string)) :=
  [Some (Some "enable firewall"%string); None; None; None; None; Some (Some "quit"%string)].

Lemma fw_main_correct_witness :
  wp (main 3) (fun _ s' t => fw_ok (app s') t) (fun _ _ _ => False) (w_state false w_lines) [] /\
  wp (main 3) (fun _ _ t => given t = [w_long]) (fun _ _ _ => False) (w_state false w_lines) [].
Proof. split; [by apply fw_main_correct|by vm_compute]. Defined.

Lemma fw_main_ends_witness :
  Exists quit_line w_lines /\
  wp (main 6) (fun r _ _ => r = Some 0) (fun _ _ _ => False) (w_state false w_lines) [].
Proof.
  assert (Exists quit_line w_lines) as Hq by (by do 5 right; left). split; [done|].
  apply (fw_main_ends (E:=wenv) (fun _ => ltac:(done)) (w_state false w_lines)); done.
Defined.
