(* ===== verification/Pipeline.v ===== *)
(** * thread_parsing/threaded_project and nic_stats/sample: three threads and two rings

    The receiver (rx.c), the parser (parser.c) and the transmitter (tx.c) run
    on three lcores and share two rings, three counters and the flag
    [force_quit].  A thread is a program counter with the packets it holds;
    one step of a thread makes at most one access to what another thread also
    writes, and the threads' steps interleave in any order (the schedule). *)

From S2P Require Import Prelude Rte Env Packet Ownership NatIo PacketParse Sim.

(** pipeline.h *)
Definition RX_RING_SIZE := 1024.
Definition TX_RING_SIZE := 1024.
Definition BURST_SIZE := 32.
Definition RING_F_SP_ENQ := 1.
Definition RING_F_SC_DEQ := 2.

Section Pipeline.
Context {BO : Byteorder} {RR : RteRing mbuf} {E : Env}.

(** The global variables of main.c; [port_id] is never changed. *)
Record shared := Shared {
  ring_rx_to_parse : rte_ring; ring_parse_to_tx : rte_ring; force_quit : bool;
  rx_count : Z; parser_count : Z; tx_count : Z }.
Notation M := (M shared).
Definition port_id := 0.

Definition set_ring1 (r : rte_ring) (s : shared) : shared :=
  Shared r (ring_parse_to_tx s) (force_quit s) (rx_count s) (parser_count s) (tx_count s).
Definition set_ring2 (r : rte_ring) (s : shared) : shared :=
  Shared (ring_rx_to_parse s) r (force_quit s) (rx_count s) (parser_count s) (tx_count s).
Definition set_quit (b : bool) (s : shared) : shared :=
  Shared (ring_rx_to_parse s) (ring_parse_to_tx s) b (rx_count s) (parser_count s) (tx_count s).
Definition set_rx_count (n : Z) (s : shared) : shared :=
  Shared (ring_rx_to_parse s) (ring_parse_to_tx s) (force_quit s) n (parser_count s) (tx_count s).
Definition set_parser_count (n : Z) (s : shared) : shared :=
  Shared (ring_rx_to_parse s) (ring_parse_to_tx s) (force_quit s) (rx_count s) n (tx_count s).
Definition set_tx_count (n : Z) (s : shared) : shared :=
  Shared (ring_rx_to_parse s) (ring_parse_to_tx s) (force_quit s) (rx_count s) (parser_count s) n.

(** ** rx.c *)

Inductive rx_pc :=
| RxStart
| RxTest                                  (* while (!force_quit) *)
| RxBurst
| RxEnqueue (rest : list mbuf) (n : Z)    (* the for loop; n were received *)
| RxLimit                                 (* if (rx_count >= 10) *)
| RxDone.

Definition rx_step (pc : rx_pc) : M rx_pc :=
  match pc with
  | RxStart =>
      printf "RX thread started on lcore %u\n" [] ;;
      modify (set_rx_count 0) ;;
      ret RxTest
  | RxTest => q <-- gets force_quit ;; ret (if q : bool then RxDone else RxBurst)
  | RxBurst =>
      pkts <-- rte_eth_rx_burst port_id 0 BURST_SIZE ;;
      let n := zlen pkts in
      if 0 <? n then
        modify (fun s => set_rx_count (u64 (rx_count s + n)) s) ;;
        ret (RxEnqueue pkts n)
      else ret RxLimit
  | RxEnqueue (m :: rest) n =>
      r <-- gets (fun s => rte_ring_enqueue (ring_rx_to_parse s) m) ;;
      modify (set_ring1 r.2) ;;                       (* r.1 is ignored *)
      ret (RxEnqueue rest n)
  | RxEnqueue [] n =>
      c <-- gets rx_count ;;
      printf "RX: received %u packets (total %lu)\n" [PInt n; PInt c] ;;
      ret RxLimit
  | RxLimit =>
      c <-- gets rx_count ;;
      if 10 <=? c then
        printf "RX reached limit. Stopping...\n" [] ;;
        modify (set_quit true) ;;
        ret RxDone
      else ret RxTest
  | RxDone => ret RxDone
  end.

(** ** parser.c *)

Inductive parser_pc :=
| PStart
| PTest
| PDequeue
| PParse (rest pkts : list mbuf)   (* the for loop over pkts *)
| PForward (pkts : list mbuf)      (* if (n > 0) *)
| PFree (rest : list mbuf)
| PDone.

(** The function of packet_parsing.c, word for word. *)
Definition parse_packet (m : mbuf) : M unit := PacketParse.parse_packet m.

(** [parse] is [parse_packet]; the parser of nic_stats/sample has no loop of
    that kind and takes [None]. *)
Definition parser_step (parse : option (mbuf -> M unit)) (pc : parser_pc) : M parser_pc :=
  match pc with
  | PStart =>
      printf "Parser thread started on lcore %u\n" [] ;;
      modify (set_parser_count 0) ;;
      ret PTest
  | PTest => q <-- gets force_quit ;; ret (if q : bool then PDone else PDequeue)
  | PDequeue =>
      r <-- gets (fun s => rte_ring_dequeue_burst (ring_rx_to_parse s) BURST_SIZE) ;;
      modify (set_ring1 r.2) ;;
      ret (match parse with Some _ => PParse r.1 r.1 | None => PForward r.1 end)
  | PParse (m :: rest) pkts =>
      match parse with Some f => f m | None => ret tt end ;;
      ret (PParse rest pkts)
  | PParse [] pkts => ret (PForward pkts)
  | PForward pkts =>
      let n := zlen pkts in
      if 0 <? n then
        printf "Parser: got %u packets\n" [PInt n] ;;
        modify (fun s => set_parser_count (u64 (parser_count s + n)) s) ;;
        r <-- gets (fun s => rte_ring_enqueue_burst (ring_parse_to_tx s) pkts) ;;
        modify (set_ring2 r.2) ;;
        ret (if r.1 <? n then PFree (drop (Z.to_nat r.1) pkts) else PTest)
      else ret PTest
  | PFree (m :: rest) => rte_pktmbuf_free m ;; ret (PFree rest)
  | PFree [] => ret PTest
  | PDone => ret PDone
  end.

(** parser.c of nic_stats/sample *)
Definition nic_parser_step : parser_pc -> M parser_pc := parser_step None.

(** ** tx.c *)

Inductive tx_pc :=
| TStart
| TTest
| TDequeue
| TSend (pkts : list mbuf)
| TFree (rest : list mbuf)
| TDone.

Definition tx_step (pc : tx_pc) : M tx_pc :=
  match pc with
  | TStart =>
      printf "TX thread started on lcore %u\n" [] ;;
      modify (set_tx_count 0) ;;
      ret TTest
  | TTest => q <-- gets force_quit ;; ret (if q : bool then TDone else TDequeue)
  | TDequeue =>
      r <-- gets (fun s => rte_ring_dequeue_burst (ring_parse_to_tx s) BURST_SIZE) ;;
      modify (set_ring2 r.2) ;;
      let n := zlen r.1 in
      if 0 <? n then
        modify (fun s => set_tx_count (u64 (tx_count s + n)) s) ;;
        c <-- gets tx_count ;;
        printf "TX: sending %u packets (total %lu)\n" [PInt n; PInt c] ;;
        ret (TSend r.1)
      else ret TTest
  | TSend pkts =>
      sent <-- rte_eth_tx_burst port_id 0 pkts ;;
      ret (TFree (drop (Z.to_nat sent) pkts))
  | TFree (m :: rest) => rte_pktmbuf_free m ;; ret (TFree rest)
  | TFree [] => ret TTest
  | TDone => ret TDone
  end.

(** ** The three threads *)

Inductive thread := Rx | Parser | Tx.
#[local] Instance thread_eq_dec : EqDecision thread.
Proof. solve_decision. Defined.
Record threads := Threads { rx : rx_pc; parser : parser_pc; tx : tx_pc }.

Definition thread_step (parse : option (mbuf -> M unit)) (th : thread) (p : threads) : M threads :=
  match th with
  | Rx => pc <-- rx_step (rx p) ;; ret (Threads pc (parser p) (tx p))
  | Parser => pc <-- parser_step parse (parser p) ;; ret (Threads (rx p) pc (tx p))
  | Tx => pc <-- tx_step (tx p) ;; ret (Threads (rx p) (parser p) pc)
  end.

(** The steps of a schedule; a step of a thread that has ended does nothing. *)
Fixpoint run (parse : option (mbuf -> M unit)) (sched : list thread) (p : threads) : M threads :=
  match sched with
  | [] => ret p
  | th :: sched' => p' <-- thread_step parse th p ;; run parse sched' p'
  end.

Definition all_done (p : threads) : bool :=
  match p with Threads RxDone PDone TDone => true | _ => false end.

(** ** main.c *)

(** A thread whose launch fails never runs. *)
Definition launch (parse : option (mbuf -> M unit)) (sched : list thread) : M threads :=
  printf "Launching 3 pipeline threads...\n" [] ;;
  r1 <-- call (rte_eal_remote_launch "rx_loop" 1) ;;
  r2 <-- call (rte_eal_remote_launch "parser_loop" 2) ;;
  r3 <-- call (rte_eal_remote_launch "tx_loop" 3) ;;
  run parse sched (Threads (if r1 =? 0 then RxStart else RxDone)
    (if r2 =? 0 then PStart else PDone) (if r3 =? 0 then TStart else TDone)).

(** From the configuration of the port to the rings. *)
Definition setup : M unit :=
  r <-- call (rte_eth_dev_configure port_id 1 1) ;;
  when (r <? 0) (rte_exit EXIT_FAILURE) ;;
  mbuf_pool <-- call (rte_pktmbuf_pool_create "MBUF_POOL" 8192 256 0 RTE_MBUF_DEFAULT_BUF_SIZE) ;;
  when (mbuf_pool =? 0) (rte_exit EXIT_FAILURE) ;;
  r <-- call (rte_eth_rx_queue_setup port_id 0 1024 mbuf_pool) ;;
  when (r <? 0) (rte_exit EXIT_FAILURE) ;;
  r <-- call (rte_eth_tx_queue_setup port_id 0 1024) ;;
  when (r <? 0) (rte_exit EXIT_FAILURE) ;;
  r <-- call (rte_eth_dev_start port_id) ;;
  when (r <? 0) (rte_exit EXIT_FAILURE) ;;
  r1 <-- call (rte_ring_create "RING_RX_PARSE" RX_RING_SIZE (Z.lor RING_F_SP_ENQ RING_F_SC_DEQ)) ;;
  r2 <-- call (rte_ring_create "RING_PARSE_TX" TX_RING_SIZE (Z.lor RING_F_SP_ENQ RING_F_SC_DEQ)) ;;
  when ((r1 =? 0) || (r2 =? 0)) (rte_exit EXIT_FAILURE) ;;
  modify (fun s => set_ring1 (rte_ring_empty RX_RING_SIZE) (set_ring2 (rte_ring_empty TX_RING_SIZE) s)).

Definition print_dev_info : M unit :=
  vs <-- read_vals "rte_eth_dev_info" 4 ;;
  printf "Driver name: %s\n" [] ;;
  printf "Max RX queues: %u\n" [PInt (get vs 0)] ;;
  printf "Max TX queues: %u\n" [PInt (get vs 1)] ;;
  printf "Min RX buffer size: %u\n" [PInt (get vs 2)] ;;
  printf "Max RX packet length: %u\n" [PInt (get vs 3)].

Definition results : M unit :=
  c1 <-- gets rx_count ;; c2 <-- gets parser_count ;; c3 <-- gets tx_count ;;
  printf "==== PIPELINE RESULTS ====\n" [] ;;
  printf "RX total = %lu\n" [PInt c1] ;;
  printf "Parser total = %lu\n" [PInt c2] ;;
  printf "TX total = %lu\n" [PInt c3].

(** The test [t < 0] of the validity of the port is never true, the result
    being 0 or 1.  [None]: some thread has not ended when the schedule is over. *)
Definition main (sched : list thread) : M (threads * option unit) :=
  _ <-- call rte_eal_init ;;
  t <-- call (rte_eth_dev_is_valid_port port_id) ;;
  when (t <? 0) (rte_exit EXIT_FAILURE) ;;
  _ <-- call (rte_eth_dev_info_get port_id) ;;
  print_dev_info ;;
  setup ;;
  p <-- launch (Some parse_packet) sched ;;
  if all_done p then results ;; ret (p, Some tt) else ret (p, None).

(** ** nic_stats/sample/main.c *)

Definition print_eth_stats : M unit :=
  r <-- call (api_call "rte_eth_stats_get" [port_id]) ;;
  if r =? 0 then
    vs <-- read_vals "rte_eth_stats" 7 ;;
    printf "\n=== rte_eth_stats (port %u) ===\n" [PInt port_id] ;;
    printf "RX packets: %lu\n" [PInt (get vs 0)] ;;
    printf "TX packets: %lu\n" [PInt (get vs 1)] ;;
    printf "RX bytes  : %lu\n" [PInt (get vs 2)] ;;
    printf "TX bytes  : %lu\n" [PInt (get vs 3)] ;;
    printf "RX dropped (by HW/PMD): %lu\n" [PInt (get vs 4)] ;;
    printf "RX errors             : %lu\n" [PInt (get vs 5)] ;;
    printf "TX errors             : %lu\n" [PInt (get vs 6)]
  else printf "Failed to get stats for port %u\n" [PInt port_id].

Definition print_xstats : M unit :=
  len <-- call (api_call "rte_eth_xstats_get" [port_id]) ;;
  if len <? 0 then printf "Cannot get xstats count\n" []
  else
    r <-- call (api_call "rte_eth_xstats_get_names" [port_id; len]) ;;
    if r <? 0 then printf "Cannot get xstats names\n" []
    else
      r <-- call (api_call "rte_eth_xstats_get" [port_id; len]) ;;
      if r <? 0 then printf "Cannot get xstats\n" []
      else
        vs <-- read_vals "rte_eth_xstat" len ;;
        printf "\n=== rte_eth_xstats (port %u) ===\n" [PInt port_id] ;;
        for_ (Z.to_nat len) 0 (fun i _ => printf "%s: %lu\n" [PInt (get vs i)]) tt.

Definition nic_main (sched : list thread) : M (threads * option unit) :=
  _ <-- call rte_eal_init ;;
  t <-- call (rte_eth_dev_is_valid_port port_id) ;;
  when (t <? 0) (rte_exit EXIT_FAILURE) ;;
  rt <-- call (rte_eth_dev_info_get port_id) ;;
  when (rt <? 0) (rte_exit EXIT_FAILURE) ;;
  print_dev_info ;;
  setup ;;
  p <-- launch None sched ;;
  if all_done p then results ;; print_eth_stats ;; print_xstats ;; ret (p, Some tt) else ret (p, None).

(** ** What is in the pipeline *)

(** The packets a thread has taken and not yet passed on, oldest first. *)
Definition rx_pending (pc : rx_pc) : list mbuf :=
  match pc with RxEnqueue rest _ => rest | _ => [] end.
Definition parser_pending (pc : parser_pc) : list mbuf :=
  match pc with PParse _ pkts => pkts | PForward pkts => pkts | _ => [] end.
Definition tx_pending (pc : tx_pc) : list mbuf :=
  match pc with TSend pkts => pkts | _ => [] end.
(** What the transmitter has still to free. *)
Definition tx_unsent (pc : tx_pc) : list mbuf :=
  match pc with TFree rest => rest | _ => [] end.

(** Everything between the NIC and the transmitter's burst. *)
Definition before_tx (p : threads) (s : shared) : list mbuf :=
  ring_items (ring_parse_to_tx s) ++ parser_pending (parser p) ++ ring_items (ring_rx_to_parse s) ++
  rx_pending (rx p).
Definition in_flight (p : threads) (s : shared) : list mbuf := tx_pending (tx p) ++ before_tx p s.

Definition rx_bound (pc : rx_pc) (c : Z) : Prop :=
  match pc with RxStart => c = 0 | RxTest | RxBurst => c < 10 | _ => c <= 41 end.

Record inv (p : threads) (s : shared) (t : trace) : Prop := {
  i_fifo : received t = given t ++ in_flight p s;
  i_owned : owned (ids (tx_unsent (tx p)) ++ ids (in_flight p s)) t;
  i_cap1 : ring_cap (ring_rx_to_parse s) = RX_RING_SIZE - 1;
  i_cap2 : ring_cap (ring_parse_to_tx s) = TX_RING_SIZE - 1;
  i_rx : rx_count s = zlen (received t);
  i_bound : rx_bound (rx p) (rx_count s);
  i_quit : force_quit s = true -> rx p = RxDone /\ 10 <= rx_count s;
  i_parser : parser_count s = zlen (given t ++ tx_pending (tx p) ++ ring_items (ring_parse_to_tx s));
  i_pstart : parser p = PStart -> parser_count s = 0;
  i_tx : tx_count s = zlen (given t ++ tx_pending (tx p));
  i_tstart : tx p = TStart -> tx_count s = 0;
  i_pfree : match parser p with PFree rest => rest = [] | _ => True end }.

Lemma inv_small p s t : inv p s t -> 0 <= rx_count s <= 41.
Proof.
  intros I. pose proof (i_bound _ _ _ I) as B. pose proof (i_rx _ _ _ I) as R.
  pose proof (zlen_nonneg (received t)). destruct (rx p); simpl in B; lia.
Qed.

(** The rings never fill up, since at most 41 packets are received. *)
Lemma inv_lengths p s t :
  inv p s t ->
  zlen (ring_items (ring_rx_to_parse s)) + zlen (rx_pending (rx p)) +
  zlen (ring_items (ring_parse_to_tx s)) + zlen (parser_pending (parser p)) +
  zlen (tx_pending (tx p)) + zlen (given t) <= 41.
Proof.
  intros I. pose proof (inv_small _ _ _ I) as B. rewrite (i_rx _ _ _ I), (i_fifo _ _ _ I) in B.
  unfold in_flight, before_tx in B. rewrite !zlen_app in B. lia.
Qed.

Lemma inv_ext p s t t' :
  received t' = received t -> given t' = given t -> same_acct t t' -> inv p s t -> inv p s t'.
Proof.
  intros Er Eg A I. destruct I. constructor; rewrite ?Er, ?Eg; auto. by eapply owned_acct.
Qed.
Lemma inv_printed p s t t' : only_printed t t' -> inv p s t -> inv p s t'.
Proof.
  intros H. apply inv_ext; [| |by apply only_printed_acct]; (eapply only_printed_ext; [|exact H]; by intros [] ?).
Qed.
Lemma inv_line p s t fmt args : inv p s t -> inv p s (EvPrintf fmt args :: t).
Proof. apply inv_printed. by exists [EvPrintf fmt args]; split; [|constructor]. Qed.

(** Rearranging the packets in flight. *)
Ltac reorder H :=
  eapply owned_proper; [|reflexivity|exact H]; rewrite ?map_app; simpl ids; solve_Permutation.
Ltac same_fifo := unfold in_flight, before_tx in *; simpl in *; rewrite ?app_nil_r, <- ?app_assoc in *; simpl in *; congruence.
Ltac inv_auto := cbn [rx parser tx tx_pending parser_pending rx_pending] in *; constructor; simpl; auto; try congruence; try lia.

Lemma rx_step_inv p s t :
  inv p s t ->
  wp (rx_step (rx p)) (fun pc s' t' => inv (Threads pc (parser p) (tx p)) s' t') (fun _ _ _ => False) s t.
Proof.
  intros I. pose proof (inv_small _ _ _ I) as Hs. pose proof (inv_lengths _ _ _ I) as Hl.
  destruct p as [pc pp tp]. cbn [rx parser tx] in *. destruct pc as [| | |[|m rest] n| |]; simpl rx_step.
  - wp_steps. apply inv_line. destruct I. cbn [rx rx_bound] in *. inv_auto.
    intros Q. by destruct (i_quit0 Q).
  - wp_steps. destruct (force_quit s) eqn:Q.
    + by destruct (i_quit _ _ _ I Q) as [[=] _].
    + destruct I. inv_auto.
  - wp_steps. apply wp_rx. intros pkts Hp _. specialize (Hp ltac:(done)).
    destruct I. cbn [rx rx_bound rx_pending] in *. wp_steps.
    + inv_auto.
      * rewrite i_fifo0. same_fifo.
      * apply (owned_rx _ port_id 0 BURST_SIZE pkts) in i_owned0.
        unfold in_flight, before_tx in *. simpl in *. reorder i_owned0.
      * rewrite zlen_app, <- i_rx0. apply u64_small. unfold BURST_SIZE in *. words.
      * unfold BURST_SIZE in *. rewrite u64_small by words. lia.
      * intros Q. by destruct (i_quit0 Q) as [[=] _].
    + assert (pkts = []) as -> by (destruct pkts; done).
      inv_auto; rewrite ?app_nil_r; auto.
      intros Q. by destruct (i_quit0 Q) as [[=] _].
  - wp_steps. apply inv_line. destruct I. inv_auto. intros Q. by destruct (i_quit0 Q) as [[=] _].
  - pose proof (ring_enqueue_law (ring_rx_to_parse s) m) as L.
    rewrite (i_cap1 _ _ _ I) in L. unfold RX_RING_SIZE in L.
    destruct (Z.ltb_spec (zlen (ring_items (ring_rx_to_parse s))) (1024 - 1)) as [_|B].
    2:{ unfold zlen in *. lia. }
    destruct L as [_ L]. wp_steps. destruct I. inv_auto.
    + rewrite i_fifo0. unfold in_flight, before_tx. simpl. rewrite L. by rewrite <- !app_assoc.
    + unfold in_flight, before_tx in *. simpl in *. rewrite L. reorder i_owned0.
    + by rewrite ring_enqueue_cap.
    + intros Q. by destruct (i_quit0 Q) as [[=] _].
  - wp_steps.
    + apply Z.leb_le in H. apply (inv_line _ _ _ "RX reached limit. Stopping...\n" []) in I. destruct I. inv_auto.
    + apply Z.leb_gt in H. destruct I. inv_auto. intros Q. by destruct (i_quit0 Q) as [[=] _].
  - by wp_steps.
Qed.

Definition parses_quietly (parse : option (mbuf -> M unit)) : Prop :=
  match parse with Some f => forall m, quiet (f m) | None => True end.

Lemma parser_step_inv parse p s t :
  parses_quietly parse -> inv p s t ->
  wp (parser_step parse (parser p)) (fun pc s' t' => inv (Threads (rx p) pc (tx p)) s' t') (fun _ _ _ => False) s t.
Proof.
  intros Hq I. pose proof (inv_small _ _ _ I) as Hs. pose proof (inv_lengths _ _ _ I) as Hl.
  destruct p as [rp pc tp]. cbn [rx parser tx] in *.
  destruct pc as [| | |[|m rest] pkts|pkts|[|m rest]|]; simpl parser_step.
  - wp_steps. apply inv_line. pose proof (i_pstart _ _ _ I eq_refl). destruct I. inv_auto.
  - wp_steps. destruct (force_quit s) eqn:Q; destruct I; inv_auto.
  - destruct (ring_dequeue_law (ring_rx_to_parse s) BURST_SIZE) as (L1 & L2 & L3); [done|]. wp_steps.
    set (n := Z.to_nat BURST_SIZE) in *. set (r := rte_ring_dequeue_burst _ _) in *.
    assert (parser_pending match parse with Some _ => PParse r.1 r.1 | None => PForward r.1 end = r.1) as Ep
      by (by destruct parse).
    assert (forall q, match parse with Some _ => PParse r.1 r.1 | None => PForward r.1 end = q ->
      q <> PStart /\ match q with PFree rest => rest = [] | _ => True end) as Eq by (by destruct parse; intros q <-).
    rewrite <- (take_drop n (ring_items (ring_rx_to_parse s))) in Hl. destruct I. inv_auto.
    + rewrite i_fifo0. unfold in_flight, before_tx. simpl. rewrite Ep, L1, L2.
      rewrite <- (take_drop n (ring_items (ring_rx_to_parse s))) at 1. by rewrite <- !app_assoc.
    + unfold in_flight, before_tx in *. simpl in *. rewrite Ep, L1, L2.
      rewrite <- (take_drop n (ring_items (ring_rx_to_parse s))) in i_owned0. reorder i_owned0.
    + intros H. by destruct (Eq _ eq_refl).
    + by destruct (Eq _ eq_refl).
  - wp_steps. destruct I. inv_auto.
  - wp_step. destruct parse as [f|].
    + apply wp_quiet; [apply Hq|]. intros u t' Ht. wp_steps. apply (inv_printed _ _ _ _ Ht) in I. destruct I. inv_auto.
    + wp_steps. destruct I. inv_auto.
  - cbv zeta. cbn [parser_pending] in Hl.
    pose proof (zlen_nonneg (ring_items (ring_rx_to_parse s))). pose proof (zlen_nonneg (rx_pending rp)).
    pose proof (zlen_nonneg (given t)). pose proof (zlen_nonneg (tx_pending tp)). pose proof (zlen_nonneg pkts).
    pose proof (zlen_nonneg (ring_items (ring_parse_to_tx s))).
    destruct (ring_enqueue_burst_law (ring_parse_to_tx s) pkts) as (L1 & L2 & L3);
      rewrite (i_cap2 _ _ _ I) in *; unfold TX_RING_SIZE in *; [lia|].
    rewrite Z.min_l in L1, L2 by lia. unfold zlen in L2 at 1. rewrite Nat2Z.id, firstn_all in L2.
    apply wp_if; intros Hn.
    + wp_steps. cbn [ring_parse_to_tx set_parser_count]. rewrite L1, Z.ltb_irrefl. apply inv_line. destruct I. inv_auto.
      * rewrite i_fifo0. unfold in_flight, before_tx. simpl. rewrite L2. by rewrite <- !app_assoc.
      * unfold in_flight, before_tx in *. simpl in *. rewrite L2. reorder i_owned0.
      * rewrite L2, i_parser0, !zlen_app, !Z.add_assoc. apply u64_small. words.
    + assert (pkts = []) as -> by (by destruct pkts). wp_steps. destruct I. inv_auto.
  - wp_steps. destruct I. inv_auto.
  - by pose proof (i_pfree _ _ _ I).
  - by wp_steps.
Qed.

Lemma tx_step_inv p s t :
  inv p s t ->
  wp (tx_step (tx p)) (fun pc s' t' => inv (Threads (rx p) (parser p) pc) s' t') (fun _ _ _ => False) s t.
Proof.
  intros I. pose proof (inv_small _ _ _ I) as Hs. pose proof (inv_lengths _ _ _ I) as Hl.
  destruct p as [rp pp pc]. cbn [rx parser tx] in *. destruct pc as [| | |pkts|[|m rest]|]; simpl tx_step.
  - wp_steps. apply inv_line. pose proof (i_tstart _ _ _ I eq_refl). destruct I. inv_auto.
  - wp_steps. destruct (force_quit s) eqn:Q; destruct I; inv_auto.
  - destruct (ring_dequeue_law (ring_parse_to_tx s) BURST_SIZE) as (L1 & L2 & L3); [done|].
    wp_step. apply wp_gets. wp_step. apply wp_modify. cbv zeta.
    set (n := Z.to_nat BURST_SIZE) in *. set (r := rte_ring_dequeue_burst _ _) in *.
    assert (ring_items (ring_parse_to_tx s) = r.1 ++ ring_items r.2) as Er
      by (by rewrite L1, L2, take_drop).
    apply wp_if; intros Hn.
    + wp_steps. apply inv_line. rewrite Er in Hl. rewrite zlen_app in Hl. cbn [tx_pending] in Hl.
      pose proof (zlen_nonneg (ring_items (ring_rx_to_parse s))). pose proof (zlen_nonneg (rx_pending rp)).
      pose proof (zlen_nonneg (given t)). pose proof (zlen_nonneg r.1). pose proof (zlen_nonneg (ring_items r.2)).
      pose proof (zlen_nonneg (parser_pending pp)).
      destruct I. inv_auto.
      * rewrite i_fifo0. unfold in_flight, before_tx. simpl. rewrite Er. by rewrite <- !app_assoc.
      * unfold in_flight, before_tx in *. simpl in *. rewrite Er in i_owned0. reorder i_owned0.
      * rewrite i_parser0, Er. simpl. done.
      * rewrite i_tx0. simpl. rewrite app_nil_r, zlen_app. apply u64_small. change (zlen (@nil mbuf)) with 0 in Hl. words.
    + assert (r.1 = []) as E1 by (by destruct r.1). rewrite E1 in Er. simpl in Er.
      wp_steps. destruct I. inv_auto; unfold in_flight, before_tx in *; simpl in *; by rewrite <- Er.
  - wp_step. apply wp_tx. intros k Hk. wp_steps. destruct I. inv_auto.
    + rewrite i_fifo0. unfold in_flight, before_tx. simpl. by rewrite <- !app_assoc.
    + unfold in_flight, before_tx in *. simpl in *. rewrite map_app in i_owned0.
      by apply (owned_tx _ port_id 0 pkts k) in i_owned0.
    + rewrite i_parser0. simpl. by rewrite <- app_assoc.
    + rewrite i_tx0. simpl. by rewrite app_nil_r.
  - wp_steps. destruct I. inv_auto.
  - wp_steps. destruct I. inv_auto. by apply owned_free.
  - by wp_steps.
Qed.

Lemma thread_step_inv parse th p s t :
  parses_quietly parse -> inv p s t ->
  wp (thread_step parse th p) (fun p' s' t' => inv p' s' t') (fun _ _ _ => False) s t.
Proof.
  intros Hq I. destruct th; simpl; wp_step;
    (eapply wp_mono; [first [by apply rx_step_inv|by apply parser_step_inv|by apply tx_step_inv]| |done]);
    intros pc s' t' I'; by wp_steps.
Qed.

Lemma run_inv parse sched p s t :
  parses_quietly parse -> inv p s t ->
  wp (run parse sched p) (fun p' s' t' => inv p' s' t') (fun _ _ _ => False) s t.
Proof.
  intros Hq. revert p s t. induction sched as [|th sched IH]; intros p s t I; simpl; [done|].
  wp_step. eapply wp_mono; [by apply thread_step_inv| |done]. intros p' s' t' I'. by apply IH.
Qed.

(** ** Progress

    Bounds on the number of steps a thread still makes once [force_quit] is
    set, and, for the receiver, as long as every poll delivers a packet. *)

Definition parser_fuel (pc : parser_pc) : nat :=
  match pc with
  | PDone => 0 | PTest => 1 | PStart => 2
  | PFree rest => 2 + length rest
  | PForward pkts => 3 + length pkts
  | PParse rest pkts => 4 + length rest + length pkts
  | PDequeue => 69
  end%nat.
Definition tx_fuel (pc : tx_pc) : nat :=
  match pc with
  | TDone => 0 | TTest => 1 | TStart => 2
  | TFree rest => 2 + length rest
  | TSend pkts => 3 + length pkts
  | TDequeue => 36
  end%nat.
(** 40 steps for every packet that is missing to 10. *)
Definition rx_budget (c : Z) : nat := (40 * Z.to_nat (10 - c))%nat.
Definition rx_fuel (pc : rx_pc) (c : Z) : nat :=
  match pc with
  | RxDone => 0
  | RxLimit => 1 + rx_budget c
  | RxEnqueue rest _ => 2 + length rest + rx_budget c
  | RxTest => rx_budget c
  | RxBurst => rx_budget c - 1
  | RxStart => 401
  end%nat.

Definition of_thread (th th' : thread) : bool :=
  match th, th' with Rx, Rx | Parser, Parser | Tx, Tx => true | _, _ => false end.
Definition steps_of (th : thread) (sched : list thread) : nat := length (List.filter (of_thread th) sched).

Lemma dequeue_length r n : 0 <= n -> (length (rte_ring_dequeue_burst r n).1 <= Z.to_nat n)%nat.
Proof. intros Hn. destruct (ring_dequeue_law r n Hn) as (-> & _). rewrite length_take. lia. Qed.

(** One step: the flag is as before, the bound on the fuel holds again, and
    with the flag set the fuel decreases. *)
Definition uses_fuel {PC} (fuel : PC -> nat) (bound : nat) (pc : PC) (s : shared) (pc' : PC) (s' : shared) : Prop :=
  force_quit s' = force_quit s /\ (fuel pc' <= bound)%nat /\
  (force_quit s = true -> (fuel pc' <= pred (fuel pc))%nat).

Lemma parser_progress parse pc s t :
  parses_quietly parse -> (parser_fuel pc <= 69)%nat ->
  wp (parser_step parse pc) (fun pc' s' _ => uses_fuel parser_fuel 69 pc s pc' s') (fun _ _ _ => False) s t.
Proof.
  intros Hp Hf. unfold uses_fuel.
  destruct pc as [| | |[|m rest] pkts|pkts|[|m rest]|]; simpl parser_step; simpl in Hf.
  - wp_steps. split; [done|]. simpl. lia.
  - wp_steps. split; [done|]. destruct (force_quit s); simpl; split; try done; lia.
  - pose proof (dequeue_length (ring_rx_to_parse s) BURST_SIZE ltac:(done)). wp_steps. split; [done|].
    unfold BURST_SIZE in *. destruct parse; simpl; lia.
  - wp_steps. split; [done|]. simpl. lia.
  - wp_step. destruct parse as [f|]; [apply wp_quiet; [apply Hp|]; intros u t' _|]; wp_steps;
      (split; [done|]); simpl; lia.
  - wp_steps; (split; [done|]); simpl; [|lia].
    match goal with |- context [if ?b then _ else _] => destruct b end; simpl; [rewrite length_drop|]; lia.
  - wp_steps. split; [done|]. simpl. lia.
  - wp_steps. split; [done|]. simpl. lia.
  - wp_steps. split; [done|]. simpl. lia.
Qed.

Lemma tx_progress pc s t :
  (tx_fuel pc <= 36)%nat ->
  wp (tx_step pc) (fun pc' s' _ => uses_fuel tx_fuel 36 pc s pc' s') (fun _ _ _ => False) s t.
Proof.
  intros Hf. unfold uses_fuel. destruct pc as [| | |pkts|[|m rest]|]; simpl tx_step; simpl in Hf.
  - wp_steps. split; [done|]. simpl. lia.
  - wp_steps. split; [done|]. destruct (force_quit s); simpl; split; try done; lia.
  - pose proof (dequeue_length (ring_parse_to_tx s) BURST_SIZE ltac:(done)). unfold BURST_SIZE in *.
    wp_steps; (split; [done|]); simpl; lia.
  - wp_step. apply wp_tx. intros k Hk. wp_steps. split; [done|]. simpl. rewrite length_drop. lia.
  - wp_steps. split; [done|]. simpl. lia.
  - wp_steps. split; [done|]. simpl. lia.
  - wp_steps. split; [done|]. simpl. lia.
Qed.

(** The threads other than the receiver leave the flag and its counter alone. *)
Lemma others_step parse th p s t :
  parses_quietly parse -> th <> Rx ->
  wp (thread_step parse th p)
    (fun p' s' _ => rx p' = rx p /\ force_quit s' = force_quit s /\ rx_count s' = rx_count s)
    (fun _ _ _ => False) s t.
Proof.
  intros Hp Hth. destruct th; [done| |]; simpl; wp_step.
  - destruct (parser p) as [| | |[|m rest] pkts|pkts|[|m rest]|]; simpl parser_step; wp_steps; try done.
    destruct parse as [f|]; [apply wp_quiet; [apply Hp|]; intros u t' _|]; by wp_steps.
  - destruct (tx p) as [| | |pkts|[|m rest]|]; simpl tx_step; wp_steps; try done.
Qed.

Lemma rx_progress p s t :
  (forall t, env_rx t port_id 0 BURST_SIZE <> []) -> inv p s t ->
  (rx p = RxDone -> force_quit s = true) ->
  wp (rx_step (rx p))
    (fun pc' s' _ => (rx_fuel pc' (rx_count s') <= pred (rx_fuel (rx p) (rx_count s)))%nat /\
       (pc' = RxDone -> force_quit s' = true))
    (fun _ _ _ => False) s t.
Proof.
  intros Hrx I Hd. pose proof (inv_small _ _ _ I) as Hs. pose proof (i_bound _ _ _ I) as B.
  unfold rx_fuel, rx_budget in *.
  destruct (rx p) as [| | |[|m rest] n| |]; simpl rx_step; simpl in B.
  - by wp_steps.
  - wp_steps. destruct (force_quit s); (split; [lia|done]).
  - wp_step. unfold wp at 1, rte_eth_rx_burst. pose proof (env_rx_len t port_id 0 BURST_SIZE ltac:(done)) as Hl.
    pose proof (Hrx t) as Hne. destruct (env_rx t port_id 0 BURST_SIZE) as [|m pkts]; [done|].
    unfold BURST_SIZE in *. cbv zeta. apply wp_if; intros Hz; [|done]. wp_steps.
    unfold set_rx_count, zlen in *. cbn [rx_count length] in *. rewrite u64_small by words. split; [lia|done].
  - wp_steps. split; [simpl; lia|done].
  - wp_steps. split; [simpl; lia|done].
  - wp_steps; split; try done; simpl; lia.
  - wp_steps. split; [lia|auto].
Qed.

Definition fuel_ok (p : threads) : Prop := (parser_fuel (parser p) <= 69 /\ tx_fuel (tx p) <= 36)%nat.

(** With the flag set and the receiver gone, the other two threads use up
    their fuel. *)
Lemma run_drains parse sched p s t :
  parses_quietly parse -> force_quit s = true -> rx p = RxDone -> fuel_ok p ->
  wp (run parse sched p)
    (fun p' s' _ => rx p' = RxDone /\
       (parser_fuel (parser p') <= parser_fuel (parser p) - steps_of Parser sched)%nat /\
       (tx_fuel (tx p') <= tx_fuel (tx p) - steps_of Tx sched)%nat)
    (fun _ _ _ => False) s t.
Proof.
  intros Hp. revert p s t. induction sched as [|th sched IH]; intros p s t Hq Hr [B1 B2]; simpl.
  { apply wp_ret. unfold steps_of. simpl. split; [done|]. lia. }
  assert (wp (thread_step parse th p) (fun p' s' _ => force_quit s' = true /\ rx p' = RxDone /\ fuel_ok p' /\
    (parser_fuel (parser p') <= parser_fuel (parser p) - (if of_thread Parser th then 1 else 0))%nat /\
    (tx_fuel (tx p') <= tx_fuel (tx p) - (if of_thread Tx th then 1 else 0))%nat) (fun _ _ _ => False) s t) as H.
  { unfold fuel_ok. destruct th; simpl; wp_step.
    - rewrite Hr. simpl. wp_steps. split; [done|]. split; [done|]. simpl. lia.
    - eapply wp_mono; [by apply parser_progress| |done]. intros pc s' t' (Q & F1 & F2). specialize (F2 Hq).
      wp_steps. split; [congruence|]. split; [done|]. simpl. lia.
    - eapply wp_mono; [by apply tx_progress| |done]. intros pc s' t' (Q & F1 & F2). specialize (F2 Hq).
      wp_steps. split; [congruence|]. split; [done|]. simpl. lia. }
  wp_step. eapply wp_mono; [exact H| |done]. intros p' s' t' (Q & R & F0 & F1 & F2).
  eapply wp_mono; [by apply IH| |done]. intros p2 s2 t2 (R2 & G1 & G2). split; [done|].
  unfold steps_of in *. simpl. destruct th; simpl in *; lia.
Qed.

(** What holds of the threads while the receiver is at work. *)
Definition receiving (p : threads) (s : shared) (t : trace) : Prop :=
  inv p s t /\ fuel_ok p /\ (rx p = RxDone -> force_quit s = true).

(** The receiver uses up its fuel, whatever the others do in between. *)
Lemma receiving_step parse th p s t :
  parses_quietly parse -> (forall t, env_rx t port_id 0 BURST_SIZE <> []) -> receiving p s t ->
  wp (thread_step parse th p) (fun p' s' t' => receiving p' s' t' /\
    (rx_fuel (rx p') (rx_count s') <= rx_fuel (rx p) (rx_count s) - (if of_thread Rx th then 1 else 0))%nat)
    (fun _ _ _ => False) s t.
Proof.
  intros Hp Hrx (I & [B1 B2] & Hd). 
  enough (wp (thread_step parse th p) (fun p' s' t' => fuel_ok p' /\ (rx p' = RxDone -> force_quit s' = true) /\
    (rx_fuel (rx p') (rx_count s') <= rx_fuel (rx p) (rx_count s) - (if of_thread Rx th then 1 else 0))%nat)
    (fun _ _ _ => False) s t) as H.
  { pose proof (thread_step_inv parse th p s t Hp I) as H2. unfold wp in *.
    destruct (thread_step parse th p s t) as [p' s' t'|c s' t'|s' t']; try done.
    unfold receiving. tauto. }
  destruct (decide (th = Rx)) as [->|Hth].
  - simpl. wp_step. eapply wp_mono; [by eapply rx_progress| |done]. intros pc s' t' [F D]. wp_steps.
    split; [done|]. split; [done|]. simpl. lia.
  - pose proof (others_step parse th p s t Hp Hth) as H1.
    assert (wp (thread_step parse th p) (fun p' _ _ => fuel_ok p') (fun _ _ _ => False) s t) as H2.
    { destruct th; [done| |]; simpl; wp_step.
      - eapply wp_mono; [by apply parser_progress| |done]. intros pc s' t' (_ & F & _). by wp_steps.
      - eapply wp_mono; [by apply tx_progress| |done]. intros pc s' t' (_ & F & _). by wp_steps. }
    unfold wp in *. destruct (thread_step parse th p s t) as [p' s' t'|c s' t'|s' t']; try done.
    destruct H1 as (-> & -> & ->). split; [done|]. split; [done|]. destruct th; simpl; lia || done.
Qed.

Lemma run_receives parse sched p s t :
  parses_quietly parse -> (forall t, env_rx t port_id 0 BURST_SIZE <> []) -> receiving p s t ->
  wp (run parse sched p)
    (fun p' s' t' => receiving p' s' t' /\
       (rx_fuel (rx p') (rx_count s') <= rx_fuel (rx p) (rx_count s) - steps_of Rx sched)%nat)
    (fun _ _ _ => False) s t.
Proof.
  intros Hp Hrx. revert p s t. induction sched as [|th sched IH]; intros p s t R; simpl.
  { apply wp_ret. unfold steps_of. simpl. split; [done|]. lia. }
  wp_step. eapply wp_mono; [by apply receiving_step| |done]. intros p' s' t' [R' F].
  eapply wp_mono; [by apply IH| |done]. intros p2 s2 t2 [R2 F2]. split; [done|].
  unfold steps_of in *. simpl. destruct th; simpl in *; lia.
Qed.

Lemma run_app parse s1 s2 p : forall s t,
  run parse (s1 ++ s2) p s t = bind (run parse s1 p) (run parse s2) s t.
Proof.
  revert p. induction s1 as [|th s1 IH]; intros p s t; simpl; [done|].
  unfold bind in *. destruct (thread_step parse th p s t); [apply IH|done|done].
Qed.

Lemma parser_fuel_0 pc : (parser_fuel pc <= 0)%nat -> pc = PDone.
Proof. destruct pc; simpl; try lia; done. Qed.
Lemma tx_fuel_0 pc : (tx_fuel pc <= 0)%nat -> pc = TDone.
Proof. destruct pc; simpl; try lia; done. Qed.

Lemma rx_fuel_0 pc c : rx_bound pc c -> (rx_fuel pc c <= 0)%nat -> pc = RxDone.
Proof. unfold rx_fuel, rx_budget. destruct pc; simpl; try lia; done. Qed.

(** The threads before their first step, with empty rings. *)
Record ready (s : shared) (t : trace) : Prop := {
  r_received : received t = []; r_given : given t = []; r_owned : owned [] t;
  r_ring1 : ring_items (ring_rx_to_parse s) = [] /\ ring_cap (ring_rx_to_parse s) = RX_RING_SIZE - 1;
  r_ring2 : ring_items (ring_parse_to_tx s) = [] /\ ring_cap (ring_parse_to_tx s) = TX_RING_SIZE - 1;
  r_quit : force_quit s = false;
  r_counts : rx_count s = 0 /\ parser_count s = 0 /\ tx_count s = 0 }.

Definition launched : threads := Threads RxStart PStart TStart.

Lemma ready_inv rp pp tp s t :
  (rp = RxStart \/ rp = RxDone) -> (pp = PStart \/ pp = PDone) -> (tp = TStart \/ tp = TDone) ->
  ready s t -> inv (Threads rp pp tp) s t.
Proof.
  intros Hr Hp Ht [R1 R2 R3 [R4 R4'] [R5 R5'] R6 (R7 & R8 & R9)].
  assert (rx_pending rp = [] /\ parser_pending pp = [] /\ tx_pending tp = [] /\ tx_unsent tp = []) as (E1 & E2 & E3 & E4).
  { by destruct Hr as [-> | ->], Hp as [-> | ->], Ht as [-> | ->]. }
  constructor; simpl; unfold in_flight, before_tx; simpl; rewrite ?R1, ?R2, ?R4, ?R5, ?E1, ?E2, ?E3, ?E4; auto.
  - rewrite R7. by destruct Hr as [-> | ->].
  - by rewrite R6.
  - by destruct Hp as [-> | ->].
Qed.

(** The pipeline ends. If every poll of the NIC delivers a packet, then in every schedule
    that gives the receiver 401 steps and after that the parser 69 and the
    transmitter 36, in whatever order and with whatever steps of the others in
    between, all three threads have ended; without that the receiver would wait,
    but the other two always end once [force_quit] is set. *)
Theorem pipeline_ends parse s1 s2 s t :
  parses_quietly parse -> (forall t, env_rx t port_id 0 BURST_SIZE <> []) -> ready s t ->
  (401 <= steps_of Rx s1)%nat -> (69 <= steps_of Parser s2)%nat -> (36 <= steps_of Tx s2)%nat ->
  wp (run parse (s1 ++ s2) launched) (fun p' _ _ => all_done p' = true) (fun _ _ _ => False) s t.
Proof.
  intros Hp Hrx Hr H1 H2 H3. unfold wp. rewrite run_app. fold (wp (bind (run parse s1 launched) (run parse s2))
    (fun p' _ _ => all_done p' = true) (fun _ _ _ => False) s t).
  wp_step. eapply wp_mono; [apply run_receives; [done|done|]| |done].
  { split; [apply ready_inv; auto|]. split; [unfold fuel_ok; simpl; lia|done]. }
  intros p' s' t' [(I & F & D) Fr].
  assert (rx p' = RxDone) as Er.
  { apply (rx_fuel_0 _ (rx_count s')); [by apply (i_bound _ _ _ I)|]. change (rx_fuel (rx launched) (rx_count s)) with 401%nat in Fr. lia. }
  eapply wp_mono; [apply run_drains; auto| |done]. intros p2 sx tx (R2 & G1 & G2). destruct F as [F1 F2].
  assert (parser p2 = PDone) as E1 by (apply parser_fuel_0; lia).
  assert (Pipeline.tx p2 = TDone) as E2 by (apply tx_fuel_0; lia).
  destruct p2. simpl in *. by subst.
Qed.

(** What the invariant says to a user of the pipeline. *)
Definition fifo (p : threads) (s : shared) (t : trace) : Prop :=
  received t = given t ++ in_flight p s /\
  owned (ids (tx_unsent (tx p)) ++ ids (in_flight p s)) t /\
  rx_count s = zlen (received t) /\ 0 <= tx_count s <= parser_count s /\ parser_count s <= rx_count s <= 41.

Lemma inv_fifo p s t : inv p s t -> fifo p s t.
Proof.
  intros I. pose proof (inv_small _ _ _ I) as B. destruct I. do 3 (split; [done|]).
  rewrite i_tx0, i_parser0. rewrite i_rx0 in *. rewrite i_fifo0 in *. unfold in_flight, before_tx in *.
  rewrite !zlen_app in *. pose proof (zlen_nonneg (given t)). pose proof (zlen_nonneg (tx_pending (tx p))).
  pose proof (zlen_nonneg (ring_items (ring_parse_to_tx s))). pose proof (zlen_nonneg (parser_pending (parser p))).
  pose proof (zlen_nonneg (ring_items (ring_rx_to_parse s))). pose proof (zlen_nonneg (rx_pending (rx p))). lia.
Qed.

(** C3: In every interleaving of the three threads, at every moment: the packets given to the
    NIC followed by those in the pipeline (the transmitter's, the second ring's,
    the parser's, the first ring's, the receiver's) are the packets received, in
    the order of arrival; so none is lost, doubled or overtaken, although the
    receiver ignores the result of rte_ring_enqueue (at most 41 packets are ever
    received, and the rings hold 1023). Every buffer the NIC did not take is in
    the pipeline or was freed once, and the counters agree with all this. *)
Theorem pipeline_fifo parse sched s t :
  parses_quietly parse -> ready s t ->
  wp (run parse sched launched) (fun p' s' t' => fifo p' s' t') (fun _ _ _ => False) s t.
Proof.
  intros Hp Hr. eapply wp_mono; [apply run_inv; [done|apply ready_inv; auto]| |done].
  intros p' s' t' I. by apply inv_fifo.
Qed.

(** ** The programs *)

(** The end of a run: what the three threads leave in the rings is received and
    neither sent nor freed. *)
Definition run_over (p : threads) (s : shared) (t : trace) : Prop :=
  let left := ring_items (ring_parse_to_tx s) ++ ring_items (ring_rx_to_parse s) in
  received t = given t ++ left /\ owned (ids left) t.

Lemma all_done_over p s t : all_done p = true -> fifo p s t -> run_over p s t.
Proof.
  destruct p as [rp pp tp]. destruct rp, pp, tp; try done. intros _ (F & O & _). unfold run_over.
  unfold in_flight, before_tx in *. simpl in *. by rewrite !app_nil_r in *.
Qed.

Lemma fifo_ext p s t t' :
  received t' = received t -> given t' = given t -> same_acct t t' -> fifo p s t -> fifo p s t'.
Proof. intros Er Eg A (F & O & C). unfold fifo. rewrite Er, Eg. split; [done|]. split; [by eapply owned_acct|done]. Qed.

(** The state at program start: the counters and the flag are 0. *)
Definition zeroed (s : shared) : Prop :=
  force_quit s = false /\ rx_count s = 0 /\ parser_count s = 0 /\ tx_count s = 0.

Lemma setup_ready (Q : unit -> shared -> trace -> Prop) s t :
  zeroed s -> received t = [] -> given t = [] -> owned [] t ->
  (forall s' t', ready s' t' -> Q tt s' t') ->
  wp setup Q (fun c _ t' => c = EXIT_FAILURE /\ received t' = []) s t.
Proof.
  intros (Z1 & Z2 & Z3 & Z4) R G O H. unfold setup. wp_steps; try done. apply H.
  destruct (ring_empty_law (A:=mbuf) RX_RING_SIZE), (ring_empty_law (A:=mbuf) TX_RING_SIZE). by constructor.
Qed.

Lemma launch_fifo parse sched s t :
  parses_quietly parse -> ready s t ->
  wp (launch parse sched) (fun p' s' t' => fifo p' s' t') (fun _ _ _ => False) s t.
Proof.
  intros Hp Hr. unfold launch. wp_steps. eapply wp_mono; [apply run_inv; [done|]| |done].
  - apply ready_inv; try (by destruct (_ =? 0); auto). destruct Hr. by constructor.
  - intros p' s' t' I. by apply inv_fifo.
Qed.

(** The program on every schedule: it never faults, exits only before traffic, and at every
    moment satisfies the law of the pipeline; when all three threads have ended
    and it prints its totals, the packets that are still in the rings are the
    ones received and never handed back: they are lost. *)
Theorem pipeline_main_over sched s :
  zeroed s ->
  wp (main sched)
    (fun r s' t => fifo r.1 s' t /\ (r.2 = Some tt -> run_over r.1 s' t))
    (fun c _ t => c = EXIT_FAILURE /\ received t = []) s [].
Proof.
  intros Hz. unfold main, print_dev_info. wp_steps; try done. apply wp_vals; [done|]. intros vs _ _. wp_steps.
  apply setup_ready; [done|done|done|by constructor|]. intros s1 t1 Hr.
  wp_step. eapply wp_mono; [apply launch_fifo; [intros m; apply parse_packet_quiet|done]| |done].
  intros p' s' t' F. unfold results. wp_steps; [|by split].
  split; [by eapply fifo_ext, F|]. intros _. apply all_done_over; [done|]. by eapply fifo_ext, F.
Qed.

(** Traces that differ by events without packets. *)
Definition no_packets (t t' : trace) : Prop :=
  received t' = received t /\ given t' = given t /\ same_acct t t'.

Lemma no_packets_printed t t' : only_printed t t' -> no_packets t t'.
Proof.
  intros H. split; [|split; [|by apply only_printed_acct]]; (eapply only_printed_ext; [|exact H]); by intros [] ?.
Qed.
Lemma no_packets_trans t1 t2 t3 : no_packets t1 t2 -> no_packets t2 t3 -> no_packets t1 t3.
Proof.
  intros (R1 & G1 & A1) (R2 & G2 & A2). split; [congruence|]. split; [congruence|]. by eapply same_acct_trans.
Qed.
Lemma fifo_no_packets p s t t' : no_packets t t' -> fifo p s t -> fifo p s t'.
Proof. intros (R & G & A). by apply fifo_ext. Qed.

Lemma print_eth_stats_run s t :
  wp print_eth_stats (fun _ s' t' => s' = s /\ no_packets t t') (fun _ _ _ => False) s t.
Proof.
  unfold print_eth_stats. wp_steps; [|done]. apply wp_vals; [done|]. intros vs _ _. by wp_steps.
Qed.
Lemma print_xstats_run s t :
  wp print_xstats (fun _ s' t' => s' = s /\ no_packets t t') (fun _ _ _ => False) s t.
Proof.
  unfold print_xstats. wp_steps; try done. apply Z.ltb_ge in H. apply wp_vals; [done|]. intros vs _ _. wp_steps.
  apply wp_quiet; [quiet_lines|]. intros v t2 P2%no_packets_printed. split; [done|].
  eapply no_packets_trans; [|exact P2]. done.
Qed.

(** The same of nic_stats/sample, which also shows the statistics of the port. *)
Lemma nic_main_over sched s :
  zeroed s ->
  wp (nic_main sched)
    (fun r s' t => fifo r.1 s' t /\ (r.2 = Some tt -> run_over r.1 s' t))
    (fun c _ t => c = EXIT_FAILURE /\ received t = []) s [].
Proof.
  intros Hz. unfold nic_main, print_dev_info. wp_steps; try done. apply wp_vals; [done|]. intros vs _ _. wp_steps.
  apply setup_ready; [done|done|done|by constructor|]. intros s1 t1 Hr.
  wp_step. eapply wp_mono; [apply launch_fifo; [|done]; done| |done].
  intros p' s' t' F. unfold results. apply wp_if; intros Hd; [|wp_steps; by split].
  do 14 wp_step. cbv beta.
  wp_step. eapply wp_mono; [apply print_eth_stats_run| |done]. intros u s2 t2 [-> N2].
  wp_step. eapply wp_mono; [apply print_xstats_run| |done]. intros v s3 t3 [-> N3]. apply wp_ret. simpl.
  assert (fifo p' s' t3) as F2.
  { eapply fifo_no_packets; [exact N3|]. eapply fifo_no_packets; [exact N2|]. by eapply fifo_ext, F. }
  split; [done|]. intros _. by apply all_done_over.
Qed.
End Pipeline.

#[local] Existing Instances sim_byteorder.
#[local] Instance w_ring : RteRing mbuf := sim_ring mbuf.

Definition w_pkt (id : Z) : mbuf := mk_packet id [10; 0; 0; 7] [10; 0; 0; 1] IPPROTO_TCP [4; 210] [0; 80].
(** Two polls deliver 6 and 5 packets. *)
Definition wenv : Env := sim_env
  (Script (fun _ => 0) [map w_pkt [1; 2; 3; 4; 5; 6]; map w_pkt [7; 8; 9; 10; 11]] 32 (fun t => Z.of_nat (length t)) true None 1000).
Definition w_start : shared := Shared (1023, []) (1023, []) false 0 0 0.
Lemma w_ready : ready w_start [].
Proof. constructor; done || apply owned_nil. Qed.

(** The first burst goes through; the second is still in the first ring when
    the receiver stops the others. *)
Definition w_sched : list thread :=
  repeat Rx 11 ++ repeat Parser 11 ++ repeat Tx 5 ++ repeat Rx 9 ++ [Parser; Tx].

Lemma pipeline_fifo_witness :
  ready w_start [] /\
  wp (run (E:=wenv) (Some parse_packet) w_sched launched)
    (fun p' s' t' => fifo p' s' t') (fun _ _ _ => False) w_start [].
Proof.
  split; [apply w_ready|]. apply (pipeline_fifo (E:=wenv)); [|apply w_ready].
  intros m. apply parse_packet_quiet.
Defined.

(** All three threads end, and the packets 7 to 11 are lost; the receiver's
    status of 0 for a launch stands for success. *)
Definition w_main_env : Env := sim_env
  (Script (fun a => match a with rte_eal_remote_launch _ _ => 0 | _ => 1 end)
     [map w_pkt [1; 2; 3; 4; 5; 6]; map w_pkt [7; 8; 9; 10; 11]] 32 (fun t => Z.of_nat (length t)) true None 1000).

Lemma pipeline_main_over_witness :
  zeroed w_start /\
  wp (main (E:=w_main_env) w_sched)
    (fun r s' t => fifo r.1 s' t /\ (r.2 = Some tt -> run_over r.1 s' t))
    (fun c _ t => c = EXIT_FAILURE /\ received t = []) w_start [] /\
  match main (E:=w_main_env) w_sched w_start [] with
  | Done r s' t => r.2 = Some tt /\ ids (given t) = [1; 2; 3; 4; 5; 6] /\
      ids (ring_items (ring_rx_to_parse s')) = [7; 8; 9; 10; 11]
  | _ => False
  end.
Proof.
  split; [done|]. split; [by apply (pipeline_main_over (E:=w_main_env))|]. vm_compute. by split_and!.
Defined.

Definition w_steady : Env := steady_env (Script (fun _ => 0) [] 32 (fun t => Z.of_nat (length t)) true None 1000)
  (w_pkt 1) ltac:(by apply Forall_u8_dec).

Lemma pipeline_ends_witness :
  wp (run (E:=w_steady) None (repeat Rx 401 ++ (repeat Parser 69 ++ repeat Tx 36)) launched)
    (fun p' _ _ => all_done p' = true) (fun _ _ _ => False) w_start [].
Proof.
  apply (pipeline_ends (E:=w_steady)); [done|intros t; discriminate|apply w_ready|vm_compute; lia..].
Defined.
