(* ===== verification/AclFilter.v ===== *)
(** * ACL/: packet filters on rte_acl

    exp and real_packet_acl classify every received IPv4 packet and print the
    verdict; l2fwd_acl sends the matching packets back and frees the others;
    dual_rule_implementation and muti_rule build tables of several rules. *)

From S2P Require Import Prelude Cstd Rte RteAcl Env Packet Ownership Sim.

Definition EXIT_FAILURE := 1.
Definition MAX_RULES := 32.
Definition NB_MBUF := 8192.
Definition BURST := 32.
Definition RTE_MBUF_DEFAULT_BUF_SIZE := 2176.

(** [struct pkt_key] in memory; the bytes 1 to 3 are padding. *)
Definition pkt_key (pad : list Z) (proto src_ip dst_ip src_port dst_port : Z) : list Z :=
  [proto] ++ pad ++ le32 src_ip ++ le32 dst_ip ++ le16 src_port ++ le16 dst_port.

(** The field definitions of all programs but muti_rule, which differ in the
    input index of the destination port. *)
Definition field_defs (dport_index : Z) : list acl_field_def :=
  [FieldDef BITMASK 1 0 0 0; FieldDef MASK 4 1 1 4; FieldDef MASK 4 2 2 8;
   FieldDef RANGE 2 3 3 12; FieldDef RANGE 2 4 dport_index 14].
Definition exp_field_defs := field_defs 3.
Definition real_field_defs := field_defs 4.
Definition dual_field_defs := field_defs 4.
Definition l2_field_defs := field_defs 3.

Section Acl.
Context {BO : Byteorder} {AC : RteAcl} {E : Env} {S : Type}.
Notation M := (M S).

(** ** exp/main.c and real_packet_acl/main2.c *)

Definition exp_rule : acl_rule :=
  AclRule 10 1 1 [(IPPROTO_TCP, 255); (RTE_IPV4 172 17 166 200, 32); (0, 0); (0, 65535); (0, 65535)].
Definition real_rule : acl_rule :=
  AclRule 10 1 1 [(IPPROTO_UDP, 255); (0, 0); (RTE_IPV4 239 255 255 250, 32); (0, 65535); (1900, 1900)].

(** The context with the one rule. *)
Definition create_acl (defs : list acl_field_def) (rule : acl_rule) : M rte_acl_ctx :=
  ctx <-- call (api_call "rte_acl_create" [MAX_RULES]) ;;
  when (ctx =? 0) (rte_exit EXIT_FAILURE) ;;
  let a := rte_acl_add_rules (rte_acl_empty MAX_RULES) [rule] in
  when (a.1 <? 0) (rte_exit EXIT_FAILURE) ;;
  let b := rte_acl_build a.2 defs in
  when (negb (b.1 =? 0)) (rte_exit EXIT_FAILURE) ;;
  printf "ACL ready\n" [] ;;
  ret b.2.

Definition ip_args (a : Z) : list parg :=
  [PInt (Z.land (Z.shiftr a 24) 255); PInt (Z.land (Z.shiftr a 16) 255);
   PInt (Z.land (Z.shiftr a 8) 255); PInt (Z.land a 255)].

(** The Ethernet type and the offset of what it announces, behind a VLAN tag. *)
Definition ether_payload (m : mbuf) : Z * Z :=
  let eth_type := load16 m ETH_TYPE in
  if eth_type =? rte_cpu_to_be_16 RTE_ETHER_TYPE_VLAN
  then (load16 m (sizeof_ether_hdr + sizeof_vlan_hdr - 2), sizeof_ether_hdr + sizeof_vlan_hdr)
  else (eth_type, sizeof_ether_hdr).

(** The ports at [l4], which TCP and UDP have at the same place; 0 otherwise. *)
Definition l4_ports (m : mbuf) (proto l4 : Z) : Z * Z :=
  if proto =? IPPROTO_TCP then (load16 m l4, load16 m (l4 + 2))
  else if proto =? IPPROTO_UDP then (load16 m l4, load16 m (l4 + 2))
  else (0, 0).

(** The key of the IPv4 packet at [ip], in network order. *)
Definition net_key (m : mbuf) (ip : Z) : list Z :=
  let proto := load8 m (ip + 9) in
  let ports := l4_ports m proto (ip + Z.land (load8 m ip) 15 * 4) in
  pkt_key [0; 0; 0] proto (load32 m (ip + 12)) (load32 m (ip + 16)) ports.1 ports.2.

(** One packet of the burst. *)
Definition classify_one (ctx : rte_acl_ctx) (m : mbuf) : M unit :=
  let (eth_type, ip) := ether_payload m in
  if negb (eth_type =? rte_cpu_to_be_16 RTE_ETHER_TYPE_IPV4) then rte_pktmbuf_free m
  else
    let s := rte_be_to_cpu_32 (load32 m (ip + 12)) in
    let d := rte_be_to_cpu_32 (load32 m (ip + 16)) in
    printf "RX proto=%u src=%u.%u.%u.%u dst=%u.%u.%u.%u\n" (PInt (load8 m (ip + 9)) :: ip_args s ++ ip_args d) ;;
    let res := rte_acl_classify ctx (net_key m ip) in
    (if negb (res =? 0) then printf "ACL MATCH\n" [] else printf "ACL NO MATCH\n" []) ;;
    rte_pktmbuf_free m.

Definition loop_body (port_id : Z) (ctx : rte_acl_ctx) : unit -> M unit :=
  rx_each port_id 0 BURST (classify_one ctx).

Definition start_port (port_id mp : Z) : M unit :=
  r <-- call (rte_eth_dev_configure port_id 1 1) ;;
  when (r <? 0) (rte_exit EXIT_FAILURE) ;;
  r <-- call (rte_eth_rx_queue_setup port_id 0 1024 mp) ;;
  when (r <? 0) (rte_exit EXIT_FAILURE) ;;
  r <-- call (rte_eth_tx_queue_setup port_id 0 1024) ;;
  when (r <? 0) (rte_exit EXIT_FAILURE) ;;
  r <-- call (rte_eth_dev_start port_id) ;;
  when (r <? 0) (rte_exit EXIT_FAILURE) ;;
  _ <-- call (rte_eth_promiscuous_enable port_id) ;;
  ret tt.

(** The two programs differ in the rule, in the field definitions and in that
    the second checks whether the port can be queried; the first [n] iterations. *)
Definition filter_main (check_info : bool) (defs : list acl_field_def) (rule : acl_rule) (n : nat) : M unit :=
  r <-- call rte_eal_init ;;
  when (r <? 0) (rte_exit EXIT_FAILURE) ;;
  r <-- call rte_eth_dev_count_avail ;;
  when (u16 r =? 0) (rte_exit EXIT_FAILURE) ;;
  let port_id := 0 in
  r <-- call (rte_eth_dev_info_get port_id) ;;
  when (check_info && (r <? 0)) (rte_exit EXIT_FAILURE) ;;
  printf "Using port %u driver=%s\n" [PInt port_id] ;;
  mp <-- call (rte_pktmbuf_pool_create "mbuf_pool" NB_MBUF 256 0 RTE_MBUF_DEFAULT_BUF_SIZE) ;;
  when (mp =? 0) (rte_exit EXIT_FAILURE) ;;
  start_port port_id mp ;;
  printf "Port started\n" [] ;;
  ctx <-- create_acl defs rule ;;
  forever n (loop_body port_id ctx) tt.

Definition exp_main (n : nat) : M unit := filter_main false exp_field_defs exp_rule n.
Definition real_main (n : nat) : M unit := filter_main true real_field_defs real_rule n.

(** ** dual_rule_implementation/main.c *)

Definition ACTION_ALLOW := 777.
Definition ACTION_DROP := 0.

Definition dual_rules : list acl_rule :=
  [AclRule 100 1 ACTION_ALLOW
     [(IPPROTO_TCP, 255); (RTE_IPV4 140 82 112 21, 32); (RTE_IPV4 172 17 166 200, 32); (443, 443); (42960, 42960)];
   AclRule 1 1 ACTION_DROP [(0, 0); (0, 0); (0, 0); (0, 0); (0, 0)]].

(** The local [pkt]; its padding is not initialised. *)
Definition dual_pkt : M (list Z) :=
  pad <-- indet 3 ;;
  ret (pkt_key pad IPPROTO_TCP (rte_cpu_to_be_32 (RTE_IPV4 140 82 112 21))
         (rte_cpu_to_be_32 (RTE_IPV4 172 17 166 200)) (rte_cpu_to_be_16 443) (rte_cpu_to_be_16 42960)).

Definition dual_loop (ctx : rte_acl_ctx) (pkt : list Z) (_ : unit) : M unit :=
  let result := rte_acl_classify ctx pkt in
  printf "ACL result userdata = %u\n" [PInt result] ;;
  (if result =? ACTION_ALLOW then printf "MATCHED: packet allowed\n" []
   else printf "DEFAULT DROP applied\n" []) ;;
  _ <-- call (api_call "sleep" [1]) ;;
  ret tt.

(** The result of [main]: [-1] when it gives up; the first [n] iterations. *)
Definition dual_main (n : nat) : M Z :=
  r <-- call rte_eal_init ;;
  if r <? 0 then printf "EAL init failed\n" [] ;; ret (-1)
  else
  ctx <-- call (api_call "rte_acl_create" [MAX_RULES]) ;;
  if ctx =? 0 then printf "ACL create failed\n" [] ;; ret (-1)
  else
  let a := rte_acl_add_rules (rte_acl_empty MAX_RULES) dual_rules in
  if a.1 <? 0 then printf "Add rules failed\n" [] ;; ret (-1)
  else
  let b := rte_acl_build a.2 dual_field_defs in
  if negb (b.1 =? 0) then printf "ACL build failed\n" [] ;; ret (-1)
  else
  printf "ACL built successfully\n" [] ;;
  pkt <-- dual_pkt ;;
  forever n (dual_loop b.2 pkt) tt ;;
  ret 0.

(** ** muti_rule/main.c *)

(** Offsets in the IPv4 header and in the L4 header behind it. *)
Definition muti_field_defs : list acl_field_def :=
  [FieldDef BITMASK 1 0 0 9; FieldDef MASK 4 1 1 12; FieldDef MASK 4 2 2 16;
   FieldDef RANGE 2 3 3 20; FieldDef RANGE 2 4 4 22].

Definition add_rule (proto src src_mask dst dst_mask sport_low sport_high dport_low dport_high priority userdata : Z)
    : M acl_rule :=
  printf "called add_rule\n" [] ;;
  ret (AclRule priority 1 userdata
    [(proto, 255); (src, src_mask); (dst, dst_mask); (sport_low, sport_high); (dport_low, dport_high)]).

Definition MUTI_MAX_RULES := 10.

(** The result of the program and the context it leaves behind. *)
Definition muti_main : M (Z * rte_acl_ctx) :=
  let c := rte_acl_empty MUTI_MAX_RULES in
  _ <-- call rte_eal_init ;;
  ctx <-- call (api_call "rte_acl_create" [MUTI_MAX_RULES]) ;;
  if ctx =? 0 then printf "ACL create failed\n" [] ;; ret (-1, c)
  else
  r1 <-- add_rule IPPROTO_UDP 0 0 0 0 0 65535 53 53 100 1 ;;
  r2 <-- add_rule IPPROTO_TCP 0 0 0 0 0 65535 80 80 90 2 ;;
  r3 <-- add_rule 0 0 0 0 0 0 65535 0 65535 1 0 ;;
  let a := rte_acl_add_rules c [r1; r2; r3] in
  if a.1 <? 0 then printf "Failed to add ACL rules\n" [] ;; ret (-1, a.2)
  else
  let b := rte_acl_build a.2 muti_field_defs in
  if negb (b.1 =? 0) then printf "ACL build failed\n" [] ;; ret (-1, b.2)
  else
  printf "Multi-rule ACL created successfully\n" [] ;;
  ret (0, b.2).
End Acl.

(** ** l2fwd_acl/main.c *)

Section L2fwd.
Context {BO : Byteorder} {AC : RteAcl} {E : Env}.

(** The state is the static variable [portmask]; [force_quit] is read from the
    environment. *)
Notation M := (M Z).

(** [opts] is what getopt returns, call by call: the option and its argument. *)
Fixpoint parse_args (opts : list (Z * string)) : M Z :=
  match opts with
  | [] => ret 0
  | (opt, optarg) :: opts' =>
      if opt =? 112 then modify (fun _ => u32 (strtoul16 optarg)) ;; parse_args opts'
      else ret (-1)
  end.

Definition l2_rule : acl_rule :=
  AclRule 10 1 1
    [(IPPROTO_TCP, 255); (rte_be_to_cpu_32 (RTE_IPV4 172 17 166 200), 32); (0, 0); (0, 65535); (0, 65535)].
Definition init_acl : M rte_acl_ctx := create_acl l2_field_defs l2_rule.

(** [portmask & (1 << port_id)] *)
Definition port_enabled (portmask port_id : Z) : bool := negb (Z.land portmask (u32 (Z.shiftl 1 port_id)) =? 0).

Definition start_ports (mp : Z) : M unit :=
  ports <-- eth_ports ;;
  _ <-- for_each (fun port_id =>
    portmask <-- gets id ;;
    when (port_enabled portmask port_id)
      (start_port port_id mp ;; printf "Started port %u\n" [PInt port_id])) ports ;;
  ret tt.

(** The key in host order. *)
Definition host_key (m : mbuf) : list Z :=
  let ip := sizeof_ether_hdr in
  let proto := load8 m (ip + 9) in
  let l4 := ip + Z.land (load8 m ip) 15 * 4 in
  let ports := if (proto =? IPPROTO_TCP) || (proto =? IPPROTO_UDP)
               then (rte_be_to_cpu_16 (load16 m l4), rte_be_to_cpu_16 (load16 m (l4 + 2))) else (0, 0) in
  pkt_key [0; 0; 0] proto (rte_be_to_cpu_32 (load32 m (ip + 12))) (rte_be_to_cpu_32 (load32 m (ip + 16)))
    ports.1 ports.2.

(** One packet; the result of the transmission is ignored. *)
Definition forward_one (acl_ctx : rte_acl_ctx) (port_id : Z) (m : mbuf) : M unit :=
  if negb (load16 m ETH_TYPE =? rte_cpu_to_be_16 RTE_ETHER_TYPE_IPV4) then rte_pktmbuf_free m
  else
    let res := rte_acl_classify acl_ctx (host_key m) in
    if negb (res =? 0) then _ <-- rte_eth_tx_burst port_id 0 [m] ;; ret tt
    else rte_pktmbuf_free m.

Definition poll_port (acl_ctx : rte_acl_ctx) (port_id : Z) : M unit :=
  portmask <-- gets id ;;
  when (port_enabled portmask port_id)
    (bufs <-- rte_eth_rx_burst port_id 0 BURST ;;
     when (negb (zlen bufs =? 0)) (_ <-- for_each (forward_one acl_ctx port_id) bufs ;; ret tt)).

Definition l2_loop_body (acl_ctx : rte_acl_ctx) (_ : unit) : M unit :=
  ports <-- eth_ports ;;
  _ <-- for_each (poll_port acl_ctx) ports ;;
  ret tt.

(** At most [n] iterations; [None]: the loop has not ended. *)
Definition l2fwd_main (opts : list (Z * string)) (n : nat) : M (option Z) :=
  _ <-- call (signal_handler_install "SIGINT") ;;
  _ <-- call (signal_handler_install "SIGTERM") ;;
  r <-- call rte_eal_init ;;
  when (r <? 0) (rte_exit EXIT_FAILURE) ;;
  r <-- parse_args opts ;;
  when (r <? 0) (rte_exit EXIT_FAILURE) ;;
  acl_ctx <-- init_acl ;;
  mp <-- call (rte_pktmbuf_pool_create "mbuf_pool" NB_MBUF 256 0 RTE_MBUF_DEFAULT_BUF_SIZE) ;;
  when (mp =? 0) (rte_exit EXIT_FAILURE) ;;
  start_ports mp ;;
  let* (ended, _) := while_running n (l2_loop_body acl_ctx) tt in
  ret (if ended : bool then Some 0 else None).
End L2fwd.

(** ** Keys and rules *)

(** Four bytes as a number in network order. *)
Abbreviation be4 a b c d := (of_le32 d c b a).

Lemma be4_eq a b c d a' b' c' d' :
  is_u8 a -> is_u8 b -> is_u8 c -> is_u8 d -> is_u8 a' -> is_u8 b' -> is_u8 c' -> is_u8 d' ->
  (be4 a b c d =? be4 a' b' c' d') = bool_decide ([a; b; c; d] = [a'; b'; c'; d']).
Proof.
  intros. destruct (Z.eqb_spec (be4 a b c d) (be4 a' b' c' d')) as [E|E]; symmetry.
  - apply bool_decide_eq_true. apply (f_equal le32) in E. rewrite !of_le32_mod in E by done. by simplify_eq.
  - apply bool_decide_eq_false. intros [= -> -> -> ->]. done.
Qed.

Lemma pkt_key_bytes p1 p2 p3 proto a b c d e f g h i j k l :
  is_u8 a -> is_u8 b -> is_u8 c -> is_u8 d -> is_u8 e -> is_u8 f -> is_u8 g -> is_u8 h ->
  is_u8 i -> is_u8 j -> is_u8 k -> is_u8 l ->
  pkt_key [p1; p2; p3] proto (of_le32 a b c d) (of_le32 e f g h) (of_le16 i j) (of_le16 k l) =
    [proto; p1; p2; p3; a; b; c; d; e; f; g; h; i; j; k; l].
Proof. intros. unfold pkt_key. by rewrite !of_le32_mod, !of_le16_mod by done. Qed.

(** The rules of the programs on such a key. *)
Lemma shiftr_32 v : is_u32 v -> Z.shiftr v 32 = 0.
Proof. intros. rewrite Z.shiftr_div_pow2 by lia. apply Z.div_small. words. Qed.

Lemma bitmask_255 v p : is_u8 v -> is_u8 p -> (Z.land v 255 =? Z.land p 255) = (v =? p).
Proof. intros. change 255 with (Z.ones 8). by rewrite !Z.land_ones, !Z.mod_small by (done || words). Qed.

(** A field of one byte, of an address, of a port; [wild] for the fields that
    match anything. *)
Section Key.
Context (proto p1 p2 p3 a b c d e f g h i j k l : Z).
Context (Hproto : is_u8 proto).
Context (Ha : is_u8 a) (Hb : is_u8 b) (Hc : is_u8 c) (Hd : is_u8 d).
Context (He : is_u8 e) (Hf : is_u8 f) (Hg : is_u8 g) (Hh : is_u8 h).
Context (Hi : is_u8 i) (Hj : is_u8 j) (Hk : is_u8 k) (Hl : is_u8 l).
Notation key := [proto; p1; p2; p3; a; b; c; d; e; f; g; h; i; j; k; l].

Lemma key_values x y u v w :
  field_value (FieldDef BITMASK 1 x u 0) key = proto /\
  field_value (FieldDef MASK 4 x v 4) key = be4 a b c d /\
  field_value (FieldDef MASK 4 y w 8) key = be4 e f g h /\
  field_value (FieldDef RANGE 2 x v 12) key = 256 * i + j /\
  field_value (FieldDef RANGE 2 x v 14) key = 256 * k + l.
Proof.
  unfold field_value, of_le32. cbn [fd_offset fd_size].
  change (Z.to_nat 1) with 1%nat. change (Z.to_nat 4) with 4%nat. change (Z.to_nat 2) with 2%nat.
  cbn [be_value]. unfold get.
  repeat match goal with |- context [Z.to_nat ?x] =>
    let n := eval vm_compute in (Z.to_nat x) in change (Z.to_nat x) with n end.
  simpl nth. lia.
Qed.

(** What a rule of the programs' shape means for the key. *)
Lemma rule_means n prio user pv pm sv sm dv dm slo shi dlo dhi :
  rule_matches (field_defs n) (AclRule prio 1 user [(pv, pm); (sv, sm); (dv, dm); (slo, shi); (dlo, dhi)]) key =
    (Z.land proto pm =? Z.land pv pm) &&
    ((Z.shiftr (be4 a b c d) (32 - sm) =? Z.shiftr sv (32 - sm)) &&
     ((Z.shiftr (be4 e f g h) (32 - dm) =? Z.shiftr dv (32 - dm)) &&
      (((slo <=? 256 * i + j) && (256 * i + j <=? shi)) &&
       (((dlo <=? 256 * k + l) && (256 * k + l <=? dhi)) && true)))).
Proof.
  unfold rule_matches, field_defs. cbn [category_mask fields fields_match field_matches fd_type fd_size fst snd].
  change (Z.testbit 1 0) with true.
  destruct (key_values 0 2 0 0 2) as (-> & _ & -> & _). destruct (key_values 1 0 0 1 0) as (_ & -> & _).
  destruct (key_values 3 0 0 3 0) as (_ & _ & _ & -> & _). by destruct (key_values 4 0 0 n 0) as (_ & _ & _ & _ & ->).
Qed.
End Key.

(** ** What the filters select, on the wire *)

(** Where the IPv4 header of a packet is, if it has one. *)
Definition ip_offset (m : mbuf) : option Z :=
  if bool_decide (load_bytes m 12 2 = [8; 0]) then Some 14
  else if bool_decide (load_bytes m 12 2 = [129; 0]) && bool_decide (load_bytes m 16 2 = [8; 0]) then Some 18
  else None.

Definition exp_wanted (m : mbuf) (ip : Z) : bool :=
  (load8 m (ip + 9) =? IPPROTO_TCP) && bool_decide (load_bytes m (ip + 12) 4 = [172; 17; 166; 200]).
Definition real_wanted (m : mbuf) (ip : Z) : bool :=
  (load8 m (ip + 9) =? IPPROTO_UDP) && bool_decide (load_bytes m (ip + 16) 4 = [239; 255; 255; 250]) &&
  bool_decide (load_bytes m (ip + Z.land (load8 m ip) 15 * 4 + 2) 2 = [7; 108]).

Section Verdicts.
Context {BO : Byteorder} {AC : RteAcl} {E : Env} {S : Type}.

Lemma ether_payload_offset m :
  bytes_ok m ->
  ip_offset m = (let (ty, ip) := ether_payload m in
                 if ty =? rte_cpu_to_be_16 RTE_ETHER_TYPE_IPV4 then Some ip else None).
Proof.
  intros Hm. unfold ip_offset, ether_payload, ETH_TYPE.
  rewrite !cpu_to_be_16_law by (by split).
  change (bswap16 RTE_ETHER_TYPE_VLAN) with (of_le16 129 0). change (bswap16 RTE_ETHER_TYPE_IPV4) with (of_le16 8 0).
  rewrite (load16_is m 12 129 0) by (done || words).
  destruct (bool_decide_reflect (load_bytes m 12 2 = [129; 0])) as [E1|E1]; cbv beta iota;
    change (sizeof_ether_hdr + sizeof_vlan_hdr - 2) with 16; rewrite load16_is by (done || words).
  - rewrite E1. simpl. by destruct (bool_decide _).
  - by destruct (bool_decide _).
Qed.

(** The key of an IPv4 packet, byte by byte. *)
Lemma net_key_bytes m ip :
  bytes_ok m ->
  exists i j k l, is_u8 i /\ is_u8 j /\ is_u8 k /\ is_u8 l /\
    (load8 m (ip + 9) = IPPROTO_UDP -> load_bytes m (ip + Z.land (load8 m ip) 15 * 4 + 2) 2 = [k; l]) /\
    net_key m ip =
      [load8 m (ip + 9); 0; 0; 0] ++ load_bytes m (ip + 12) 4 ++ load_bytes m (ip + 16) 4 ++ [i; j; k; l].
Proof.
  intros Hm. unfold net_key, l4_ports. set (l4 := ip + Z.land (load8 m ip) 15 * 4).
  set (proto := load8 m (ip + 9)). 
  assert (exists i j k l, is_u8 i /\ is_u8 j /\ is_u8 k /\ is_u8 l /\
    (proto = IPPROTO_UDP -> load_bytes m (l4 + 2) 2 = [k; l]) /\
    (if proto =? IPPROTO_TCP then (load16 m l4, load16 m (l4 + 2))
     else if proto =? IPPROTO_UDP then (load16 m l4, load16 m (l4 + 2)) else (0, 0)) =
    (of_le16 i j, of_le16 k l)) as (i & j & k & l & Hi & Hj & Hk & Hl & Hp & ->).
  { rewrite load_bytes2. destruct (proto =? IPPROTO_TCP); [|destruct (Z.eqb_spec proto IPPROTO_UDP)].
    - do 4 eexists. split_and!; [..|done]; auto with words.
    - do 4 eexists. split_and!; [..|done]; auto with words.
    - exists 0, 0, 0, 0. split_and!; done || words. }
  exists i, j, k, l. do 5 (split; [done|]). rewrite !load_bytes4. unfold load32. cbn [fst snd].
  by rewrite pkt_key_bytes by auto with words.
Qed.

Lemma in_u16_range i j : is_u8 i -> is_u8 j -> (0 <=? 256 * i + j) && (256 * i + j <=? 65535) = true.
Proof. intros. words. Qed.

Lemma exp_rule_means m ip :
  bytes_ok m -> rule_matches (field_defs 3) exp_rule (net_key m ip) = exp_wanted m ip.
Proof.
  intros Hm. destruct (net_key_bytes m ip Hm) as (i & j & k & l & Hi & Hj & Hk & Hl & _ & ->).
  unfold exp_rule, exp_wanted. rewrite !load_bytes4, RTE_IPV4_law by (by split). simpl app.
  rewrite rule_means by auto with words.
  rewrite bitmask_255 by (auto with words; by split). rewrite !Z.sub_diag, !Z.shiftr_0_r, be4_eq by (auto with words; by split).
  rewrite !Z.sub_0_r, !shiftr_32 by auto with words. rewrite !in_u16_range by done.
  by rewrite !andb_true_r.
Qed.
Lemma real_rule_means m ip :
  bytes_ok m -> rule_matches (field_defs 4) real_rule (net_key m ip) = real_wanted m ip.
Proof.
  intros Hm. destruct (net_key_bytes m ip Hm) as (i & j & k & l & Hi & Hj & Hk & Hl & Hp & ->).
  unfold real_rule, real_wanted. rewrite !load_bytes4, RTE_IPV4_law by (by split). simpl app.
  rewrite rule_means by auto with words.
  rewrite bitmask_255 by (auto with words; by split). rewrite !Z.sub_diag, !Z.shiftr_0_r, be4_eq by (auto with words; by split).
  rewrite !Z.sub_0_r, !shiftr_32 by auto with words. rewrite in_u16_range by done.
  destruct (Z.eqb_spec (load8 m (ip + 9)) IPPROTO_UDP) as [Eu|]; [|done]. rewrite Hp by done.
  rewrite andb_true_r, andb_true_l, <- andb_assoc. f_equal. f_equal. simpl andb.
  destruct (bool_decide_reflect ([k; l] = [7; 108])) as [[= -> ->]|Hne]; [done|].
  destruct (Z.leb_spec 1900 (256 * k + l)), (Z.leb_spec (256 * k + l) 1900); try done.
  destruct Hne. assert (k = 7 /\ l = 108) as [-> ->] by words. done.
Qed.

Lemma host_args a b c d :
  is_u8 a -> is_u8 b -> is_u8 c -> is_u8 d -> ip_args (be4 a b c d) = map PInt [a; b; c; d].
Proof.
  intros Ha Hb Hc Hd. unfold ip_args, of_le32. change 255 with (Z.ones 8).
  rewrite !Z.land_ones, !Z.shiftr_div_pow2 by lia.
  change (2 ^ 8) with 256. change (2 ^ 16) with (256 * 256). change (2 ^ 24) with (256 * 256 * 256).
  replace (d + 256 * c + 65536 * b + 16777216 * a) with (d + 256 * (c + 256 * (b + 256 * a))) by lia.
  rewrite <- !Z.div_div by lia.
  destruct (byte_at d (c + 256 * (b + 256 * a)) Hd) as [-> ->].
  destruct (byte_at c (b + 256 * a) Hc) as [-> ->].
  destruct (byte_at b a Hb) as [-> ->]. by rewrite (Z.mod_small a 256) by words.
Qed.
Lemma host_args_at m o :
  bytes_ok m -> ip_args (rte_be_to_cpu_32 (load32 m o)) = map PInt (load_bytes m o 4).
Proof.
  intros Hm. rewrite be_to_cpu_32_law by auto with words. unfold load32.
  rewrite bswap32_bytes, host_args, load_bytes4 by auto with words. done.
Qed.

(** What the filter does with a packet, for the selection [wanted]. *)
Definition filtered (wanted : mbuf -> Z -> bool) (m : mbuf) (t : trace) : trace :=
  match ip_offset m with
  | Some ip =>
      EvFree m :: EvPrintf (if wanted m ip then "ACL MATCH\n" else "ACL NO MATCH\n") [] ::
      EvPrintf "RX proto=%u src=%u.%u.%u.%u dst=%u.%u.%u.%u\n"
        (map PInt (load8 m (ip + 9) :: load_bytes m (ip + 12) 4 ++ load_bytes m (ip + 16) 4)) :: t
  | None => EvFree m :: t
  end.

Lemma classify_one_run ctx ds rule wanted m s t :
  bytes_ok m -> acl_built ctx = Some (ds, [rule]) -> userdata rule = 1 ->
  (forall ip, rule_matches ds rule (net_key m ip) = wanted m ip) ->
  classify_one (S:=S) ctx m s t = Done tt s (filtered wanted m t).
Proof.
  intros Hm Hc Hu Hw. unfold classify_one, filtered. rewrite ether_payload_offset by done.
  destruct (ether_payload m) as [ty ip]. destruct (ty =? _); [|done]. simpl negb. cbv iota zeta.
  rewrite (verdict_one _ _ _ _ (acl_classify_law ctx _ _ (net_key m ip) Hc)), Hw, Hu.
  rewrite !host_args_at by done. rewrite <- map_app. by destruct (wanted m ip).
Qed.

(** C19: The filters of exp and real_packet_acl decide as announced: of the IPv4 packets, with
    or without a VLAN tag, exp matches exactly the TCP packets from
    172.17.166.200 and real_packet_acl exactly the UDP packets to port 1900 of
    239.255.255.250, read off the bytes on the wire; every packet is freed, and
    the others are not reported. *)
Theorem acl_filter_correct ctx m s t :
  bytes_ok m ->
  (acl_built ctx = Some (field_defs 3, [exp_rule]) ->
     classify_one (S:=S) ctx m s t = Done tt s (filtered exp_wanted m t)) /\
  (acl_built ctx = Some (field_defs 4, [real_rule]) ->
     classify_one (S:=S) ctx m s t = Done tt s (filtered real_wanted m t)).
Proof.
  intros Hm. split; intros Hc; (eapply classify_one_run; [done|done|done|]); intros ip.
  - by apply exp_rule_means.
  - by apply real_rule_means.
Qed.

(** ** The programs *)

(** Events of the setup that concern neither packets nor the start of a port. *)
Definition setup_event (e : event) : Prop :=
  match e with
  | EvApi a _ => match a with rte_eth_dev_start _ => False | _ => True end
  | EvPrintf _ _ => True
  | _ => False
  end.
Lemma setup_acct ls t : Forall setup_event ls -> same_acct t (ls ++ t).
Proof.
  induction 1 as [|e ls He _ IH]; [done|]. eapply same_acct_trans; [exact IH|]. by destruct e.
Qed.

Lemma create_acl_spec ds rule (Q : rte_acl_ctx -> S -> trace -> Prop) s t :
  (forall ctx ls, acl_built ctx = Some (ds, [rule]) -> Forall setup_event ls -> Q ctx s (ls ++ t)) ->
  wp (create_acl ds rule) Q (fun c _ t' => c = EXIT_FAILURE /\ same_acct t t') s t.
Proof.
  intros H. unfold create_acl. wp_steps; try done.
  apply (H _ [_; _]); [|by repeat constructor]. apply negb_false_iff, Z.eqb_eq in H2.
  destruct (acl_build_law (rte_acl_add_rules (rte_acl_empty MAX_RULES) [rule]).2 ds) as [_ L].
  rewrite (L H2). do 2 f_equal. destruct (acl_add_law (rte_acl_empty MAX_RULES) [rule]) as [L2 _].
  rewrite L2, H1. by destruct (acl_empty_law MAX_RULES) as [-> _].
Qed.

Lemma filtered_acct wanted m t : same_acct (EvFree m :: t) (filtered wanted m t).
Proof. unfold filtered. by destruct (ip_offset m). Qed.

(** Any filter of this kind never faults, exits only with status 1 before
    traffic, and frees every received packet once. *)
Lemma filter_main_safe check ds rule wanted n (s : S) :
  userdata rule = 1 ->
  (forall m ip, bytes_ok m -> rule_matches ds rule (net_key m ip) = wanted m ip) ->
  wp (filter_main check ds rule n) (fun _ s' t => s' = s /\ owned [] t)
    (fun c _ t => c = EXIT_FAILURE /\ rx_ids t = []) s [].
Proof.
  intros Hu Hw. unfold filter_main, start_port. wp_steps; try done.
  eapply wp_mono; [apply (create_acl_spec _ _ (fun ctx s' t' => s' = s /\
    acl_built ctx = Some (ds, [rule]) /\ owned [] t' /\ refused_ids t' = []))| |].
  { intros ctx ls Hc Hls. match goal with |- context [ls ++ ?t0] => pose proof (setup_acct ls t0 Hls) as A1 end.
    split; [done|]. split; [done|]. split; [|by destruct A1 as (_ & _ & _ & ->)].
    eapply owned_acct; [exact A1|]. by constructor. }
  2:{ intros c s' t' [-> (A & _)]. by split. }
  intros ctx s1 t1 (-> & Hc & O1 & R1).
  eapply wp_mono; [apply (wp_forever (fun _ s' t' => (s' = s /\ refused_ids t' = []) /\ owned ([] ++ refused_ids t') t')
    _ (fun _ _ _ => False))| |done].
  - intros u s2 t2 [[-> R2] O2]. apply (wp_rx_each (fun s' t' => s' = s /\ refused_ids t' = [])); auto.
    intros m s3 t3 Hm [-> R3]. unfold wp. erewrite (classify_one_run ctx) by eauto.
    pose proof (filtered_acct wanted m t3) as A3. split; [|by eapply consumed_free].
    split; [done|]. destruct A3 as (_ & _ & _ & ->). done.
  - split; [done|]. by rewrite R1.
  - intros u s2 t2 [[-> R2] O2]. split; [done|]. by rewrite R2 in O2.
Qed.

Lemma exp_main_safe n (s : S) :
  wp (exp_main n) (fun _ s' t => s' = s /\ owned [] t) (fun c _ t => c = EXIT_FAILURE /\ rx_ids t = []) s [].
Proof. eapply filter_main_safe; [done|]. intros m ip Hm. by apply exp_rule_means. Qed.
Lemma real_main_safe n (s : S) :
  wp (real_main n) (fun _ s' t => s' = s /\ owned [] t) (fun c _ t => c = EXIT_FAILURE /\ rx_ids t = []) s [].
Proof. eapply filter_main_safe; [done|]. intros m ip Hm. by apply real_rule_means. Qed.
End Verdicts.

(** ** l2fwd_acl *)

Section L2fwdProps.
Context {BO : Byteorder} {AC : RteAcl} {E : Env}.

Lemma host_key_bytes m :
  bytes_ok m ->
  exists i j k l, is_u8 i /\ is_u8 j /\ is_u8 k /\ is_u8 l /\
    host_key m = [load8 m 23; 0; 0; 0] ++ rev (load_bytes m 26 4) ++ rev (load_bytes m 30 4) ++ [i; j; k; l].
Proof.
  intros Hm. unfold host_key. change (sizeof_ether_hdr + 9) with 23.
  change (sizeof_ether_hdr + 12) with 26. change (sizeof_ether_hdr + 16) with 30.
  set (l4 := sizeof_ether_hdr + _ * 4).
  assert (exists i j k l, is_u8 i /\ is_u8 j /\ is_u8 k /\ is_u8 l /\
    (if (load8 m 23 =? IPPROTO_TCP) || (load8 m 23 =? IPPROTO_UDP)
     then (rte_be_to_cpu_16 (load16 m l4), rte_be_to_cpu_16 (load16 m (l4 + 2))) else (0, 0)) =
    (of_le16 i j, of_le16 k l)) as (i & j & k & l & Hi & Hj & Hk & Hl & ->).
  { destruct (_ || _).
    - rewrite !be_to_cpu_16_law by auto with words. unfold load16.
      rewrite !bswap16_bytes by auto with words. do 4 eexists. split_and!; [..|done]; auto with words.
    - exists 0, 0, 0, 0. split_and!; done || words. }
  exists i, j, k, l. do 4 (split; [done|]). rewrite !load_bytes4, !be_to_cpu_32_law by auto with words.
  unfold load32. rewrite !bswap32_bytes by auto with words. cbn [fst snd rev app].
  by rewrite pkt_key_bytes by auto with words.
Qed.

Definition l2_wanted (m : mbuf) : bool := bool_decide (load_bytes m 12 2 = [8; 0]) && exp_wanted m 14.

Lemma l2_rule_means m : bytes_ok m -> rule_matches (field_defs 3) l2_rule (host_key m) = exp_wanted m 14.
Proof.
  intros Hm. destruct (host_key_bytes m Hm) as (i & j & k & l & Hi & Hj & Hk & Hl & ->).
  unfold l2_rule, exp_wanted. change (14 + 9) with 23. change (14 + 12) with 26.
  rewrite !load_bytes4, RTE_IPV4_law by (by split).
  rewrite be_to_cpu_32_law by (apply of_le32_range; by split). rewrite bswap32_bytes by (by split).
  cbn [rev app]. rewrite rule_means by auto with words.
  rewrite bitmask_255 by (auto with words; by split). rewrite !Z.sub_diag, !Z.shiftr_0_r.
  rewrite be4_eq by (auto with words; by split).
  rewrite !Z.sub_0_r, !shiftr_32 by auto with words. rewrite !in_u16_range by done. rewrite !andb_true_r. f_equal.
  destruct (bool_decide_reflect ([load8 m 26; load8 m (26 + 1); load8 m (26 + 2); load8 m (26 + 3)] = [172; 17; 166; 200]))
    as [[= -> -> -> ->]|H]; [done|].
  apply bool_decide_eq_false. intros [= H1 H2 H3 H4]. by rewrite H1, H2, H3, H4 in H.
Qed.

Lemma forward_one_run ctx port m s t :
  bytes_ok m -> acl_built ctx = Some (field_defs 3, [l2_rule]) ->
  forward_one ctx port m s t =
    Done tt s (if l2_wanted m then EvTx port 0 [m] (env_tx t port 0 [m]) :: t else EvFree m :: t).
Proof.
  intros Hm Hc. unfold forward_one, l2_wanted, ETH_TYPE.
  rewrite cpu_to_be_16_law by (by split). change (bswap16 RTE_ETHER_TYPE_IPV4) with (of_le16 8 0).
  rewrite load16_is by (done || words). destruct (bool_decide _); [|done]. simpl negb. cbv iota zeta.
  rewrite (verdict_one _ _ _ _ (acl_classify_law ctx _ _ (host_key m) Hc)), l2_rule_means by done.
  by destruct (exp_wanted m 14).
Qed.

(** l2fwd_acl with both the key and the rule in the other byte order decides the same:
    exactly the untagged IPv4 packets with protocol TCP from 172.17.166.200 go
    back to the port they came from, unchanged; all others are freed. *)
Theorem l2fwd_forwards ctx port m s t :
  bytes_ok m -> acl_built ctx = Some (field_defs 3, [l2_rule]) ->
  forward_one ctx port m s t =
    Done tt s (if l2_wanted m then EvTx port 0 [m] (env_tx t port 0 [m]) :: t else EvFree m :: t).
Proof. apply forward_one_run. Qed.

(** ** The program: which ports it touches, and what it loses *)

(** The mask that the options leave. *)
Fixpoint mask_of (opts : list (Z * string)) (mask : Z) : Z :=
  match opts with
  | (112, arg) :: opts' => mask_of opts' (u32 (strtoul16 arg))
  | _ => mask
  end.

Lemma parse_args_spec opts (Q : Z -> Z -> trace -> Prop) X s t :
  (forall r, Q r (mask_of opts s) t) -> wp (parse_args opts) Q X s t.
Proof.
  revert s. induction opts as [|[opt arg] opts IH]; intros s H; simpl.
  - apply wp_ret, H.
  - destruct (Z.eqb_spec opt 112) as [->|Hne].
    + wp_steps. by apply IH.
    + apply wp_ret. specialize (H (-1)). simpl in H.
      destruct opt as [|p|p]; try done. repeat (destruct p as [p|p|]; try done).
Qed.

Definition on_enabled (mask : Z) (e : event) : Prop :=
  match e with
  | EvRx p _ _ _ | EvTx p _ _ _ => port_enabled mask p = true
  | EvApi (rte_eth_dev_start p) _ => port_enabled mask p = true
  | _ => True
  end.

(** The loop keeps this about the trace, the mask being the state. *)
Definition l2_ok (mask s : Z) (t : trace) : Prop :=
  s = mask /\ Forall (on_enabled mask) t /\ owned (refused_ids t) t.

Lemma l2_ok_cons mask s e t :
  on_enabled mask e -> same_acct t (e :: t) -> l2_ok mask s t -> l2_ok mask s (e :: t).
Proof.
  intros He A (-> & H & O). split; [done|]. split; [by constructor|].
  pose proof A as (_ & _ & _ & ->). by eapply owned_acct.
Qed.

Lemma poll_port_spec ctx port mask s t :
  acl_built ctx = Some (field_defs 3, [l2_rule]) -> l2_ok mask s t ->
  wp (poll_port ctx port) (fun _ s' t' => l2_ok mask s' t') (fun _ _ _ => False) s t.
Proof.
  intros Hc (-> & H & O). unfold poll_port. wp_step. apply wp_gets. apply wp_when; intros Hp; [|done].
  wp_step. apply wp_rx. intros bufs _ Hbs. apply (owned_rx _ port 0 BURST bufs) in O.
  apply wp_when; intros Hl.
  - wp_step. eapply wp_mono; [apply (wp_for_each_consumed (fun s t => s = mask /\ Forall (on_enabled mask) t)
      bytes_ok (forward_one ctx port) bufs [] (fun _ _ _ => False))| |done]; auto.
    + intros m s1 t1 Hm [-> H1]. unfold wp. rewrite (forward_one_run ctx) by done.
      destruct (l2_wanted m); (split; [split; [done|by constructor]|]).
      * by eapply (consumed_tx m port 0).
      * by eapply (consumed_free m).
    + intros rs s1 t1 [[-> H1] O1]. by wp_steps.
  - assert (bufs = []) as -> by (by destruct bufs). split; [done|]. split; [by constructor|done].
Qed.

Lemma start_ports_spec mp mask s t :
  l2_ok mask s t -> rx_ids t = [] ->
  wp (start_ports mp) (fun _ s' t' => l2_ok mask s' t') (fun c _ t' => c = EXIT_FAILURE /\ rx_ids t' = []) s t.
Proof.
  intros H R. unfold start_ports. wp_step. unfold wp at 1, eth_ports. wp_step.
  eapply wp_mono; [apply (wp_for_each (fun _ _ s t => l2_ok mask s t /\ rx_ids t = []) _
    (fun c _ t' => c = EXIT_FAILURE /\ rx_ids t' = []))| |done].
  - intros pre p post rs s1 t1 _ [H1 R1].
    unfold start_port. wp_steps; try done. split; [|done].
    destruct H1 as (-> & F1 & O1). split; [done|]. split; [by repeat constructor|].
    eapply owned_acct; [|exact O1]. done.
  - split; [|done]. by apply l2_ok_cons.
  - intros rs s1 t1 [H1 _]. by wp_steps.
Qed.

(** The program never faults and exits only before traffic; it starts, polls and
    uses only the ports that the -p option enables; of the received buffers it
    keeps exactly those that a transmission refused, which are lost. *)
Lemma l2fwd_main_ports opts n mask0 :
  let mask := mask_of opts mask0 in
  wp (l2fwd_main opts n) (fun _ s t => l2_ok mask s t) (fun c _ t => c = EXIT_FAILURE /\ rx_ids t = []) mask0 [].
Proof.
  intros mask. unfold l2fwd_main. wp_steps; try done. apply parse_args_spec. intros ra. wp_steps; try done.
  assert (forall ls, Forall setup_event ls -> l2_ok mask mask (ls ++ []) /\ rx_ids (ls ++ []) = []) as Hquiet.
  { intros ls Hls. pose proof (setup_acct ls [] Hls) as (A1 & A2 & A3 & A4).
    split; [|by rewrite A1]. split; [done|].
    split; [|rewrite A4; unfold owned; by rewrite A1, A2].
    rewrite app_nil_r. eapply Forall_impl; [exact Hls|]. intros e. destruct e as [[]| | | | | | | | | | | | | | |]; done. }
  eapply wp_mono; [apply (create_acl_spec _ _ (fun ctx s' t' => s' = mask /\ acl_built ctx = Some (field_defs 3, [l2_rule]) /\
    exists ls, t' = ls ++ [] /\ Forall setup_event ls))| |].
  { intros ctx ls Hc Hls. split; [done|]. split; [done|].
    exists (ls ++ [EvApi rte_eal_init r1; EvApi (signal_handler_install "SIGTERM") r0;
      EvApi (signal_handler_install "SIGINT") r]). split; [by rewrite app_nil_r|].
    apply Forall_app. split; [done|by repeat constructor]. }
  2:{ by intros c s' t' [-> (-> & _)]. }
  intros ctx s1 t1 (-> & Hc & ls & -> & Hls). wp_steps.
  all: try (destruct (Hquiet (EvApi (rte_pktmbuf_pool_create "mbuf_pool" NB_MBUF 256 0 RTE_MBUF_DEFAULT_BUF_SIZE) r2 :: ls)
    ltac:(by constructor)) as [L R]).
  { split; [done|exact R]. }
  eapply wp_mono; [by apply start_ports_spec| |done]. intros u s3 t3 H3. wp_step.
  eapply wp_mono; [apply (wp_while (fun _ s t => l2_ok mask s t) _ (fun _ _ _ => False))| |done].
  - intros u2 s4 t4 H4. unfold l2_loop_body. wp_step. unfold wp at 1, eth_ports. wp_step.
    eapply wp_mono; [apply (wp_for_each (fun _ _ s t => l2_ok mask s t) _ (fun _ _ _ => False))| |done].
    + intros pre p post rs s5 t5 _ H5. by apply poll_port_spec.
    + by apply l2_ok_cons.
    + intros rs s5 t5 H5. by wp_steps.
  - intros b u2 s4 t4 H4. by apply l2_ok_cons.
  - done.
  - intros [ended u2] s4 t4 H4. by wp_steps.
Qed.
End L2fwdProps.

(** ** The tables of several rules *)

Section Tables.
Context {BO : Byteorder} {AC : RteAcl} {E : Env} {S : Type}.

Definition muti_rules : list acl_rule :=
  [AclRule 100 1 1 [(IPPROTO_UDP, 255); (0, 0); (0, 0); (0, 65535); (53, 53)];
   AclRule 90 1 2 [(IPPROTO_TCP, 255); (0, 0); (0, 0); (0, 65535); (80, 80)];
   AclRule 1 1 0 [(0, 255); (0, 0); (0, 0); (0, 65535); (0, 65535)]].

(** The protocol and the destination port of an IPv4 packet without options. *)
Definition key_proto (key : list Z) : Z := get key 9.
Definition key_dport (key : list Z) : Z := 256 * get key 22 + get key 23.

Lemma muti_field key i j :
  field_value (FieldDef BITMASK 1 i j 9) key = get key 9 /\
  field_value (FieldDef MASK 4 i j 12) key = be4 (get key 12) (get key 13) (get key 14) (get key 15) /\
  field_value (FieldDef MASK 4 i j 16) key = be4 (get key 16) (get key 17) (get key 18) (get key 19) /\
  field_value (FieldDef RANGE 2 i j 20) key = 256 * get key 20 + get key 21 /\
  field_value (FieldDef RANGE 2 i j 22) key = 256 * get key 22 + get key 23.
Proof.
  unfold field_value, of_le32. cbn [fd_offset fd_size].
  change (Z.to_nat 1) with 1%nat. change (Z.to_nat 4) with 4%nat. change (Z.to_nat 2) with 2%nat.
  cbn [be_value].
  repeat match goal with |- context [?n + Z.of_nat ?k] =>
    let v := eval vm_compute in (n + Z.of_nat k) in change (n + Z.of_nat k) with v end.
  lia.
Qed.

(** A rule that looks at the protocol and at a range of destination ports. *)
Lemma muti_rule_means key prio user p lo hi :
  Forall is_u8 key -> is_u8 p ->
  rule_matches muti_field_defs (AclRule prio 1 user [(p, 255); (0, 0); (0, 0); (0, 65535); (lo, hi)]) key =
    (key_proto key =? p) && ((lo <=? key_dport key) && (key_dport key <=? hi)).
Proof.
  intros Hk Hp. assert (forall i, is_u8 (get key i)) as B by (intros i; by apply get_byte).
  unfold rule_matches, muti_field_defs. cbn [category_mask fields fields_match field_matches fd_type fd_size fst snd].
  change (Z.testbit 1 0) with true.
  destruct (muti_field key 0 0) as (-> & _). destruct (muti_field key 1 1) as (_ & -> & _).
  destruct (muti_field key 2 2) as (_ & _ & -> & _). destruct (muti_field key 3 3) as (_ & _ & _ & -> & _).
  destruct (muti_field key 4 4) as (_ & _ & _ & _ & ->).
  rewrite bitmask_255 by auto. rewrite !Z.sub_0_r, !shiftr_32 by (auto with words; by split).
  rewrite in_u16_range by auto.
  by rewrite andb_true_r.
Qed.

(** The context that the two calls leave when both succeed. *)
Lemma built_context k rs ds :
  let a := rte_acl_add_rules (rte_acl_empty k) rs in
  (a.1 <? 0) = false -> (rte_acl_build a.2 ds).1 = 0 -> acl_built (rte_acl_build a.2 ds).2 = Some (ds, rs).
Proof.
  intros a Ha Hb. subst a. destruct (acl_build_law (rte_acl_add_rules (rte_acl_empty k) rs).2 ds) as [_ L].
  rewrite (L Hb). do 2 f_equal. destruct (acl_add_law (rte_acl_empty k) rs) as [L2 _].
  rewrite L2, Ha. by destruct (acl_empty_law k) as [-> _].
Qed.

Lemma muti_main_built (s : S) t :
  wp muti_main (fun r _ _ => r.1 = 0 -> acl_built r.2 = Some (muti_field_defs, muti_rules)) (fun _ _ _ => False) s t.
Proof.
  unfold muti_main, add_rule. wp_steps; try done. intros Q. cbn [snd].
  match goal with H : negb _ = false |- _ => apply negb_false_iff, Z.eqb_eq in H; by apply (built_context _ muti_rules) end.
Qed.

(** The decision table of muti_rule: the context the program leaves when it succeeds gives
    1 for UDP to port 53, 2 for TCP to port 80, and 0 for everything else. The
    third rule, announced as the catch-all, takes no part in that: it matches
    only the protocol number 0, and its result is that of no match. *)
Theorem muti_table_correct (s : S) t key :
  Forall is_u8 key ->
  wp muti_main (fun r _ _ => r.1 = 0 ->
      rte_acl_classify r.2 key =
        (if (key_proto key =? IPPROTO_UDP) && (key_dport key =? 53) then 1
         else if (key_proto key =? IPPROTO_TCP) && (key_dport key =? 80) then 2 else 0))
    (fun _ _ _ => False) s t /\
  (forall r, muti_rules !! 2%nat = Some r ->
     rule_matches muti_field_defs r key = (key_proto key =? 0)).
Proof.
  intros Hk. assert (is_u16 (key_dport key)) as Hd.
  { pose proof (get_byte key 22 Hk). pose proof (get_byte key 23 Hk). unfold key_dport. words. }
  split.
  - eapply wp_mono; [apply muti_main_built| |done]. intros r s' t' H E0. specialize (H E0).
    apply (acl_classify_law _ _ _ key) in H. apply verdict_decreasing in H; [|by repeat constructor].
    rewrite H. unfold muti_rules. cbn [first_match userdata]. rewrite !muti_rule_means by (done || by split).
    assert (forall n, (n <=? key_dport key) && (key_dport key <=? n) = (key_dport key =? n)) as En by (intros; words).
    rewrite !En.
    repeat match goal with |- context [if ?b then _ else _] => destruct b end; done.
  - intros r [= <-]. rewrite muti_rule_means by (done || by split).
    replace ((0 <=? key_dport key) && (key_dport key <=? 65535)) with true by words. apply andb_true_r.
Qed.

(** ** dual_rule_implementation *)

Lemma dual_first_match p1 p2 p3 proto a b c d e f g h i j k l :
  is_u8 proto -> is_u8 a -> is_u8 b -> is_u8 c -> is_u8 d -> is_u8 e -> is_u8 f -> is_u8 g -> is_u8 h ->
  is_u8 i -> is_u8 j -> is_u8 k -> is_u8 l ->
  let key := [proto; p1; p2; p3; a; b; c; d; e; f; g; h; i; j; k; l] in
  first_match (field_defs 4) dual_rules key =
    if (proto =? IPPROTO_TCP) && bool_decide ([a; b; c; d] = [140; 82; 112; 21]) &&
       bool_decide ([e; f; g; h] = [172; 17; 166; 200]) && (256 * i + j =? 443) && (256 * k + l =? 42960)
    then ACTION_ALLOW else 0.
Proof.
  intros. unfold key, dual_rules. cbn [first_match userdata]. rewrite !RTE_IPV4_law by (by split).
  rewrite !rule_means by auto.
  rewrite bitmask_255 by (auto; by split). rewrite !Z.sub_diag, !Z.shiftr_0_r, !be4_eq by (auto; by split).
  assert (forall n x, (n <=? x) && (x <=? n) = (x =? n)) as En by (intros; words).
  rewrite !En, !andb_true_r, !andb_assoc. repeat match goal with |- context [if ?b then _ else _] => destruct b end; done.
Qed.

(** The context [dual_main] builds. *)
Definition dual_built (ctx : rte_acl_ctx) : Prop := acl_built ctx = Some (field_defs 4, dual_rules).

(** How often a text has been printed. *)
Definition is_line (fmt : string) (e : event) : Prop :=
  match e with EvPrintf f _ => f = fmt | _ => False end.
#[export] Instance is_line_dec fmt e : Decision (is_line fmt e).
Proof. destruct e; try (right; intros []; fail). apply (decide (_ = _)). Defined.
Definition printed (fmt : string) (t : trace) : nat := length (filter (is_line fmt) t).

Definition verdicts (n : nat) (t : trace) : Prop :=
  printed "MATCHED: packet allowed\n" t = n /\ printed "DEFAULT DROP applied\n" t = 0%nat.

Definition dual_key (pad : list Z) : list Z :=
  pkt_key pad IPPROTO_TCP (rte_cpu_to_be_32 (RTE_IPV4 140 82 112 21))
    (rte_cpu_to_be_32 (RTE_IPV4 172 17 166 200)) (rte_cpu_to_be_16 443) (rte_cpu_to_be_16 42960).

Lemma dual_loop_run ctx pad k s t :
  dual_built ctx -> length pad = 3%nat -> verdicts k t ->
  wp (dual_loop (S:=S) ctx (dual_key pad) tt)
    (fun _ _ t' => verdicts (1 + k) t') (fun _ _ _ => False) s t.
Proof.
  unfold dual_key.
  intros Hc Hp [V1 V2]. destruct pad as [|p1 [|p2 [|p3 [|]]]]; try done.
  rewrite !RTE_IPV4_law, !cpu_to_be_32_law, !cpu_to_be_16_law by (done || by split).
  rewrite !bswap32_bytes by (by split).
  change (bswap16 443) with (of_le16 1 187). change (bswap16 42960) with (of_le16 167 208).
  rewrite pkt_key_bytes by (by split).
  set (key := [_; p1; p2; p3; _; _; _; _; _; _; _; _; _; _; _; _]).
  assert (rte_acl_classify ctx key = ACTION_ALLOW) as Hr.
  { apply (acl_classify_law _ _ _ key) in Hc. apply verdict_decreasing in Hc; [|by repeat constructor].
    rewrite Hc. unfold key. by rewrite dual_first_match by (by split). }
  unfold dual_loop. rewrite Hr. change (ACTION_ALLOW =? ACTION_ALLOW) with true.
  wp_steps. unfold verdicts, printed in *. rewrite !filter_cons. simpl. by rewrite V1, V2.
Qed.

Lemma dual_forever n ctx pad k s t :
  dual_built ctx -> length pad = 3%nat -> verdicts k t ->
  wp (forever n (dual_loop (S:=S) ctx (dual_key pad)) tt)
    (fun _ _ t' => verdicts (n + k) t') (fun _ _ _ => False) s t.
Proof.
  intros Hc Hp. revert k s t. induction n as [|n IH]; intros k s t V; simpl; [done|].
  wp_step. eapply wp_mono; [by apply (dual_loop_run _ _ k)| |done].
  intros [] s1 t1 V1. eapply wp_mono; [by apply (IH (1 + k)%nat)| |done].
  intros ? ? ? V2. by rewrite Nat.add_succ_r in V2.
Qed.

(** Whatever the padding of the key holds, each of the [n] iterations allows
    the packet: the padding is part of the bytes classified, and no rule looks
    at it. *)
Lemma dual_main_allows n (s : S) :
  wp (dual_main n) (fun r _ t => r = 0 -> verdicts n t) (fun _ _ _ => False) s [].
Proof.
  unfold dual_main. wp_steps; try done.
  match goal with H : negb (_ =? 0) = false |- _ => apply negb_false_iff, Z.eqb_eq, built_context in H; [|done];
    rename H into Hc end.
  unfold dual_pkt. wp_step. apply wp_indet; [done|]. intros pad _ Hp. wp_steps.
  eapply wp_mono; [apply (dual_forever n _ pad 0); [exact Hc| |done]| |done].
  - unfold zlen in Hp. lia.
  - intros u s1 t1 V. wp_steps. intros _. by rewrite Nat.add_0_r in V.
Qed.
End Tables.

#[local] Existing Instances sim_byteorder sim_acl.
#[local] Instance wenv : Env := sim_env quiet_script.

(** A TCP packet from 172.17.166.200, and an SSDP packet. *)
Definition w_tcp : mbuf := mk_packet 1 [172; 17; 166; 200] [10; 0; 0; 1] IPPROTO_TCP [0; 80] [4; 210].
Definition w_ssdp : mbuf := mk_packet 2 [10; 0; 0; 1] [239; 255; 255; 250] IPPROTO_UDP [4; 210] [7; 108].

(** The context of a program with one rule. *)
Definition w_ctx (ds : list acl_field_def) (r : acl_rule) : rte_acl_ctx :=
  (rte_acl_build (rte_acl_add_rules (rte_acl_empty MAX_RULES) [r]).2 ds).2.

Lemma acl_filter_correct_witness :
  classify_one (S:=unit) (w_ctx (field_defs 3) exp_rule) w_tcp tt [] = Done tt tt (filtered exp_wanted w_tcp []) /\
  classify_one (S:=unit) (w_ctx (field_defs 4) real_rule) w_ssdp tt [] = Done tt tt (filtered real_wanted w_ssdp []).
Proof.
  split.
  - apply (acl_filter_correct (w_ctx (field_defs 3) exp_rule) w_tcp tt []); [by apply Forall_u8_dec|done].
  - apply (acl_filter_correct (w_ctx (field_defs 4) real_rule) w_ssdp tt []); [by apply Forall_u8_dec|done].
Defined.

Lemma l2fwd_forwards_witness :
  forward_one (w_ctx (field_defs 3) l2_rule) 5 w_tcp 0 [] = Done tt 0 [EvTx 5 0 [w_tcp] 1] /\
  forward_one (w_ctx (field_defs 3) l2_rule) 5 w_ssdp 0 [] = Done tt 0 [EvFree w_ssdp].
Proof.
  split.
  - rewrite l2fwd_forwards; [done|by apply Forall_u8_dec|done].
  - rewrite l2fwd_forwards; [done|by apply Forall_u8_dec|done].
Defined.

Lemma muti_table_correct_witness :
  let key := repeat 0 9 ++ [IPPROTO_UDP] ++ repeat 0 12 ++ [0; 53] in
  Forall is_u8 key /\
  wp muti_main (fun r _ _ => r.1 = 0 -> rte_acl_classify r.2 key = 1) (fun _ _ _ => False) tt [].
Proof.
  intros key. assert (Forall is_u8 key) as Hk by (by apply Forall_u8_dec). split; [done|].
  destruct (muti_table_correct tt [] key Hk) as [H _]. exact H.
Defined.
