(* ===== verification/MbufAlloc.v ===== *)
(** * Programs that make their own packets

    tranmit_packet/packet_creation/simple_tx.c builds one UDP packet in a fresh
    mbuf and transmits it forever; mempool_membuff/append_prependops.c runs the
    operations of packet_change on a fresh mbuf; mempool_membuff/simple.c
    writes a string to a fresh mbuf and reads it back. *)

From S2P Require Import Prelude Rte Env Packet Ownership NatIo PacketOps PacketParse Sim.

(** The bytes of a string without its terminating zero, and back. *)
Definition str_bytes (s : string) : list Z :=
  map (fun c => Z.of_N (Ascii.N_of_ascii c)) (String.list_ascii_of_string s).
Fixpoint c_str (bs : list Z) : string :=
  match bs with
  | [] => EmptyString
  | b :: bs' => if b =? 0 then EmptyString else String (Ascii.ascii_of_N (Z.to_N b)) (c_str bs')
  end.

(** [printf("%s", p)] for [p] at offset [o] of the data: up to the first zero,
    in the buffer. *)
Definition read_str (m : mbuf) (o : Z) : string :=
  c_str (load_bytes m o (Z.to_nat (zlen (mb_buf m) - data_off m - o))).

Definition MBUF_COUNT := 1024.

Section MbufAlloc.
Context {BO : Byteorder} {C : Cksum} {PM : Pktmbuf} {E : Env}.
Notation M := (M unit).

(** ** simple_tx.c *)

Definition payload : list Z := str_bytes "Hello from DPDK AF_PACKET!".
Definition dst_mac : list Z := [255; 255; 255; 255; 255; 255].
Definition src_mac : list Z := [0; 21; 93; 14; 102; 3].

(** The stores of the function, in its order; [eth + 1] is at [IP], [ip + 1] at
    [L4], [udp + 1] behind the UDP header. *)
Definition build_udp_packet (m : mbuf) : mbuf :=
  let payload_len := u16 (zlen payload) in
  let pkt_len := u16 (sizeof_ether_hdr + sizeof_ipv4_hdr + sizeof_udp_hdr + payload_len) in
  let m := resize m (data_off m) pkt_len pkt_len in
  let m := store_bytes m ETH_DST dst_mac in
  let m := store_bytes m ETH_SRC src_mac in
  let m := store16 m ETH_TYPE (rte_cpu_to_be_16 RTE_ETHER_TYPE_IPV4) in
  let m := store8 m IP_VERSION_IHL 69 in
  let m := store8 m IP_TOS 0 in
  let m := store16 m IP_TOTAL_LENGTH (rte_cpu_to_be_16 (u16 (sizeof_ipv4_hdr + sizeof_udp_hdr + payload_len))) in
  let m := store16 m IP_PACKET_ID 0 in
  let m := store16 m IP_FRAGMENT_OFFSET 0 in
  let m := store8 m IP_TTL 64 in
  let m := store8 m IP_PROTO IPPROTO_UDP in
  let m := store32 m IP_SRC (rte_cpu_to_be_32 2130706433) in
  let m := store32 m IP_DST (rte_cpu_to_be_32 2130706433) in
  let m := recalc_ip m in
  let m := store16 m L4_SPORT (rte_cpu_to_be_16 1234) in
  let m := store16 m L4_DPORT (rte_cpu_to_be_16 5678) in
  let m := store16 m UDP_LEN (rte_cpu_to_be_16 (u16 (sizeof_udp_hdr + payload_len))) in
  let m := store16 m UDP_CKSUM 0 in
  store_bytes m (L4 + sizeof_udp_hdr) payload.

(** Word for word the function of the NAT monitors. *)
Definition init_port (port_id mp : Z) : M unit := init_port2 port_id mp.

(** One round of the loop of [main]: the packet is the same every time. *)
Definition tx_round (m : mbuf) : M mbuf :=
  sent <-- rte_eth_tx_burst 0 0 [m] ;;
  (if sent =? 0 then printf "Failed to send\n" [] ;; rte_pktmbuf_free m
   else printf "Packet sent!\n" []) ;;
  ret m.

(** The first [n] rounds. *)
Definition simple_tx_main (n : nat) : M mbuf :=
  ret_ <-- call rte_eal_init ;;
  when (ret_ <? 0) (rte_exit EXIT_FAILURE) ;;
  mp <-- call (rte_pktmbuf_pool_create "MBUF_POOL" MBUF_COUNT 0 0 RTE_MBUF_DEFAULT_BUF_SIZE) ;;
  when (mp =? 0) (rte_exit EXIT_FAILURE) ;;
  init_port 0 mp ;;
  om <-- rte_pktmbuf_alloc mp ;;
  m <-- match om with Some m => ret m | None => rte_exit EXIT_FAILURE end ;;
  let m := build_udp_packet m in
  printf "Transmitting packet...\n" [] ;;
  forever n tx_round m.

(** ** append_prependops.c *)

Definition append_main : M unit :=
  r <-- call rte_eal_init ;;
  when (r <? 0) (rte_exit EXIT_FAILURE) ;;
  mp <-- call (rte_pktmbuf_pool_create "POOL" 1024 256 0 RTE_MBUF_DEFAULT_BUF_SIZE) ;;
  when (mp =? 0) (rte_exit EXIT_FAILURE) ;;
  om <-- rte_pktmbuf_alloc mp ;;
  m <-- match om with Some m => ret m | None => rte_exit EXIT_FAILURE end ;;
  printf "Allocated mbuf!\n" [] ;;
  m <-- run_operations
    (Titles "\n=== Initial Mbuf State ===\n" "\n=== After Append(%u bytes) ===\n"
       "\n=== After Prepend(10 bytes) ===\n" "\n=== After Adj(5 bytes removed) ===\n"
       "\n=== After Trim(4 bytes) ===\n") m ;;
  rte_pktmbuf_free m.

(** ** simple.c *)

Definition hello : string := "Hello from DPDK mbuf!".

Definition simple_main : M unit :=
  r <-- call rte_eal_init ;;
  when (r <? 0) (rte_exit EXIT_FAILURE) ;;
  mp <-- call (rte_pktmbuf_pool_create "MY_POOL" 1024 256 0 RTE_MBUF_DEFAULT_BUF_SIZE) ;;
  printf "size of data room i.e buffer size per mbuf: %d\n" [PInt RTE_MBUF_DEFAULT_BUF_SIZE] ;;
  when (mp =? 0) (rte_exit EXIT_FAILURE) ;;
  printf "Mempool created successfully!\n" [] ;;
  om <-- rte_pktmbuf_alloc mp ;;
  m <-- match om with Some m => ret m | None => rte_exit EXIT_FAILURE end ;;
  printf "Mbuf allocated!\n" [] ;;
  let msg := str_bytes hello ++ [0] in
  let len := u16 (zlen msg) in
  let data := data_len m in
  m <-- match rte_pktmbuf_append m len with
        | Some m' => ret (store_bytes m' data msg)
        | None => rte_exit EXIT_FAILURE
        end ;;
  printf "Data written to mbuf: %s\n" [PStr (read_str m data)] ;;
  printf "Data read from mbuf: %s\n" [PStr (read_str m 0)] ;;
  rte_pktmbuf_free m ;;
  printf "Mbuf freed!\n" [].

(** ** What [build_udp_packet] writes *)

(** Consecutive stores are one store. *)
Lemma store_bytes_app a b m o : store_bytes (store_bytes m o a) (o + zlen a) b = store_bytes m o (a ++ b).
Proof.
  revert m o. induction a as [|x a IH]; intros m o; simpl; [by rewrite Z.add_0_r|].
  rewrite <- IH. f_equal. unfold zlen. simpl. lia.
Qed.
Lemma bytes_at_store m o bs n : room m n -> 0 <= o -> o + zlen bs <= n -> bytes_at (store_bytes m o bs) o bs.
Proof.
  intros Hr Ho Hn k Hk. rewrite (load8_store_bytes _ _ _ _ n) by (done || lia).
  destruct (Z.leb_spec o (o + k)), (Z.ltb_spec (o + k) (o + zlen bs)); try lia.
  simpl. f_equal. lia.
Qed.

(** The packet as a frame of the grammar; [ck] is the checksum field. *)
Definition hello_frame (ck : list Z) : frame :=
  Frame dst_mac src_mac None
    (IPv4 4 [0; 0; 54; 0; 0; 0; 0; 64] ck [127; 0; 0; 1] [127; 0; 0; 1] [] (Udp 1234 5678)).
(** What follows the ports: length and checksum of UDP, the payload. *)
Definition hello_rest : list Z := [0; 34; 0; 0] ++ payload.


Definition hello_head : list Z :=
  dst_mac ++ src_mac ++ [8; 0; 69; 0; 0; 54; 0; 0; 0; 0; 64; IPPROTO_UDP].
Definition hello_tail : list Z := [4; 210; 22; 46] ++ hello_rest.

Lemma build_udp_packet_unfold m :
  build_udp_packet m =
    store_bytes (recalc_ip (store_bytes (store_bytes (resize m (data_off m) 68 68) 0 hello_head) IP_SRC
      [127; 0; 0; 1; 127; 0; 0; 1])) L4 hello_tail.
Proof.
  unfold build_udp_packet. rewrite !cpu_to_be_16_law, !cpu_to_be_32_law by done. cbv zeta.
  set (m0 := resize m _ _ _). 
  match goal with |- store_bytes (store16 (store16 (store16 (store16 (recalc_ip ?a) _ _) _ _) _ _) _ _) _ _ = _ =>
    assert (a = store_bytes (store_bytes m0 0 hello_head) IP_SRC [127; 0; 0; 1; 127; 0; 0; 1]) as -> by reflexivity end.
  reflexivity.
Qed.

Lemma bytes_at_ext m m' o bs :
  (forall i, o <= i < o + zlen bs -> load8 m' i = load8 m i) -> bytes_at m o bs -> bytes_at m' o bs.
Proof. intros H Hb k Hk. rewrite H by lia. by apply Hb. Qed.
Lemma bytes_at_store_ne bs' m o bs o' n :
  room m n -> 0 <= o' -> o' + zlen bs' <= n -> 0 <= o -> o + zlen bs <= o' \/ o' + zlen bs' <= o ->
  bytes_at m o bs -> bytes_at (store_bytes m o' bs') o bs.
Proof.
  intros Hr Ho Hn Ho0 Hd. apply bytes_at_ext. intros i Hi.
  apply (load8_store_bytes_ne _ _ _ _ n); [done|done|done|]. unfold outside. lia.
Qed.

Lemma Forall_str_bytes s : Forall is_u8 (str_bytes s).
Proof.
  unfold str_bytes. apply Forall_forall. intros x (c & <- & _)%list_elem_of_In%in_map_iff.
  pose proof (Ascii.N_ascii_bounded c). words.
Qed.

(** Everything but the identity and the place of the buffer's data is decided
    by the function, the checksum of the IPv4 header included. *)
Lemma build_udp_ok m :
  room m 68 -> bytes_ok m ->
  let m' := build_udp_packet m in
  mb_id m' = mb_id m /\ bytes_ok m' /\ data_off m' = data_off m /\ data_len m' = 68 /\ pkt_len m' = 68 /\
  zlen (mb_buf m') = zlen (mb_buf m) /\ ipv4_cksum_ok (at_off m' IP) /\
  exists ck, length ck = 2%nat /\ bytes_at m' 0 (encode (hello_frame ck) ++ hello_rest).
Proof.
  intros Hr Hb. rewrite build_udp_packet_unfold. cbv zeta.
  set (m0 := resize m (data_off m) 68 68). set (m1 := store_bytes m0 0 hello_head).
  set (m2 := store_bytes m1 IP_SRC _).
  assert (room m0 68) as R0 by done. assert (room m1 68) as R1 by (by apply room_store_bytes).
  assert (room m2 68) as R2 by (by apply room_store_bytes).
  assert (bytes_ok m2) as B2 by (by do 2 (apply bytes_ok_store_bytes; [|by apply Forall_u8_dec])).
  assert (bytes_at m2 0 hello_head) as H0.
  { apply (bytes_at_store_ne _ _ _ _ _ 68); [done|done|done|done|by left|]. by apply (bytes_at_store _ _ _ 68). }
  assert (bytes_at m2 26 [127; 0; 0; 1; 127; 0; 0; 1]) as H1 by (by apply (bytes_at_store _ _ _ 68)).
  assert (room m2 HDRS) as R2' by (by eapply room_le).
  pose proof (recalc_ip_frame m2 R2' B2) as F. pose proof (recalc_ip_ok m2 R2' B2) as Hok.
  set (m3 := recalc_ip m2) in *. set (m4 := store_bytes m3 L4 hello_tail).
  assert (load8 m2 14 = 69) as E14 by (apply (H0 14); done).
  assert (room m3 68) as R3 by (by eapply frame_room).
  assert (forall i, 0 <= i < 34 -> load8 m4 i = load8 m3 i) as H4.
  { intros i Hi. apply (load8_store_bytes_ne _ _ _ _ 68); [done|done|done|].
    unfold outside. change L4 with 34. lia. }
  assert (forall i, 0 <= i < 34 -> i <> 24 -> i <> 25 -> load8 m4 i = load8 m2 i) as H3.
  { intros i Hi N1 N2. rewrite H4 by done. apply (frame_load8 _ _ _ _ F); [lia|].
    unfold in_ranges. simpl. change IP_CKSUM with 24. destruct (Z.leb_spec 24 i), (Z.ltb_spec i (24 + 2)); simpl; lia. }
  destruct F as ((F1 & F2 & F3 & F4 & F5) & F6 & _).
  destruct (frame_fields hello_tail m3 L4) as (G1 & G2 & G3 & G4 & G5).
  destruct (frame_fields hello_head m0 0) as (I1 & I2 & I3 & I4 & I5).
  destruct (frame_fields [127; 0; 0; 1; 127; 0; 0; 1] m1 IP_SRC) as (J1 & J2 & J3 & J4 & J5).
  fold m1 in I1, I2, I3, I4, I5. fold m2 in J1, J2, J3, J4, J5. fold m4 in G1, G2, G3, G4, G5.
  split; [by rewrite G4, F1, J4, I4|]. split; [by apply bytes_ok_store_bytes; [|by apply Forall_u8_dec]|].
  split; [by rewrite G1, F2, J1, I1|]. split; [by rewrite G2, F3, J2, I2|]. split; [by rewrite G3, F4, J3, I3|].
  split; [by rewrite G5, F5, J5, I5|]. split.
  - apply (ipv4_cksum_ok_ext (at_off m3 IP)); [| |apply Hok].
    + change (Z.land (load8 m3 14) 15 = 5). by rewrite <- H4, H3, E14 by done.
    + intros i Hi. unfold at_off. apply H4. change IP with 14. lia.
    + change (5 <= Z.land (load8 m2 14) 15). by rewrite E14.
  - exists (load_bytes m4 24 2). split; [done|].
    change (encode (hello_frame (load_bytes m4 24 2)) ++ hello_rest) with
      (hello_head ++ [load8 m4 24; load8 m4 25] ++ [127; 0; 0; 1; 127; 0; 0; 1] ++ hello_tail).
    rewrite !bytes_at_app. split; [|split; [|split]].
    + apply (bytes_at_ext m2); [|done]. change (zlen hello_head) with 24. intros. apply H3; lia.
    + rewrite !bytes_at_cons. split; [done|]. split; [done|].
      intros k Hk. change (zlen []) with 0 in Hk. lia.
    + apply (bytes_at_ext m2); [|done]. change (zlen [_; _; _; _; _; _; _; _]) with 8.
      change (zlen hello_head) with 24. change (zlen [_; _]) with 2. intros. apply H3; lia.
    + by apply (bytes_at_store _ _ _ 68).
Qed.

Lemma wf_hello ck : length ck = 2%nat -> wf_frame (hello_frame ck).
Proof.
  intros Hk. split_and!; try done. split_and!; try done; [|by apply Forall_u8_dec].
  by exists 0%nat; split; [|lia].
Qed.

(** C20: [build_udp_packet] and [parse_packet] are inverse: in an mbuf with 68 bytes of room the
    first writes an Ethernet frame with an IPv4 header whose checksum verifies, UDP ports 1234 and
    5678, UDP length 34, no UDP checksum, and the 26 bytes of the message, sets both lengths of the
    mbuf to 68 and leaves its identity and place alone; and what the parser of
    ports/packet_parsing prints of it is what the function wrote. *)
Theorem build_udp_packet_parses m :
  room m 68 -> bytes_ok m ->
  let m' := build_udp_packet m in
  (mb_id m' = mb_id m /\ data_off m' = data_off m /\ data_len m' = 68 /\ pkt_len m' = 68) /\
  ipv4_cksum_ok (at_off m' IP) /\
  exists ck, bytes_at m' 0 (encode (hello_frame ck) ++ hello_rest) /\
    prints (S:=unit) (parse_packet m') (describe (hello_frame ck)) tt.
Proof.
  intros Hr Hb. destruct (build_udp_ok m Hr Hb) as (H1 & _ & H2 & H3 & H4 & _ & H6 & ck & Hk & H7).
  split; [done|]. split; [done|]. exists ck. split; [done|]. apply bytes_at_app in H7 as [H7 _].
  apply parse_packet_frame; [by apply wf_hello|done].
Qed.

(** ** [main] of simple_tx.c *)

(** The room of a fresh mbuf of a pool made with the default size. *)
Lemma wp_alloc_default mp (Q : option mbuf -> unit -> trace -> Prop) X s t :
  pool_room t mp = RTE_MBUF_DEFAULT_BUF_SIZE ->
  Q None s (EvAlloc mp None :: t) ->
  (forall m, bytes_ok m -> zlen (mb_buf m) = 2176 -> data_off m = 128 -> data_len m = 0 -> pkt_len m = 0 ->
     Q (Some m) s (EvAlloc mp (Some m) :: t)) ->
  wp (rte_pktmbuf_alloc mp) Q X s t.
Proof. intros Hp H0 H. apply wp_alloc; [done|]. rewrite Hp. intros m B L O D P. by apply H. Qed.

Lemma wp_rounds n m s t :
  wp (forever n tx_round m) (fun m' s' t' => m' = m /\ s' = s /\ rx_ids t' = rx_ids t /\
    out_ids t' = repeat (mb_id m) n ++ out_ids t) (fun _ _ _ => False) s t.
Proof.
  revert t. induction n as [|n IH]; intros t; simpl; [done|]. unfold tx_round at 1. wp_steps.
  apply wp_tx. intros k Hk. change (zlen [m]) with 1 in Hk. assert (k = 0 \/ k = 1) as [-> | ->] by lia; simpl.
  all: wp_steps; eapply wp_mono; [apply IH| |done]; intros m' s' t' (-> & -> & R & O); simpl in R, O;
    (split; [done|]); (split; [done|]); rewrite R, O; (split; [done|]).
  all: change (mb_id m :: out_ids t) with ([mb_id m] ++ out_ids t); rewrite app_assoc; f_equal; by rewrite <- repeat_cons.
Qed.

(** simple_tx.c transmits one mbuf for ever, although each call that accepts it, like each
    [rte_pktmbuf_free] after a refusal, gives it away: after [n] rounds the one mbuf it ever
    allocated has been handed back [n] times, so that only [n = 1] keeps the books. *)
Theorem simple_tx_overfrees n :
  wp (simple_tx_main n)
    (fun m _ t => rx_ids t = [mb_id m] /\ out_ids t = repeat (mb_id m) n /\ (owned [] t <-> n = 1%nat))
    (fun c _ t => c = EXIT_FAILURE /\ owned [] t) tt [].
Proof.
  unfold simple_tx_main, init_port, init_port2. wp_steps; try (split; [done|constructor]).
  apply wp_alloc_default; [by simpl; rewrite Z.eqb_refl|wp_steps; split; [done|constructor]|].
  intros m Hb Hl Ho Hd Hp. wp_steps.
  set (t1 := EvPrintf _ _ :: _). assert (rx_ids t1 = [mb_id m] /\ out_ids t1 = []) as [R1 O1] by done.
  destruct (build_udp_ok m) as (I & _); [unfold room; lia|done|]. set (m' := build_udp_packet m) in *.
  eapply wp_mono; [apply (wp_rounds n m' tt t1)| |done]. intros m2 s2 t2 (-> & -> & R2 & O2).
  rewrite R2, O2, R1, O1, app_nil_r, I. split; [done|]. split; [done|]. unfold owned. rewrite R2, R1, O2, O1, app_nil_r, I.
  simpl. split; [|by intros ->]. intros P%Permutation_length. by rewrite repeat_length in P.
Qed.

(** ** Strings written to and read from the buffer *)

Definition no_nul (s : string) : Prop := Forall (fun b => b <> 0) (str_bytes s).

Lemma c_str_bytes s rest : no_nul s -> c_str (str_bytes s ++ 0 :: rest) = s.
Proof.
  unfold no_nul, str_bytes. induction s as [|c s IH]; intros H; [done|]. inversion H as [|? ? Hc Hs]; subst.
  simpl. destruct (Z.eqb_spec (Z.of_N (Ascii.N_of_ascii c)) 0); [done|].
  by rewrite N2Z.id, Ascii.ascii_N_embedding, IH.
Qed.

Lemma load_bytes_app m o n k : load_bytes m o (n + k) = load_bytes m o n ++ load_bytes m (o + Z.of_nat n) k.
Proof.
  unfold load_bytes. rewrite seq_app, map_app. f_equal. rewrite Nat.add_0_l.
  rewrite <- (Nat.add_0_r n) at 1. rewrite <- fmap_add_seq. rewrite map_map. apply map_ext. intros i. f_equal. lia.
Qed.

(** A string without zeros, written with its terminator, is read back. *)
Lemma read_str_store m o s n :
  no_nul s -> room m n -> 0 <= o -> o + zlen (str_bytes s) + 1 <= n ->
  read_str (store_bytes m o (str_bytes s ++ [0])) o = s.
Proof.
  intros Hs Hr Ho Hn. unfold read_str. destruct (frame_fields (str_bytes s ++ [0]) m o) as (-> & _ & _ & _ & ->).
  set (bs := str_bytes s ++ [0]). assert (zlen bs = zlen (str_bytes s) + 1) as Hz by (unfold bs; by rewrite zlen_app).
  replace (Z.to_nat (zlen (mb_buf m) - data_off m - o)) with
    (length bs + (Z.to_nat (zlen (mb_buf m) - data_off m - o) - length bs))%nat
    by (unfold room in Hr; unfold zlen in *; lia).
  rewrite load_bytes_app, (bytes_at_load _ o bs) by (done || apply (bytes_at_store _ _ _ n); (done || lia)).
  unfold bs. rewrite <- app_assoc. by apply c_str_bytes.
Qed.

(** ** append_prependops.c and simple.c *)

(** append_prependops.c hands its one mbuf back with the 11 bytes "HHHHHDPDK-M", and no call of
    it fails once the mbuf is there. *)
Theorem append_main_correct :
  wp append_main
    (fun _ _ t => owned [] t /\ exists m t', t = EvFree m :: t' /\ data_len m = 11 /\ pkt_len m = 11 /\
       bytes_at m 0 [72; 72; 72; 72; 72; 68; 80; 68; 75; 45; 77])
    (fun c _ t => c = EXIT_FAILURE /\ rx_ids t = [] /\ out_ids t = []) tt [].
Proof.
  unfold append_main. wp_steps; try done.
  apply wp_alloc_default; [simpl; by rewrite Z.eqb_refl|by wp_steps|].
  intros m Hb Hl Ho Hd Hp. wp_steps. set (t1 := EvPrintf _ _ :: _).
  assert (roomy m) as Hr by (constructor; lia).
  eapply wp_mono; [by apply operations_run| |done]. intros m' s' t' (-> & -> & A). wp_steps.
  destruct (operated_fields m Hr) as (E1 & E2 & E3 & E4). split.
  - apply owned_free. rewrite E1. eapply owned_acct; [exact A|]. apply (owned_alloc [] r0), owned_nil.
  - eexists _, _. split; [done|]. split; [lia|]. split; [lia|]. intros k Hk. change (zlen _) with 11 in Hk.
    rewrite (operated_byte m (0 + k)), Hd by (done || lia).
    assert (k = 0 \/ k = 1 \/ k = 2 \/ k = 3 \/ k = 4 \/ k = 5 \/ k = 6 \/ k = 7 \/ k = 8 \/ k = 9 \/ k = 10) as K by lia.
    by repeat destruct K as [->|K]; [..|rewrite K].
Qed.

(** simple.c reads back what it wrote: both lines it prints about the data show the whole
    message, and it frees its one mbuf; it exits only when the EAL, the pool or the mbuf is
    missing, never because the message does not fit. *)
Theorem simple_main_reads_back :
  wp simple_main
    (fun _ _ t => owned [] t /\ exists m t',
       t = [EvPrintf "Mbuf freed!\n" []; EvFree m; EvPrintf "Data read from mbuf: %s\n" [PStr hello];
            EvPrintf "Data written to mbuf: %s\n" [PStr hello]] ++ t')
    (fun c _ t => c = EXIT_FAILURE /\ rx_ids t = [] /\ out_ids t = []) tt [].
Proof.
  unfold simple_main. wp_steps; try done.
  apply wp_alloc_default; [simpl; by rewrite Z.eqb_refl|by wp_steps|].
  intros m Hb Hl Ho Hd Hp. wp_steps. rewrite append_law by done.
  change (u16 (zlen (str_bytes hello ++ [0]))) with 22.
  destruct (Z.ltb_spec (zlen (mb_buf m) - data_off m - data_len m) 22) as [|_]; [lia|].
  wp_steps. set (m1 := resize m _ _ _). rewrite Hd.
  assert (read_str (store_bytes m1 0 (str_bytes hello ++ [0])) 0 = hello) as ->.
  { apply (read_str_store _ _ _ 22); [|unfold m1, room in *; simpl; lia|done|done].
    unfold no_nul. by repeat constructor. }
  split; [|by eexists _, _].
  unfold owned. cbn [rx_ids out_ids app]. by rewrite id_store_bytes.
Qed.
End MbufAlloc.

#[local] Existing Instances sim_byteorder sim_cksum sim_pktmbuf.

(** A packet with ten bytes in front and two to spare behind. *)
Definition w_empty : mbuf := Mbuf 7 (repeat 9 80) 10 0 0.

Lemma build_udp_packet_parses_witness :
  load_bytes (build_udp_packet w_empty) 14 20 =
    [69; 0; 0; 54; 0; 0; 0; 0; 64; 17; 124; 181; 127; 0; 0; 1; 127; 0; 0; 1] /\
  let m' := build_udp_packet w_empty in
  (mb_id m' = mb_id w_empty /\ data_off m' = data_off w_empty /\ data_len m' = 68 /\ pkt_len m' = 68) /\
  ipv4_cksum_ok (at_off m' IP) /\
  exists ck, bytes_at m' 0 (encode (hello_frame ck) ++ hello_rest) /\
    prints (S:=unit) (parse_packet m') (describe (hello_frame ck)) tt.
Proof. split; [by vm_compute|]. apply build_udp_packet_parses; [done|by apply Forall_u8_dec]. Defined.
