(* ===== verification/GraphTest.v ===== *)
(** * graph/testing: the same work as a loop and as a packet graph

    main.c allocates 100000 packets, runs three functions on each of them in a
    plain loop, and then once more as a graph of four nodes.  The objects of
    the graph are pointers: here the indices of the array [pkts], behind which
    the packets are changed in place. *)

From S2P Require Import Prelude Rte Env Packet Ownership RteGraph Sim.

Inductive node := START_NODE | PARSE_NODE | CLASSIFY_NODE | FORWARD_NODE.
#[export] Instance node_eq_dec : EqDecision node.
Proof. solve_decision. Defined.

Definition NUM_PKTS := 100000.
Definition BURST := 32.
Definition RTE_MBUF_DEFAULT_BUF_SIZE := 2176.

(** [data[o] ^= v] *)
Definition xor_at (o v : Z) (m : mbuf) : mbuf := store8 m o (u8 (Z.lxor (load8 m o) v)).
Definition parse : mbuf -> mbuf := xor_at 0 1.
Definition classify : mbuf -> mbuf := xor_at 1 2.
Definition forward : mbuf -> mbuf := xor_at 2 3.

Section GraphTest.
Context {RG : RteGraph node Z} {E : Env}.
(** The array [pkts]; [None] is NULL. *)
Notation pkts := (list (option mbuf)).
Notation gst := (gstate rte_graph pkts).
Notation M := (M gst).

(** A function on the packet behind pointer number [i]. *)
Definition on_packet (f : mbuf -> mbuf) (i : Z) : M unit :=
  o <-- gets (fun s => app s !! Z.to_nat i) ;;
  m <-- deref (mjoin o) ;;
  put_app <[Z.to_nat i := Some (f m)]>.

Definition run_normal_pipeline : M unit :=
  for_ (Z.to_nat NUM_PKTS) 0 (fun i _ =>
    on_packet parse i ;; on_packet classify i ;; on_packet forward i) tt.

(** ** The nodes *)

Definition start_node_process (objs : list Z) : M Z := enqueue PARSE_NODE objs ;; ret (zlen objs).
Definition parse_node_process (objs : list Z) : M Z :=
  _ <-- for_each (on_packet parse) objs ;; enqueue CLASSIFY_NODE objs ;; ret (zlen objs).
Definition classify_node_process (objs : list Z) : M Z :=
  _ <-- for_each (on_packet classify) objs ;; enqueue FORWARD_NODE objs ;; ret (zlen objs).
Definition forward_node_process (objs : list Z) : M Z :=
  _ <-- for_each (on_packet forward) objs ;; ret (zlen objs).

Definition process (n : node) : list Z -> M Z :=
  match n with
  | START_NODE => start_node_process
  | PARSE_NODE => parse_node_process
  | CLASSIFY_NODE => classify_node_process
  | FORWARD_NODE => forward_node_process
  end.

(** Three nodes run in a walk, one after the other. *)
Definition WALK_FUEL : nat := 4.
Definition walk : M unit := rte_graph_walk process (ret tt) [START_NODE] WALK_FUEL.

(** [&pkts[i]], [BURST] pointers. *)
Definition burst_at (i : Z) : list Z := seqZ i BURST.

(** [for (i = 0; i < NUM_PKTS; i += BURST)]; the pointers go to edge 0 of the
    start node, which is the parse node. *)
Definition run_graph_pipeline : M unit :=
  for_ (Z.to_nat (NUM_PKTS / BURST)) 0 (fun k _ =>
    enqueue PARSE_NODE (burst_at (k * BURST)) ;;
    walk) tt.

(** The result of [main]. *)
Definition main : M Z :=
  _ <-- call rte_eal_init ;;
  mp <-- call (rte_pktmbuf_pool_create "MBUF_POOL" NUM_PKTS 256 0 RTE_MBUF_DEFAULT_BUF_SIZE) ;;
  if mp =? 0 then printf "mempool creation failed\n" [] ;; ret (-1)
  else
    for_ (Z.to_nat NUM_PKTS) 0 (fun i _ => om <-- rte_pktmbuf_alloc mp ;; put_app (fun l => l ++ [om])) tt ;;
    start <-- rte_get_timer_cycles ;;
    run_normal_pipeline ;;
    end_ <-- rte_get_timer_cycles ;;
    printf "Normal pipeline cycles: %lu\n" [PInt (u64 (end_ - start))] ;;
    graph_id <-- call (api_call "rte_graph_create" []) ;;
    if u16 graph_id =? 65535 then printf "Graph creation failed\n" [] ;; ret (-1)
    else
      put_graph rte_graph_new ;;
      _ <-- call (api_call "rte_graph_lookup" []) ;;
      _ <-- call (api_call "rte_node_from_name" []) ;;
      _ <-- call (api_call "rte_graph_node_get" [u16 graph_id]) ;;
      start <-- rte_get_timer_cycles ;;
      run_graph_pipeline ;;
      end_ <-- rte_get_timer_cycles ;;
      printf "Graph pipeline cycles: %lu\n" [PInt (u64 (end_ - start))] ;;
      ret 0.

(** ** The reference: what one pass does to a packet *)

Definition touch (m : mbuf) : mbuf := forward (classify (parse m)).

(** [f] on the packets behind the pointers [js]. *)
Definition at_all (f : mbuf -> mbuf) (js : list Z) (l : pkts) : pkts :=
  foldl (fun l i => alter (option_map f) (Z.to_nat i) l) l js.

(** Every pointer leads to a packet. *)
Definition present (l : pkts) (i : Z) : Prop := exists m, l !! Z.to_nat i = Some (Some m).

Lemma wp_on_packet f i (Q : unit -> gst -> trace -> Prop) X s t :
  present (app s) i ->
  Q tt (GState (graph s) (alter (option_map f) (Z.to_nat i) (app s))) t -> wp (on_packet f i) Q X s t.
Proof.
  intros [m Hi] HQ. unfold on_packet. wp_steps. rewrite Hi. apply (wp_deref _ m); [done|].
  assert (alter (option_map f) (Z.to_nat i) (app s) = <[Z.to_nat i := Some (f m)]> (app s)) as E0; [|by rewrite E0 in HQ].
  apply list_eq. intros j. destruct (decide (j = Z.to_nat i)) as [->|Hne].
  - rewrite list_lookup_alter_eq, Hi. simpl. rewrite list_lookup_insert_eq; [done|]. by eapply lookup_lt_Some.
  - by rewrite list_lookup_alter_ne, list_lookup_insert_ne.
Qed.
Lemma present_alter l f i j : present l j -> present (alter (option_map f) (Z.to_nat i) l) j.
Proof.
  intros [m Hm]. unfold present. destruct (decide (Z.to_nat j = Z.to_nat i)) as [Ei|Hne].
  - rewrite <- Ei, list_lookup_alter_eq, Hm. simpl. eauto.
  - rewrite list_lookup_alter_ne by done. eauto.
Qed.

Lemma wp_on_packets f js (Q : list unit -> gst -> trace -> Prop) X s t :
  Forall (present (app s)) js ->
  (forall r, Q r (GState (graph s) (at_all f js (app s))) t) -> wp (for_each (on_packet f) js) Q X s t.
Proof.
  revert Q s t. induction js as [|j js IH]; intros Q s t Hp HQ; simpl.
  - apply wp_ret. destruct s. apply HQ.
  - inversion Hp as [|? ? Pj Pjs]; subst. wp_step. apply wp_on_packet; [done|]. wp_step.
    apply IH; simpl.
    + eapply Forall_impl; [exact Pjs|]. intros i. apply present_alter.
    + intros r. apply wp_ret. apply HQ.
Qed.

Lemma present_at_all l f js i : present l i -> present (at_all f js l) i.
Proof. revert l. induction js as [|j js IH]; intros l H; simpl; [done|]. by apply IH, present_alter. Qed.

Lemma at_all_lookup f js l j :
  NoDup (Z.to_nat <$> js) ->
  at_all f js l !! j = if decide (j ∈ Z.to_nat <$> js) then option_map f <$> l !! j else l !! j.
Proof.
  revert l. induction js as [|i js IH]; intros l Hn; [by destruct (decide _) as [?%elem_of_nil|]|].
  rewrite fmap_cons in Hn |- *. apply NoDup_cons in Hn as [Hi Hn]. simpl. rewrite IH by done.
  destruct (decide (j ∈ Z.to_nat <$> js)) as [Hj|Hj].
  - rewrite decide_True by (by right). by rewrite list_lookup_alter_ne by (by intros <-).
  - destruct (decide (j = Z.to_nat i)) as [->|Hne].
    + rewrite decide_True by (by left). apply list_lookup_alter_eq.
    + rewrite decide_False by (rewrite elem_of_cons; tauto). by apply list_lookup_alter_ne.
Qed.

Lemma at_all_touch js l :
  NoDup (Z.to_nat <$> js) ->
  at_all forward js (at_all classify js (at_all parse js l)) = at_all touch js l.
Proof.
  intros Hn. apply list_eq. intros j. rewrite !at_all_lookup by done.
  destruct (decide _); [|done]. destruct (l !! j) as [[m|]|]; done.
Qed.

(** ** The two pipelines *)

Lemma alter_touch (l : pkts) i :
  alter (option_map forward) i (alter (option_map classify) i (alter (option_map parse) i l)) =
  alter (option_map touch) i l.
Proof.
  apply list_eq. intros j. destruct (decide (j = i)) as [->|Hne].
  - rewrite !list_lookup_alter_eq. by destruct (l !! i) as [[m|]|].
  - by rewrite !list_lookup_alter_ne.
Qed.

Lemma fmap_touch_prefix (l : pkts) k :
  (forall i, 0 <= i < k -> present l i) -> 0 <= k ->
  NoDup (Z.to_nat <$> seqZ 0 k) /\ Forall (present l) (seqZ 0 k).
Proof.
  intros H Hk. split.
  - apply (NoDup_fmap_2_strong _); [|apply NoDup_seqZ]. intros x y Hx%elem_of_seqZ Hy%elem_of_seqZ. lia.
  - apply Forall_forall. intros i Hi%elem_of_seqZ. apply H. lia.
Qed.

Lemma at_all_app f js js' l : at_all f (js ++ js') l = at_all f js' (at_all f js l).
Proof. apply foldl_app. Qed.

(** After [k] rounds of the loop the first [k] packets are done. *)
Lemma wp_normal (k : nat) s t X :
  (forall i, 0 <= i < Z.of_nat k -> present (app s) i) ->
  wp (for_ k 0 (fun i _ => on_packet parse i ;; on_packet classify i ;; on_packet forward i) tt)
    (fun _ s' t' => s' = GState (graph s) (at_all touch (seqZ 0 (Z.of_nat k)) (app s)) /\ t' = t) X s t.
Proof.
  intros Hp. eapply wp_mono; [apply (wp_for (fun i _ s' t' => 0 <= i /\
    s' = GState (graph s) (at_all touch (seqZ 0 i) (app s)) /\ t' = t))| |done].
  - intros i [] s1 t1 Hi (_ & -> & ->). simpl.
    assert (present (at_all touch (seqZ 0 i) (app s)) i) as P1 by (apply present_at_all, Hp; lia).
    wp_step. apply wp_on_packet; [done|]. wp_step. apply wp_on_packet; [by apply present_alter|].
    apply wp_on_packet; [by do 2 apply present_alter|]. split; [lia|]. split; [|done]. cbn [graph app]. f_equal.
    rewrite seqZ_app, at_all_app by lia. apply alter_touch.
  - split; [done|]. split; [by destruct s|done].
  - by intros r s1 t1 (_ & ? & ?).
Qed.

Lemma only_enqueue_nil n os (g : rte_graph) : only n os g -> only n os (rte_node_enqueue g n []).
Proof.
  intros (Hne & Hok & Ho & He). split; [done|]. split; [|split].
  - apply enqueue_ok_law; [done|]. by rewrite app_nil_r, Ho.
  - by rewrite enqueue_same_law, app_nil_r.
  - intros n' Hn. by rewrite enqueue_other_law, He.
Qed.

(** One walk, with a burst waiting at the parse node. *)
Lemma wp_walk_burst js s t X :
  js <> [] -> NoDup (Z.to_nat <$> js) -> Forall (present (app s)) js -> idle s ->
  wp (enqueue PARSE_NODE js ;; walk)
    (fun _ s' t' => idle s' /\ app s' = at_all touch js (app s) /\ t' = t) X s t.
Proof.
  intros Hne Hn Hp [Hok He]. wp_step. apply wp_enqueue.
  pose proof (only_enqueue _ PARSE_NODE js Hok He Hne) as O1. set (g1 := rte_node_enqueue (graph s) PARSE_NODE js) in *.
  pose proof (only_enqueue_nil _ _ _ O1) as O2. set (g2 := rte_node_enqueue g1 PARSE_NODE []) in *.
  unfold walk, rte_graph_walk, start_node_process. cbn [for_each process]. wp_steps. unfold start_node_process.
  wp_step. apply wp_enqueue. cbn [graph app]. fold g2. wp_steps.
  apply (wp_drain_only _ _ PARSE_NODE js). wp_step. split; [done|]. intros g3 Hok3 He3.
  unfold process at 1, parse_node_process. wp_step. wp_step. apply wp_on_packets; [done|]. intros r1.
  wp_step. apply wp_enqueue. wp_step. cbn [graph app].
  apply (wp_drain_only _ _ CLASSIFY_NODE js). wp_step. split; [by apply only_enqueue|]. intros g4 Hok4 He4.
  unfold process at 1, classify_node_process. wp_step. wp_step. apply wp_on_packets.
  { eapply Forall_impl; [exact Hp|]. intros i. apply present_at_all. }
  intros r2. wp_step. apply wp_enqueue. wp_step. cbn [graph app].
  apply (wp_drain_only _ _ FORWARD_NODE js). wp_step. split; [by apply only_enqueue|]. intros g5 Hok5 He5.
  unfold process at 1, forward_node_process. wp_step. wp_step. apply wp_on_packets.
  { eapply Forall_impl; [exact Hp|]. intros i Hi. by do 2 apply present_at_all. }
  intros r3. wp_step. cbn [graph app].
  apply wp_drain_idle. wp_step. split; [done|]. split; [done|]. cbn [graph app]. by rewrite at_all_touch.
Qed.

Lemma wp_graph (k : nat) s t X :
  (forall i, 0 <= i < 32 * Z.of_nat k -> present (app s) i) -> idle s ->
  wp (for_ k 0 (fun j _ => enqueue PARSE_NODE (burst_at (j * BURST)) ;; walk) tt)
    (fun _ s' t' => idle s' /\ app s' = at_all touch (seqZ 0 (32 * Z.of_nat k)) (app s) /\ t' = t) X s t.
Proof.
  intros Hp Hid. eapply wp_mono; [apply (wp_for (fun j _ s' t' => 0 <= j /\ idle s' /\
    app s' = at_all touch (seqZ 0 (32 * j)) (app s) /\ t' = t))| |done].
  - intros j [] s1 t1 Hj (_ & I1 & A1 & ->). unfold burst_at, BURST.
    destruct (fmap_touch_prefix (app s) (32 * Z.of_nat k) Hp ltac:(lia)) as [Hn Hf].
    eapply wp_mono; [apply wp_walk_burst; [done| | |done]| |done].
    + apply (NoDup_fmap_2_strong _); [|apply NoDup_seqZ]. intros x y Hx%elem_of_seqZ Hy%elem_of_seqZ. lia.
    + apply Forall_forall. intros i Hi%elem_of_seqZ. rewrite A1. apply present_at_all, Hp. lia.
    + intros u s2 t2 (I2 & A2 & ->). split; [lia|]. split; [done|]. split; [|done].
      rewrite A2, A1, <- at_all_app. f_equal. replace (32 * (j + 1)) with (32 * j + 32) by lia.
      rewrite seqZ_app by lia. f_equal. f_equal. lia.
  - done.
  - by intros r s1 t1 (_ & ? & ? & ?).
Qed.

(** An array of packets, all of them there. *)
Lemma present_all (ms : list mbuf) i : 0 <= i < zlen ms -> present (map Some ms) i.
Proof.
  intros Hi. unfold zlen in Hi. destruct (lookup_lt_is_Some_2 ms (Z.to_nat i)) as [m Hm]; [lia|].
  exists m. by rewrite list_lookup_fmap, Hm.
Qed.
Lemma at_all_map (ms : list mbuf) : at_all touch (seqZ 0 (zlen ms)) (map Some ms) = map Some (map touch ms).
Proof.
  destruct (fmap_touch_prefix (map Some ms) (zlen ms)) as [Hn _]; [intros; by apply present_all|apply zlen_nonneg|].
  apply list_eq. intros j. rewrite at_all_lookup by done. change map with (@fmap _ list_fmap). rewrite !list_lookup_fmap.
  destruct (ms !! j) as [m|] eqn:Hj; [|by destruct (decide _)].
  rewrite decide_True; [done|]. apply list_elem_of_fmap. exists (Z.of_nat j). split; [lia|].
  apply elem_of_seqZ. apply lookup_lt_Some in Hj. unfold zlen. lia.
Qed.

Lemma wp_done {A} (m : M A) Q s t :
  wp m Q (fun _ _ _ => False) s t -> exists a s' t', m s t = Done a s' t' /\ Q a s' t'.
Proof. unfold wp. destruct (m s t); [eauto|done..]. Qed.

Lemma num_pkts_nonneg : 0 <= NUM_PKTS.
Proof. unfold NUM_PKTS. lia. Qed.
Lemma num_bursts : 32 * Z.of_nat (Z.to_nat (NUM_PKTS / BURST)) = NUM_PKTS.
Proof.
  assert (NUM_PKTS / BURST = 3125) as E0 by (vm_compute; reflexivity).
  rewrite E0. rewrite (Z2Nat.id 3125) by lia. unfold NUM_PKTS. lia.
Qed.

Lemma pipelines_agree ms g t :
  zlen ms = NUM_PKTS -> idle (GState g (map Some ms)) ->
  run_normal_pipeline (GState g (map Some ms)) t = Done tt (GState g (map Some (map touch ms))) t /\
  exists g', run_graph_pipeline (GState g (map Some ms)) t = Done tt (GState g' (map Some (map touch ms))) t /\
    idle (GState g' (map Some (map touch ms))).
Proof.
  intros Hl Hid. pose proof (present_all ms) as Hp. pose proof (at_all_map ms) as Ha. rewrite Hl in Hp, Ha. split.
  - destruct (wp_done run_normal_pipeline (fun _ s' t' => s' = GState g (map Some (map touch ms)) /\ t' = t)
      (GState g (map Some ms)) t) as ([] & s' & t' & R & -> & ->); [|exact R].
    unfold run_normal_pipeline. pose proof (Z2Nat.id NUM_PKTS num_pkts_nonneg) as Hk.
    revert Hk. generalize (Z.to_nat NUM_PKTS) as k. intros k Hk.
    eapply wp_mono; [apply wp_normal; rewrite Hk; apply Hp| |intros; exact H].
    intros [] s' t' [-> ->]. rewrite Hk. cbn [graph app]. rewrite Ha. split; reflexivity.
  - destruct (wp_done run_graph_pipeline (fun _ s' t' => idle s' /\ app s' = map Some (map touch ms) /\ t' = t)
      (GState g (map Some ms)) t) as ([] & [g' l'] & t' & R & I' & A' & ->).
    { unfold run_graph_pipeline. pose proof num_bursts as Hk.
      revert Hk. generalize (Z.to_nat (NUM_PKTS / BURST)) as k. intros k Hk.
      eapply wp_mono; [apply wp_graph; [rewrite Hk; apply Hp|exact Hid]| |intros; exact H].
      intros [] s' t' (I' & A' & ->). split; [exact I'|]. split; [|reflexivity]. rewrite A', Hk. exact Ha. }
    cbn [app] in A'. subst l'. exists g'. split; [exact R|exact I'].
Qed.

(** C21: The graph does the work of the loop: on any array of 100000 packets both pipelines end,
    without a fault and without any effect outside the packets, with the same array, in which every
    packet has been through [parse], [classify] and [forward] once; and the graph is empty again. *)
Theorem graph_equals_loop ms g t :
  zlen ms = NUM_PKTS -> idle (GState g (map Some ms)) ->
  run_normal_pipeline (GState g (map Some ms)) t = Done tt (GState g (map Some (map touch ms))) t /\
  exists g', run_graph_pipeline (GState g (map Some ms)) t = Done tt (GState g' (map Some (map touch ms))) t /\
    idle (GState g' (map Some (map touch ms))).
Proof. apply pipelines_agree. Qed.

(** ** Twice is never *)

Lemma xor_twice x v : is_u8 x -> 0 <= v < 256 -> u8 (Z.lxor (u8 (Z.lxor x v)) v) = x.
Proof.
  intros Hx Hv. transitivity (u8 x); [|apply u8_small; words]. unfold u8. apply Z.bits_inj'. intros n Hn.
  destruct (Z.ltb_spec n 8).
  - rewrite !Z.mod_pow2_bits_low, Z.lxor_spec, Z.mod_pow2_bits_low, Z.lxor_spec by lia.
    by destruct (Z.testbit x n), (Z.testbit v n).
  - by rewrite !Z.mod_pow2_bits_high by lia.
Qed.

Lemma get_ext (a b : list Z) : length a = length b -> (forall i, 0 <= i < zlen a -> get a i = get b i) -> a = b.
Proof.
  intros Hl H. apply nth_ext with (d := 0) (d' := 0); [done|]. intros n Hn.
  specialize (H (Z.of_nat n) ltac:(unfold zlen; lia)). unfold get in H. by rewrite Nat2Z.id in H.
Qed.

(** Packets of the pool: at least three bytes behind the start of the data. *)
Definition usable (m : mbuf) : Prop := room m 3 /\ bytes_ok m.

Lemma touch_twice m : usable m -> touch (touch m) = m.
Proof.
  intros [[H0 H3] Hb]. destruct m as [id b d dl pl]. cbn [data_off mb_buf] in *.
  unfold touch, forward, classify, parse, xor_at, store8, load8, set_buf. cbn [mb_id mb_buf data_off data_len pkt_len].
  f_equal. apply get_ext; [by repeat (unfold upd at 1; case_match; rewrite ?length_insert)|].
  intros i Hi. rewrite !zlen_upd in Hi.
  assert (forall j, is_u8 (get b j)) as Hg by (intros; by apply get_byte).
  repeat (rewrite get_upd by (rewrite ?zlen_upd; lia)).
  destruct (Z.eqb_spec i (d + 2)) as [I2|], (Z.eqb_spec i (d + 1)) as [I1|], (Z.eqb_spec i (d + 0)) as [I0|];
    try lia; try done; subst i.
  all: repeat (rewrite get_upd by (rewrite ?zlen_upd; lia)).
  all: repeat match goal with |- context [?a =? ?b] => destruct (Z.eqb_spec a b); try lia end.
  all: by apply xor_twice.
Qed.

Lemma touch_twice_all (ms : list mbuf) : Forall usable ms -> map touch (map touch ms) = ms.
Proof. induction 1 as [|m ms Hm _ IH]; simpl; [done|]. by rewrite touch_twice, IH. Qed.

(** No allocation from a pool fails. *)
Definition pool_yields : Prop := forall t mp, 0 <= pool_room t mp -> env_alloc t mp <> None.

(** After [n] allocations. *)
Record allocated (mp n : Z) (g : rte_graph) (s : gst) (t : trace) : Prop := {
  al_graph : graph s = g;
  al_app : app s = map Some (rev (rx_packets t));
  al_len : zlen (rx_packets t) = n;
  al_usable : Forall usable (rx_packets t);
  al_out : out_ids t = [];
  al_room : pool_room t mp = RTE_MBUF_DEFAULT_BUF_SIZE }.

Lemma wp_alloc_all mp k s t X :
  pool_yields -> allocated mp 0 (graph s) s t ->
  wp (for_ k 0 (fun i _ => om <-- rte_pktmbuf_alloc mp ;; put_app (fun l => l ++ [om])) tt)
    (fun _ => allocated mp (Z.of_nat k) (graph s)) X s t.
Proof.
  intros Hne H0. apply (wp_for (fun i _ => allocated mp i (graph s))); [|exact H0].
  intros i [] s1 t1 _ [A1 A2 A3 A4 A5 A6]. wp_step.
  pose proof (env_alloc_law t1 mp) as L. unfold wp at 1, rte_pktmbuf_alloc.
  specialize (Hne t1 mp). rewrite A6 in Hne. specialize (Hne ltac:(done)). destruct (env_alloc t1 mp) as [m|]; [|by destruct Hne].
  destruct (L m eq_refl) as (B & Z0 & D & _ & _). rewrite A6 in Z0, D. change (Z.min _ _) with 128 in D.
  apply wp_put_app. constructor; cbn [graph app rx_packets out_ids]; try done.
  - rewrite A2. simpl. by rewrite map_app.
  - unfold zlen in *. simpl length. lia.
  - constructor; [|done]. split; [|done]. unfold room. rewrite D, Z0. by compute.
Qed.

(** [main] of graph/testing: as long as the pool yields packets, it does not fault; if it returns
    0 it has allocated 100000 packets and freed none, and every one of them is as it came from the
    pool, because the graph has undone the work of the loop. *)
Theorem graph_test_restores :
  pool_yields ->
  wp main (fun r s t => (r = 0 \/ r = -1) /\ out_ids t = [] /\
      (r = 0 -> app s = map Some (rev (rx_packets t)) /\ zlen (rx_packets t) = NUM_PKTS))
    (fun _ _ _ => False) (GState rte_graph_new []) [].
Proof.
  intros Hne. unfold main. wp_step. wp_step. wp_step. wp_step. apply wp_if; intros Hmp.
  { wp_steps. split; [auto|]. split; [done|]. intros [=]. }
  wp_step. eapply wp_mono; [apply wp_alloc_all; [exact Hne|]| |intros; exact H].
  { constructor; try done; try constructor. cbn [pool_room]. by rewrite Z.eqb_refl. }
  rewrite (Z2Nat.id NUM_PKTS num_pkts_nonneg). intros [] s1 t1 [G1 A1 A2 A3 A4 _]. cbn [graph] in G1.
  destruct s1 as [g1 l1]. cbn [graph app] in G1, A1. subst g1 l1. set (ms := rev (rx_packets t1)) in *.
  assert (zlen ms = NUM_PKTS) as Hl by (rewrite <- A2; unfold ms, zlen; by rewrite length_rev).
  assert (idle (GState rte_graph_new (map Some ms))) as I1
    by (split; [apply (graph_new_law START_NODE)|intros n; apply (graph_new_law n)]).
  wp_step. apply wp_cycles. intros v1 _. wp_step.
  destruct (pipelines_agree ms rte_graph_new (EvCycles v1 :: t1) Hl I1) as [R1 _].
  unfold wp at 1. rewrite R1. wp_step. apply wp_cycles. intros v2 _. wp_step. wp_step. wp_step. wp_step.
  apply wp_if; intros Hid.
  { wp_steps. split; [auto|]. split; [exact A4|]. intros [=]. }
  wp_step. apply wp_put_graph. cbn [graph app]. do 3 (wp_step; wp_step). wp_step. apply wp_cycles. intros v3 _. wp_step.
  match goal with |- wp run_graph_pipeline _ _ _ ?t2 => 
    destruct (pipelines_agree (map touch ms) rte_graph_new t2) as [_ (g' & R2 & _)] end.
  { unfold zlen in *. rewrite length_map. exact Hl. }
  { split; [apply (graph_new_law START_NODE)|intros n; apply (graph_new_law n)]. }
  unfold wp at 1. rewrite R2. wp_steps. split; [auto|]. split; [exact A4|]. intros _.
  cbn [app rx_packets]. split; [|exact A2]. rewrite touch_twice_all; [reflexivity|].
  apply Forall_rev. exact A3.
Qed.
End GraphTest.

#[local] Instance wenv : Env := sim_env quiet_script.
#[local] Existing Instance sim_graph.

(** 100000 times the same three bytes. *)
Definition w_packets : list mbuf := repeat (Mbuf 1 [7; 8; 9] 0 3 3) (Z.to_nat NUM_PKTS).

Lemma graph_equals_loop_witness :
  touch (Mbuf 1 [7; 8; 9] 0 3 3) = Mbuf 1 [6; 10; 10] 0 3 3 /\
  (run_normal_pipeline (GState rte_graph_new (map Some w_packets)) [] =
     Done tt (GState rte_graph_new (map Some (map touch w_packets))) [] /\
   exists g', run_graph_pipeline (GState rte_graph_new (map Some w_packets)) [] =
       Done tt (GState g' (map Some (map touch w_packets))) [] /\
     idle (GState g' (map Some (map touch w_packets)))).
Proof.
  split; [by vm_compute|]. apply graph_equals_loop.
  - unfold w_packets, zlen. rewrite repeat_length. exact (Z2Nat.id NUM_PKTS num_pkts_nonneg).
  - split; [apply (graph_new_law START_NODE)|intros n; apply (graph_new_law n)].
Defined.

Lemma graph_test_restores_witness :
  wp main (fun r s t => (r = 0 \/ r = -1) /\ out_ids t = [] /\
      (r = 0 -> app s = map Some (rev (rx_packets t)) /\ zlen (rx_packets t) = NUM_PKTS))
    (fun _ _ _ => False) (GState rte_graph_new []) [].
Proof.
  apply graph_test_restores. intros t mp H. simpl. rewrite Z.max_r by done. by rewrite Z.eqb_refl.
Defined.
