(* ===== verification/Schedule.v ===== *)
(** * Schedules: two threads or processes that interleave

    A thread is a program counter with a step function on the common state; a
    step makes at most one access to what the other writes.  A schedule says
    which of the two steps next.  The rules here are for any common state. *)

From S2P Require Import Prelude Rte Env.

Inductive proc := Primary | Secondary.
#[export] Instance proc_eq_dec : EqDecision proc.
Proof. solve_decision. Defined.

Section Run.
Context {St P S : Type} (f : P -> M St P) (g : S -> M St S).

Definition proc_step (x : proc) (p : P * S) : M St (P * S) :=
  match x with
  | Primary => pc <-- f p.1 ;; ret (pc, p.2)
  | Secondary => pc <-- g p.2 ;; ret (p.1, pc)
  end.

(** The steps of a schedule. *)
Fixpoint run (sched : list proc) (p : P * S) : M St (P * S) :=
  match sched with
  | [] => ret p
  | x :: sched' => p' <-- proc_step x p ;; run sched' p'
  end.

Lemma wp_run (I : P * S -> St -> trace -> Prop) :
  (forall x p s t, I p s t -> wp (proc_step x p) I (fun _ _ _ => False) s t) ->
  forall sched p s t, I p s t -> wp (run sched p) I (fun _ _ _ => False) s t.
Proof.
  intros H. induction sched as [|x sched IH]; intros p s t HI; simpl; [done|].
  wp_step. eapply wp_mono; [by apply H| |done]. intros. by apply IH.
Qed.

(** The same when some steps may fault: either the schedule does not come to one
    of them, or it does. *)
Lemma wp_run_or (I : P * S -> St -> trace -> Prop) (ok : proc -> P * S -> St -> bool) :
  (forall x p s t, I p s t -> ok x p s = true -> wp (proc_step x p) I (fun _ _ _ => False) s t) ->
  forall sched p s t, I p s t ->
    wp (run sched p) I (fun _ _ _ => False) s t \/
    exists pre x post, sched = pre ++ x :: post /\
      wp (run pre p) (fun p' s' t' => I p' s' t' /\ ok x p' s' = false) (fun _ _ _ => False) s t.
Proof.
  intros H. induction sched as [|x sched IH]; intros p s t HI; simpl; [by left|].
  destruct (ok x p s) eqn:K; [|right; by exists [], x, sched].
  specialize (H _ _ _ _ HI K). unfold wp, bind in *. destruct (proc_step x p s t) as [p1 s1 t1| |] eqn:R; [|done..].
  destruct (IH _ _ _ H) as [G|(pre & y & post & -> & G)]; [by left|].
  right. exists (x :: pre), y, post. split; [done|]. simpl. unfold bind. by rewrite R.
Qed.

Lemma sched_app sched sched' p s t : run (sched ++ sched') p s t = bind (run sched p) (run sched') s t.
Proof.
  revert p s t. induction sched as [|x sched IH]; intros p s t; simpl; [done|].
  unfold bind in *. destruct (proc_step x p s t); [apply IH|done|done].
Qed.
Lemma wp_run_app sched sched' p Q X s t :
  wp (run sched p) (fun p' => wp (run sched' p') Q X) X s t -> wp (run (sched ++ sched') p) Q X s t.
Proof. intros H. unfold wp. rewrite sched_app. by apply wp_bind. Qed.

(** ** Termination under fair schedules

    A round lets each process step at least once.  If a step of a process that
    is not blocked lowers [rank], and a step of a blocked one changes nothing
    that matters, then as many rounds as the rank end with both blocked. *)

Definition round (l : list proc) : Prop := Primary ∈ l /\ Secondary ∈ l.

Section Fair.
Context (I : P * S -> St -> trace -> Prop) (rank : P * S -> St -> trace -> nat)
  (blocked : proc -> P * S -> St -> bool).

Definition progress (x : proc) (p : P * S) (s : St) (t : trace) (p' : P * S) (s' : St) (t' : trace) : Prop :=
  if blocked x p s
  then rank p' s' t' = rank p s t /\ forall y, blocked y p' s' = blocked y p s
  else (rank p' s' t' < rank p s t)%nat.

Hypothesis step : forall x p s t, I p s t ->
  wp (proc_step x p) (fun p' s' t' => I p' s' t' /\ progress x p s t p' s' t') (fun _ _ _ => False) s t.

Lemma wp_run_progress l p s t :
  I p s t ->
  wp (run l p) (fun p' s' t' => I p' s' t' /\
    ((rank p' s' t' < rank p s t)%nat \/
     rank p' s' t' = rank p s t /\ (forall y, blocked y p' s' = blocked y p s) /\
     forall x, x ∈ l -> blocked x p s = true)) (fun _ _ _ => False) s t.
Proof.
  revert p s t. induction l as [|x l IH]; intros p s t HI; simpl.
  - apply wp_ret. split; [done|]. right. split_and!; [done|done|by intros x ?%not_elem_of_nil].
  - wp_step. eapply wp_mono; [by apply step| |done]. intros p1 s1 t1 [I1 G1].
    eapply wp_mono; [by apply IH| |done]. intros p2 s2 t2 [I2 G2]. split; [done|].
    unfold progress in G1. destruct (blocked x p s) eqn:B.
    + destruct G1 as [R1 B1]. destruct G2 as [G2|(R2 & B2 & A2)]; [left; lia|].
      right. split; [lia|]. split; [intros y; by rewrite B2|].
      intros y [->|Hy]%elem_of_cons; [done|]. rewrite <- B1. by apply A2.
    + left. destruct G2 as [G2|(R2 & _)]; lia.
Qed.

Lemma wp_run_stuck l p s t :
  I p s t -> (forall y, blocked y p s = true) ->
  wp (run l p) (fun p' s' t' => I p' s' t' /\ forall y, blocked y p' s' = true) (fun _ _ _ => False) s t.
Proof.
  revert p s t. induction l as [|x l IH]; intros p s t HI HB; simpl; [done|].
  wp_step. eapply wp_mono; [by apply step| |done]. intros p1 s1 t1 [I1 G1].
  unfold progress in G1. rewrite HB in G1. destruct G1 as [_ B1].
  apply IH; [done|]. intros y. by rewrite B1.
Qed.

Lemma wp_rounds_end ls p s t :
  I p s t -> Forall round ls -> (rank p s t <= length ls)%nat ->
  wp (run (concat ls) p) (fun p' s' t' => I p' s' t' /\
    (rank p' s' t' = 0%nat \/ forall y, blocked y p' s' = true)) (fun _ _ _ => False) s t.
Proof.
  revert p s t. induction ls as [|l ls IH]; intros p s t HI Hr Hl; simpl in *.
  { apply wp_ret. split; [done|]. left. lia. }
  destruct (blocked Primary p s && blocked Secondary p s) eqn:B.
  - apply andb_true_iff in B as [B1 B2].
    eapply wp_mono; [apply (wp_run_stuck (l ++ concat ls)); [done|by intros []]| |done].
    intros p' s' t' [I' H]. by auto.
  - inversion Hr as [|? ? [HP HS] Hr']; subst. apply wp_run_app.
    eapply wp_mono; [by apply wp_run_progress| |done]. intros p1 s1 t1 [I1 G1].
    apply IH; [done|done|]. destruct G1 as [G1|(_ & _ & A1)]; [lia|].
    by rewrite !A1 in B.
Qed.
End Fair.
End Run.
