(* ===== verification/Ipc.v ===== *)
(** * Two processes over shared memory

    The pairs of programs of inter_process_comm: a primary and a secondary
    process that share the hugepage heap of [rte_malloc] and named rings of
    pointers into it.  A process is a program counter; a step makes at most one
    access to a ring, and the steps of the two interleave in any order. *)

From S2P Require Import Prelude Rte Env Sim.

(** The numbers printed with the format [fmt], oldest first. *)
Fixpoint shown (fmt : string) (t : trace) : list Z :=
  match t with
  | [] => []
  | EvPrintf f [PInt v] :: t' => if String.eqb f fmt then shown fmt t' ++ [v] else shown fmt t'
  | _ :: t' => shown fmt t'
  end.

(** Arithmetic of [int]: an overflow is undefined. *)
Definition in_int (x : Z) : bool := (-2147483648 <=? x) && (x <=? 2147483647).
Definition int_mul (x y : Z) : option Z := if in_int (x * y) then Some (x * y) else None.

Lemma int_mul_small i : 0 <= i < 10 -> int_mul i 10 = Some (10 * i).
Proof.
  intros H. unfold int_mul, in_int. rewrite Z.mul_comm.
  destruct (Z.leb_spec (-2147483648) (10 * i)), (Z.leb_spec (10 * i) 2147483647); done || lia.
Qed.

Lemma zlen_seqZ n : 0 <= n -> zlen (seqZ 0 n) = n.
Proof. intros H. unfold zlen. rewrite length_seqZ. lia. Qed.
Lemma seqZ_snoc n : 0 <= n -> seqZ 0 (n + 1) = seqZ 0 n ++ [n].
Proof. intros H. by rewrite seqZ_app by lia. Qed.

Section Ipc.
Context {E : Env} {RR : RteRing Z} {V : Type}.

(** The initialised blocks of the heap by address, and the rings by name. *)
Record shared := Shared { heap : gmap Z V; rings : gmap string rte_ring }.
Notation M := (M shared).
Definition no_memory : shared := Shared ∅ ∅.

Definition set_heap (h : gmap Z V) (s : shared) : shared := Shared h (rings s).
Definition set_ring (name : string) (r : rte_ring) (s : shared) : shared :=
  Shared (heap s) (<[name := r]> (rings s)).

(** [p = rte_malloc(NULL, size, 0); *p = v;]: the result is not tested. *)
Definition alloc_init (size : Z) (v : V) : M Z :=
  a <-- malloc size ;;
  if a =? 0 then fault
  else modify (fun s => set_heap (<[a := v]> (heap s)) s) ;; ret a.
Definition load (a : Z) : M V := o <-- gets (fun s => heap s !! a) ;; deref o.
Definition release (a : Z) : M unit :=
  _ <-- load a ;;
  rte_free a ;;
  modify (fun s => set_heap (delete a (heap s)) s).

Definition ring_create (name : string) (count flags : Z) : M Z :=
  r <-- call (rte_ring_create name count flags) ;;
  when (negb (r =? 0)) (modify (set_ring name (rte_ring_empty count))) ;;
  ret r.
(** Whether [rte_ring_lookup] finds the ring. *)
Definition ring_lookup (name : string) : M bool :=
  gets (fun s => bool_decide (is_Some (rings s !! name))).
Definition enqueue (name : string) (a : Z) : M Z :=
  o <-- gets (fun s => rings s !! name) ;;
  q <-- deref o ;;
  let r := rte_ring_enqueue q a in
  modify (set_ring name r.2) ;;
  ret r.1.
Definition dequeue (name : string) : M (option Z) :=
  o <-- gets (fun s => rings s !! name) ;;
  q <-- deref o ;;
  let r := rte_ring_dequeue q in
  modify (set_ring name r.2) ;;
  ret r.1.

(** What a ring that may not exist yet holds. *)
Definition items (name : string) (s : shared) : list Z :=
  match rings s !! name with Some q => ring_items q | None => [] end.

(** ** Rules *)

(** Memory does not run out, and the heap accounts for every block. *)
Definition malloc_works : Prop := forall t size, env_malloc t size <> 0.
Definition accounted (s : shared) (t : trace) : Prop := live_blocks t = dom (heap s).

Lemma wp_alloc_init size v (Q : Z -> shared -> trace -> Prop) X s t :
  malloc_works -> accounted s t ->
  (forall a, heap s !! a = None -> Q a (set_heap (<[a := v]> (heap s)) s) (EvMalloc size a :: t)) ->
  wp (alloc_init size v) Q X s t.
Proof.
  intros Hm Ha H. unfold alloc_init. wp_step. unfold wp at 1, malloc.
  destruct (Z.eqb_spec (env_malloc t size) 0) as [Hz|Hz]; [by destruct (Hm t size)|].
  destruct (Z.eqb_spec (env_malloc t size) 0); [done|]. wp_steps. apply H.
  pose proof (env_malloc_fresh t size Hz) as Hf. rewrite Ha in Hf. by apply not_elem_of_dom.
Qed.

Lemma wp_load a v (Q : V -> shared -> trace -> Prop) X s t :
  heap s !! a = Some v -> Q v s t -> wp (load a) Q X s t.
Proof. intros Hv H. unfold load. wp_steps. by eapply wp_deref. Qed.

Lemma wp_release a v (Q : unit -> shared -> trace -> Prop) X s t :
  heap s !! a = Some v -> Q tt (set_heap (delete a (heap s)) s) (EvMfree a :: t) -> wp (release a) Q X s t.
Proof. intros Hv H. unfold release. wp_step. eapply wp_load; [done|]. by wp_steps. Qed.

(** Every ring has the capacity [c]. *)
Definition caps (c : Z) (s : shared) : Prop := forall name q, rings s !! name = Some q -> ring_cap q = c.

(** [s'] is [s] with [l] in the ring [name]. *)
Record ring_update (c : Z) (name : string) (l : list Z) (s s' : shared) : Prop := {
  ru_heap : heap s' = heap s;
  ru_items : items name s' = l;
  ru_other name' : name' <> name -> items name' s' = items name' s;
  ru_exists name' : is_Some (rings s' !! name') <-> is_Some (rings s !! name');
  ru_caps : caps c s' }.

Lemma ru_same c name s s' : ring_update c name (items name s) s s' -> forall name', items name' s' = items name' s.
Proof. intros U name'. destruct (decide (name' = name)) as [->|]; [apply U|by apply U]. Qed.

Lemma set_ring_update c name q q' s :
  caps c s -> rings s !! name = Some q -> ring_cap q' = ring_cap q ->
  ring_update c name (ring_items q') s (set_ring name q' s).
Proof.
  intros Hc Hq Hq'. constructor; [done| | | |].
  - unfold items. simpl. by rewrite lookup_insert_eq.
  - intros name' H. unfold items. simpl. by rewrite lookup_insert_ne.
  - intros name'. simpl. destruct (decide (name' = name)) as [->|].
    + rewrite lookup_insert_eq, Hq. split; by eexists.
    + by rewrite lookup_insert_ne.
  - intros name' q''. simpl. destruct (decide (name' = name)) as [->|].
    + rewrite lookup_insert_eq. intros [= <-]. rewrite Hq'. by apply (Hc name).
    + rewrite lookup_insert_ne by done. apply Hc.
Qed.

Lemma items_lookup name q s : rings s !! name = Some q -> items name s = ring_items q.
Proof. unfold items. by intros ->. Qed.

Lemma wp_ring_try c name a (Q : Z -> shared -> trace -> Prop) X s t :
  caps c s -> is_Some (rings s !! name) ->
  (zlen (items name s) < c -> forall s', ring_update c name (items name s ++ [a]) s s' -> Q 0 s' t) ->
  (c <= zlen (items name s) -> forall r s', r <> 0 -> ring_update c name (items name s) s s' -> Q r s' t) ->
  wp (enqueue name a) Q X s t.
Proof.
  intros Hc [q Hq] H1 H2. rewrite (items_lookup _ _ _ Hq) in *.
  unfold enqueue. wp_steps. eapply wp_deref; [done|]. wp_steps.
  pose proof (ring_enqueue_law q a) as L. pose proof (ring_enqueue_cap q a) as Lc. rewrite (Hc _ _ Hq) in L.
  destruct (Z.ltb_spec (zlen (ring_items q)) c); destruct L as [R L].
  - rewrite R. apply H1; [done|]. rewrite <- L. by eapply set_ring_update.
  - apply H2; [done|done|]. rewrite <- L. by eapply set_ring_update.
Qed.
Lemma wp_ring_enqueue c name a (Q : Z -> shared -> trace -> Prop) X s t :
  caps c s -> is_Some (rings s !! name) -> zlen (items name s) < c ->
  (forall s', ring_update c name (items name s ++ [a]) s s' -> Q 0 s' t) ->
  wp (enqueue name a) Q X s t.
Proof. intros Hc Hq Hl H. apply (wp_ring_try c); [done|done|auto|lia]. Qed.
Lemma wp_ring_dequeue c name (Q : option Z -> shared -> trace -> Prop) X s t :
  caps c s -> is_Some (rings s !! name) ->
  (forall s', ring_update c name (tail (items name s)) s s' -> Q (head (items name s)) s' t) ->
  wp (dequeue name) Q X s t.
Proof.
  intros Hc [q Hq] H. rewrite (items_lookup _ _ _ Hq) in *.
  unfold dequeue. wp_steps. eapply wp_deref; [done|]. wp_steps.
  destruct (ring_dequeue1_law q) as (-> & L2 & L3). apply H. rewrite <- L2. by eapply set_ring_update.
Qed.

(** A new ring is empty; an old one keeps its place. *)
Lemma wp_ring_create c name flags (Q : Z -> shared -> trace -> Prop) X s t :
  caps (c - 1) s -> rings s !! name = None ->
  (env_call t (rte_ring_create name c flags) = 0 -> Q 0 s (EvApi (rte_ring_create name c flags) 0 :: t)) ->
  (forall r s', r <> 0 -> caps (c - 1) s' -> heap s' = heap s -> (forall name', items name' s' = items name' s) ->
     (forall name', is_Some (rings s' !! name') <-> name' = name \/ is_Some (rings s !! name')) ->
     Q r s' (EvApi (rte_ring_create name c flags) r :: t)) ->
  wp (ring_create name c flags) Q X s t.
Proof.
  intros Hc Hn H0 H. unfold ring_create. apply wp_bind. unfold wp at 1, call.
  set (r := env_call t (rte_ring_create name c flags)) in *. wp_steps.
  - apply negb_true_iff, Z.eqb_neq in H1. destruct (ring_empty_law c) as [L1 L2]. apply H; [done| |done| |].
    + intros name' q. simpl. destruct (decide (name' = name)) as [->|].
      * rewrite lookup_insert_eq. by intros [= <-].
      * rewrite lookup_insert_ne by done. apply Hc.
    + intros name'. unfold items. simpl. destruct (decide (name' = name)) as [->|].
      * by rewrite lookup_insert_eq, Hn, L1.
      * by rewrite lookup_insert_ne.
    + intros name'. simpl. destruct (decide (name' = name)) as [->|].
      * rewrite lookup_insert_eq. split; [by left|by eexists].
      * rewrite lookup_insert_ne by done. split; [by right|by intros [?|?]].
  - apply negb_false_iff, Z.eqb_eq in H1. rewrite H1 in *. by apply H0.
Qed.

Lemma accounted_alloc size a v s t :
  accounted s t -> accounted (set_heap (<[a := v]> (heap s)) s) (EvMalloc size a :: t).
Proof. unfold accounted. simpl. intros ->. by rewrite dom_insert_L. Qed.
Lemma accounted_release a s t :
  accounted s t -> accounted (set_heap (delete a (heap s)) s) (EvMfree a :: t).
Proof. unfold accounted. simpl. intros ->. by rewrite dom_delete_L. Qed.

Lemma accounted_ring c name l s s' t : ring_update c name l s s' -> accounted s t -> accounted s' t.
Proof. unfold accounted. by intros U ->; rewrite (ru_heap _ _ _ _ _ U). Qed.

End Ipc.

Lemma sim_malloc_works sc : sc_malloc sc = true -> @malloc_works (sim_env sc).
Proof. intros H t size. simpl. rewrite H. pose proof (max_malloc_nonneg t). lia. Qed.
