(* ===== verification/RingDuplex.v ===== *)
(** * inter_process_comm/ring_full_duplex: requests and replies over two rings

    The primary (primary.c) sends the numbers 0 to 9, one at a time, and waits
    for each reply; the secondary (secondary.c) replies with ten times the
    number and stops at -1. *)

From S2P Require Import Prelude Rte Env Schedule Ipc Sim.

(** common.h *)
Definition RING_NAME : string := "a_to_b".
Definition RING_NAME2 : string := "b_to_a".
Definition RING_SIZE := 1024.
Definition RING_F_SP_ENQ := 1.
Definition RING_F_SC_DEQ := 2.
Definition sizeof_int := 4.

Section Duplex.
Context {E : Env} {RR : RteRing Z}.
Notation shared := (@shared RR Z).
Notation M := (M shared).

(** ** primary.c *)

Inductive primary_pc :=
| PInit
| PCreate
| PCreate2
| PLoop (i : Z)            (* for (i = 0; i < 10; i++), and what follows it *)
| PEnqueue (i a : Z)       (* while (rte_ring_enqueue(ring, msg) < 0) *)
| PSent (i : Z)
| PWait (i : Z)            (* while (rte_ring_dequeue(ring2, &reply) < 0) *)
| PReply (i a : Z)
| PStop (a : Z)
| PBye
| PDone
| PExit.                   (* rte_exit *)

Definition primary_step (pc : primary_pc) : M primary_pc :=
  match pc with
  | PInit => r <-- call rte_eal_init ;; ret (if r <? 0 then PExit else PCreate)
  | PCreate =>
      r <-- ring_create RING_NAME RING_SIZE 0 ;;
      if r =? 0 then ret PExit
      else printf "Primary: ring1 created\n" [] ;; ret PCreate2
  | PCreate2 =>
      r <-- ring_create RING_NAME2 RING_SIZE (Z.lor RING_F_SP_ENQ RING_F_SC_DEQ) ;;
      if r =? 0 then ret PExit
      else printf "Primary: ring2 created\n" [] ;; ret (PLoop 0)
  | PLoop i =>
      if i <? 10 then msg <-- alloc_init sizeof_int i ;; ret (PEnqueue i msg)
      else stop <-- alloc_init sizeof_int (-1) ;; ret (PStop stop)
  | PEnqueue i a => r <-- enqueue RING_NAME a ;; ret (if r <? 0 then PEnqueue i a else PSent i)
  | PSent i => printf "Primary: sent %d\n" [PInt i] ;; ret (PWait i)
  | PWait i =>
      o <-- dequeue RING_NAME2 ;;
      ret (match o with Some reply => PReply i reply | None => PWait i end)
  | PReply i a =>
      v <-- load a ;;
      printf "Primary: received %d\n" [PInt v] ;;
      release a ;;
      ret (PLoop (i + 1))
  | PStop a => _ <-- enqueue RING_NAME a ;; ret PBye
  | PBye => printf "Primary: done\n" [] ;; ret PDone
  | PDone => ret PDone
  | PExit => ret PExit
  end.

(** ** secondary.c *)

Inductive secondary_pc :=
| SInit
| SLookup                  (* while (!ring) *)
| SLookup2
| SWait                    (* while (rte_ring_dequeue(ring, &msg) < 0) *)
| SGot (a : Z)
| SReply (b result : Z)    (* while (rte_ring_enqueue(ring2, reply) < 0) *)
| SSent (result : Z)
| SDone
| SExit.

Definition secondary_step (pc : secondary_pc) : M secondary_pc :=
  match pc with
  | SInit => r <-- call rte_eal_init ;; ret (if r <? 0 then SExit else SLookup)
  | SLookup =>
      b <-- ring_lookup RING_NAME ;;
      if b : bool then printf "Secondary: ring1 found\n" [] ;; ret SLookup2 else ret SLookup
  | SLookup2 =>
      b <-- ring_lookup RING_NAME2 ;;
      if b : bool then printf "Secondary: ring2 found\n" [] ;; ret SWait else ret SLookup2
  | SWait =>
      o <-- dequeue RING_NAME ;;
      ret (match o with Some msg => SGot msg | None => SWait end)
  | SGot a =>
      v <-- load a ;;
      if v =? -1 then
        release a ;;
        printf "Secondary: exit\n" [] ;;
        ret SDone
      else
        printf "Secondary: received %d\n" [PInt v] ;;
        result <-- deref (int_mul v 10) ;;
        release a ;;
        reply <-- alloc_init sizeof_int result ;;
        ret (SReply reply result)
  | SReply b result => r <-- enqueue RING_NAME2 b ;; ret (if r <? 0 then SReply b result else SSent result)
  | SSent result => printf "Secondary: sent %d\n" [PInt result] ;; ret SWait
  | SDone => ret SDone
  | SExit => ret SExit
  end.

Definition duplex_run (sched : list proc) : M (primary_pc * secondary_pc) :=
  run primary_step secondary_step sched (PInit, SInit).

(** ** The exchange

    At any time at most one block is alive, the token: a process holds it, or
    one of the rings does. *)

Inductive token := Nobody | Held (a v : Z) | InRing (a v : Z) | InRing2 (a v : Z).
Definition token_heap (k : token) : gmap Z Z :=
  match k with Nobody => ∅ | Held a v | InRing a v | InRing2 a v => {[a := v]} end.
Definition token_ring (k : token) : list Z := match k with InRing a _ => [a] | _ => [] end.
Definition token_ring2 (k : token) : list Z := match k with InRing2 a _ => [a] | _ => [] end.

Definition s_waits (pc : secondary_pc) : Prop :=
  match pc with SInit | SLookup | SLookup2 | SWait | SSent _ | SExit => True | _ => False end.
Definition p_waits (i : Z) (pc : primary_pc) : Prop := pc = PSent i \/ pc = PWait i.

(** Where the exchange stands: [n] replies have been received by the primary
    and [m] requests by the secondary. *)
Inductive phase : primary_pc -> secondary_pc -> token -> Z -> Z -> Prop :=
| ph_setup pc sc : pc = PInit \/ pc = PCreate \/ pc = PCreate2 \/ pc = PExit -> s_waits sc -> phase pc sc Nobody 0 0
| ph_loop i sc : 0 <= i <= 10 -> s_waits sc -> phase (PLoop i) sc Nobody i i
| ph_made i a sc : 0 <= i < 10 -> s_waits sc -> phase (PEnqueue i a) sc (Held a i) i i
| ph_request i a pc sc : 0 <= i < 10 -> p_waits i pc -> s_waits sc -> phase pc sc (InRing a i) i i
| ph_taken i a pc : 0 <= i < 10 -> p_waits i pc -> phase pc (SGot a) (Held a i) i i
| ph_answered i b pc : 0 <= i < 10 -> p_waits i pc -> phase pc (SReply b (10 * i)) (Held b (10 * i)) i (i + 1)
| ph_reply i b pc sc : 0 <= i < 10 -> p_waits i pc -> s_waits sc -> phase pc sc (InRing2 b (10 * i)) i (i + 1)
| ph_got i b sc : 0 <= i < 10 -> s_waits sc -> phase (PReply i b) sc (Held b (10 * i)) i (i + 1)
| ph_stop a sc : s_waits sc -> phase (PStop a) sc (Held a (-1)) 10 10
| ph_stopped a pc sc : pc = PBye \/ pc = PDone -> s_waits sc -> phase pc sc (InRing a (-1)) 10 10
| ph_last a pc : pc = PBye \/ pc = PDone -> phase pc (SGot a) (Held a (-1)) 10 10
| ph_end pc : pc = PBye \/ pc = PDone -> phase pc SDone Nobody 10 10.

(** The rings that exist, by the program counters. *)
Definition has_ring (pc : primary_pc) : Prop := match pc with PInit | PCreate | PExit => False | _ => True end.
Definition has_ring2 (pc : primary_pc) : Prop := match pc with PInit | PCreate | PCreate2 | PExit => False | _ => True end.
Definition found_ring (sc : secondary_pc) : Prop := match sc with SInit | SLookup | SExit => False | _ => True end.
Definition found_ring2 (sc : secondary_pc) : Prop := match sc with SInit | SLookup | SLookup2 | SExit => False | _ => True end.

(** The parts of [inv] that say which rings exist and what they can hold. *)
Record setup_ok (p : primary_pc * secondary_pc) (s : shared) : Prop := {
  so_caps : caps (RING_SIZE - 1) s;
  so_ring : has_ring p.1 \/ found_ring p.2 -> is_Some (rings s !! RING_NAME);
  so_ring2 : has_ring2 p.1 \/ found_ring2 p.2 -> is_Some (rings s !! RING_NAME2);
  so_new : p.1 = PInit \/ p.1 = PCreate -> rings s !! RING_NAME = None;
  so_new2 : p.1 = PInit \/ p.1 = PCreate \/ p.1 = PCreate2 -> rings s !! RING_NAME2 = None }.

Record inv (p : primary_pc * secondary_pc) (s : shared) (t : trace) : Prop := {
  i_phase : exists k n m, phase p.1 p.2 k n m /\ heap s = token_heap k /\
    items RING_NAME s = token_ring k /\ items RING_NAME2 s = token_ring2 k /\
    shown "Primary: received %d\n" t = map (Z.mul 10) (seqZ 0 n) /\
    shown "Secondary: received %d\n" t = seqZ 0 m;
  i_acct : accounted s t;
  i_setup : setup_ok p s }.

(** ** How far the exchange is from its end *)

Definition primary_rank (pc : primary_pc) : Z :=
  match pc with
  | PInit => 56 | PCreate => 55 | PCreate2 => 54
  | PLoop i => 5 * (10 - i) + 3 | PEnqueue i _ => 5 * (10 - i) + 2 | PSent i => 5 * (10 - i) + 1
  | PWait i => 5 * (10 - i) | PReply i _ => 5 * (10 - i) - 1
  | PStop _ => 2 | PBye => 1 | PDone => 0 | PExit => 0
  end.
(** [m] requests have been received. *)
Definition secondary_rank (sc : secondary_pc) (m : Z) : Z :=
  match sc with
  | SInit => 45 | SLookup => 44 | SLookup2 => 43
  | SWait => 4 * (10 - m) + 2 | SGot _ => 4 * (10 - m) + 1 | SReply _ _ => 4 * (10 - m) + 4
  | SSent _ => 4 * (10 - m) + 3 | SDone => 0 | SExit => 0
  end.
Definition rank (p : primary_pc * secondary_pc) (_ : shared) (t : trace) : nat :=
  Z.to_nat (primary_rank p.1 + secondary_rank p.2 (zlen (shown "Secondary: received %d\n" t))).

Definition no_ring (name : string) (s : shared) : bool := bool_decide (rings s !! name = None).
Definition no_item (name : string) (s : shared) : bool := bool_decide (items name s = []).
Definition blocked (x : proc) (p : primary_pc * secondary_pc) (s : shared) : bool :=
  match x with
  | Primary => match p.1 with PWait _ => no_item RING_NAME2 s | PDone | PExit => true | _ => false end
  | Secondary => match p.2 with
      | SWait => no_item RING_NAME s | SLookup => no_ring RING_NAME s | SLookup2 => no_ring RING_NAME2 s
      | SDone | SExit => true | _ => false end
  end.

Hypothesis memory : malloc_works.

Ltac waits := unfold s_waits, p_waits in *; naive_solver lia.


Lemma setup_same p p' s s' :
  setup_ok p s -> caps (RING_SIZE - 1) s' ->
  (forall name, is_Some (rings s' !! name) <-> is_Some (rings s !! name)) ->
  (has_ring p'.1 \/ found_ring p'.2 -> has_ring p.1 \/ found_ring p.2 \/ is_Some (rings s !! RING_NAME)) ->
  (has_ring2 p'.1 \/ found_ring2 p'.2 -> has_ring2 p.1 \/ found_ring2 p.2 \/ is_Some (rings s !! RING_NAME2)) ->
  (p'.1 = PInit \/ p'.1 = PCreate -> p.1 = PInit \/ p.1 = PCreate) ->
  (p'.1 = PInit \/ p'.1 = PCreate \/ p'.1 = PCreate2 -> p.1 = PInit \/ p.1 = PCreate \/ p.1 = PCreate2) ->
  setup_ok p' s'.
Proof.
  intros [H1 H2 H3 H4 H5] Hc He A1 A2 A3 A4.
  constructor; [done|rewrite He; tauto|rewrite He; tauto| |]; intros H; apply eq_None_not_Some; rewrite He.
  - rewrite H4 by auto. by intros [? [=]].
  - rewrite H5 by auto. by intros [? [=]].
Qed.

Lemma step_moves x p s t p' s' t' k n m m0 :
  shown "Secondary: received %d\n" t = seqZ 0 m0 -> 0 <= m0 -> phase p'.1 p'.2 k n m -> 0 <= m -> heap s' = token_heap k ->
  items RING_NAME s' = token_ring k -> items RING_NAME2 s' = token_ring2 k ->
  shown "Primary: received %d\n" t' = map (Z.mul 10) (seqZ 0 n) ->
  shown "Secondary: received %d\n" t' = seqZ 0 m ->
  accounted s' t' -> setup_ok p' s' -> blocked x p s = false ->
  0 <= primary_rank p'.1 + secondary_rank p'.2 m <
    primary_rank p.1 + secondary_rank p.2 m0 ->
  inv p' s' t' /\ progress rank blocked x p s t p' s' t'.
Proof.
  intros HS0 Hm0 Ph Hm Hh H1 H2 HP HS Ha Hs Hb Hr. split; [constructor; [by exists k, n, m|done|done]|].
  unfold progress. rewrite Hb. unfold rank. rewrite HS, HS0, !zlen_seqZ by done. lia.
Qed.

(** A step that moves only the program counter and prints. *)
Lemma step_spins x p s t s' :
  inv p s t -> blocked x p s = true -> heap s' = heap s -> caps (RING_SIZE - 1) s' ->
  (forall name, items name s' = items name s) ->
  (forall name, is_Some (rings s' !! name) <-> is_Some (rings s !! name)) ->
  inv p s' t /\ progress rank blocked x p s t p s' t.
Proof.
  intros [(k & n & m & Ph & Hh & H1 & H2 & HP & HS) Ha Hs] Hb Eh Hc Ei Ee. split.
  - constructor; [by exists k, n, m; rewrite Eh, !Ei|by unfold accounted in *; rewrite Eh|].
    eapply setup_same; [exact Hs|done|done|tauto..].
  - unfold progress. rewrite Hb. split; [done|]. intros y. unfold blocked, no_item, no_ring.
    assert (forall name, bool_decide (rings s' !! name = None) = bool_decide (rings s !! name = None)) as En.
    { intros name. apply bool_decide_ext. rewrite !eq_None_not_Some. by rewrite Ee. }
    by rewrite !Ei, !En.
Qed.

Lemma secondary_rank_nonneg sc m : 0 <= m <= 10 -> 0 <= secondary_rank sc m.
Proof. destruct sc; simpl; lia. Qed.
Lemma phase_bounds pc sc k n m : phase pc sc k n m -> 0 <= n <= 10 /\ 0 <= m <= 10.
Proof. inversion 1; lia. Qed.

Lemma primary_rank_nonneg pc sc k n m : phase pc sc k n m -> 0 <= primary_rank pc.
Proof. inversion 1; subst; unfold p_waits in *; naive_solver lia. Qed.

(** The goals that [step_moves] leaves. *)
Ltac rank_side := cbn [fst snd primary_rank secondary_rank]; first [lia | waits].
Ltac setup_side Hs :=
  eapply setup_same; [exact Hs|first [apply Hs | eapply ru_caps; eassumption]|
    first [done | eapply ru_exists; eassumption]|simpl; try solve [tauto | naive_solver]..].
Ltac moves K N M := eapply (step_moves _ _ _ _ _ _ _ K N M); [eassumption|lia| |lia|..].

(** How the proofs about one step begin. *)
Ltac opening :=
  intros I; pose proof I as [(k & n & m & Ph & Hh & H1 & H2 & HP & HS) Ha Hs]; cbn [fst snd] in *;
  destruct (phase_bounds _ _ _ _ _ Ph) as [Bn Bm];
  match type of Ph with phase _ ?sc _ _ ?m => pose proof (secondary_rank_nonneg sc m Bm) as Hrk end;
  pose proof (primary_rank_nonneg _ _ _ _ _ Ph) as Hrk2; red.

Lemma phase_sent i sc k n m : phase (PSent i) sc k n m -> phase (PWait i) sc k n m.
Proof. inversion 1; subst; try (exfalso; waits); econstructor; waits. Qed.
Lemma phase_bye sc k n m : phase PBye sc k n m -> phase PDone sc k n m.
Proof. inversion 1; subst; try (exfalso; waits); econstructor; waits. Qed.
Lemma phase_wait i sc k n m :
  phase (PWait i) sc k n m ->
  0 <= i < 10 /\ (token_ring2 k = [] \/ exists b, k = InRing2 b (10 * i) /\ m = i + 1 /\ n = i /\ s_waits sc).
Proof.
  inversion 1; subst; try (exfalso; waits); unfold p_waits in *; (split; [naive_solver lia|]); auto.
  right. naive_solver.
Qed.

Definition primary_advances pc sc s t : Prop :=
  wp (primary_step pc) (fun pc' s' t' => inv (pc', sc) s' t' /\
    progress rank blocked Primary (pc, sc) s t (pc', sc) s' t') (fun _ _ _ => False) s t.

Lemma primary_init_ok sc s t : inv (PInit, sc) s t -> primary_advances PInit sc s t.
Proof.
  opening. simpl primary_step. inversion Ph; subst; try (exfalso; waits). wp_steps. moves Nobody 0 0; try done.
  - constructor; [|done]. simpl. destruct (r <? 0); auto.
  - destruct (r <? 0); setup_side Hs.
  - destruct (r <? 0); rank_side.
Qed.

Lemma primary_create_ok sc s t : inv (PCreate, sc) s t -> primary_advances PCreate sc s t.
Proof.
  opening. simpl primary_step. inversion Ph; subst; try (exfalso; waits). wp_step. apply wp_ring_create; [apply Hs|apply Hs; auto| |].
  - intros _. change (0 =? 0) with true. cbv iota. wp_steps. moves Nobody 0 0; try done.
    + constructor; [auto|done].
    + setup_side Hs.
    + rank_side.
  - intros r s' Hr Hc Eh Ei Ee. rewrite (proj2 (Z.eqb_neq _ _) Hr). wp_steps.
    moves Nobody 0 0; rewrite ?Ei, ?Eh; try done.
    + constructor; [auto|done].
    + unfold accounted in *. by rewrite Eh.
    + constructor; [done|intros _; rewrite Ee; auto| | |].
      * simpl. intros [[]|F]. rewrite Ee. right. apply Hs. by right.
      * simpl. naive_solver.
      * simpl. intros _. apply eq_None_not_Some. rewrite Ee. intros [|[? E2]]; [done|].
         rewrite (so_new2 _ _ Hs) in E2 by auto. done.
    + rank_side.
Qed.

Lemma primary_create2_ok sc s t : inv (PCreate2, sc) s t -> primary_advances PCreate2 sc s t.
Proof.
  opening. simpl primary_step. inversion Ph; subst; try (exfalso; waits). wp_step. apply wp_ring_create; [apply Hs|apply Hs; auto| |].
  - intros _. change (0 =? 0) with true. cbv iota. wp_steps. moves Nobody 0 0; try done.
    + constructor; [auto|done].
    + setup_side Hs.
    + rank_side.
  - intros r s' Hr Hc Eh Ei Ee. rewrite (proj2 (Z.eqb_neq _ _) Hr). wp_steps.
    moves Nobody 0 0; rewrite ?Ei, ?Eh; try done.
    + by constructor.
    + unfold accounted in *. by rewrite Eh.
    + constructor; [done| |intros _; rewrite Ee; auto|simpl; naive_solver..].
      intros _. rewrite Ee. right. apply Hs. by left.
    + rank_side.
Qed.

Lemma primary_loop_ok i sc s t : inv (PLoop i, sc) s t -> primary_advances (PLoop i) sc s t.
Proof.
  opening. simpl primary_step. inversion Ph; subst; try (exfalso; waits). destruct (Z.ltb_spec m 10).
  - wp_step. apply wp_alloc_init; [done|done|]. intros a Hna. wp_steps. moves (Held a m) m m; try done.
    + constructor; [lia|done].
    + unfold set_heap. cbn [heap]. rewrite Hh. apply insert_empty.
    + by apply accounted_alloc.
    + setup_side Hs.
    + rank_side.
  - assert (m = 10) as -> by lia.
    wp_step. apply wp_alloc_init; [done|done|]. intros a Hna. wp_steps. moves (Held a (-1)) 10 10; try done.
    + by constructor.
    + unfold set_heap. cbn [heap]. rewrite Hh. apply insert_empty.
    + by apply accounted_alloc.
    + setup_side Hs.
    + rank_side.
Qed.

Lemma primary_enqueue_ok i a sc s t : inv (PEnqueue i a, sc) s t -> primary_advances (PEnqueue i a) sc s t.
Proof.
  opening. simpl primary_step. inversion Ph; subst; try (exfalso; waits). wp_step.
  apply (wp_ring_enqueue (RING_SIZE - 1)); [apply Hs|apply Hs; by left|by rewrite H1|]. intros s' U.
  change (0 <? 0) with false. wp_steps. moves (InRing a m) m m; try done.
  - constructor; [done|by left|done].
  - by rewrite (ru_heap _ _ _ _ _ U), Hh.
  - by rewrite (ru_items _ _ _ _ _ U), H1.
  - by rewrite (ru_other _ _ _ _ _ U), H2.
  - by eapply accounted_ring.
  - setup_side Hs.
  - rank_side.
Qed.

Lemma primary_sent_ok i sc s t : inv (PSent i, sc) s t -> primary_advances (PSent i) sc s t.
Proof.
  opening. simpl primary_step. apply phase_sent in Ph. wp_steps. moves k n m; try done.
  - setup_side Hs.
  - pose proof (phase_wait _ _ _ _ _ Ph) as [Bi _]. rank_side.
Qed.

Lemma primary_wait_ok i sc s t : inv (PWait i, sc) s t -> primary_advances (PWait i) sc s t.
Proof.
  opening. simpl primary_step. apply phase_wait in Ph as [Bi K]. wp_step.
  apply (wp_ring_dequeue (RING_SIZE - 1)); [apply Hs|apply Hs; by left|]. intros s' U. rewrite H2 in *. wp_steps.
  destruct K as [K|(b & -> & -> & -> & Hsc)].
  - rewrite K in *. apply step_spins; try done.
    + simpl. unfold no_item. by rewrite H2.
    + apply U.
    + apply U.
    + eapply ru_same. rewrite H2. exact U.
    + apply U.
  - simpl. moves (Held b (10 * i)) i (i + 1); try done.
    + by constructor.
    + by rewrite (ru_heap _ _ _ _ _ U), Hh.
    + by rewrite (ru_other _ _ _ _ _ U), H1.
    + by rewrite (ru_items _ _ _ _ _ U).
    + by eapply accounted_ring.
    + setup_side Hs.
    + simpl. unfold no_item. by rewrite H2.
    + rank_side.
Qed.

Lemma primary_reply_ok i a sc s t : inv (PReply i a, sc) s t -> primary_advances (PReply i a) sc s t.
Proof.
  opening. simpl primary_step. inversion Ph; subst; try (exfalso; waits). simpl in Hh.
  assert (heap s !! a = Some (10 * n)) as La by (by rewrite Hh, lookup_singleton_eq).
  wp_step. eapply wp_load; [exact La|]. wp_steps. eapply wp_release; [exact La|]. wp_steps.
  moves Nobody (n + 1) (n + 1); try done.
  - constructor; [lia|done].
  - unfold set_heap. cbn [heap]. rewrite Hh. apply delete_singleton_eq.
  - simpl. by rewrite HP, seqZ_snoc, map_app by lia.
  - by apply accounted_release.
  - setup_side Hs.
  - rank_side.
Qed.

Lemma primary_stop_ok a sc s t : inv (PStop a, sc) s t -> primary_advances (PStop a) sc s t.
Proof.
  opening. simpl primary_step. inversion Ph; subst; try (exfalso; waits). wp_step.
  apply (wp_ring_enqueue (RING_SIZE - 1)); [apply Hs|apply Hs; by left|by rewrite H1|]. intros s' U.
  wp_steps. moves (InRing a (-1)) 10 10; try done.
  - constructor; [by left|done].
  - by rewrite (ru_heap _ _ _ _ _ U), Hh.
  - by rewrite (ru_items _ _ _ _ _ U), H1.
  - by rewrite (ru_other _ _ _ _ _ U), H2.
  - by eapply accounted_ring.
  - setup_side Hs.
  - rank_side.
Qed.

Lemma primary_bye_ok sc s t : inv (PBye, sc) s t -> primary_advances PBye sc s t.
Proof.
  opening. simpl primary_step. apply phase_bye in Ph. wp_steps. moves k n m; try done.
  - setup_side Hs.
  - rank_side.
Qed.

Lemma primary_step_ok pc sc s t : inv (pc, sc) s t -> primary_advances pc sc s t.
Proof.
  intros I. destruct pc; first [by apply primary_init_ok | by apply primary_create_ok | by apply primary_create2_ok | by apply primary_loop_ok | by apply primary_enqueue_ok | by apply primary_sent_ok | by apply primary_wait_ok | by apply primary_reply_ok | by apply primary_stop_ok | by apply primary_bye_ok | wp_steps; by apply step_spins; [..|apply I| |]].
Qed.

Lemma phase_waiting pc sc sc' k n m : phase pc sc k n m -> s_waits sc -> s_waits sc' -> phase pc sc' k n m.
Proof. inversion 1; subst; simpl; intros; try done; by constructor. Qed.
Lemma phase_take pc k n m :
  phase pc SWait k n m -> token_ring k = [] \/ exists a v, k = InRing a v /\ phase pc (SGot a) (Held a v) n m.
Proof. inversion 1; subst; auto; right; eexists _, _; (split; [done|]); by constructor. Qed.

Definition secondary_advances pc sc s t : Prop :=
  wp (secondary_step sc) (fun sc' s' t' => inv (pc, sc') s' t' /\
    progress rank blocked Secondary (pc, sc) s t (pc, sc') s' t') (fun _ _ _ => False) s t.

Lemma secondary_init_ok pc s t : inv (pc, SInit) s t -> secondary_advances pc SInit s t.
Proof.
  opening. simpl secondary_step. wp_steps. moves k n m; try done.
  - by apply (phase_waiting _ SInit); [| |destruct (r <? 0)].
  - destruct (r <? 0); setup_side Hs.
  - destruct (r <? 0); rank_side.
Qed.

Lemma secondary_lookup_ok pc s t : inv (pc, SLookup) s t -> secondary_advances pc SLookup s t.
Proof.
  opening. simpl secondary_step. wp_step. apply wp_gets. case_bool_decide as Hring; wp_steps.
  - moves k n m; try done; [by apply (phase_waiting _ SLookup)|setup_side Hs| |rank_side].
    simpl. unfold no_ring. apply bool_decide_false. by apply not_eq_None_Some.
  - apply step_spins; try done; [|by apply Hs]. simpl. unfold no_ring. apply bool_decide_true.
    by apply eq_None_not_Some.
Qed.

Lemma secondary_lookup2_ok pc s t : inv (pc, SLookup2) s t -> secondary_advances pc SLookup2 s t.
Proof.
  opening. simpl secondary_step. wp_step. apply wp_gets. case_bool_decide as Hring; wp_steps.
  - moves k n m; try done; [by apply (phase_waiting _ SLookup2)|setup_side Hs| |rank_side].
    simpl. unfold no_ring. apply bool_decide_false. by apply not_eq_None_Some.
  - apply step_spins; try done; [|by apply Hs]. simpl. unfold no_ring. apply bool_decide_true.
    by apply eq_None_not_Some.
Qed.

Lemma secondary_wait_ok pc s t : inv (pc, SWait) s t -> secondary_advances pc SWait s t.
Proof.
  opening. simpl secondary_step. apply phase_take in Ph as K. wp_step.
  apply (wp_ring_dequeue (RING_SIZE - 1)); [apply Hs|apply Hs; by right|]. intros s' U. rewrite H1 in *. wp_steps.
  destruct K as [K|(a & v & -> & Ph')].
  - rewrite K in *. apply step_spins; try done.
    + simpl. unfold no_item. by rewrite H1.
    + apply U.
    + apply U.
    + eapply ru_same. rewrite H1. exact U.
    + apply U.
  - simpl. moves (Held a v) n m; try done.
    + by rewrite (ru_heap _ _ _ _ _ U), Hh.
    + by rewrite (ru_items _ _ _ _ _ U).
    + by rewrite (ru_other _ _ _ _ _ U), H2.
    + by eapply accounted_ring.
    + setup_side Hs.
    + simpl. unfold no_item. by rewrite H1.
    + rank_side.
Qed.

Lemma secondary_got_ok a pc s t : inv (pc, SGot a) s t -> secondary_advances pc (SGot a) s t.
Proof.
  opening. simpl secondary_step. assert (exists v, k = Held a v) as [v ->] by (inversion Ph; subst; try (exfalso; waits); eauto).
  assert (heap s !! a = Some v) as La by (by rewrite Hh; simpl; apply lookup_singleton_eq).
  wp_step. eapply wp_load; [exact La|].
  inversion Ph; subst; try (exfalso; waits).
  - destruct (Z.eqb_spec m (-1)); [lia|]. wp_steps.
    apply (wp_deref _ (10 * m)); [by apply int_mul_small|]. wp_steps.
    eapply wp_release; [exact La|]. wp_steps.
    apply wp_alloc_init; [done|by apply accounted_release|]. intros b Hb. wp_steps.
    moves (Held b (10 * m)) m (m + 1); try done.
    + by constructor.
    + unfold set_heap. cbn [heap]. rewrite Hh. simpl. by rewrite delete_singleton_eq.
    + simpl. by rewrite HS, seqZ_snoc by lia.
    + by apply accounted_alloc, accounted_release.
    + setup_side Hs.
    + rank_side.
  - simpl. wp_steps. eapply wp_release; [exact La|]. wp_steps. moves Nobody 10 10; try done.
    + by constructor.
    + unfold set_heap. cbn [heap]. rewrite Hh. apply delete_singleton_eq.
    + by apply accounted_release.
    + setup_side Hs.
    + rank_side.
Qed.

Lemma secondary_reply_ok b v pc s t : inv (pc, SReply b v) s t -> secondary_advances pc (SReply b v) s t.
Proof.
  opening. simpl secondary_step. inversion Ph; subst; try (exfalso; waits). wp_step.
  apply (wp_ring_enqueue (RING_SIZE - 1)); [apply Hs|apply Hs; by right|by rewrite H2|]. intros s' U.
  change (0 <? 0) with false. wp_steps. moves (InRing2 b (10 * n)) n (n + 1); try done.
  - by constructor.
  - by rewrite (ru_heap _ _ _ _ _ U), Hh.
  - by rewrite (ru_other _ _ _ _ _ U), H1.
  - by rewrite (ru_items _ _ _ _ _ U), H2.
  - by eapply accounted_ring.
  - setup_side Hs.
  - rank_side.
Qed.

Lemma secondary_sent_ok v pc s t : inv (pc, SSent v) s t -> secondary_advances pc (SSent v) s t.
Proof.
  opening. simpl secondary_step. wp_steps. moves k n m; try done.
  - by eapply (phase_waiting _ (SSent v)).
  - setup_side Hs.
  - rank_side.
Qed.

Lemma secondary_step_ok pc sc s t : inv (pc, sc) s t -> secondary_advances pc sc s t.
Proof.
  intros I. destruct sc; first [by apply secondary_init_ok | by apply secondary_lookup_ok | by apply secondary_lookup2_ok | by apply secondary_wait_ok | by apply secondary_got_ok | by apply secondary_reply_ok | by apply secondary_sent_ok | wp_steps; by apply step_spins; [..|apply I| |]].
Qed.

Notation duplex_step := (proc_step primary_step secondary_step).

Lemma duplex_step_ok x p s t :
  inv p s t ->
  wp (duplex_step x p) (fun p' s' t' => inv p' s' t' /\ progress rank blocked x p s t p' s' t')
    (fun _ _ _ => False) s t.
Proof.
  destruct p as [pc sc], x; intros I; unfold proc_step; simpl; wp_step.
  - eapply wp_mono; [by apply primary_step_ok| |done]. intros pc' s' t' H. by wp_steps.
  - eapply wp_mono; [by apply secondary_step_ok| |done]. intros sc' s' t' H. by wp_steps.
Qed.

Lemma inv_start : inv (PInit, SInit) no_memory [].
Proof.
  constructor; [|done|].
  - exists Nobody, 0, 0. split; [constructor; [by left|done]|done].
  - constructor; simpl; [done|tauto|tauto|done|done].
Qed.

(** C6: The two processes exchange what they should, whatever the order of their steps: nothing
    faults, so that no block is used after it was freed and no [int] overflows; the primary
    receives 0, 10, 20, ... in order, one reply for each number the secondary has received, at most
    one number behind it; at most one block is alive; and when both have ended all ten numbers have
    been exchanged, every block has been freed and both rings are empty. *)
Theorem duplex_correct sched :
  wp (duplex_run sched) (fun p s t => exists n m, 0 <= n <= m /\ m <= n + 1 /\ m <= 10 /\
      shown "Primary: received %d\n" t = map (Z.mul 10) (seqZ 0 n) /\
      shown "Secondary: received %d\n" t = seqZ 0 m /\
      (size (live_blocks t) <= 1)%nat /\
      (p = (PDone, SDone) -> n = 10 /\ live_blocks t = ∅ /\
         items RING_NAME s = [] /\ items RING_NAME2 s = []))
    (fun _ _ _ => False) no_memory [].
Proof.
  eapply wp_mono; [apply (wp_run _ _ inv); [|apply inv_start]| |done].
  - intros x p s t I. eapply wp_mono; [by apply duplex_step_ok| |done]. by intros p' s' t' [? _].
  - intros [pc sc] s t [(k & n & m & Ph & Hh & H1 & H2 & HP & HS) Ha _]. cbn [fst snd] in *. exists n, m.
    assert (0 <= n <= m /\ m <= n + 1 /\ m <= 10) as (? & ? & ?) by (inversion Ph; lia).
    split_and!; try done; try lia.
    + rewrite Ha, Hh. destruct k; simpl; rewrite ?dom_empty_L, ?size_empty, ?dom_singleton_L, ?size_singleton; lia.
    + intros [= -> ->]. inversion Ph; subst; try (exfalso; waits).
      rewrite Ha, Hh, H1, H2. split; [done|]. split; [apply dom_empty_L|done].
Qed.

Lemma waiting_blocked pc sc s :
  setup_ok (pc, sc) s -> has_ring pc -> has_ring2 pc -> items RING_NAME s <> [] -> s_waits sc ->
  blocked Secondary (pc, sc) s = true -> sc = SExit.
Proof.
  intros Hs Hr1 Hr2 Hi Hw. pose proof (so_ring _ _ Hs (or_introl Hr1)) as R1. pose proof (so_ring2 _ _ Hs (or_introl Hr2)) as R2.
  destruct sc; simpl; unfold no_ring, no_item; intros B; try done; apply bool_decide_eq_true in B; try done;
    rewrite B in *; by destruct R1, R2.
Qed.

Lemma blocked_end p s t :
  inv p s t -> (rank p s t = 0%nat \/ forall x, blocked x p s = true) ->
  p = (PDone, SDone) \/ p.1 = PExit \/ p.2 = SExit.
Proof.
  destruct p as [pc sc]. intros [(k & n & m & Ph & Hh & H1 & H2 & HP & HS) Ha Hs] H. cbn [fst snd] in *.
  destruct (phase_bounds _ _ _ _ _ Ph) as [Bn Bm]. pose proof (primary_rank_nonneg _ _ _ _ _ Ph) as R1.
  pose proof (secondary_rank_nonneg sc m Bm) as R2. destruct H as [H|H].
  - unfold rank in H. cbn [fst snd] in H. rewrite HS, zlen_seqZ in H by lia.
    inversion Ph; subst; unfold p_waits in *; destruct_or?; subst; simpl in *; try lia; auto;
      destruct sc; simpl in *; auto; try lia; done.
  - pose proof (H Primary) as B1. pose proof (H Secondary) as B2.
    inversion Ph; subst; try (by destruct B2); unfold p_waits in *; destruct_or?; subst; simpl in B1; try done; auto.
    + right; right. eapply waiting_blocked; try done. by rewrite H1.
    + unfold no_item in B1. rewrite H2 in B1. by apply bool_decide_eq_true in B1.
    + right; right. eapply waiting_blocked; try done. by rewrite H1.
Qed.

(** C23: Neither process waits for ever: 101 rounds, in each of which both processes take at least
    one step, in any order and any number, are enough for both to end, unless one of them has
    called [rte_exit] because the EAL or a ring could not be had. *)
Theorem duplex_ends ls :
  Forall round ls -> (101 <= length ls)%nat ->
  wp (duplex_run (concat ls)) (fun p _ _ => p = (PDone, SDone) \/ p.1 = PExit \/ p.2 = SExit)
    (fun _ _ _ => False) no_memory [].
Proof.
  intros Hr Hl. eapply wp_mono; [apply (wp_rounds_end _ _ inv rank blocked duplex_step_ok ls)| |done].
  - apply inv_start.
  - done.
  - change (rank (PInit, SInit) no_memory []) with 101%nat. lia.
  - intros p s t [I H]. by eapply blocked_end.
Qed.
End Duplex.

#[local] Instance wenv : Env := sim_env quiet_script.
#[local] Existing Instance sim_ring.

Lemma duplex_correct_witness :
  shown "Primary: received %d\n" (match duplex_run (concat (repeat [Primary; Secondary] 101)) no_memory [] with
    | Done _ _ t => t | _ => [] end) = [0; 10; 20; 30; 40; 50; 60; 70; 80; 90] /\
  wp (duplex_run [Primary; Secondary]) (fun p s t => exists n m, 0 <= n <= m /\ m <= n + 1 /\ m <= 10 /\
      shown "Primary: received %d\n" t = map (Z.mul 10) (seqZ 0 n) /\
      shown "Secondary: received %d\n" t = seqZ 0 m /\
      (size (live_blocks t) <= 1)%nat /\
      (p = (PDone, SDone) -> n = 10 /\ live_blocks t = ∅ /\
         items RING_NAME s = [] /\ items RING_NAME2 s = []))
    (fun _ _ _ => False) no_memory [].
Proof. split; [by vm_compute|]. apply duplex_correct; by apply sim_malloc_works. Defined.

Lemma duplex_ends_witness :
  wp (duplex_run (concat (repeat [Primary; Secondary] 101)))
    (fun p _ _ => p = (PDone, SDone) \/ p.1 = PExit \/ p.2 = SExit) (fun _ _ _ => False) no_memory [].
Proof.
  apply duplex_ends; [by apply sim_malloc_works| |by rewrite repeat_length].
  apply Forall_forall. intros l Hl%list_elem_of_In%repeat_spec. subst. split; set_solver.
Defined.
