(* ===== verification/RingSingle.v ===== *)
(** * inter_process_comm/single_ring_full_duplex: both directions over one ring

    Requests and responses share one ring; a process that takes a message that
    is not for it puts it back. *)

From S2P Require Import Prelude Rte Env Schedule Ipc Sim.

(** common.h *)
Definition RING_NAME : string := "FD_RING".
Definition RING_SIZE := 1024.
Definition PROC_A := 1.
Definition PROC_B := 2.
Inductive msg_type := MSG_REQ | MSG_RESP | MSG_EXIT.
Record msg := Msg { src_id : Z; dst_id : Z; mtype : msg_type; value : Z }.
Definition sizeof_msg := 16.

Section Single.
Context {E : Env} {RR : RteRing Z}.
Notation shared := (@shared RR msg).
Notation M := (M shared).

(** ** primary.c *)

Inductive primary_pc :=
| PInit
| PCreate
| PLoop (i : Z)
| PEnqueue (i a : Z)       (* while (rte_ring_enqueue(ring, m) < 0) *)
| PSent (i : Z)
| PWait (i : Z)            (* for (;;) *)
| PGot (i a : Z)
| PPutBack (i a : Z)
| PExitMsg (a : Z)
| PBye
| PDone
| PExit.

Definition primary_step (pc : primary_pc) : M primary_pc :=
  match pc with
  | PInit => _ <-- call rte_eal_init ;; ret PCreate
  | PCreate =>
      r <-- ring_create RING_NAME RING_SIZE 0 ;;
      if r =? 0 then ret PExit
      else printf "Primary: ring created\n" [] ;; ret (PLoop 0)
  | PLoop i =>
      if i <? 10 then m <-- alloc_init sizeof_msg (Msg PROC_A PROC_B MSG_REQ i) ;; ret (PEnqueue i m)
      else m <-- alloc_init sizeof_msg (Msg PROC_A PROC_B MSG_EXIT 0) ;; ret (PExitMsg m)
  | PEnqueue i a => r <-- enqueue RING_NAME a ;; ret (if r <? 0 then PEnqueue i a else PSent i)
  | PSent i => printf "Primary: sent %d\n" [PInt i] ;; ret (PWait i)
  | PWait i =>
      o <-- dequeue RING_NAME ;;
      ret (match o with Some obj => PGot i obj | None => PWait i end)
  | PGot i a =>
      m <-- load a ;;
      if negb (dst_id m =? PROC_A) then ret (PPutBack i a)
      else match mtype m with
           | MSG_RESP =>
               printf "Primary: received %d\n" [PInt (value m)] ;;
               release a ;;
               ret (PLoop (i + 1))
           | _ => ret (PWait i)
           end
  | PPutBack i a => _ <-- enqueue RING_NAME a ;; ret (PWait i)
  | PExitMsg a => _ <-- enqueue RING_NAME a ;; ret PBye
  | PBye => printf "Primary: done\n" [] ;; ret PDone
  | PDone => ret PDone
  | PExit => ret PExit
  end.

(** ** secondary.c *)

Inductive secondary_pc :=
| SInit
| SLookup
| SWait                    (* for (;;) *)
| SGot (a : Z)
| SPutBack (a : Z)
| SReply (b : Z)           (* while (rte_ring_enqueue(ring, resp) < 0) *)
| SSent (b : Z)
| SDone.

(** The last line reads [resp->value] after [resp] was enqueued. *)
Definition secondary_step (pc : secondary_pc) : M secondary_pc :=
  match pc with
  | SInit => _ <-- call rte_eal_init ;; ret SLookup
  | SLookup =>
      b <-- ring_lookup RING_NAME ;;
      if b : bool then printf "Secondary: ring found\n" [] ;; ret SWait else ret SLookup
  | SWait =>
      o <-- dequeue RING_NAME ;;
      ret (match o with Some obj => SGot obj | None => SWait end)
  | SGot a =>
      m <-- load a ;;
      if negb (dst_id m =? PROC_B) then ret (SPutBack a)
      else match mtype m with
           | MSG_EXIT => release a ;; printf "Secondary: exit\n" [] ;; ret SDone
           | MSG_REQ =>
               printf "Secondary: received %d\n" [PInt (value m)] ;;
               v <-- deref (int_mul (value m) 10) ;;
               resp <-- alloc_init sizeof_msg (Msg PROC_B PROC_A MSG_RESP v) ;;
               release a ;;
               ret (SReply resp)
           | MSG_RESP => ret SWait
           end
  | SPutBack a => _ <-- enqueue RING_NAME a ;; ret SWait
  | SReply b => r <-- enqueue RING_NAME b ;; ret (if r <? 0 then SReply b else SSent b)
  | SSent b => m <-- load b ;; printf "Secondary: sent %d\n" [PInt (value m)] ;; ret SWait
  | SDone => ret SDone
  end.

Definition single_run (sched : list proc) : M (primary_pc * secondary_pc) :=
  run primary_step secondary_step sched (PInit, SInit).

(** ** The exchange *)

Inductive token := Nobody | Held (a : Z) (m : msg) | InRing (a : Z) (m : msg).
Definition token_heap (k : token) : gmap Z msg :=
  match k with Nobody => ∅ | Held a m | InRing a m => {[a := m]} end.
Definition token_ring (k : token) : list Z := match k with InRing a _ => [a] | _ => [] end.

Definition request (i : Z) : msg := Msg PROC_A PROC_B MSG_REQ i.
Definition response (i : Z) : msg := Msg PROC_B PROC_A MSG_RESP (10 * i).
Definition goodbye : msg := Msg PROC_A PROC_B MSG_EXIT 0.

Definition s_waits (pc : secondary_pc) : Prop :=
  match pc with SInit | SLookup | SWait | SSent _ => True | _ => False end.
Definition p_waits (i : Z) (pc : primary_pc) : Prop := pc = PSent i \/ pc = PWait i.

(** [n] responses have been received by the primary, [m] requests by the
    secondary; either may have taken its own message and be about to put it back. *)
Inductive phase : primary_pc -> secondary_pc -> token -> Z -> Z -> Prop :=
| ph_setup pc sc : pc = PInit \/ pc = PCreate \/ pc = PExit -> s_waits sc -> phase pc sc Nobody 0 0
| ph_loop i sc : 0 <= i <= 10 -> s_waits sc -> phase (PLoop i) sc Nobody i i
| ph_made i a sc : 0 <= i < 10 -> s_waits sc -> phase (PEnqueue i a) sc (Held a (request i)) i i
| ph_request i a pc sc : 0 <= i < 10 -> p_waits i pc -> s_waits sc -> phase pc sc (InRing a (request i)) i i
| ph_own_request i a pc sc : 0 <= i < 10 -> pc = PGot i a \/ pc = PPutBack i a -> s_waits sc ->
    phase pc sc (Held a (request i)) i i
| ph_taken i a pc : 0 <= i < 10 -> p_waits i pc -> phase pc (SGot a) (Held a (request i)) i i
| ph_answered i b pc : 0 <= i < 10 -> p_waits i pc -> phase pc (SReply b) (Held b (response i)) i (i + 1)
| ph_response i b pc sc : 0 <= i < 10 -> p_waits i pc -> s_waits sc -> phase pc sc (InRing b (response i)) i (i + 1)
| ph_own_response i b pc sc : 0 <= i < 10 -> p_waits i pc -> sc = SGot b \/ sc = SPutBack b ->
    phase pc sc (Held b (response i)) i (i + 1)
| ph_got i b sc : 0 <= i < 10 -> s_waits sc -> phase (PGot i b) sc (Held b (response i)) i (i + 1)
| ph_goodbye a sc : s_waits sc -> phase (PExitMsg a) sc (Held a goodbye) 10 10
| ph_left a pc sc : pc = PBye \/ pc = PDone -> s_waits sc -> phase pc sc (InRing a goodbye) 10 10
| ph_last a pc : pc = PBye \/ pc = PDone -> phase pc (SGot a) (Held a goodbye) 10 10
| ph_end pc : pc = PBye \/ pc = PDone -> phase pc SDone Nobody 10 10.

Definition has_ring (pc : primary_pc) : Prop := match pc with PInit | PCreate | PExit => False | _ => True end.
Definition found_ring (sc : secondary_pc) : Prop := match sc with SInit | SLookup => False | _ => True end.

Record inv (p : primary_pc * secondary_pc) (s : shared) (t : trace) : Prop := {
  i_phase : exists k n m, phase p.1 p.2 k n m /\ heap s = token_heap k /\ items RING_NAME s = token_ring k /\
    shown "Primary: received %d\n" t = map (Z.mul 10) (seqZ 0 n) /\
    shown "Secondary: received %d\n" t = seqZ 0 m;
  i_acct : accounted s t;
  i_caps : caps (RING_SIZE - 1) s;
  i_ring : has_ring p.1 \/ found_ring p.2 -> is_Some (rings s !! RING_NAME);
  i_new : p.1 = PInit \/ p.1 = PCreate -> rings s !! RING_NAME = None }.

(** The step that may read a block that the other process has freed. *)
Definition safe_step (x : proc) (p : primary_pc * secondary_pc) (s : shared) : bool :=
  match x, p.2 with Secondary, SSent b => bool_decide (is_Some (heap s !! b)) | _, _ => true end.

Hypothesis memory : malloc_works.

Ltac waits := unfold s_waits, p_waits in *; naive_solver lia.

(** Steps that leave the ring alone, and those that use it. *)
Lemma inv_step p s t p' s' t' k n m :
  inv p s t -> phase p'.1 p'.2 k n m -> heap s' = token_heap k -> rings s' = rings s ->
  items RING_NAME s = token_ring k ->
  shown "Primary: received %d\n" t' = map (Z.mul 10) (seqZ 0 n) ->
  shown "Secondary: received %d\n" t' = seqZ 0 m -> accounted s' t' ->
  (has_ring p'.1 \/ found_ring p'.2 -> has_ring p.1 \/ found_ring p.2 \/ is_Some (rings s !! RING_NAME)) ->
  (p'.1 = PInit \/ p'.1 = PCreate -> p.1 = PInit \/ p.1 = PCreate) ->
  inv p' s' t'.
Proof.
  intros [_ _ Hc Hr Hn] Ph Hh Er Hi HP HS Ha F1 F2. constructor; [|done| |rewrite Er; tauto|rewrite Er; tauto].
  - exists k, n, m. split_and!; try done. unfold items in *. by rewrite Er.
  - intros name q. rewrite Er. apply Hc.
Qed.
Lemma inv_use p s t p' s' k n m l :
  inv p s t -> ring_update (RING_SIZE - 1) RING_NAME l s s' ->
  phase p'.1 p'.2 k n m -> heap s = token_heap k -> l = token_ring k ->
  shown "Primary: received %d\n" t = map (Z.mul 10) (seqZ 0 n) ->
  shown "Secondary: received %d\n" t = seqZ 0 m ->
  has_ring p.1 \/ found_ring p.2 -> (p'.1 = PInit \/ p'.1 = PCreate -> p.1 = PInit \/ p.1 = PCreate) ->
  inv p' s' t.
Proof.
  intros [_ Ha Hc Hr Hn] U Ph Hh Hi HP HS F1 F2. constructor.
  - exists k, n, m. rewrite (ru_heap _ _ _ _ _ U), (ru_items _ _ _ _ _ U). auto.
  - by eapply accounted_ring.
  - apply U.
  - intros _. by apply U, Hr.
  - intros F. pose proof (Hr F1) as R. rewrite Hn in R by auto. by destruct R.
Qed.

Lemma single_phase_sent i sc k n m : phase (PSent i) sc k n m -> phase (PWait i) sc k n m.
Proof. inversion 1; subst; try (exfalso; waits); econstructor; waits. Qed.
Lemma single_phase_bye sc k n m : phase PBye sc k n m -> phase PDone sc k n m.
Proof. inversion 1; subst; try (exfalso; waits); econstructor; waits. Qed.
Lemma single_phase_waiting pc sc sc' k n m : phase pc sc k n m -> s_waits sc -> s_waits sc' -> phase pc sc' k n m.
Proof. inversion 1; subst; simpl; intros; try done; try (by econstructor); waits. Qed.

(** Taking the message out of the ring. *)
Lemma phase_p_take i sc k n m :
  phase (PWait i) sc k n m ->
  token_ring k = [] \/ exists a v, k = InRing a v /\ phase (PGot i a) sc (Held a v) n m.
Proof.
  inversion 1; subst; auto; right; eexists _, _; (split; [done|]).
  - assert (i = m) as -> by waits. apply ph_own_request; auto.
  - assert (i = n) as -> by waits. by apply ph_got.
  - waits.
Qed.
Lemma phase_s_take pc k n m :
  phase pc SWait k n m -> token_ring k = [] \/ exists a v, k = InRing a v /\ phase pc (SGot a) (Held a v) n m.
Proof.
  inversion 1; subst; auto; right; eexists _, _; (split; [done|]).
  - by apply ph_taken.
  - apply ph_own_response; auto.
  - by apply ph_last.
Qed.

Ltac start := intros I; pose proof I as [(k & n & m & Ph & Hh & H1 & HP & HS) Ha Hc Hr Hn]; cbn [fst snd] in *.
Ltac step_with K N M := eapply (inv_step _ _ _ _ _ _ K N M);
  [eassumption| | | | | | | |simpl; solve [tauto | naive_solver]|simpl; solve [tauto | naive_solver]]; try done.

(** A step of the primary keeps the invariant. *)
Definition primary_keeps pc sc s t : Prop :=
  wp (primary_step pc) (fun pc' s' t' => inv (pc', sc) s' t') (fun _ _ _ => False) s t.

Lemma single_init_ok sc s t : inv (PInit, sc) s t -> primary_keeps PInit sc s t.
Proof.
  start. red. simpl primary_step. inversion Ph; subst; try (exfalso; waits). wp_steps. step_with Nobody 0 0. constructor; auto.
Qed.
Lemma single_create_ok sc s t : inv (PCreate, sc) s t -> primary_keeps PCreate sc s t.
Proof.
  start. red. simpl primary_step. inversion Ph; subst; try (exfalso; waits). wp_step. apply wp_ring_create; [done|auto| |].
  - intros _. change (0 =? 0) with true. cbv iota. wp_steps. step_with Nobody 0 0. constructor; auto.
  - intros r s' Hr0 Hc' Eh Ei Ee. rewrite (proj2 (Z.eqb_neq _ _) Hr0). wp_steps. constructor.
    + exists Nobody, 0, 0. rewrite Eh, Ei. split_and!; try done. by constructor.
    + unfold accounted in *. by rewrite Eh.
    + done.
    + intros _. rewrite Ee. auto.
    + by intros [?|?].
Qed.
Lemma single_loop_ok i sc s t : inv (PLoop i, sc) s t -> primary_keeps (PLoop i) sc s t.
Proof.
  start. red. simpl primary_step. inversion Ph; subst; try (exfalso; waits). destruct (Z.ltb_spec m 10).
  - wp_step. apply wp_alloc_init; [done|done|]. intros a Hna. wp_steps. step_with (Held a (request m)) m m.
    + constructor; [lia|done].
    + unfold set_heap. cbn [heap]. rewrite Hh. apply insert_empty.
    + by apply accounted_alloc.
  - assert (m = 10) as -> by lia.
    wp_step. apply wp_alloc_init; [done|done|]. intros a Hna. wp_steps. step_with (Held a goodbye) 10 10.
    + by constructor.
    + unfold set_heap. cbn [heap]. rewrite Hh. apply insert_empty.
    + by apply accounted_alloc.
Qed.
Lemma single_enqueue_ok i a sc s t : inv (PEnqueue i a, sc) s t -> primary_keeps (PEnqueue i a) sc s t.
Proof.
  start. red. simpl primary_step. inversion Ph; subst; try (exfalso; waits). wp_step.
  apply (wp_ring_enqueue (RING_SIZE - 1)); [done|apply Hr; by left|by rewrite H1|]. intros s' U.
  change (0 <? 0) with false. wp_steps. eapply (inv_use _ _ _ _ _ (InRing a (request m)) m m); try done.
  - apply ph_request; [done|by left|done].
  - by rewrite H1.
  - by left.
  - by intros [?|?].
Qed.
Lemma single_sent_ok i sc s t : inv (PSent i, sc) s t -> primary_keeps (PSent i) sc s t.
Proof.
  start. red. simpl primary_step. apply single_phase_sent in Ph. wp_steps. by step_with k n m.
Qed.
Lemma single_wait_ok i sc s t : inv (PWait i, sc) s t -> primary_keeps (PWait i) sc s t.
Proof.
  start. red. simpl primary_step. apply phase_p_take in Ph as K. wp_step.
  apply (wp_ring_dequeue (RING_SIZE - 1)); [done|apply Hr; by left|]. intros s' U. rewrite H1 in *. wp_steps.
  destruct K as [K|(a & v & -> & Ph')].
  - rewrite K in *. eapply (inv_use _ _ _ _ _ k n m); try done; try (by intros [?|?]). by left.
  - simpl. eapply (inv_use _ _ _ _ _ (Held a v) n m); try done; try (by intros [?|?]). by left.
Qed.
Lemma single_got_ok i a sc s t : inv (PGot i a, sc) s t -> primary_keeps (PGot i a) sc s t.
Proof.
  start. red. simpl primary_step. assert (exists v, k = Held a v) as [v ->] by (inversion Ph; subst; try (exfalso; waits); naive_solver).
  assert (heap s !! a = Some v) as La by (by rewrite Hh; simpl; apply lookup_singleton_eq).
  wp_step. eapply wp_load; [exact La|]. inversion Ph; subst; try (exfalso; waits); simpl.
  - wp_steps. step_with (Held a (request m)) m m. assert (i = m) as -> by naive_solver.
    apply ph_own_request; auto.
  - wp_steps. eapply wp_release; [exact La|]. wp_steps. step_with Nobody (n + 1) (n + 1).
    + constructor; [lia|done].
    + unfold set_heap. cbn [heap]. rewrite Hh. apply delete_singleton_eq.
    + simpl. by rewrite HP, seqZ_snoc, map_app by lia.
    + by apply accounted_release.
Qed.
Lemma single_put_back_ok i a sc s t : inv (PPutBack i a, sc) s t -> primary_keeps (PPutBack i a) sc s t.
Proof.
  start. red. simpl primary_step. inversion Ph; subst; try (exfalso; waits). wp_step.
  apply (wp_ring_enqueue (RING_SIZE - 1)); [done|apply Hr; by left|by rewrite H1|]. intros s' U.
  wp_steps. assert (i = m /\ a0 = a) as [-> ->] by naive_solver.
  eapply (inv_use _ _ _ _ _ (InRing a (request m)) m m); try done.
  - apply ph_request; [done|by right|done].
  - by rewrite H1.
  - by left.
  - by intros [?|?].
Qed.
Lemma single_exit_msg_ok a sc s t : inv (PExitMsg a, sc) s t -> primary_keeps (PExitMsg a) sc s t.
Proof.
  start. red. simpl primary_step. inversion Ph; subst; try (exfalso; waits). wp_step.
  apply (wp_ring_enqueue (RING_SIZE - 1)); [done|apply Hr; by left|by rewrite H1|]. intros s' U.
  wp_steps. eapply (inv_use _ _ _ _ _ (InRing a goodbye) 10 10); try done.
  - apply ph_left; auto.
  - by rewrite H1.
  - by left.
  - by intros [?|?].
Qed.
Lemma single_bye_ok sc s t : inv (PBye, sc) s t -> primary_keeps PBye sc s t.
Proof.
  start. red. simpl primary_step. apply single_phase_bye in Ph. wp_steps. by step_with k n m.
Qed.

Lemma single_primary_ok pc sc s t : inv (pc, sc) s t -> primary_keeps pc sc s t.
Proof.
  intros I. destruct pc; first [by apply single_init_ok | by apply single_create_ok | by apply single_loop_ok | by apply single_enqueue_ok | by apply single_sent_ok | by apply single_wait_ok | by apply single_got_ok | by apply single_put_back_ok | by apply single_exit_msg_ok | by apply single_bye_ok | by wp_steps].
Qed.

Lemma single_secondary_ok pc sc s t :
  inv (pc, sc) s t -> safe_step Secondary (pc, sc) s = true ->
  wp (secondary_step sc) (fun sc' s' t' => inv (pc, sc') s' t') (fun _ _ _ => False) s t.
Proof.
  start. destruct sc as [| | |a|a|b|b|]; simpl secondary_step; intros Hsafe.
  - (* SInit *) wp_steps. step_with k n m. by apply (single_phase_waiting _ SInit).
  - (* SLookup *) wp_step. apply wp_gets. case_bool_decide as Hring; wp_steps; [|done].
    step_with k n m. by apply (single_phase_waiting _ SLookup).
  - (* SWait *) apply phase_s_take in Ph as K. wp_step.
    apply (wp_ring_dequeue (RING_SIZE - 1)); [done|apply Hr; by right|]. intros s' U. rewrite H1 in *. wp_steps.
    destruct K as [K|(a & v & -> & Ph')].
    + rewrite K in *. eapply (inv_use _ _ _ _ _ k n m); try done. by right.
    + simpl. eapply (inv_use _ _ _ _ _ (Held a v) n m); try done. by right.
  - (* SGot *) assert (exists v, k = Held a v) as [v ->] by (inversion Ph; subst; try (exfalso; waits); naive_solver).
    assert (heap s !! a = Some v) as La by (by rewrite Hh; simpl; apply lookup_singleton_eq).
    wp_step. eapply wp_load; [exact La|]. inversion Ph; subst; try (exfalso; waits); simpl.
    + wp_steps. apply (wp_deref _ (10 * m)); [by apply int_mul_small|]. wp_steps.
      apply wp_alloc_init; [done|done|]. intros b Hb. wp_steps. simpl in Hh.
      assert (b <> a) as Hba by (intros ->; by rewrite La in Hb).
      eapply (wp_release a); [simpl; by rewrite lookup_insert_ne|]. wp_steps.
      step_with (Held b (response m)) m (m + 1).
      * by constructor.
      * unfold set_heap. cbn [heap]. rewrite Hh.
        by rewrite delete_insert_ne, delete_singleton_eq by done.
      * simpl. by rewrite HS, seqZ_snoc by lia.
      * apply (accounted_release a (set_heap _ s)). by apply accounted_alloc.
    + wp_steps. step_with (Held a (response n)) n (n + 1).
      apply ph_own_response; auto.
    + wp_steps. eapply wp_release; [exact La|]. wp_steps. step_with Nobody 10 10.
      * by constructor.
      * unfold set_heap. cbn [heap]. rewrite Hh. apply delete_singleton_eq.
      * by apply accounted_release.
  - (* SPutBack *) inversion Ph; subst; try (exfalso; waits). wp_step.
    apply (wp_ring_enqueue (RING_SIZE - 1)); [done|apply Hr; by right|by rewrite H1|]. intros s' U.
    wp_steps. assert (b = a) as -> by naive_solver.
    eapply (inv_use _ _ _ _ _ (InRing a (response n)) n (n + 1)); try done; [by apply ph_response|by rewrite H1|by right].
  - (* SReply *) inversion Ph; subst; try (exfalso; waits). wp_step.
    apply (wp_ring_enqueue (RING_SIZE - 1)); [done|apply Hr; by right|by rewrite H1|]. intros s' U.
    change (0 <? 0) with false. wp_steps.
    eapply (inv_use _ _ _ _ _ (InRing b (response n)) n (n + 1)); try done; [by apply ph_response|by rewrite H1|by right].
  - (* SSent *) simpl in Hsafe. apply bool_decide_eq_true in Hsafe as [v Hv].
    wp_step. eapply wp_load; [exact Hv|]. wp_steps. step_with k n m. by apply (single_phase_waiting _ (SSent b)).
  - by wp_steps.
Qed.

Lemma single_step_ok x p s t :
  inv p s t -> safe_step x p s = true ->
  wp (proc_step primary_step secondary_step x p) inv (fun _ _ _ => False) s t.
Proof.
  destruct p as [pc sc], x; intros I K; unfold proc_step; simpl; wp_step.
  - eapply wp_mono; [by apply single_primary_ok| |done]. intros pc' s' t' H. by wp_steps.
  - eapply wp_mono; [by apply single_secondary_ok| |done]. intros sc' s' t' H. by wp_steps.
Qed.

Lemma single_start : inv (PInit, SInit) no_memory [].
Proof.
  constructor; simpl; [|done|done|tauto|done].
  exists Nobody, 0, 0. split; [constructor; [by left|done]|done].
Qed.

(** C25: The exchange over one ring is right as far as it goes: for every schedule, either the run
    has no fault, the primary has received 0, 10, 20, ... in order, at most one behind what the
    secondary has received, at most one block is alive, and nothing is left when both have ended;
    or the schedule comes to the one step that goes wrong, the secondary printing the value of a
    response that the primary has already freed. *)
Theorem single_ring_correct sched :
  wp (single_run sched) (fun p s t => exists n m, 0 <= n <= m /\ m <= n + 1 /\ m <= 10 /\
      shown "Primary: received %d\n" t = map (Z.mul 10) (seqZ 0 n) /\
      shown "Secondary: received %d\n" t = seqZ 0 m /\
      (size (live_blocks t) <= 1)%nat /\
      (p = (PDone, SDone) -> n = 10 /\ live_blocks t = ∅ /\ items RING_NAME s = []))
    (fun _ _ _ => False) no_memory [] \/
  exists pre post, sched = pre ++ Secondary :: post /\
    wp (single_run pre) (fun p _ t => exists b, p.2 = SSent b /\ b ∉ live_blocks t)
      (fun _ _ _ => False) no_memory [].
Proof.
  destruct (wp_run_or primary_step secondary_step inv safe_step single_step_ok sched _ _ _ single_start)
    as [G|(pre & x & post & -> & G)].
  - left. eapply wp_mono; [exact G| |done].
    intros [pc sc] s t [(k & n & m & Ph & Hh & H1 & HP & HS) Ha _ _ _]. cbn [fst snd] in *. exists n, m.
    assert (0 <= n <= m /\ m <= n + 1 /\ m <= 10) as (? & ? & ?) by (inversion Ph; lia).
    split_and!; try done; try lia.
    + rewrite Ha, Hh. destruct k; simpl; rewrite ?dom_empty_L, ?size_empty, ?dom_singleton_L, ?size_singleton; lia.
    + intros [= -> ->]. inversion Ph; subst; try (exfalso; waits).
      rewrite Ha, Hh, H1. split; [done|]. split; [apply dom_empty_L|done].
  - right. destruct x.
    + exfalso. unfold wp in G. destruct (run _ _ _ _ _ _); try done. by destruct G as [_ G].
    + exists pre, post. split; [done|]. eapply wp_mono; [exact G| |done].
      intros [pc sc] s t [I K]. simpl in K. destruct sc; try done. exists b. split; [done|].
      rewrite (i_acct _ _ _ I). apply bool_decide_eq_false in K. by rewrite elem_of_dom.
Qed.

(** ** Two schedules *)

Hypothesis ring_made : forall t, env_call t (rte_ring_create RING_NAME RING_SIZE 0) <> 0.

(** The first request is in the ring and both processes are about to look. *)
Record requested (p : primary_pc * secondary_pc) (s : shared) (t : trace) (a : Z) : Prop := {
  rq_pcs : p = (PWait 0, SWait);
  rq_heap : heap s = {[a := request 0]};
  rq_items : items RING_NAME s = [a];
  rq_caps : caps (RING_SIZE - 1) s;
  rq_ring : is_Some (rings s !! RING_NAME);
  rq_acct : accounted s t;
  rq_none : shown "Primary: received %d\n" t = [] /\ shown "Secondary: received %d\n" t = [] }.

Definition to_request : list proc :=
  [Primary; Primary; Primary; Primary; Primary; Secondary; Secondary].

(** Runs a concrete schedule up to the next use of the heap or the ring. *)
Ltac go := repeat (cbn [fst snd run proc_step primary_step secondary_step];
  try (change (0 <? 10) with true; cbv iota); try (change (0 <? 0) with false; cbv iota); wp_step).

Lemma wp_to_request :
  wp (single_run to_request) (fun p s t => exists a, requested p s t a) (fun _ _ _ => False) no_memory [].
Proof.
  unfold single_run, to_request. go.
  apply wp_ring_create; [done|done|by intros ?%ring_made|]. intros r0 s0 Hr0 Hc0 Eh0 Ei0 Ee0.
  rewrite (proj2 (Z.eqb_neq _ _) Hr0). go.
  apply wp_alloc_init; [done|by unfold accounted; rewrite Eh0|]. intros a Ha. go.
  assert (is_Some (rings s0 !! RING_NAME)) as R0 by (apply Ee0; auto).
  apply (wp_ring_enqueue (RING_SIZE - 1)); [done|done|change (zlen (items RING_NAME s0) < RING_SIZE - 1); by rewrite Ei0|]. intros s1 U. go.
  assert (is_Some (rings s1 !! RING_NAME)) as R1 by (by apply U). apply wp_gets. rewrite bool_decide_true by done. go.
  exists a. constructor; try done.
  - rewrite (ru_heap _ _ _ _ _ U). unfold set_heap. cbn [heap]. rewrite Eh0. apply insert_empty.
  - rewrite (ru_items _ _ _ _ _ U). change (items RING_NAME s0 ++ [a] = [a]). by rewrite Ei0.
  - apply U.
  - eapply accounted_ring; [exact U|]. apply (accounted_alloc sizeof_msg a (request 0) s0).
    unfold accounted. by rewrite Eh0.
Qed.

(** The primary keeps taking its own request, the secondary keeps finding the
    ring empty. *)
Definition starving_round : list proc := [Primary; Secondary; Primary; Primary].

Lemma wp_starving p s t a :
  requested p s t a ->
  wp (run primary_step secondary_step starving_round p) (fun p' s' t' => requested p' s' t' a)
    (fun _ _ _ => False) s t.
Proof.
  intros [-> Hh Hi Hc Hr Ha Hn]. unfold starving_round. go.
  apply (wp_ring_dequeue (RING_SIZE - 1)); [done|done|]. intros s1 U1. rewrite Hi in *. cbn [head tail] in *. go.
  apply (wp_ring_dequeue (RING_SIZE - 1)); [apply U1|by apply U1|]. intros s2 U2. rewrite (ru_items _ _ _ _ _ U1) in *.
  cbn [head tail] in *. go.
  assert (heap s2 = heap s) as E2 by (by rewrite (ru_heap _ _ _ _ _ U2), (ru_heap _ _ _ _ _ U1)).
  eapply wp_load; [rewrite E2, Hh; apply lookup_singleton_eq|]. cbn [dst_id request]. change (negb (PROC_B =? PROC_A)) with true. cbv iota. go.
  apply (wp_ring_enqueue (RING_SIZE - 1)); [apply U2|by apply U2, U1|by rewrite (ru_items _ _ _ _ _ U2)|]. intros s3 U3. go.
  constructor; try done.
  - by rewrite (ru_heap _ _ _ _ _ U3), E2.
  - by rewrite (ru_items _ _ _ _ _ U3), (ru_items _ _ _ _ _ U2).
  - apply U3.
  - by apply U3, U2, U1.
  - by do 3 (eapply accounted_ring; [eassumption|]).
Qed.

(** The exchange over one ring can starve: there is a schedule in which both processes keep
    taking steps (three and one in each round) and still, after any number of rounds, no request
    has been received. *)
Theorem single_ring_starves :
  round starving_round /\
  forall n, wp (single_run (to_request ++ concat (repeat starving_round n)))
    (fun p _ t => p = (PWait 0, SWait) /\ shown "Secondary: received %d\n" t = [])
    (fun _ _ _ => False) no_memory [].
Proof.
  split; [split; unfold starving_round; set_solver|]. intros n. apply wp_run_app.
  eapply wp_mono; [apply wp_to_request| |done]. intros p s t [a R]. revert p s t R.
  induction n as [|n IH]; intros p s t R; cbn [repeat concat].
  - apply wp_ret. destruct R as [-> _ _ _ _ _ [_ ?]]. done.
  - apply wp_run_app. eapply wp_mono; [by apply wp_starving| |done]. auto.
Qed.

(** The secondary answers, and the primary takes the answer before the secondary
    has printed it. *)
Definition to_use_after_free : list proc := [Secondary; Secondary; Secondary; Primary].

Lemma wp_to_use_after_free p s t a :
  requested p s t a ->
  wp (run primary_step secondary_step to_use_after_free p)
    (fun p' s' t' => exists b, p' = (PGot 0 b, SSent b) /\ heap s' !! b = Some (response 0) /\ accounted s' t')
    (fun _ _ _ => False) s t.
Proof.
  intros [-> Hh Hi Hc Hr Ha _]. unfold to_use_after_free. go.
  apply (wp_ring_dequeue (RING_SIZE - 1)); [done|done|]. intros s1 U1. rewrite Hi in *. cbn [head tail] in *. go.
  assert (heap s1 !! a = Some (request 0)) as La
    by (by rewrite (ru_heap _ _ _ _ _ U1), Hh; apply lookup_singleton_eq).
  eapply wp_load; [exact La|]. cbn [dst_id mtype value request]. change (negb (PROC_B =? PROC_B)) with false. cbv iota. go.
  apply (wp_deref _ 0); [done|]. go.
  apply wp_alloc_init; [done|by eapply accounted_ring|]. intros b Hb. go.
  assert (b <> a) as Hba by (intros ->; by rewrite La in Hb).
  eapply (wp_release a); [simpl; by rewrite lookup_insert_ne|]. go.
  match goal with |- wp (enqueue _ _) _ _ ?s2 _ => assert (heap s2 !! b = Some (response 0)) as Lb end.
  { simpl. by rewrite lookup_delete_ne, lookup_insert_eq. }
  apply (wp_ring_enqueue (RING_SIZE - 1)); [by apply U1|by apply U1| |].
  { change (zlen (items RING_NAME s1) < RING_SIZE - 1). by rewrite (ru_items _ _ _ _ _ U1). }
  intros s3 U3. go.
  apply (wp_ring_dequeue (RING_SIZE - 1)); [apply U3|by apply U3, U1|]. intros s4 U4.
  rewrite (ru_items _ _ _ _ _ U3) in *.
  match goal with |- context [head (items _ ?s2 ++ _)] => assert (items RING_NAME s2 = []) as E2 by apply (ru_items _ _ _ _ _ U1) end.
  rewrite E2 in *. cbn [head tail app] in *. go.
  rewrite <- (ru_heap _ _ _ _ _ U3), <- (ru_heap _ _ _ _ _ U4) in Lb.
  exists b. split; [done|]. split; [exact Lb|]. do 2 (eapply accounted_ring; [eassumption|]).
  apply (accounted_release a (set_heap _ s1)). apply accounted_alloc. by eapply accounted_ring.
Qed.

(** C35: The use after free of secondary.c happens, whatever the environment, provided only that
    the ring is made and memory does not run out. There is a schedule after which the secondary has
    enqueued its first response, at [b], and is about to print it, and the primary has taken this
    response, still allocated, out of the ring; the primary's next step frees [b]; and the secondary's
    next step, the one of secondary.c:53, reads [b] and faults. *)
Theorem single_ring_use_after_free :
  exists sched b s1 t1 s t,
    single_run sched no_memory [] = Done (PGot 0 b, SSent b) s1 t1 /\
    heap s1 !! b = Some (response 0) /\ b ∈ live_blocks t1 /\
    primary_step (PGot 0 b) s1 t1 = Done (PLoop 1) s t /\
    head t = Some (EvMfree b) /\ heap s = delete b (heap s1) /\ b ∉ live_blocks t /\
    (load b : M msg) s t = Fault s t /\ secondary_step (SSent b) s t = Fault s t /\
    single_run (sched ++ [Primary; Secondary]) no_memory [] = Fault s t.
Proof.
  assert (wp (single_run (to_request ++ to_use_after_free))
    (fun p' s' t' => exists b, p' = (PGot 0 b, SSent b) /\ heap s' !! b = Some (response 0) /\ accounted s' t')
    (fun _ _ _ => False) no_memory []) as H.
  { apply wp_run_app. eapply wp_mono; [apply wp_to_request| |done]. intros p s t [a R].
    by eapply wp_to_use_after_free. }
  unfold wp in H. destruct (single_run _ _ _) as [p s1 t1| |] eqn:Hrun; [|done..].
  destruct H as (b & -> & Hb & Ha).
  set (t := EvMfree b :: EvPrintf "Primary: received %d\n" [PInt 0] :: t1).
  set (s := set_heap (delete b (heap s1)) s1).
  assert (primary_step (PGot 0 b) s1 t1 = Done (PLoop 1) s t) as Hp.
  { assert (forall t0, (load b : M msg) s1 t0 = Done (response 0) s1 t0) as Hl
      by (intros t0; unfold load, bind, gets, deref; by rewrite Hb).
    cbn [primary_step]. unfold bind at 1. rewrite Hl. cbn [dst_id mtype value response].
    change (negb (PROC_A =? PROC_A)) with false. cbv iota. unfold release, bind, printf, emit, ret. simpl.
    rewrite Hl. done. }
  assert ((load b : M msg) s t = Fault s t) as Hl.
  { unfold load, bind, gets, deref. cbn [heap s set_heap]. by rewrite lookup_delete_eq. }
  assert (secondary_step (SSent b) s t = Fault s t) as Hs by (cbn [secondary_step]; unfold bind at 1; by rewrite Hl).
  exists (to_request ++ to_use_after_free), b, s1, t1, s, t. split_and!; try done.
  - rewrite Ha. by apply elem_of_dom.
  - pose proof (accounted_release b s1 t1 Ha) as A. cbn [t live_blocks]. set_solver.
  - unfold single_run in *. rewrite sched_app. unfold bind at 1. rewrite Hrun. cbn [run proc_step fst snd].
    unfold bind at 1 2. rewrite Hp. cbn [fst snd]. unfold bind at 1, ret at 1. cbn [run proc_step fst snd].
    unfold bind. by rewrite Hs.
Qed.
End Single.

#[local] Instance wenv : Env := sim_env quiet_script.
#[local] Existing Instance sim_ring.

Lemma single_ring_correct_witness :
  shown "Primary: received %d\n" (match single_run (concat (repeat [Primary; Secondary; Secondary] 101)) no_memory [] with
    | Done _ _ t => t | _ => [] end) = [0; 10; 20; 30; 40; 50; 60; 70; 80; 90] /\
  (wp (single_run [Primary; Secondary]) (fun p s t => exists n m, 0 <= n <= m /\ m <= n + 1 /\ m <= 10 /\
      shown "Primary: received %d\n" t = map (Z.mul 10) (seqZ 0 n) /\
      shown "Secondary: received %d\n" t = seqZ 0 m /\
      (size (live_blocks t) <= 1)%nat /\
      (p = (PDone, SDone) -> n = 10 /\ live_blocks t = ∅ /\ items RING_NAME s = []))
    (fun _ _ _ => False) no_memory [] \/
   exists pre post, [Primary; Secondary] = pre ++ Secondary :: post /\
    wp (single_run pre) (fun p _ t => exists b, p.2 = SSent b /\ b ∉ live_blocks t)
      (fun _ _ _ => False) no_memory []).
Proof. split; [by vm_compute|]. apply single_ring_correct; by apply sim_malloc_works. Defined.

Lemma single_ring_starves_witness :
  round starving_round /\
  forall n, wp (single_run (to_request ++ concat (repeat starving_round n)))
    (fun p _ t => p = (PWait 0, SWait) /\ shown "Secondary: received %d\n" t = [])
    (fun _ _ _ => False) no_memory [].
Proof. apply single_ring_starves; [by apply sim_malloc_works|done]. Defined.

Lemma single_ring_use_after_free_witness :
  exists sched b s1 t1 s t,
    single_run sched no_memory [] = Done (PGot 0 b, SSent b) s1 t1 /\
    heap s1 !! b = Some (response 0) /\ b ∈ live_blocks t1 /\
    primary_step (PGot 0 b) s1 t1 = Done (PLoop 1) s t /\
    head t = Some (EvMfree b) /\ heap s = delete b (heap s1) /\ b ∉ live_blocks t /\
    load b s t = Fault s t /\ secondary_step (SSent b) s t = Fault s t /\
    single_run (sched ++ [Primary; Secondary]) no_memory [] = Fault s t.
Proof. apply single_ring_use_after_free; [by apply sim_malloc_works|done]. Defined.
