(* ===== verification/RingFifo.v ===== *)
(** * Blocks that travel one way through a ring

    inter_process_comm/through_rte_ring: the primary sends the numbers 0 to 9,
    the secondary prints and frees them.  rings/sample/simple_ring.c: a
    producer sends the values of a counter and drops them while the ring is
    full, a consumer prints and frees them, until a signal stops both. *)

From S2P Require Import Prelude Rte Env Schedule Ipc Sim.

(** ** Blocks in flight *)

Section Flight.
Context {E : Env} {RR : RteRing Z} {V : Type}.
Notation shared := (@shared RR V).

(** The blocks of the heap with their contents, oldest first. *)
Record flight (F : list (Z * V)) (s : shared) (t : trace) : Prop := {
  fl_heap : heap s = list_to_map F;
  fl_nodup : NoDup F.*1;
  fl_acct : accounted s t }.

(** As many blocks are alive as are in flight. *)
Lemma flight_live F s t : flight F s t -> Z.of_nat (size (live_blocks t)) = zlen F.
Proof.
  intros [H N A]. rewrite A, H, dom_list_to_map_L, size_list_to_set by done. unfold zlen. by rewrite length_fmap.
Qed.

Lemma flight_lookup F s t a v : flight F s t -> (a, v) ∈ F -> heap s !! a = Some v.
Proof. intros [-> N _] H. by apply elem_of_list_to_map. Qed.

Lemma flight_alloc F s t a v size :
  flight F s t -> heap s !! a = None ->
  flight (F ++ [(a, v)]) (set_heap (<[a := v]> (heap s)) s) (EvMalloc size a :: t).
Proof.
  intros [H N A] Ha. rewrite H in Ha. apply not_elem_of_list_to_map_2 in Ha. constructor.
  - rewrite list_to_map_snoc by done. simpl. by rewrite H.
  - rewrite fmap_app. apply NoDup_app. split; [done|]. split; [|apply NoDup_singleton].
    intros x Hx ->%list_elem_of_singleton. done.
  - by apply accounted_alloc.
Qed.

Lemma flight_release_head F s t a v :
  flight ((a, v) :: F) s t -> flight F (set_heap (delete a (heap s)) s) (EvMfree a :: t).
Proof.
  intros [H N A]. apply NoDup_cons in N as [Na N]. constructor; [|done|by apply accounted_release].
  simpl. rewrite H. simpl. apply delete_insert_id, not_elem_of_list_to_map_1, Na.
Qed.
Lemma flight_release_last F s t a v :
  flight (F ++ [(a, v)]) s t -> flight F (set_heap (delete a (heap s)) s) (EvMfree a :: t).
Proof.
  intros [H N A]. rewrite fmap_app in N. apply NoDup_app in N as (N & Na & _).
  assert (a ∉ F.*1) as Ha by (intros Hi; apply (Na a Hi); by apply list_elem_of_singleton).
  constructor; [|done|by apply accounted_release].
  simpl. rewrite H, list_to_map_snoc by done. apply delete_insert_id, not_elem_of_list_to_map_1, Ha.
Qed.

Lemma flight_same F s s' t t' : heap s' = heap s -> live_blocks t' = live_blocks t -> flight F s t -> flight F s' t'.
Proof. intros E0 E1 [H N A]. constructor; [by rewrite E0|done|]. unfold accounted in *. by rewrite E0, E1. Qed.
End Flight.

(** ** through_rte_ring *)

(** common.h *)
Definition RING_NAME : string := "MSG_RING".
Definition RING_SIZE := 1024.
Definition RING_F_SP_ENQ := 1.
Definition RING_F_SC_DEQ := 2.
Definition sizeof_int := 4.

Section OneWay.
Context {E : Env} {RR : RteRing Z}.
Notation shared := (@shared RR Z).
Notation M := (M shared).

Inductive sender_pc :=
| PInit
| PCreate
| PLoop (i : Z)
| PEnqueue (i a : Z)
| PSent (i : Z)
| PDone
| PExit.

(** primary.c *)
Definition sender_step (pc : sender_pc) : M sender_pc :=
  match pc with
  | PInit => r <-- call rte_eal_init ;; ret (if r <? 0 then PExit else PCreate)
  | PCreate =>
      r <-- ring_create RING_NAME RING_SIZE (Z.lor RING_F_SP_ENQ RING_F_SC_DEQ) ;;
      if r =? 0 then ret PExit
      else printf "Primary: ring created\n" [] ;; ret (PLoop 0)
  | PLoop i =>
      if i <? 10 then msg <-- alloc_init sizeof_int i ;; ret (PEnqueue i msg)
      else printf "Primary: done\n" [] ;; ret PDone
  | PEnqueue i a => r <-- enqueue RING_NAME a ;; ret (if r <? 0 then PEnqueue i a else PSent i)
  | PSent i => printf "Primary: sent %d\n" [PInt i] ;; ret (PLoop (i + 1))
  | PDone => ret PDone
  | PExit => ret PExit
  end.

Inductive receiver_pc :=
| SInit
| SLookup
| SWait                    (* for (;;) *)
| SGot (a : Z)
| SExit.

(** secondary.c, which never ends *)
Definition receiver_step (pc : receiver_pc) : M receiver_pc :=
  match pc with
  | SInit => r <-- call rte_eal_init ;; ret (if r <? 0 then SExit else SLookup)
  | SLookup =>
      b <-- ring_lookup RING_NAME ;;
      if b : bool then printf "Secondary: ring found\n" [] ;; ret SWait else ret SLookup
  | SWait =>
      o <-- dequeue RING_NAME ;;
      ret (match o with Some msg => SGot msg | None => SWait end)
  | SGot a =>
      v <-- load a ;;
      printf "Secondary: received %d\n" [PInt v] ;;
      release a ;;
      ret SWait
  | SExit => ret SExit
  end.

Definition one_way_run (sched : list proc) : M (sender_pc * receiver_pc) :=
  run sender_step receiver_step sched (PInit, SInit).

(** The address a process holds. *)
Definition sender_holds (pc : sender_pc) : list Z := match pc with PEnqueue _ a => [a] | _ => [] end.
Definition receiver_holds (pc : receiver_pc) : list Z := match pc with SGot a => [a] | _ => [] end.
(** How many numbers have been put into blocks. *)
Definition made (pc : sender_pc) : Z :=
  match pc with
  | PInit | PCreate | PExit => 0
  | PLoop i => i | PEnqueue i _ | PSent i => i + 1 | PDone => 10
  end.
Definition sender_ok (pc : sender_pc) : Prop :=
  match pc with PLoop i => 0 <= i <= 10 | PEnqueue i _ | PSent i => 0 <= i < 10 | _ => True end.
Definition no_ring_yet (pc : sender_pc) : Prop := match pc with PInit | PCreate => True | _ => False end.

Record inv (p : sender_pc * receiver_pc) (s : shared) (t : trace) (F : list (Z * Z)) : Prop := {
  i_flight : flight F s t;
  i_places : F.*1 = receiver_holds p.2 ++ items RING_NAME s ++ sender_holds p.1;
  i_fifo : shown "Secondary: received %d\n" t ++ F.*2 = seqZ 0 (made p.1);
  i_sender : sender_ok p.1;
  i_caps : caps (RING_SIZE - 1) s;
  i_ring : match p.1 with PInit | PCreate | PExit => False | _ => True end \/
           match p.2 with SWait | SGot _ => True | _ => False end -> is_Some (rings s !! RING_NAME);
  i_new : no_ring_yet p.1 -> rings s !! RING_NAME = None }.

Hypothesis memory : malloc_works.


Lemma fifo_length D F n : 0 <= n -> D ++ F.*2 = seqZ 0 n -> zlen D + zlen (F : list (Z * Z)) = n.
Proof.
  intros Hn H. apply (f_equal length) in H. rewrite length_app, length_fmap, length_seqZ in H. unfold zlen. lia.
Qed.

Lemma seqZ_prefix (D G : list Z) n : 0 <= n -> D ++ G = seqZ 0 n -> D = seqZ 0 (zlen D).
Proof.
  intros Hn H. pose proof (f_equal length H) as L. rewrite length_app, length_seqZ in L.
  assert (n = zlen D + zlen G) as E0 by (unfold zlen; lia). rewrite E0, seqZ_app in H by apply zlen_nonneg.
  apply app_inj_1 in H as [H _]; [done|]. rewrite length_seqZ. unfold zlen. lia.
Qed.

(** The ring holds no more than is in flight. *)
Lemma ring_short p s t F : inv p s t F -> zlen (items RING_NAME s) <= zlen F /\ zlen F <= made p.1.
Proof.
  intros [_ Hp Hf Hs _ _ _]. split.
  - apply (f_equal length) in Hp. rewrite length_fmap, !length_app in Hp. unfold zlen. lia.
  - assert (0 <= made p.1) as Hm by (destruct p.1; simpl in *; lia).
    apply fifo_length in Hf; [|done]. pose proof (zlen_nonneg (shown "Secondary: received %d\n" t)). lia.
Qed.

(** The invariant when nothing in flight has moved. *)
Ltac fifo_same Hfl :=
  constructor; cbn [fst snd]; [by eapply flight_same; [| |exact Hfl]|try done..]; simpl; try tauto; try lia.

Lemma sender_step_ok pc sc s t F :
  inv (pc, sc) s t F ->
  wp (sender_step pc) (fun pc' s' t' => exists F', inv (pc', sc) s' t' F') (fun _ _ _ => False) s t.
Proof.
  intros I. pose proof (ring_short _ _ _ _ I) as [L1 L2].
  pose proof I as [Hfl Hp Hf Hs Hc Hr Hn]. cbn [fst snd] in *.
  destruct pc as [| |i|i a|i| |]; simpl sender_step.
  - wp_steps. exists F. destruct (r <? 0); fifo_same Hfl.
  - wp_step. apply wp_ring_create; [done|by apply Hn| |].
    + intros _. change (0 =? 0) with true. cbv iota. wp_steps. exists F. fifo_same Hfl.
    + intros r s' Hr0 Hc' Eh Ei Ee. rewrite (proj2 (Z.eqb_neq _ _) Hr0). wp_steps. exists F.
      constructor; cbn [fst snd]; rewrite ?Ei; try done.
      * by eapply flight_same; [| |exact Hfl].
      * intros _. rewrite Ee. by left.
  - destruct (Z.ltb_spec i 10) as [Hi|Hi].
    + simpl in Hs. wp_step. apply wp_alloc_init; [done|apply Hfl|]. intros a Ha. wp_steps.
      exists (F ++ [(a, i)]). constructor; cbn [fst snd]; try done.
      * by apply flight_alloc.
      * rewrite fmap_app, Hp. simpl. rewrite app_nil_r, <- app_assoc. done.
      * rewrite fmap_app, app_assoc. simpl in *. rewrite Hf. rewrite seqZ_app by lia. done.
      * simpl. lia.
    + simpl in Hs. assert (i = 10) as -> by lia. wp_steps. exists F. fifo_same Hfl.
  - simpl in Hs, L2. wp_step. apply (wp_ring_enqueue (RING_SIZE - 1)); [done|by apply Hr; left|unfold RING_SIZE; lia|].
    intros s' U. change (0 <? 0) with false. wp_steps. exists F. constructor; cbn [fst snd]; try done.
    + eapply flight_same; [apply U|done|done].
    + rewrite (ru_items _ _ _ _ _ U), Hp. simpl. by rewrite app_nil_r.
    + apply U.
    + intros _. apply U. by apply Hr; left.
  - simpl in Hs. wp_steps. exists F. fifo_same Hfl.
  - wp_steps. by exists F.
  - wp_steps. by exists F.
Qed.

Lemma receiver_step_ok pc sc s t F :
  inv (pc, sc) s t F ->
  wp (receiver_step sc) (fun sc' s' t' => exists F', inv (pc, sc') s' t' F') (fun _ _ _ => False) s t.
Proof.
  intros I. pose proof I as [Hfl Hp Hf Hs Hc Hr Hn]. cbn [fst snd] in *.
  destruct sc as [| | |a|]; simpl receiver_step.
  - wp_steps. exists F. destruct (r <? 0); fifo_same Hfl.
  - wp_step. apply wp_gets. case_bool_decide as Hring; wp_steps; exists F; [|done].
    fifo_same Hfl.
  - wp_step. apply (wp_ring_dequeue (RING_SIZE - 1)); [done|by apply Hr; right|]. intros s' U. wp_steps. exists F.
    pose proof (ru_items _ _ _ _ _ U) as Ei. pose proof (ru_heap _ _ _ _ _ U) as Eh.
    destruct (items RING_NAME s) as [|a l] eqn:Hl; cbn [head tail] in *.
    + constructor; cbn [fst snd]; rewrite ?Ei; try done.
      * by eapply flight_same; [| |exact Hfl].
      * apply U.
      * intros _. apply U. by apply Hr; right.
      * intros N. apply Hn in N. apply eq_None_not_Some. rewrite (ru_exists _ _ _ _ _ U), N. by intros [? [=]].
    + constructor; cbn [fst snd]; rewrite ?Ei; try done.
      * by eapply flight_same; [| |exact Hfl].
      * apply U.
      * intros _. apply U. by apply Hr; right.
      * intros N. apply Hn in N. apply eq_None_not_Some. rewrite (ru_exists _ _ _ _ _ U), N. by intros [? [=]].
  - destruct F as [|[a' v] F]; [done|]. simpl in Hp. injection Hp as -> Hp.
    assert (heap s !! a = Some v) as La by (eapply flight_lookup; [done|by left]).
    wp_step. eapply wp_load; [exact La|]. wp_steps. eapply wp_release; [exact La|]. wp_steps.
    exists F. constructor; cbn [fst snd]; try done.
    + eapply flight_release_head, flight_same; [| |exact Hfl]; done.
    + simpl. by rewrite <- app_assoc.
  - wp_steps. by exists F.
Qed.

Lemma one_way_start : inv (PInit, SInit) no_memory [] [].
Proof. constructor; simpl; try done; [by constructor; [|constructor|]|by intros [[]|[]]]. Qed.

(** The one-way exchange of through_rte_ring: whatever the order of the steps, nothing faults,
    the secondary receives 0, 1, 2, ... in order, and the blocks alive are exactly those of the
    numbers sent and not yet received. *)
Theorem one_way_fifo sched :
  wp (one_way_run sched) (fun p s t => exists m, 0 <= m <= made p.1 /\ made p.1 <= 10 /\
      shown "Secondary: received %d\n" t = seqZ 0 m /\ Z.of_nat (size (live_blocks t)) = made p.1 - m)
    (fun _ _ _ => False) no_memory [].
Proof.
  eapply wp_mono; [apply (wp_run _ _ (fun p s t => exists F, inv p s t F)); [|exists []; apply one_way_start]| |done].
  - intros x [pc sc] s t [F I]. destruct x; unfold proc_step; simpl; wp_step.
    + eapply wp_mono; [by eapply sender_step_ok| |done]. intros pc' s' t' H. by wp_steps.
    + eapply wp_mono; [by eapply receiver_step_ok| |done]. intros sc' s' t' H. by wp_steps.
  - intros p s t [F [Hfl Hp Hf Hs _ _ _]]. assert (0 <= made p.1 <= 10) as Hm by (destruct p.1; simpl in *; lia).
    set (D := shown _ t) in *. pose proof (fifo_length D F _ (proj1 Hm) Hf) as L.
    exists (zlen D). pose proof (zlen_nonneg D). pose proof (zlen_nonneg F).
    split; [lia|]. split; [lia|]. split; [|rewrite (flight_live F s) by done; lia].
    eapply seqZ_prefix; [apply Hm|exact Hf].
Qed.
End OneWay.

(** ** simple_ring.c *)

Definition EXIT_FAILURE := 1.
Definition sizeof_uint64 := 8.
Definition MY_RING : string := "my_ring".

Lemma list_elem_of_split_last (F : list (Z * Z)) a : (exists l, F.*1 = l ++ [a]) -> exists F' v, F = F' ++ [(a, v)].
Proof.
  intros [l Hl]. destruct F as [|[a' v'] F _] using rev_ind; [by destruct l|].
  rewrite fmap_app in Hl. apply app_inj_tail in Hl as [_ [= ->]]. eauto.
Qed.

Section SimpleRing.
Context {E : Env} {RR : RteRing Z}.
Notation shared := (@shared RR Z).
Notation M := (M shared).

(** [c] is the counter. *)
Inductive producer_pc :=
| PTest (c : Z)            (* while (keep_running) *)
| PData (c : Z)
| PPut (c a : Z)
| PPrint (c a : Z)
| PFull (c a : Z)
| PEnd.

(** The block is read for the message after it was enqueued. *)
Definition producer_step (pc : producer_pc) : M producer_pc :=
  match pc with
  | PTest c => q <-- read_quit ;; ret (if q : bool then PEnd else PData c)
  | PData c => data <-- alloc_init sizeof_uint64 c ;; ret (PPut (u64 (c + 1)) data)
  | PPut c a => r <-- enqueue MY_RING a ;; ret (if r =? 0 then PPrint c a else PFull c a)
  | PPrint c a => v <-- load a ;; printf "[PROD] Enqueued: %lu\n" [PInt v] ;; ret (PTest c)
  | PFull c a => printf "[PROD] Ring full!\n" [] ;; release a ;; ret (PTest c)
  | PEnd => ret PEnd
  end.

Inductive consumer_pc :=
| CTest
| CTake
| CGot (a : Z)
| CEnd.

Definition consumer_step (pc : consumer_pc) : M consumer_pc :=
  match pc with
  | CTest => q <-- read_quit ;; ret (if q : bool then CEnd else CTake)
  | CTake => o <-- dequeue MY_RING ;; ret (match o with Some ptr => CGot ptr | None => CTest end)
  | CGot a =>
      v <-- load a ;;
      printf "    [CONS] Dequeued: %lu\n" [PInt v] ;;
      release a ;;
      ret CTest
  | CEnd => ret CEnd
  end.

(** [main] up to the launches; a thread whose launch fails never runs. *)
Definition start_threads : M (producer_pc * consumer_pc) :=
  _ <-- call (signal_handler_install "SIGINT") ;;
  r <-- call rte_eal_init ;;
  when (r <? 0) (rte_exit EXIT_FAILURE) ;;
  ring <-- ring_create MY_RING RING_SIZE (Z.lor RING_F_SP_ENQ RING_F_SC_DEQ) ;;
  when (ring =? 0) (rte_exit EXIT_FAILURE) ;;
  printf "Ring created. Launching threads…\n" [] ;;
  r1 <-- call (rte_eal_remote_launch "producer" 1) ;;
  r2 <-- call (rte_eal_remote_launch "consumer" 2) ;;
  ret (if r1 =? 0 then PTest 0 else PEnd, if r2 =? 0 then CTest else CEnd).
Definition simple_ring_main (sched : list proc) : M (producer_pc * consumer_pc) :=
  p <-- start_threads ;; run producer_step consumer_step sched p.

(** ** What is where *)

Definition DEQUEUED : string := "    [CONS] Dequeued: %lu\n".
(** How many numbers found the ring full. *)
Fixpoint fulls (t : trace) : Z :=
  match t with
  | [] => 0
  | EvPrintf f [] :: t' => if String.eqb f "[PROD] Ring full!\n" then fulls t' + 1 else fulls t'
  | _ :: t' => fulls t'
  end.

Definition producer_holds (pc : producer_pc) : list Z := match pc with PPut _ a | PFull _ a => [a] | _ => [] end.
Definition consumer_holds (pc : consumer_pc) : list Z := match pc with CGot a => [a] | _ => [] end.
Definition counter_is (n : Z) (pc : producer_pc) : Prop :=
  match pc with PTest c | PData c | PPut c _ | PPrint c _ | PFull c _ => c = u64 n | PEnd => True end.

Record sr_inv (p : producer_pc * consumer_pc) (s : shared) (t : trace) (F : list (Z * Z)) (n : Z) : Prop := {
  sr_flight : flight F s t;
  sr_places : F.*1 = consumer_holds p.2 ++ items MY_RING s ++ producer_holds p.1;
  sr_order : sublist (shown DEQUEUED t ++ F.*2) (map u64 (seqZ 0 n));
  sr_count : zlen (shown DEQUEUED t) + zlen F + fulls t = n;
  sr_counter : counter_is n p.1;
  sr_caps : caps (RING_SIZE - 1) s;
  sr_ring : is_Some (rings s !! MY_RING) }.

Definition sr_safe (x : proc) (p : producer_pc * consumer_pc) (s : shared) : bool :=
  match x, p.1 with Primary, PPrint _ a => bool_decide (is_Some (heap s !! a)) | _, _ => true end.

Hypothesis memory : malloc_works.

Lemma fulls_nonneg t : 0 <= fulls t.
Proof. induction t as [|[] t IH]; simpl; try done. destruct args; [|done]. case_match; lia. Qed.

Lemma producer_step_ok pc cc s t F n :
  sr_inv (pc, cc) s t F n -> sr_safe Primary (pc, cc) s = true ->
  wp (producer_step pc) (fun pc' s' t' => exists F' n', sr_inv (pc', cc) s' t' F' n') (fun _ _ _ => False) s t.
Proof.
  intros [Hfl Hp Ho Hn Hc Hk Hr] Hsafe. cbn [fst snd] in *.
  pose proof (fulls_nonneg t). pose proof (zlen_nonneg F). pose proof (zlen_nonneg (shown DEQUEUED t)).
  destruct pc as [c|c|c a|c a|c a|]; simpl producer_step.
  - wp_step. unfold wp, read_quit, ret. exists F, n. by constructor; try (by destruct (env_quit t));
      eapply flight_same; [| |exact Hfl].
  - wp_step. apply wp_alloc_init; [done|apply Hfl|]. intros a Ha. wp_steps. simpl in Hc.
    exists (F ++ [(a, c)]), (n + 1). constructor; cbn [fst snd]; try done.
    + by apply flight_alloc.
    + rewrite fmap_app, Hp. simpl. rewrite app_nil_r, <- app_assoc. done.
    + rewrite fmap_app, app_assoc, seqZ_app, map_app by lia. apply sublist_app; [done|]. simpl. by subst c.
    + rewrite zlen_app. change (zlen [_]) with 1. simpl. lia.
    + simpl. subst c. unfold u64. by rewrite Zplus_mod_idemp_l.
  - wp_step. simpl in Hc. apply (wp_ring_try (RING_SIZE - 1)); [done|done| |].
    + intros Hl s' U. change (0 =? 0) with true. wp_steps. exists F, n. constructor; cbn [fst snd]; try done.
      * eapply flight_same; [apply U|done|done].
      * rewrite (ru_items _ _ _ _ _ U), Hp. simpl. by rewrite app_nil_r.
      * apply U.
      * by apply U.
    + intros Hl r s' Hr0 U. rewrite (proj2 (Z.eqb_neq _ _) Hr0). wp_steps. exists F, n.
      constructor; cbn [fst snd]; try done.
      * eapply flight_same; [apply U|done|done].
      * by rewrite (ru_items _ _ _ _ _ U), Hp.
      * apply U.
      * by apply U.
  - apply bool_decide_eq_true in Hsafe as [v Hv]. wp_step. eapply wp_load; [exact Hv|]. wp_steps.
    exists F, n. constructor; cbn [fst snd]; try done. by eapply flight_same; [| |exact Hfl].
  - wp_steps. simpl in Hp. destruct (list_elem_of_split_last F a) as (F' & v & ->).
    { rewrite Hp, app_assoc. by eexists. }
    assert (heap s !! a = Some v) as La by (eapply flight_lookup; [exact Hfl|apply elem_of_app; right; by left]).
    eapply wp_release; [exact La|]. wp_steps. exists F', n. constructor; cbn [fst snd]; try done.
    + eapply flight_release_last, flight_same; [| |exact Hfl]; done.
    + rewrite fmap_app, app_assoc in Hp. simpl in Hp. apply app_inj_tail in Hp as [Hp _]. simpl. by rewrite app_nil_r.
    + etrans; [|exact Ho]. apply sublist_app; [done|]. rewrite fmap_app. by apply sublist_inserts_r.
    + rewrite zlen_app in Hn. change (zlen [_]) with 1 in Hn. simpl. lia.
  - wp_steps. by exists F, n.
Qed.

Lemma consumer_step_ok pc cc s t F n :
  sr_inv (pc, cc) s t F n ->
  wp (consumer_step cc) (fun cc' s' t' => exists F' n', sr_inv (pc, cc') s' t' F' n') (fun _ _ _ => False) s t.
Proof.
  intros [Hfl Hp Ho Hn Hc Hk Hr]. cbn [fst snd] in *. destruct cc as [| |a|]; simpl consumer_step.
  - wp_step. unfold wp, read_quit, ret. exists F, n. by constructor; try (by destruct (env_quit t));
      eapply flight_same; [| |exact Hfl].
  - wp_step. apply (wp_ring_dequeue (RING_SIZE - 1)); [done|done|]. intros s' U. wp_steps. exists F, n.
    pose proof (ru_items _ _ _ _ _ U) as Ei.
    destruct (items MY_RING s) as [|a l] eqn:Hl; cbn [head tail] in *; constructor; cbn [fst snd]; rewrite ?Ei; try done;
      try (by apply U); (eapply flight_same; [apply U|done|exact Hfl]).
  - destruct F as [|[a' v] F]; [done|]. simpl in Hp. injection Hp as -> Hp.
    assert (heap s !! a = Some v) as La by (eapply flight_lookup; [done|by left]).
    wp_step. eapply wp_load; [exact La|]. wp_steps. eapply wp_release; [exact La|]. wp_steps.
    exists F, n. constructor; cbn [fst snd]; try done.
    + eapply flight_release_head, flight_same; [| |exact Hfl]; done.
    + simpl. by rewrite <- app_assoc.
    + simpl. rewrite zlen_app. change (zlen [v]) with 1. unfold zlen in *. simpl length in Hn. lia.
  - wp_steps. by exists F, n.
Qed.

Lemma start_threads_ok :
  wp start_threads (fun p s t => exists F n, sr_inv p s t F n) (fun c _ t => c = EXIT_FAILURE /\ live_blocks t = ∅)
    no_memory [].
Proof.
  unfold start_threads. wp_steps; try done. apply wp_ring_create; [done|done| |].
  - intros _. by wp_steps.
  - intros r' s' Hr Hc Eh Ei Ee. wp_steps; try done. exists [], 0. constructor; cbn [fst snd]; try done.
    + constructor; [by rewrite Eh|constructor|by unfold accounted; rewrite Eh].
    + rewrite Ei. by case_match; case_match.
    + by case_match.
    + apply Ee. by left.
Qed.

(** C26: simple_ring.c: for every schedule that does not come to the producer printing a number whose
    block the consumer has already freed, nothing faults and the consumer receives numbers of the
    counter in order and at most once; the numbers missing among the first [n] are those in flight
    and those that found the ring full; and when both threads have stopped the blocks still alive
    are those left in the ring. *)
Theorem simple_ring_correct sched :
  wp (simple_ring_main sched) (fun p s t => exists n F,
      sublist (shown DEQUEUED t ++ F) (map u64 (seqZ 0 n)) /\
      zlen (shown DEQUEUED t) + zlen F + fulls t = n /\ Z.of_nat (size (live_blocks t)) = zlen F /\
      (p = (PEnd, CEnd) -> zlen F = zlen (items MY_RING s)))
    (fun c _ t => c = EXIT_FAILURE /\ live_blocks t = ∅) no_memory [] \/
  exists pre post, sched = pre ++ Primary :: post /\
    wp (simple_ring_main pre) (fun p _ t => exists c a, p.1 = PPrint c a /\ a ∉ live_blocks t)
      (fun _ _ _ => False) no_memory [].
Proof.
  pose proof start_threads_ok as H0. unfold wp, simple_ring_main, bind in *.
  destruct (start_threads no_memory []) as [p0 s0 t0|c s0 t0|]; [|by left|done].
  destruct (wp_run_or producer_step consumer_step (fun p s t => exists F n, sr_inv p s t F n) sr_safe) with
    (sched := sched) (p := p0) (s := s0) (t := t0) as [G|(pre & x & post & -> & G)]; [|done| |].
  - intros x [pc cc] s t (F & n & I) K. destruct x; unfold proc_step; simpl; wp_step.
    + eapply wp_mono; [by eapply producer_step_ok| |done]. intros pc' s' t' H. by wp_steps.
    + eapply wp_mono; [by eapply consumer_step_ok| |done]. intros cc' s' t' H. by wp_steps.
  - left. unfold wp in G. destruct (run _ _ _ _ _ _) as [p s t| |]; try done.
    destruct G as (F & n & [Hfl Hp Ho Hn Hc Hk Hr]). exists n, F.*2.
    assert (zlen F.*2 = zlen F) as Hz by (unfold zlen; by rewrite length_fmap). rewrite Hz.
    split_and!; [done|done|by rewrite (flight_live F s)|].
    intros ->. apply (f_equal length) in Hp. simpl in Hp. rewrite app_nil_r, length_fmap in Hp. unfold zlen. by rewrite Hp.
  - right. exists pre. destruct x.
    + exists post. split; [done|]. unfold wp in G. destruct (run _ _ _ _ _ _) as [[pc cc] s t| |]; try done.
      destruct G as ((F & n & I) & K). simpl in K. destruct pc; try done. eexists _, _. split; [done|].
      rewrite (fl_acct _ _ _ (sr_flight _ _ _ _ _ I)). apply bool_decide_eq_false in K. by rewrite elem_of_dom.
    + exfalso. unfold wp in G. destruct (run _ _ _ _ _ _); try done. by destruct G as [_ G].
Qed.
End SimpleRing.

#[local] Instance wenv : Env := sim_env (Script (fun a => match a with rte_ring_create _ _ _ => 64 | _ => 0 end)
  [] 32 (fun t => Z.of_nat (length t)) true None 1000).
#[local] Existing Instance sim_ring.

(** The schedule that does come to it: the consumer frees the block before the producer prints. *)
Example simple_ring_use_after_free :
  exists s t, simple_ring_main [Primary; Primary; Primary; Secondary; Secondary; Secondary; Primary] no_memory [] = Fault s t.
Proof. eexists _, _. vm_compute. reflexivity. Qed.

Lemma one_way_fifo_witness :
  shown "Secondary: received %d\n" (match one_way_run (concat (repeat [Primary; Secondary] 60)) no_memory [] with
    | Done _ _ t => t | _ => [] end) = [0; 1; 2; 3; 4; 5; 6; 7; 8; 9] /\
  wp (one_way_run [Primary; Secondary]) (fun p s t => exists m, 0 <= m <= made p.1 /\ made p.1 <= 10 /\
      shown "Secondary: received %d\n" t = seqZ 0 m /\ Z.of_nat (size (live_blocks t)) = made p.1 - m)
    (fun _ _ _ => False) no_memory [].
Proof. split; [by vm_compute|]. apply one_way_fifo; by apply sim_malloc_works. Defined.

Lemma simple_ring_correct_witness :
  shown DEQUEUED (match simple_ring_main (concat (repeat [Primary; Primary; Primary; Primary; Secondary; Secondary; Secondary] 3)) no_memory [] with
    | Done _ _ t => t | _ => [] end) = [0; 1; 2] /\
  (wp (simple_ring_main [Primary; Secondary]) (fun p s t => exists n F,
      sublist (shown DEQUEUED t ++ F) (map u64 (seqZ 0 n)) /\
      zlen (shown DEQUEUED t) + zlen F + fulls t = n /\ Z.of_nat (size (live_blocks t)) = zlen F /\
      (p = (PEnd, CEnd) -> zlen F = zlen (items MY_RING s)))
    (fun c _ t => c = EXIT_FAILURE /\ live_blocks t = ∅) no_memory [] \/
   exists pre post, [Primary; Secondary] = pre ++ Primary :: post /\
    wp (simple_ring_main pre) (fun p _ t => exists c a, p.1 = PPrint c a /\ a ∉ live_blocks t)
      (fun _ _ _ => False) no_memory []).
Proof. split; [by vm_compute|]. apply simple_ring_correct; by apply sim_malloc_works. Defined.
