(* ===== verification/FeatureArc.v ===== *)
(** * feature_arc/sample: a chain of nodes rebuilt from the enabled features

    main.c keeps an array of nodes, each with the name of its successor, and an
    arc: a start, an end, and an ordered list of features that can be switched
    on and off.  [feature_arc_rebuild] relinks the nodes, [dump_pipeline]
    follows the links and prints them. *)

From S2P Require Import Prelude Rte Env Ownership.

Definition MAX_FEATURES := 8.
Definition MAX_NODES := 16.

(** A [const char *] that may be NULL is an option. *)
Record node := Node { name : string; next : option string }.
(** [features] are the first [count] entries of the two arrays. *)
Record feature_arc := Arc { start : option string; end_ : option string; features : list (string * Z) }.
(** The static variables: [nodes] are the first [node_count] entries. *)
Record arc_state := ArcState { nodes : list node; l3_arc : feature_arc }.
Definition arc_state0 : arc_state := ArcState [] (Arc None None []).

Definition set_nodes (ns : list node) (s : arc_state) : arc_state := ArcState ns (l3_arc s).
Definition set_features (fs : list (string * Z)) (s : arc_state) : arc_state :=
  ArcState (nodes s) (Arc (start (l3_arc s)) (end_ (l3_arc s)) fs).

Notation AM := (M arc_state).

(** Behind the end of the array is undefined. *)
Definition add_node (n : string) : AM unit :=
  ns <-- gets nodes ;;
  if zlen ns <? MAX_NODES then modify (set_nodes (ns ++ [Node n None])) else fault.

(** The loop of [set_next], which stops at the first node of that name. *)
Fixpoint link (from : string) (to : option string) (ns : list node) : list node :=
  match ns with
  | [] => []
  | n :: ns' => if String.eqb (name n) from then Node (name n) to :: ns' else n :: link from to ns'
  end.
(** [strcmp] of a NULL pointer is undefined; without nodes it is not called. *)
Definition set_next (from to : option string) : AM unit :=
  ns <-- gets nodes ;;
  match ns with
  | [] => ret tt
  | _ => f <-- deref from ;; modify (set_nodes (link f to ns))
  end.

Definition feature_arc_init (s e : string) : AM unit :=
  modify (fun st => ArcState (nodes st) (Arc (Some s) (Some e) [])).
Definition feature_register (n : string) : AM unit :=
  fs <-- gets (fun st => features (l3_arc st)) ;;
  if zlen fs <? MAX_FEATURES then modify (set_features (fs ++ [(n, 0)])) else fault.

(** Every feature of that name. *)
Definition switch (n : string) (v : Z) (fs : list (string * Z)) : list (string * Z) :=
  map (fun f => if String.eqb f.1 n then (f.1, v) else f) fs.
Definition feature_enable (n : string) : AM unit :=
  modify (fun st => set_features (switch n 1 (features (l3_arc st))) st).
Definition feature_disable (n : string) : AM unit :=
  modify (fun st => set_features (switch n 0 (features (l3_arc st))) st).

Fixpoint rebuild_loop (fs : list (string * Z)) (prev : option string) : AM (option string) :=
  match fs with
  | [] => ret prev
  | (f, enabled) :: fs' =>
      if enabled =? 0 then rebuild_loop fs' prev
      else set_next prev (Some f) ;; rebuild_loop fs' (Some f)
  end.
Definition feature_arc_rebuild : AM unit :=
  prev <-- gets (fun st => start (l3_arc st)) ;;
  fs <-- gets (fun st => features (l3_arc st)) ;;
  prev <-- rebuild_loop fs prev ;;
  e <-- gets (fun st => end_ (l3_arc st)) ;;
  set_next prev e.

(** The inner loop of [dump_pipeline], which does not stop: the last node counts. *)
Definition next_of (ns : list node) (cur : string) : option string :=
  foldl (fun acc n => if String.eqb (name n) cur then next n else acc) None ns.
(** [while (cur)], at most [fuel] rounds; running out is a fault. *)
Fixpoint dump_loop (fuel : nat) (cur : string) : AM unit :=
  match fuel with
  | O => fault
  | S fuel' =>
      printf "%s" [PStr cur] ;;
      ns <-- gets nodes ;;
      match next_of ns cur with
      | None => ret tt
      | Some nx => printf " → " [] ;; dump_loop fuel' nx
      end
  end.
Definition dump_pipeline (fuel : nat) : AM unit :=
  printf "Pipeline: " [] ;;
  cur <-- gets (fun st => start (l3_arc st)) ;;
  match cur with None => ret tt | Some c => dump_loop fuel c end ;;
  printf "\n\n" [].

Definition main (fuel : nat) : AM Z :=
  add_node "L3" ;; add_node "Firewall" ;; add_node "NAT" ;; add_node "QoS" ;; add_node "L4" ;;
  feature_arc_init "L3" "L4" ;;
  feature_register "Firewall" ;; feature_register "NAT" ;; feature_register "QoS" ;;
  feature_arc_rebuild ;; dump_pipeline fuel ;;
  feature_enable "Firewall" ;; feature_arc_rebuild ;; dump_pipeline fuel ;;
  feature_enable "NAT" ;; feature_arc_rebuild ;; dump_pipeline fuel ;;
  feature_disable "Firewall" ;; feature_disable "NAT" ;; feature_enable "QoS" ;;
  feature_arc_rebuild ;; dump_pipeline fuel ;;
  feature_enable "Firewall" ;; feature_enable "NAT" ;; feature_arc_rebuild ;; dump_pipeline fuel ;;
  ret 0.

(** ** The specification *)

Definition enabled (fs : list (string * Z)) : list string := map fst (filter (fun f => f.2 <> 0) fs).
(** The nodes behind the start, in the order of registration. *)
Definition pipeline (e : string) (st : arc_state) : list string := enabled (features (l3_arc st)) ++ [e].

Definition names (st : arc_state) : list string := map name (nodes st).

(** [x] is followed by [l], and the last one by nothing. *)
Fixpoint linked (ns : list node) (x : string) (l : list string) : Prop :=
  match l with
  | [] => next_of ns x = None
  | y :: l' => next_of ns x = Some y /\ linked ns y l'
  end.

(** What [dump_loop] prints of it. *)
Fixpoint chain_text (x : string) (l : list string) : list event :=
  EvPrintf "%s" [PStr x] ::
  match l with
  | [] => []
  | y :: l' => EvPrintf " → " [] :: chain_text y l'
  end.
Definition dump_text (x : string) (l : list string) : list event :=
  EvPrintf "Pipeline: " [] :: chain_text x l ++ [EvPrintf "\n\n" []].

(** The nodes of the arc in order. *)
Definition arc_order (s e : string) (st : arc_state) : list string := s :: (features (l3_arc st)).*1 ++ [e].

(** The arc runs from [s] to [e] over nodes that exist, once each, and links go forward. *)
Record arc_wf (s e : string) (st : arc_state) : Prop := {
  w_nodes : zlen (nodes st) <= MAX_NODES;
  w_names : NoDup (names st);
  w_start : start (l3_arc st) = Some s;
  w_end : end_ (l3_arc st) = Some e;
  w_count : zlen (features (l3_arc st)) <= MAX_FEATURES;
  w_arc : NoDup (arc_order s e st);
  w_exist x : x ∈ s :: (features (l3_arc st)).*1 -> x ∈ names st;
  w_forward x y : next_of (nodes st) x = Some y -> [x; y] `sublist_of` arc_order s e st }.

(** ** Links *)

Lemma link_names f to ns : map name (link f to ns) = map name ns.
Proof. induction ns as [|n ns IH]; simpl; [done|]. destruct (String.eqb_spec (name n) f); simpl; congruence. Qed.

Lemma next_of_acc ns x acc :
  foldl (fun acc n => if String.eqb (name n) x then next n else acc) acc ns =
  if decide (x ∈ map name ns) then next_of ns x else acc.
Proof.
  revert acc. unfold next_of. induction ns as [|n ns IH]; intros acc; [by rewrite decide_False by apply not_elem_of_nil|].
  cbn [foldl map]. rewrite (IH (if String.eqb _ _ then _ else acc)), (IH (if String.eqb _ _ then _ else None)).
  destruct (String.eqb_spec (name n) x) as [->|Hn].
  - rewrite (decide_True (P := x ∈ x :: _)) by (by left). done.
  - destruct (decide (x ∈ map name ns)) as [Hi|Hi].
    + by rewrite decide_True by (by right).
    + rewrite decide_False; [done|]. rewrite elem_of_cons. intros [->|?]; done.
Qed.

Lemma next_of_cons n ns x :
  name n ∉ map name ns ->
  next_of (n :: ns) x = if String.eqb (name n) x then next n else next_of ns x.
Proof.
  intros Hn. unfold next_of. cbn [foldl]. rewrite next_of_acc.
  destruct (String.eqb_spec (name n) x) as [<-|]; [by rewrite decide_False|].
  destruct (decide (x ∈ map name ns)); [done|]. by rewrite next_of_acc, decide_False.
Qed.

Lemma next_of_link f to ns x :
  NoDup (map name ns) ->
  next_of (link f to ns) x = if decide (x = f /\ f ∈ map name ns) then to else next_of ns x.
Proof.
  induction ns as [|n ns IH]; intros Hd; [simpl; rewrite decide_False; [done|]; by intros [_ ?%not_elem_of_nil]|].
  cbn [map] in Hd. apply NoDup_cons in Hd as [Hn Hd]. cbn [link map].
  destruct (String.eqb_spec (name n) f) as [E|E].
  - rewrite !next_of_cons by done. cbn [name next]. rewrite E.
    destruct (String.eqb_spec f x) as [->|]; [rewrite decide_True; [done|]; split; [done|by left]|].
    rewrite decide_False; [done|]. by intros [-> _].
  - rewrite !next_of_cons by (rewrite ?link_names; done). rewrite IH by done.
    destruct (String.eqb_spec (name n) x) as [<-|Hx].
    + rewrite decide_False; [done|]. by intros [? _].
    + destruct (decide (x = f /\ f ∈ map name ns)) as [[-> Hf]|Hf].
      * rewrite decide_True; [done|]. split; [done|by right].
      * rewrite decide_False; [done|]. rewrite elem_of_cons. intros [-> [->|?]]; [done|]. by apply Hf.
Qed.

Lemma linked_link f to ns x l :
  NoDup (map name ns) -> f ∉ x :: l -> linked (link f to ns) x l <-> linked ns x l.
Proof.
  intros Hd. revert x. induction l as [|y l IH]; intros x Hf; cbn [linked];
    rewrite next_of_link, decide_False by (done || (intros [-> _]; apply Hf; by left)); [done|].
  rewrite IH; [done|]. intros H. apply Hf. by right.
Qed.

Lemma enabled_in fs x : x ∈ enabled fs -> x ∈ fs.*1.
Proof.
  unfold enabled. intros (f & -> & Hf)%list_elem_of_fmap. apply list_elem_of_filter in Hf as [_ Hf].
  by apply list_elem_of_fmap_2.
Qed.
Lemma enabled_cons f v fs : enabled ((f, v) :: fs) = if v =? 0 then enabled fs else f :: enabled fs.
Proof.
  unfold enabled. rewrite filter_cons. cbn [fst snd]. destruct (Z.eqb_spec v 0) as [->|Hv].
  - by rewrite decide_False by auto.
  - by rewrite decide_True.
Qed.

Lemma prints_set_next f to st t :
  f ∈ names st -> set_next (Some f) to st t = Done tt (set_nodes (link f to (nodes st)) st) t.
Proof. unfold set_next, names, bind, gets. destruct (nodes st); [by intros ?%not_elem_of_nil|done]. Qed.

(** The loop relinks [p] and the enabled features in order; other nodes keep their links. *)
Lemma rebuild_loop_spec fs p st t :
  NoDup (names st) -> NoDup (p :: fs.*1) -> (forall x, x ∈ p :: fs.*1 -> x ∈ names st) ->
  exists ns q, rebuild_loop fs (Some p) st t = Done (Some q) (set_nodes ns st) t /\
    map name ns = names st /\ q ∈ p :: fs.*1 /\
    (forall x, x ∉ p :: fs.*1 -> next_of ns x = next_of (nodes st) x) /\
    (forall x y e, next_of (link q (Some e) ns) x = Some y ->
       [x; y] `sublist_of` p :: fs.*1 ++ [e] \/ next_of (nodes st) x = Some y) /\
    forall e, e ∉ p :: fs.*1 -> next_of (nodes st) e = None -> linked (link q (Some e) ns) p (enabled fs ++ [e]).
Proof.
  revert p st. induction fs as [|[f v] fs IH]; intros p st Hd Hn Hx.
  - exists (nodes st), p. split; [by destruct st|]. split; [done|]. split; [by left|]. split; [done|]. split.
    { intros x y e. rewrite next_of_link by done. destruct (decide _) as [[-> _]|]; [|by right].
      intros [= ->]. left. done. }
    intros e He Hl. simpl. rewrite !next_of_link by done. rewrite decide_True by (split; [done|apply Hx; by left]).
    split; [done|]. rewrite decide_False; [done|]. intros [-> _]. apply He. by left.
  - cbn [fmap list_fmap fst] in *. rewrite enabled_cons. cbn [rebuild_loop].
    apply NoDup_cons in Hn as [Hp Hn]. pose proof Hn as [Hf Hn']%NoDup_cons.
    destruct (Z.eqb_spec v 0) as [->|Hv].
    + destruct (IH p st Hd) as (ns & q & R & En & Hq & Ho & Hw & Hl).
      { apply NoDup_cons. split; [|done]. intros H. apply Hp. by right. }
      { intros x [->|H]%elem_of_cons; apply Hx; [by left|by right; right]. }
      exists ns, q. split; [done|]. split; [done|]. split.
      { apply elem_of_cons in Hq as [->|Hq]; [by left|by right; right]. }
      assert (forall x, x ∉ p :: f :: fs.*1 -> x ∉ p :: fs.*1) as Hsub by (intros x; rewrite !elem_of_cons; tauto).
      split; [intros x Hx'; by apply Ho, Hsub|]. split; [|intros x Hx'; by apply Hl, Hsub].
      intros x y e Hxy. destruct (Hw x y e Hxy) as [Hs|]; [left|by right].
      etrans; [exact Hs|]. apply sublist_skip, sublist_cons. done.
    + set (st1 := set_nodes (link p (Some f) (nodes st)) st).
      assert (names st1 = names st) as N1 by apply link_names.
      destruct (IH f st1) as (ns & q & R & En & Hq & Ho & Hw & Hl); [by rewrite N1|done| |].
      { intros x H. rewrite N1. apply Hx. by right. }
      exists ns, q. unfold bind. rewrite prints_set_next by (apply Hx; by left). split; [done|].
      split; [congruence|]. split; [by right|]. split.
      * intros x Hnx. rewrite not_elem_of_cons in Hnx. destruct Hnx as [Hxp Hxf]. rewrite Ho by done. simpl.
        rewrite next_of_link, decide_False by (done || (by intros [? _])). done.
      * split.
        { intros x y e Hxy. destruct (Hw x y e Hxy) as [Hs|Hn2]; [left; by apply sublist_cons|].
          simpl in Hn2. rewrite next_of_link in Hn2 by done. destruct (decide _) as [[-> _]|]; [|by right].
          injection Hn2 as <-. left. apply sublist_skip. simpl. apply sublist_skip, sublist_nil_l. }
        intros e He Hle. rewrite not_elem_of_cons in He. destruct He as [Hep Hef]. cbn [linked app].
        assert (next_of (nodes st1) e = None) as Hle1.
        { simpl. rewrite next_of_link, decide_False by (done || (by intros [? _])). done. }
        specialize (Hl e Hef Hle1). split; [|exact Hl].
        rewrite next_of_link by (rewrite En, N1; done). rewrite decide_False by (intros [-> _]; done).
        rewrite Ho by done. simpl. rewrite next_of_link by done.
        rewrite decide_True by (split; [done|apply Hx; by left]). done.
Qed.

Lemma nodup_split (x : string) l r l' r' : NoDup (l ++ x :: r) -> l ++ x :: r = l' ++ x :: r' -> r = r'.
Proof.
  revert l'. induction l as [|z l IH]; intros [|z' l'] Hd E; simpl in *.
  - by injection E.
  - injection E as -> ->. apply NoDup_cons in Hd as [[] _]. apply elem_of_app. right. by left.
  - injection E as -> E. apply NoDup_cons in Hd as [[] _]. apply elem_of_app. right. by left.
  - injection E as -> E. apply NoDup_cons in Hd as [_ Hd]. by eapply IH.
Qed.
(** In a list without duplicates, what comes after [x] is in the rest. *)
Lemma sublist_pair_after (x y : string) l r : NoDup (l ++ x :: r) -> [x; y] `sublist_of` l ++ x :: r -> y ∈ r.
Proof.
  intros Hd (k1 & k2 & E & Hs)%sublist_cons_l. rewrite (nodup_split _ _ _ _ _ Hd E). by apply singleton_sublist_l.
Qed.

Lemma arc_last s e st x : arc_wf s e st -> next_of (nodes st) e <> Some x.
Proof.
  intros [_ _ _ _ _ Wa _ Wf] H. apply Wf in H. unfold arc_order in *. rewrite app_comm_cons in *.
  apply (sublist_pair_after _ _ _ [] Wa) in H. by apply not_elem_of_nil in H.
Qed.

(** Rebuilding keeps the arc well formed, whatever links an earlier one left. *)
Lemma rebuild_spec s e st t :
  arc_wf s e st ->
  exists ns, feature_arc_rebuild st t = Done tt (set_nodes ns st) t /\
    linked ns s (pipeline e st) /\ arc_wf s e (set_nodes ns st).
Proof.
  intros W. pose proof W as [Wn Wd Ws We Wc Wa Wx Wf]. unfold arc_order in Wa. rewrite app_comm_cons in Wa.
  apply NoDup_app in Wa as (Wa & We' & _).
  assert (e ∉ s :: (features (l3_arc st)).*1) as Hes.
  { intros H. apply (We' _ H). by left. }
  destruct (rebuild_loop_spec (features (l3_arc st)) s st t Wd Wa Wx) as (ns & q & R & En & Hq & Ho & Hw & Hl).
  exists (link q (Some e) ns). unfold feature_arc_rebuild, bind at 1 2 3 4, gets. rewrite Ws, R. cbn [l3_arc set_nodes].
  rewrite We. assert (q ∈ names (set_nodes ns st)) as Hqn by (unfold names; simpl; rewrite En; auto).
  split; [by rewrite prints_set_next|]. split.
  { apply Hl; [done|]. destruct (next_of (nodes st) e) as [x|] eqn:E0; [|done]. by destruct (arc_last _ _ _ x W). }
  constructor; try apply W.
  - assert (length (link q (Some e) ns) = length (nodes st)) as L.
    { by rewrite <- (length_map name), link_names, En, <- (length_map name (nodes st)). }
    unfold zlen in *. simpl. by rewrite L.
  - unfold names. simpl. by rewrite link_names, En.
  - intros x Hx. unfold names. simpl. rewrite link_names, En. by apply Wx.
  - intros x y Hxy. destruct (Hw _ _ _ Hxy) as [?|?]; [done|by apply Wf].
Qed.

Lemma prints_dump_loop l x fuel st t :
  linked (nodes st) x l -> (length l < fuel)%nat ->
  dump_loop fuel x st t = Done tt st (rev (chain_text x l) ++ t).
Proof.
  revert x fuel t. induction l as [|y l IH]; intros x [|fuel] t Hl Hf; try (simpl in Hf; lia);
    cbn [linked dump_loop chain_text] in *; unfold bind, printf, emit, gets.
  - by rewrite Hl.
  - destruct Hl as [-> Hl]. cbv beta iota. rewrite IH by (done || simpl in Hf; lia). simpl. by rewrite <- !app_assoc.
Qed.

(** ** The operations on well-formed arcs *)

Lemma switch_names n v fs : (switch n v fs).*1 = fs.*1.
Proof.
  unfold switch. induction fs as [|[f w] fs IH]; [done|]. cbn [map fmap list_fmap] in *. rewrite IH.
  simpl. by destruct (String.eqb f n).
Qed.

Lemma wf_set_features s e st fs :
  arc_wf s e st -> fs.*1 = (features (l3_arc st)).*1 -> arc_wf s e (set_features fs st).
Proof.
  intros [Wn Wd Ws We Wc Wa Wx Wf] E. unfold arc_order in *.
  constructor; unfold arc_order; cbn [set_features nodes l3_arc start end_ features]; rewrite ?E; try done.
  apply (f_equal length) in E. rewrite !length_fmap in E. unfold zlen in *. lia.
Qed.

(** Following the links from any place of the arc comes to an end. *)
Lemma dump_loop_ends s e st x l r fuel t :
  arc_wf s e st -> arc_order s e st = l ++ x :: r -> (length r < fuel)%nat ->
  exists k, dump_loop fuel x st t = Done tt st (rev (chain_text x k) ++ t) /\ linked (nodes st) x k.
Proof.
  intros W. revert x l r t. induction fuel as [|fuel IH]; intros x l r t Ha Hf; [lia|].
  cbn [dump_loop]. unfold bind at 1 2, printf, emit, gets.
  destruct (next_of (nodes st) x) as [y|] eqn:E0; [|by exists []].
  pose proof (w_forward _ _ _ W _ _ E0) as Hs. pose proof (w_arc _ _ _ W) as Hd. rewrite Ha in Hs, Hd.
  apply sublist_pair_after in Hs as (r1 & r2 & ->)%list_elem_of_split; [|done].
  unfold bind. destruct (IH y (l ++ x :: r1) r2 (EvPrintf " → " [] :: EvPrintf "%s" [PStr x] :: t)) as (k & R & L).
  { by rewrite Ha, <- app_assoc. }
  { rewrite length_app in Hf. simpl in Hf. lia. }
  exists (y :: k). rewrite R. split; [|done]. cbn [chain_text rev]. by rewrite <- !app_assoc.
Qed.

(** ** The operations of a program *)

Inductive op :=
| AddNode (n : string)
| Register (n : string)
| Enable (n : string)
| Disable (n : string)
| Rebuild
| Dump.

(** The arc has at most ten nodes. *)
Definition DUMP_FUEL : nat := Z.to_nat MAX_FEATURES + 2.

Definition exec (o : op) : AM unit :=
  match o with
  | AddNode n => add_node n
  | Register n => feature_register n
  | Enable n => feature_enable n
  | Disable n => feature_disable n
  | Rebuild => feature_arc_rebuild
  | Dump => dump_pipeline DUMP_FUEL
  end.

(** A new node has a new name; a feature is a node that is not in the arc; the arrays have room. *)
Definition op_ok (s e : string) (o : op) (st : arc_state) : Prop :=
  match o with
  | AddNode n => n ∉ names st /\ zlen (nodes st) < MAX_NODES
  | Register n => n ∈ names st /\ n ∉ arc_order s e st /\ zlen (features (l3_arc st)) < MAX_FEATURES
  | _ => True
  end.

(** What an operation prints. *)
Definition op_prints (s : string) (o : op) (st : arc_state) (ls : list event) : Prop :=
  match o with
  | Dump => exists k, linked (nodes st) s k /\ ls = dump_text s k
  | _ => ls = []
  end.

Lemma dump_ends s e st t :
  arc_wf s e st ->
  exists k, dump_pipeline DUMP_FUEL st t = Done tt st (rev (dump_text s k) ++ t) /\ linked (nodes st) s k.
Proof.
  intros W. unfold dump_pipeline, bind at 1 2, printf at 1, emit, gets. rewrite (w_start _ _ _ W). unfold bind.
  destruct (dump_loop_ends s e st s [] ((features (l3_arc st)).*1 ++ [e]) DUMP_FUEL (EvPrintf "Pipeline: " [] :: t))
    as (k & R & L); [done|done| |].
  { pose proof (w_count _ _ _ W) as C. rewrite length_app, length_fmap. unfold DUMP_FUEL, MAX_FEATURES, zlen in *.
    simpl. lia. }
  exists k. rewrite R. split; [|done]. unfold printf, emit, dump_text. f_equal. cbn [rev].
  by rewrite rev_app_distr, <- app_assoc.
Qed.

Lemma next_of_snoc ns n x :
  name n ∉ map name ns -> next n = None -> next_of (ns ++ [n]) x = next_of ns x.
Proof.
  intros Hn Hx. unfold next_of. rewrite foldl_app. cbn [foldl].
  destruct (String.eqb_spec (name n) x) as [<-|]; [|done].
  by rewrite next_of_acc, decide_False.
Qed.

Lemma exec_wf s e o st t :
  arc_wf s e st -> op_ok s e o st ->
  exists st' ls, exec o st t = Done tt st' (rev ls ++ t) /\ arc_wf s e st' /\ op_prints s o st ls.
Proof.
  intros W Ho. destruct o as [n|n|n|n| |]; cbn [exec op_ok op_prints] in *.
  - destruct Ho as [Hn Hr]. pose proof W as [Wn Wd Ws We Wc Wa Wx Wf]. unfold add_node, bind, gets.
    destruct (Z.ltb_spec (zlen (nodes st)) MAX_NODES) as [_|]; [|lia]. eexists _, []. split; [done|]. split; [|done].
    constructor; try done; cbn [set_nodes nodes]; unfold names; cbn [nodes set_nodes].
    + unfold zlen in *. rewrite length_app. simpl. lia.
    + rewrite map_app. apply NoDup_app. split; [done|]. split; [|apply NoDup_singleton].
      by intros x Hx ->%list_elem_of_singleton.
    + intros x Hx. rewrite map_app. apply elem_of_app. left. by apply Wx.
    + intros x y. rewrite next_of_snoc by done. apply Wf.
  - destruct Ho as (Hn & Ha & Hr). pose proof W as [Wn Wd Ws We Wc Wa Wx Wf]. unfold feature_register, bind, gets.
    destruct (Z.ltb_spec (zlen (features (l3_arc st))) MAX_FEATURES) as [_|]; [|lia].
    eexists _, []. split; [done|]. split; [|done]. unfold arc_order in *. rewrite app_comm_cons in *.
    constructor; try done; unfold arc_order; cbn [set_features nodes l3_arc features];
      rewrite ?fmap_app; cbn [fmap list_fmap fst]; rewrite ?app_comm_cons.
    + unfold zlen in *. rewrite length_app. simpl. lia.
    + rewrite <- app_assoc. apply NoDup_app in Wa as (Wa & We' & _). rewrite elem_of_app, list_elem_of_singleton in Ha.
      apply NoDup_app. split; [done|]. split; [|simpl; apply NoDup_cons; split; [|apply NoDup_singleton]].
      * intros x Hx [->|H%list_elem_of_singleton]%elem_of_cons; [tauto|]. subst. apply (We' _ Hx). by left.
      * rewrite list_elem_of_singleton. tauto.
    + intros x [H| ->%list_elem_of_singleton]%elem_of_app; [by apply Wx|done].
    + intros x y Hxy. etrans; [by apply Wf|]. apply sublist_app; [|done]. by apply sublist_inserts_r.
  - eexists _, []. split; [done|]. split; [|done]. by apply wf_set_features, switch_names.
  - eexists _, []. split; [done|]. split; [|done]. by apply wf_set_features, switch_names.
  - destruct (rebuild_spec s e st t W) as (ns & R & _ & W'). by exists (set_nodes ns st), [].
  - destruct (dump_ends s e st t W) as (k & R & L). exists st, (dump_text s k). split; [done|]. split; [done|]. by exists k.
Qed.

(** C29: Well-formedness of the feature arc is kept by every operation: from a well-formed arc (every
    name once, the features among the nodes, links only forward along the arc, no array beyond its
    size) each operation that is called as documented ends without a fault in a well-formed arc, and
    prints nothing, except [dump_pipeline], which ends and prints the chain of links from the start. *)
Theorem arc_operations_wf s e o st t :
  arc_wf s e st -> op_ok s e o st ->
  exists st' ls, exec o st t = Done tt st' (rev ls ++ t) /\ arc_wf s e st' /\ op_prints s o st ls.
Proof. apply exec_wf. Qed.

(** ** Rebuilding implements the pipeline of the enabled features *)

Inductive toggle := On (n : string) | Off (n : string).
Definition toggled (fs : list (string * Z)) (o : toggle) : list (string * Z) :=
  match o with On n => switch n 1 fs | Off n => switch n 0 fs end.
Fixpoint run_toggles (os : list toggle) : AM unit :=
  match os with
  | [] => ret tt
  | On n :: os' => feature_enable n ;; run_toggles os'
  | Off n :: os' => feature_disable n ;; run_toggles os'
  end.

(** The last switch of a feature decides. *)
Definition last_switch (n : string) (v : Z) (os : list toggle) : Z :=
  foldl (fun v o => match o with On m => if String.eqb n m then 1 else v | Off m => if String.eqb n m then 0 else v end) v os.

Lemma toggled_all os fs : foldl toggled fs os = map (fun f => (f.1, last_switch f.1 f.2 os)) fs.
Proof.
  revert fs. induction os as [|o os IH]; intros fs; simpl.
  - induction fs as [|[f v] fs IHf]; simpl; congruence.
  - rewrite IH. destruct o; simpl; unfold switch; rewrite map_map; apply map_ext; intros [f v]; simpl;
      by destruct (String.eqb f n).
Qed.
Lemma run_toggles_spec os st t :
  run_toggles os st t = Done tt (set_features (foldl toggled (features (l3_arc st)) os) st) t.
Proof.
  revert st. induction os as [|o os IH]; intros st; [by destruct st as [? []]|].
  destruct o; simpl; unfold bind, feature_enable, feature_disable, modify; by rewrite IH.
Qed.
Lemma toggled_names os fs : (foldl toggled fs os).*1 = fs.*1.
Proof.
  revert fs. induction os as [|o os IH]; intros fs; [done|]. cbn [foldl]. rewrite IH. destruct o; apply switch_names.
Qed.

(** C11: After any sequence of switches and a rebuild, [dump_pipeline] ends and prints exactly the
    start, the features whose last switch was on (or that were on and not switched) in the order of
    their registration, and the end, whatever links earlier rebuilds left behind. *)
Theorem rebuild_dump_correct s e os st t :
  arc_wf s e st ->
  exists st', (run_toggles os ;; feature_arc_rebuild ;; dump_pipeline DUMP_FUEL) st t =
      Done tt st' (rev (dump_text s (enabled (map (fun f => (f.1, last_switch f.1 f.2 os)) (features (l3_arc st))) ++ [e])) ++ t) /\
    arc_wf s e st'.
Proof.
  intros W. set (st1 := set_features (foldl toggled (features (l3_arc st)) os) st).
  assert (arc_wf s e st1) as W1 by (apply wf_set_features; [done|apply toggled_names]).
  destruct (rebuild_spec s e st1 t W1) as (ns & R & L & W2).
  destruct (dump_ends s e (set_nodes ns st1) t W2) as (k & R' & L').
  exists (set_nodes ns st1). split; [|done]. unfold bind. rewrite run_toggles_spec. fold st1. rewrite R, R'.
  assert (k = pipeline e st1) as ->.
  { clear -L L'. revert L L'. cbn [nodes set_nodes]. generalize (pipeline e st1) as l. revert k. generalize s as x.
    intros x k. revert x. induction k as [|y k IH]; intros x [|z l]; simpl; intros H1 H2; try done.
    - destruct H1. congruence.
    - destruct H2. congruence.
    - destruct H1 as [H1 L1], H2 as [H2 L2]. rewrite H1 in H2. injection H2 as ->. f_equal. by apply (IH y). }
  unfold pipeline, st1. cbn [features l3_arc set_features]. by rewrite toggled_all.
Qed.

(** ** The program *)

Definition dumps (l : list string) : list event := match l with [] => [] | x :: l => dump_text x l end.

Lemma next_of_unlinked ns x : Forall (fun n => next n = None) ns -> next_of ns x = None.
Proof.
  intros H. unfold next_of. induction H as [|n ns Hn _ IH]; [done|]. simpl. rewrite Hn.
  by destruct (String.eqb (name n) x).
Qed.

(** The arc of [main] when it has been set up. *)
Definition l3_state (fs : list Z) : arc_state :=
  ArcState [Node "L3" None; Node "Firewall" None; Node "NAT" None; Node "QoS" None; Node "L4" None]
    (Arc (Some "L3") (Some "L4") (zip ["Firewall"; "NAT"; "QoS"] fs))%string.

Lemma l3_wf a b c : arc_wf "L3" "L4" (l3_state [a; b; c]).
Proof.
  constructor; unfold names, arc_order; simpl; try done.
  - apply (bool_decide_unpack _). by vm_compute.
  - apply (bool_decide_unpack _). by vm_compute.
  - intros x. rewrite !elem_of_cons. tauto.
  - intros x y. rewrite next_of_unlinked; [done|]. by repeat constructor.
Qed.

(** [main] shows five pipelines. *)
Example feature_arc_main :
  exists st, main DUMP_FUEL arc_state0 [] = Done 0 st (rev (
    dumps ["L3"; "L4"] ++ dumps ["L3"; "Firewall"; "L4"] ++ dumps ["L3"; "Firewall"; "NAT"; "L4"] ++
    dumps ["L3"; "QoS"; "L4"] ++ dumps ["L3"; "Firewall"; "NAT"; "QoS"; "L4"]))%string.
Proof. eexists. by vm_compute. Qed.

(** A feature with the name of the end makes a cycle, and [dump_pipeline] never ends. *)
Definition cyclic : arc_state :=
  ArcState [Node "L3" (Some "L4"); Node "NAT" (Some "L4"); Node "L4" (Some "NAT")]
    (Arc (Some "L3") (Some "L4") [("L4", 1); ("NAT", 1)])%string.
Example cyclic_built :
  (add_node "L3" ;; add_node "NAT" ;; add_node "L4" ;; feature_arc_init "L3" "L4" ;;
   feature_register "L4" ;; feature_register "NAT" ;; feature_enable "L4" ;; feature_enable "NAT" ;;
   feature_arc_rebuild)%string arc_state0 [] = Done tt cyclic [].
Proof. by vm_compute. Qed.
Example cyclic_dump_never_ends fuel t : exists t', dump_pipeline fuel cyclic t = Fault cyclic t'.
Proof.
  unfold dump_pipeline, bind at 1 2, printf at 1, emit, gets. simpl. unfold bind at 1.
  enough (forall x t, x = "L3" \/ x = "L4" \/ x = "NAT" -> exists t', dump_loop fuel x cyclic t = Fault cyclic t')%string as H.
  { destruct (H "L3"%string (EvPrintf "Pipeline: " [] :: t)) as [t' ->]; [by left|]. by eexists. }
  induction fuel as [|fuel IH]; intros x t1 Hx; cbn [dump_loop]; [by eexists|].
  destruct Hx as [-> |[-> | ->]]; (apply IH; auto).
Qed.

Lemma arc_operations_wf_witness :
  arc_wf "L3" "L4" (l3_state [1; 0; 1]) /\
  exists st' ls, exec Rebuild (l3_state [1; 0; 1]) [] = Done tt st' (rev ls ++ []) /\ arc_wf "L3" "L4" st' /\
    op_prints "L3" Rebuild (l3_state [1; 0; 1]) ls.
Proof. split; [apply l3_wf|]. apply arc_operations_wf; [apply l3_wf|done]. Defined.

Lemma rebuild_dump_correct_witness :
  map (fun f => (f.1, last_switch f.1 f.2 [On "NAT"; Off "Firewall"])) (features (l3_arc (l3_state [1; 0; 1]))) =
    [("Firewall", 0); ("NAT", 1); ("QoS", 1)] /\
  exists st', (run_toggles [On "NAT"; Off "Firewall"] ;; feature_arc_rebuild ;; dump_pipeline DUMP_FUEL) (l3_state [1; 0; 1]) [] =
      Done tt st' (rev (dump_text "L3" (enabled (map (fun f => (f.1, last_switch f.1 f.2 [On "NAT"; Off "Firewall"]))
        (features (l3_arc (l3_state [1; 0; 1])))) ++ ["L4"])) ++ []) /\
    arc_wf "L3" "L4" st'.
Proof. split; [by vm_compute|]. apply rebuild_dump_correct, l3_wf. Defined.
