(* ===== verification/Rcu.v ===== *)
(** * rcu/sample: a reader and a writer with quiescent-state-based reclamation

    The writer replaces the object behind [gdata] five times and frees the old
    one after [rte_rcu_qsbr_synchronize]; the reader, on another lcore, loads the
    pointer and uses the object until its next quiescent state.  The QSBR library
    is a parameter: [RteQsbr] has its operations with their documented laws. *)

From Stdlib Require Import Sorted.
From S2P Require Import Prelude Rte Env Schedule Ipc Sim.

(** ** rte_rcu_qsbr.h *)

(** [online_threads]: who reports quiescent states; [passed q t]: who has reported one, or gone
    online, since the token [t] was handed out.  [rte_rcu_qsbr_synchronize] is documented as
    [rte_rcu_qsbr_start] followed by a [rte_rcu_qsbr_check] that waits; here [qsbr_check] is the
    check that does not wait.  [rte_rcu_qsbr_lock] and [unlock] have no effect outside debug builds. *)
Class RteQsbr := {
  rte_rcu_qsbr : Type;
  rte_rcu_qsbr_init : Z -> rte_rcu_qsbr;
  thread_register : rte_rcu_qsbr -> Z -> rte_rcu_qsbr;
  thread_unregister : rte_rcu_qsbr -> Z -> rte_rcu_qsbr;
  thread_online : rte_rcu_qsbr -> Z -> rte_rcu_qsbr;
  thread_offline : rte_rcu_qsbr -> Z -> rte_rcu_qsbr;
  quiescent : rte_rcu_qsbr -> Z -> rte_rcu_qsbr;
  qsbr_start : rte_rcu_qsbr -> Z * rte_rcu_qsbr;
  qsbr_check : rte_rcu_qsbr -> Z -> bool;
  online_threads : rte_rcu_qsbr -> gset Z;
  passed : rte_rcu_qsbr -> Z -> gset Z;
  issued : rte_rcu_qsbr -> Z -> Prop;
  qsbr_init_law n : online_threads (rte_rcu_qsbr_init n) = ∅;
  register_law q i : online_threads (thread_register q i) = online_threads q;
  unregister_law q i : online_threads (thread_unregister q i) = online_threads q ∖ {[i]};
  online_law q i : online_threads (thread_online q i) = {[i]} ∪ online_threads q;
  offline_law q i : online_threads (thread_offline q i) = online_threads q ∖ {[i]};
  quiescent_law q i : online_threads (quiescent q i) = online_threads q;
  start_law q : online_threads (qsbr_start q).2 = online_threads q /\
    issued (qsbr_start q).2 (qsbr_start q).1 /\ passed (qsbr_start q).2 (qsbr_start q).1 = ∅;
  register_passed q i t : issued q t -> issued (thread_register q i) t /\ passed (thread_register q i) t = passed q t;
  unregister_passed q i t : issued q t -> issued (thread_unregister q i) t /\ passed (thread_unregister q i) t = passed q t;
  online_passed q i t : issued q t -> issued (thread_online q i) t /\ passed (thread_online q i) t = {[i]} ∪ passed q t;
  offline_passed q i t : issued q t -> issued (thread_offline q i) t /\ passed (thread_offline q i) t = passed q t;
  quiescent_passed q i t : issued q t -> issued (quiescent q i) t /\ passed (quiescent q i) t = {[i]} ∪ passed q t;
  check_law q t : issued q t -> qsbr_check q t = true <-> online_threads q ⊆ passed q t
}.

Definition RTE_MAX_LCORE := 128.
Definition sizeof_data := 4.

Section Rcu.
Context {E : Env} {RQ : RteQsbr}.

(** [data] are the values of the live [struct data] by address; [qsbr_at] is the address of the
    QSBR variable, [qsbr] its contents, [None] when it is freed; [finished] is the state of the
    reader's lcore, for which [rte_eal_mp_wait_lcore] waits. *)
Record rcu_state := Rcu {
  data : gmap Z Z; gdata : Z; qsbr : option rte_rcu_qsbr; qsbr_at : Z; stop : bool; finished : bool }.
Definition rcu0 : rcu_state := Rcu ∅ 0 None 0 false true.
Notation M := (M rcu_state).

Definition set_data (d : gmap Z Z) (s : rcu_state) := Rcu d (gdata s) (qsbr s) (qsbr_at s) (stop s) (finished s).
Definition set_gdata (a : Z) (s : rcu_state) := Rcu (data s) a (qsbr s) (qsbr_at s) (stop s) (finished s).
Definition set_qsbr (q : option rte_rcu_qsbr) (s : rcu_state) := Rcu (data s) (gdata s) q (qsbr_at s) (stop s) (finished s).
Definition set_stop (b : bool) (s : rcu_state) := Rcu (data s) (gdata s) (qsbr s) (qsbr_at s) b (finished s).
Definition set_finished (b : bool) (s : rcu_state) := Rcu (data s) (gdata s) (qsbr s) (qsbr_at s) (stop s) b.

(** [p = rte_malloc(NULL, sizeof( *p), 0); p->value = v;] *)
Definition new_data (v : Z) : M Z :=
  a <-- malloc sizeof_data ;;
  if a =? 0 then fault
  else modify (fun s => set_data (<[a := v]> (data s)) s) ;; ret a.
Definition value (a : Z) : M Z := o <-- gets (fun s => data s !! a) ;; deref o.
Definition free_data (a : Z) : M unit :=
  _ <-- value a ;; rte_free a ;; modify (fun s => set_data (delete a (data s)) s).
Definition on_qsbr (f : rte_rcu_qsbr -> rte_rcu_qsbr) : M unit :=
  o <-- gets qsbr ;; q <-- deref o ;; modify (set_qsbr (Some (f q))).

(** ** reader *)

Inductive reader_pc :=
| RRegister
| ROnline
| RTest                      (* while (!stop) *)
| RLoad
| RUse (d : Z)
| RQuiescent
| ROffline
| RUnregister
| RReturn
| RDone.

#[export] Instance reader_pc_eq_dec : EqDecision reader_pc.
Proof. solve_decision. Defined.

Definition reader_step (id : Z) (pc : reader_pc) : M reader_pc :=
  match pc with
  | RRegister => on_qsbr (fun q => thread_register q id) ;; ret ROnline
  | ROnline => on_qsbr (fun q => thread_online q id) ;; ret RTest
  | RTest => b <-- gets stop ;; ret (if b : bool then ROffline else RLoad)
  | RLoad => d <-- gets gdata ;; ret (RUse d)
  | RUse d =>
      v <-- value d ;;
      printf "[reader lcore %u] value = %d\n" [PInt id; PInt v] ;;
      ret RQuiescent
  | RQuiescent => on_qsbr (fun q => quiescent q id) ;; _ <-- call (api_call "sleep" [1]) ;; ret RTest
  | ROffline => on_qsbr (fun q => thread_offline q id) ;; ret RUnregister
  | RUnregister => on_qsbr (fun q => thread_unregister q id) ;; ret RReturn
  | RReturn => modify (set_finished true) ;; ret RDone
  | RDone => ret RDone
  end.

(** ** writer, and the rest of main *)

Inductive writer_pc :=
| WTop (i : Z)
| WSwap (i new : Z)
| WPrint (i new old : Z)
| WStart (i old : Z)           (* rte_rcu_qsbr_synchronize *)
| WWait (i old token : Z)
| WFree (i old : Z)
| WJoin                        (* rte_eal_mp_wait_lcore *)
| WClean
| WDone.

Definition writer_step (pc : writer_pc) : M writer_pc :=
  match pc with
  | WTop i =>
      if i <? 5
      then _ <-- call (api_call "sleep" [2]) ;; new <-- new_data (i + 1) ;; ret (WSwap i new)
      else modify (set_stop true) ;; ret WJoin
  | WSwap i new => old <-- gets gdata ;; modify (set_gdata new) ;; ret (WPrint i new old)
  | WPrint i new old =>
      v <-- value new ;; printf "\n[writer] updated value → %d\n\n" [PInt v] ;; ret (WStart i old)
  | WStart i old =>
      o <-- gets qsbr ;; q <-- deref o ;;
      modify (set_qsbr (Some (qsbr_start q).2)) ;; ret (WWait i old (qsbr_start q).1)
  | WWait i old token =>
      o <-- gets qsbr ;; q <-- deref o ;;
      ret (if qsbr_check q token then WFree i old else WWait i old token)
  | WFree i old => free_data old ;; printf "[writer] freed old value\n\n" [] ;; ret (WTop (i + 1))
  | WJoin => b <-- gets finished ;; ret (if b : bool then WClean else WJoin)
  | WClean =>
      a <-- gets gdata ;; free_data a ;;
      o <-- gets qsbr ;; _ <-- deref o ;; q <-- gets qsbr_at ;; rte_free q ;; modify (set_qsbr None) ;;
      _ <-- call rte_eal_cleanup ;; ret WDone
  | WDone => ret WDone
  end.

(** [main] up to the launch of the reader, whose lcore it returns; the results of [rte_eal_init]
    and [rte_eal_remote_launch] are not looked at. *)
Definition setup : M Z :=
  _ <-- call rte_eal_init ;;
  sz <-- call (api_call "rte_rcu_qsbr_get_memsize" [RTE_MAX_LCORE]) ;;
  q <-- malloc sz ;;
  if q =? 0 then fault
  else
    modify (fun s => Rcu (data s) (gdata s) (Some (rte_rcu_qsbr_init RTE_MAX_LCORE)) q (stop s) (finished s)) ;;
    a <-- new_data 0 ;;
    modify (set_gdata a) ;;
    worker <-- call (api_call "rte_get_next_lcore" [-1; 1; 0]) ;;
    _ <-- call (rte_eal_remote_launch "reader" worker) ;;
    modify (set_finished false) ;;
    ret worker.

Definition main (sched : list proc) : M (writer_pc * reader_pc) :=
  id <-- setup ;; run writer_step (reader_step id) sched (WTop 0, RRegister).

(** ** What the reader has seen *)

Fixpoint reader_saw (t : trace) : list Z :=
  match t with
  | [] => []
  | EvPrintf f [PInt _; PInt v] :: t' =>
      if String.eqb f "[reader lcore %u] value = %d\n" then reader_saw t' ++ [v] else reader_saw t'
  | _ :: t' => reader_saw t'
  end.

(** ** The invariant *)

(** The block that is not [gdata], with its value; and the value of [gdata]. *)
Definition other (w : writer_pc) : option (Z * Z) :=
  match w with
  | WSwap i new => Some (new, i + 1)
  | WPrint i _ old | WStart i old | WWait i old _ | WFree i old => Some (old, i)
  | _ => None
  end.
Definition current (w : writer_pc) : Z :=
  match w with
  | WTop i | WSwap i _ => i
  | WPrint i _ _ | WStart i _ | WWait i _ _ | WFree i _ => i + 1
  | _ => 5
  end.
Definition writer_ok (w : writer_pc) : Prop :=
  match w with
  | WTop i => 0 <= i <= 5
  | WSwap i _ | WPrint i _ _ | WStart i _ | WWait i _ _ | WFree i _ => 0 <= i < 5
  | _ => True
  end.
Definition is_online (r : reader_pc) : bool :=
  match r with RTest | RLoad | RUse _ | RQuiescent | ROffline => true | _ => false end.
Definition stopping (w : writer_pc) : bool := match w with WJoin | WClean | WDone => true | _ => false end.
Definition leaving (r : reader_pc) : bool :=
  match r with ROffline | RUnregister | RReturn | RDone => true | _ => false end.

(** What the reader may still use: the current object, or the old one as long as the writer
    has not seen it pass. *)
Definition may_use (id : Z) (w : writer_pc) (q : rte_rcu_qsbr) (g d : Z) : Prop :=
  d = g \/
  match w with
  | WPrint _ _ old | WStart _ old => d = old
  | WWait _ old tok => d = old /\ id ∉ passed q tok
  | _ => False
  end.

Record inv (id : Z) (p : writer_pc * reader_pc) (s : rcu_state) (t : trace) (q : rte_rcu_qsbr) : Prop := {
  i_qsbr : qsbr s = Some q;
  i_data : data s = match other p.1 with
                    | Some (a, v) => <[a := v]> {[gdata s := current p.1]}
                    | None => {[gdata s := current p.1]}
                    end;
  i_other a v : other p.1 = Some (a, v) -> a <> gdata s;
  i_print i new old : p.1 = WPrint i new old -> new = gdata s;
  i_live : live_blocks t = {[qsbr_at s]} ∪ dom (data s);
  i_at : qsbr_at s ∉ dom (data s);
  i_writer : writer_ok p.1;
  i_online : online_threads q = if is_online p.2 then {[id]} else ∅;
  i_token i old tok : p.1 = WWait i old tok -> issued q tok;
  i_use d : p.2 = RUse d -> may_use id p.1 q (gdata s) d;
  i_stop : stop s = stopping p.1;
  i_leaving : leaving p.2 = true -> stop s = true;
  i_finished : finished s = match p.2 with RDone => true | _ => false end;
  i_clean : p.1 = WClean -> p.2 = RDone;
  i_running : p.1 <> WDone;
  i_sorted : StronglySorted Z.le (reader_saw t);
  i_saw v : v ∈ reader_saw t -> 0 <= v <= current p.1;
  i_saw_use d w v : p.2 = RUse d -> data s !! d = Some w -> v ∈ reader_saw t -> v <= w }.

Hypothesis memory : malloc_works.

Lemma wp_new_data v (Q : Z -> rcu_state -> trace -> Prop) X s t :
  (forall a, a ∉ live_blocks t -> Q a (set_data (<[a := v]> (data s)) s) (EvMalloc sizeof_data a :: t)) ->
  wp (new_data v) Q X s t.
Proof.
  intros H. unfold new_data. wp_step. unfold wp at 1, malloc. pose proof (memory t sizeof_data) as Hm.
  rewrite (proj2 (Z.eqb_neq _ _) Hm). wp_steps. by apply H, env_malloc_fresh.
Qed.
Lemma wp_value a v (Q : Z -> rcu_state -> trace -> Prop) X s t :
  data s !! a = Some v -> Q v s t -> wp (value a) Q X s t.
Proof. intros Hv H. unfold value. wp_steps. by eapply wp_deref. Qed.
Lemma wp_free_data a v (Q : unit -> rcu_state -> trace -> Prop) X s t :
  data s !! a = Some v -> Q tt (set_data (delete a (data s)) s) (EvMfree a :: t) -> wp (free_data a) Q X s t.
Proof. intros Hv H. unfold free_data. wp_step. eapply wp_value; [done|]. by wp_steps. Qed.
Lemma wp_on_qsbr f q (Q : unit -> rcu_state -> trace -> Prop) X s t :
  qsbr s = Some q -> Q tt (set_qsbr (Some (f q)) s) t -> wp (on_qsbr f) Q X s t.
Proof. intros Hv H. unfold on_qsbr. wp_steps. eapply wp_deref; [done|]. by wp_steps. Qed.

(** Both blocks are live with their values. *)
Lemma inv_current id p s t q : inv id p s t q -> data s !! gdata s = Some (current p.1).
Proof.
  intros I. rewrite (i_data _ _ _ _ _ I). pose proof (i_other _ _ _ _ _ I) as Ho.
  destruct (other p.1) as [[a v]|]; [|by rewrite lookup_singleton_eq].
  rewrite lookup_insert_ne by (by eapply Ho). by rewrite lookup_singleton_eq.
Qed.
Lemma inv_other id p s t q a v : inv id p s t q -> other p.1 = Some (a, v) -> data s !! a = Some v.
Proof. intros I Ho. rewrite (i_data _ _ _ _ _ I), Ho. by rewrite lookup_insert_eq. Qed.
Lemma inv_qsbr_use id p s t q d :
  inv id p s t q -> p.2 = RUse d -> exists v, data s !! d = Some v /\ 0 <= v <= current p.1.
Proof.
  intros I Hr. pose proof (i_writer _ _ _ _ _ I) as Hw. destruct (i_use _ _ _ _ _ I d Hr) as [->|Hu].
  - eexists. split; [by eapply inv_current|]. destruct (p.1); simpl in *; lia.
  - pose proof (fun a v => inv_other id p s t q a v I) as Ho.
    destruct (p.1); try done; simpl in *; [subst| |destruct Hu as [-> _]]; subst;
      (eexists; split; [by eapply Ho|lia]).
Qed.

(** A state of the data in which one more block is live. *)
Lemma fresh_block s t a :
  live_blocks t = {[qsbr_at s]} ∪ dom (data s) -> a ∉ live_blocks t ->
  a <> qsbr_at s /\ data s !! a = None.
Proof. intros -> H. rewrite not_elem_of_union, not_elem_of_singleton, not_elem_of_dom in H. tauto. Qed.

(** Fields of the invariant that a step leaves alone. *)
Ltac keep I :=
  destruct I; constructor; cbn [fst snd data gdata qsbr qsbr_at stop finished set_data set_gdata set_qsbr set_stop
    set_finished other current writer_ok is_online stopping leaving live_blocks reader_saw] in *;
  try done; try congruence;
  try (let H := fresh in intros H; match goal with K : _ = WClean -> _ |- _ => specialize (K H); discriminate K end).

Lemma reader_saw_other fmt args t : String.eqb fmt "[reader lcore %u] value = %d\n" = false ->
  reader_saw (EvPrintf fmt args :: t) = reader_saw t.
Proof. intros H. destruct args as [|[x|x] [|[y|y] [|]]]; try done. simpl. by rewrite H. Qed.

Lemma writer_step_ok id w r s t q :
  inv id (w, r) s t q -> w <> WClean ->
  wp (writer_step w) (fun w' s' t' => exists q', inv id (w', r) s' t' q') (fun _ _ _ => False) s t.
Proof.
  intros I Hne. pose proof (inv_current _ _ _ _ _ I) as Hc. pose proof (fun d => inv_qsbr_use _ _ _ _ _ d I) as Hu.
  pose proof (fun a v => inv_other _ _ _ _ _ a v I) as Ho.
  destruct w as [i|i new|i new old|i old|i old tok|i old| | |]; simpl writer_step.
  - destruct (Z.ltb_spec i 5) as [Hi|Hi].
    + wp_steps. apply wp_new_data. cbn [live_blocks]. intros a Ha. wp_steps. exists q.
      destruct (fresh_block s t a (i_live _ _ _ _ _ I) Ha) as [Hat Hd]. keep I.
      * rewrite i_live0, dom_insert_L. set_solver.
      * rewrite dom_insert_L. set_solver.
      * lia.
      * intros d w v Hr Hw Hv. destruct (Hu d Hr) as (v' & Hd' & _).
        rewrite lookup_insert_ne in Hw by congruence. by eapply i_saw_use0.
    + wp_steps. exists q. keep I.
      * assert (i = 5) as -> by lia. done.
      * intros v Hv. apply i_saw0 in Hv. lia.
  - wp_steps. exists q. keep I.
    + pose proof (i_other0 new (i + 1) eq_refl) as Hn. rewrite i_data0, <- (insert_empty (gdata s)), <- (insert_empty new). by apply insert_insert_ne.
    + intros a v [= <- <-] E0. by apply (i_other0 new (i + 1)).
    + intros d Hr. destruct (i_use0 d Hr) as [->|[]]. by right.
    + intros v Hv. apply i_saw0 in Hv. lia.
  - wp_step. eapply wp_value; [rewrite (i_print _ _ _ _ _ I _ _ _ eq_refl); exact Hc|]. wp_steps. exists q.
    keep I; by rewrite reader_saw_other.
  - wp_steps. eapply wp_deref; [apply I|]. wp_steps. exists (qsbr_start q).2.
    destruct (start_law q) as (L1 & L2 & L3). keep I.
    + intros d Hr. destruct (i_use0 d Hr) as [->|Hd]; [by left|right]. split; [done|]. rewrite L3. set_solver.
  - wp_steps. eapply wp_deref; [apply I|]. wp_steps. exists q.
    pose proof (i_token _ _ _ _ _ I _ _ _ eq_refl) as Ht. destruct (qsbr_check q tok) eqn:Hk; [|done].
    apply check_law in Hk; [|done]. keep I.
    + intros d Hr. destruct (i_use0 d Hr) as [->|[-> Hd]]; [by left|]. subst r. simpl in *. set_solver.
  - wp_step. eapply wp_free_data; [by apply Ho|]. wp_steps. exists q. keep I.
    + rewrite i_data0. rewrite delete_insert_id; [done|]. rewrite lookup_singleton_ne; [done|].
      intros E0. by apply (i_other0 old i).
    + rewrite i_live0, dom_delete_L. apply not_elem_of_dom in i_at0.
      assert (old <> qsbr_at s) by (intros ->; specialize (Ho _ _ eq_refl); simpl in Ho; congruence). set_solver.
    + rewrite dom_delete_L. set_solver.
    + lia.
    + intros d w v Hr Hw Hv.
      apply lookup_delete_Some in Hw as [_ Hw]. by eapply i_saw_use0.
  - wp_steps. exists q. destruct (finished s) eqn:Hf; [|done]. keep I.
    + intros _. destruct r; congruence.
  - done.
  - by destruct (i_running _ _ _ _ _ I).
Qed.

Lemma sorted_snoc l v : StronglySorted Z.le l -> (forall x, x ∈ l -> x <= v) -> StronglySorted Z.le (l ++ [v]).
Proof.
  intros Hs Hl. induction Hs as [|x l Hs IH Hx]; simpl; [by repeat constructor|]. constructor.
  - apply IH. intros y Hy. apply Hl. by right.
  - apply Forall_app. split; [done|]. constructor; [|done]. apply Hl. by left.
Qed.

Lemma reader_step_ok id w r s t q :
  inv id (w, r) s t q ->
  wp (reader_step id r) (fun r' s' t' => exists q', inv id (w, r') s' t' q') (fun _ _ _ => False) s t.
Proof.
  intros I. pose proof (inv_current _ _ _ _ _ I) as Hc. pose proof (fun d => inv_qsbr_use _ _ _ _ _ d I) as Hu.
  destruct r as [| | | |d| | | | |]; simpl reader_step;
    try (wp_step; eapply wp_on_qsbr; [apply I|]).
  - wp_steps. exists (thread_register q id). keep I.
    + by rewrite register_law.
    + intros i old tok Hw. by apply register_passed, (i_token0 i old).
  - wp_steps. exists (thread_online q id). keep I.
    + rewrite online_law, i_online0. set_solver.
    + intros i old tok Hw. by apply online_passed, (i_token0 i old).
  - wp_steps. exists q. destruct (stop s) eqn:Hs; keep I.
  - wp_steps. exists q. keep I.
    + intros d [= <-]. by left.
    + intros d v x [= <-] Hd Hx. rewrite Hc in Hd. injection Hd as <-. by apply i_saw0.
  - destruct (Hu d eq_refl) as (v & Hd & Hv). wp_step. eapply wp_value; [done|]. wp_steps. exists q.
    pose proof (i_saw_use _ _ _ _ _ I d v) as Hle. keep I.
    + apply sorted_snoc; [done|]. intros x. by apply Hle.
    + intros x [Hx|Hx]%elem_of_app; [by apply i_saw0|]. apply list_elem_of_singleton in Hx. by subst.
  - wp_steps. exists (quiescent q id). keep I.
    + by rewrite quiescent_law.
    + intros i old tok Hw. by apply quiescent_passed, (i_token0 i old).
  - wp_steps. exists (thread_offline q id). keep I.
    + rewrite offline_law, i_online0. set_solver.
    + intros i old tok Hw. by apply offline_passed, (i_token0 i old).
  - wp_steps. exists (thread_unregister q id). keep I.
    + rewrite unregister_law, i_online0. set_solver.
    + intros i old tok Hw. by apply unregister_passed, (i_token0 i old).
  - wp_steps. exists q. keep I.
  - wp_steps. by exists q.
Qed.

(** ** The whole program *)

Definition over (p : writer_pc * reader_pc) (t : trace) : Prop :=
  p = (WDone, RDone) /\ live_blocks t = ∅ /\ StronglySorted Z.le (reader_saw t) /\
  forall v, v ∈ reader_saw t -> 0 <= v <= 5.
Definition rcu_inv (id : Z) (p : writer_pc * reader_pc) (s : rcu_state) (t : trace) : Prop :=
  (exists q, inv id p s t q) \/ over p t.

Lemma clean_ok id r s t q :
  inv id (WClean, r) s t q ->
  wp (writer_step WClean) (fun w' _ t' => over (w', r) t') (fun _ _ _ => False) s t.
Proof.
  intros I. pose proof (inv_current _ _ _ _ _ I) as Hc. simpl writer_step. wp_steps.
  eapply wp_free_data; [done|]. wp_steps. eapply wp_deref; [apply I|]. wp_steps.
  destruct I. simpl in *. rewrite (i_clean0 eq_refl). split; [done|]. split; [|done].
  cbn [live_blocks]. rewrite i_live0, i_data0, dom_singleton_L. set_solver.
Qed.

Lemma rcu_step_ok id x p s t :
  rcu_inv id p s t -> wp (proc_step writer_step (reader_step id) x p) (rcu_inv id) (fun _ _ _ => False) s t.
Proof.
  intros [[q I]|O].
  - destruct p as [w r], x; simpl; wp_step.
    + destruct w; try (eapply wp_mono; [by apply (writer_step_ok _ _ _ _ _ _ I)| |done];
        intros w' s' t' I'; wp_steps; by left).
      eapply wp_mono; [by apply (clean_ok _ _ _ _ _ I)| |done]. intros w' s' t' O. wp_steps. by right.
    + eapply wp_mono; [by apply (reader_step_ok _ _ _ _ _ _ I)| |done]. intros r' s' t' I'. wp_steps. by left.
  - destruct O as (-> & O). destruct x; simpl; wp_steps; by right.
Qed.

Lemma setup_rcu_ok :
  wp setup (fun id s t => rcu_inv id (WTop 0, RRegister) s t) (fun _ _ _ => False) rcu0 [].
Proof.
  unfold setup. do 5 wp_step. unfold wp at 1, malloc. set (t := EvApi _ _ :: _).
  pose proof (memory t r0) as Hm. pose proof (env_malloc_fresh t r0 Hm) as Hf.
  rewrite (proj2 (Z.eqb_neq _ _) Hm). set (at_ := env_malloc t r0) in *.
  cbv iota. wp_steps.
  apply wp_new_data. intros a Ha. wp_steps. left. exists (rte_rcu_qsbr_init RTE_MAX_LCORE).
  simpl in Ha. assert (a <> at_) as Hne by set_solver.
  constructor; cbn [fst snd data gdata qsbr qsbr_at stop finished set_data set_gdata set_finished other current
      writer_ok is_online stopping leaving]; try done.
  - simpl. rewrite !dom_insert_L. set_solver.
  - rewrite dom_insert_L. set_solver.
  - by rewrite qsbr_init_law.
  - constructor.
  - by intros v ?%not_elem_of_nil.
Qed.

(** What holds at any time of what has happened. *)
Definition rcu_good (p : writer_pc * reader_pc) (t : trace) : Prop :=
  StronglySorted Z.le (reader_saw t) /\ Forall (fun v => 0 <= v <= 5) (reader_saw t) /\
  (size (live_blocks t) <= 3)%nat /\ (p.1 = WDone -> p.2 = RDone /\ live_blocks t = ∅).

Lemma size_add_le (x : Z) (X : gset Z) : (size ({[x]} ∪ X) <= S (size X))%nat.
Proof.
  rewrite size_union_alt, size_singleton. pose proof (subseteq_size (X ∖ {[x]}) X ltac:(set_solver)). lia.
Qed.

Lemma rcu_inv_good id p s t : rcu_inv id p s t -> rcu_good p t.
Proof.
  intros [[q I]|(-> & Hl & Hs & Hv)].
  - split; [apply I|]. split.
    { apply Forall_forall. intros v Hv. pose proof (i_saw _ _ _ _ _ I v Hv). pose proof (i_writer _ _ _ _ _ I).
      destruct (p.1); simpl in *; lia. }
    split; [|intros Hd; by destruct (i_running _ _ _ _ _ I)].
    rewrite (i_live _ _ _ _ _ I), (i_data _ _ _ _ _ I).
    pose proof (size_add_le (gdata s) ∅) as L. rewrite size_empty in L.
    destruct (other p.1) as [[a v]|]; rewrite ?dom_insert_L, dom_singleton_L, <- (union_empty_r_L {[gdata s]}).
    + pose proof (size_add_le a ({[gdata s]} ∪ ∅)). pose proof (size_add_le (qsbr_at s) ({[a]} ∪ ({[gdata s]} ∪ ∅))). lia.
    + pose proof (size_add_le (qsbr_at s) ({[gdata s]} ∪ ∅)). lia.
  - split; [done|]. split; [by apply Forall_forall|]. rewrite Hl, size_empty. split; [lia|done].
Qed.

Lemma main_inv sched :
  wp (main sched) (fun p s t => exists id, rcu_inv id p s t) (fun _ _ _ => False) rcu0 [].
Proof.
  unfold main. wp_step. eapply wp_mono; [apply setup_rcu_ok| |done]. intros id s t I.
  eapply wp_mono; [apply (wp_run _ _ (rcu_inv id)); [|exact I]| |done]; [apply rcu_step_ok|by eexists].
Qed.

(** C7: The RCU example under every interleaving of reader and writer, with any QSBR library that keeps
    its laws and as long as memory does not run out: nothing is used after it was freed and nothing is
    freed twice; at most two objects and the QSBR variable are allocated at any time; the values that
    the reader prints are in order, within 0 to 5; and when the program has ended nothing is allocated. *)
Theorem rcu_main_safe sched :
  wp (main sched) (fun p _ t => rcu_good p t) (fun _ _ _ => False) rcu0 [].
Proof. eapply wp_mono; [apply main_inv| |done]. intros p s t [id I]. by eapply rcu_inv_good. Qed.

(** ** The end of the program under fair schedules *)

(** Reader steps to the next quiescent state, and to the end once [stop] is set. *)
Definition to_quiescent (r : reader_pc) : nat :=
  match r with RQuiescent => 1 | RUse _ => 2 | RLoad => 3 | RTest => 4 | ROnline => 5 | RRegister => 6 | _ => 0 end.
Definition to_end (r : reader_pc) : nat :=
  match r with
  | RDone => 0 | RReturn => 1 | RUnregister => 2 | ROffline => 3 | RTest => 4
  | ROnline | RQuiescent => 5 | RRegister | RUse _ => 6 | RLoad => 7
  end.

(** The writer waits for the reader. *)
Definition waiting (p : writer_pc * reader_pc) (s : rcu_state) : bool :=
  match p.1, qsbr s with
  | WWait _ _ tok, Some q => negb (qsbr_check q tok)
  | WJoin, _ => negb (finished s)
  | _, _ => false
  end.
Definition round_base (i : Z) : nat := 50 * Z.to_nat (5 - i).
Definition rcu_rank (p : writer_pc * reader_pc) (s : rcu_state) (t : trace) : nat :=
  match p.1 with
  | WTop i => round_base i + 20
  | WSwap i _ => round_base i + 19
  | WPrint i _ _ => round_base i + 18
  | WStart i _ => round_base i + 17
  | WWait i _ _ => round_base i + 5 + (if waiting p s then to_quiescent p.2 else 0)
  | WFree i _ => round_base i + 4
  | WJoin => 2 + to_end p.2
  | WClean => 1
  | WDone => 0
  end.
Definition rcu_blocked (x : proc) (p : writer_pc * reader_pc) (s : rcu_state) : bool :=
  match x, p.1 with
  | _, WDone => true
  | Primary, _ => waiting p s
  | Secondary, _ => negb (waiting p s)
  end.


(** What a reader step does to the checks of the writer and to its own way. *)
Lemma reader_step_effect id w r s t q :
  inv id (w, r) s t q ->
  wp (reader_step id r) (fun r' s' _ => exists q', qsbr s' = Some q' /\
    (forall tok, issued q tok -> qsbr_check q tok = true -> qsbr_check q' tok = true) /\
    (forall tok, issued q tok -> r = RQuiescent -> qsbr_check q' tok = true) /\
    (stop s = false -> r <> RQuiescent -> (to_quiescent r' < to_quiescent r)%nat) /\
    (stop s = true -> r <> RDone -> (to_end r' < to_end r)%nat) /\
    (r = RDone -> r' = RDone)) (fun _ _ _ => False) s t.
Proof.
  intros I. pose proof (i_qsbr _ _ _ _ _ I) as Hq. pose proof (i_online _ _ _ _ _ I) as Ho.
  pose proof (i_leaving _ _ _ _ _ I) as Hl. cbn [snd] in *.
  destruct r as [| | | |d| | | | |]; simpl reader_step; cbn [leaving to_quiescent to_end is_online] in *;
    try (wp_step; eapply wp_on_qsbr; [exact Hq|]).
  - wp_steps. eexists. split; [done|]. split_and!; try done; try (cbn; lia).
    intros tok Ht. destruct (register_passed q id tok Ht) as [Ht' E0]. rewrite !check_law by done.
    by rewrite register_law, E0.
  - wp_steps. eexists. split; [done|]. split_and!; try done; try (cbn; lia).
    intros tok Ht. destruct (online_passed q id tok Ht) as [Ht' E0]. rewrite !check_law by done.
    rewrite online_law, E0. set_solver.
  - wp_steps. exists q. split; [done|]. split_and!; try done; intros Hs; rewrite Hs; cbn; lia.
  - wp_steps. exists q. split; [done|]. split_and!; try done; cbn; lia.
  - wp_step. destruct (inv_qsbr_use _ _ _ _ _ d I eq_refl) as (v & Hd & _). eapply wp_value; [done|]. wp_steps.
    exists q. split; [done|]. split_and!; try done; cbn; lia.
  - wp_steps. eexists. split; [done|].
    assert (forall tok, issued q tok -> qsbr_check (quiescent q id) tok = true) as Hk.
    { intros tok Ht. destruct (quiescent_passed q id tok Ht) as [Ht' E0]. rewrite check_law by done.
      rewrite quiescent_law, E0, Ho. set_solver. }
    split_and!; try done; auto; intros; cbn; lia.
  - wp_steps. eexists. split; [done|]. rewrite Hl by done. split_and!; try done; try (cbn; lia).
    intros tok Ht. destruct (offline_passed q id tok Ht) as [Ht' E0]. rewrite !check_law by done.
    rewrite offline_law, E0. set_solver.
  - wp_steps. eexists. split; [done|]. rewrite Hl by done. split_and!; try done; try (cbn; lia).
    intros tok Ht. destruct (unregister_passed q id tok Ht) as [Ht' E0]. rewrite !check_law by done.
    rewrite unregister_law, E0. set_solver.
  - wp_steps. exists q. split; [done|]. rewrite Hl by done. split_and!; try done; cbn; lia.
  - wp_steps. exists q. split; [done|]. rewrite Hl by done. by split_and!.
Qed.

Lemma rcu_progress id x p s t :
  rcu_inv id p s t ->
  wp (proc_step writer_step (reader_step id) x p)
    (fun p' s' t' => progress rcu_rank rcu_blocked x p s t p' s' t') (fun _ _ _ => False) s t.
Proof.
  intros [[q I]|(-> & _)]; [|destruct x; simpl; wp_steps; unfold progress; simpl; (split; [done|by intros []])].
  destruct p as [w r]. pose proof (i_qsbr _ _ _ _ _ I) as Hq. pose proof (i_writer _ _ _ _ _ I) as Hw.
  destruct x; simpl; wp_step.
  - pose proof (inv_current _ _ _ _ _ I) as Hc. pose proof (fun a v => inv_other _ _ _ _ _ a v I) as Ho. cbn [fst] in *.
    assert (forall w' s' t', rcu_blocked Primary (w, r) s = false -> (rcu_rank (w', r) s' t' < rcu_rank (w, r) s t)%nat ->
      progress rcu_rank rcu_blocked Primary (w, r) s t (w', r) s' t') as Hgo.
    { intros w' s' t' Hb Hlt. unfold progress. by rewrite Hb. }
    destruct w as [i|i new|i new old|i old|i old tok|i old| | |]; simpl writer_step.
    + destruct (Z.ltb_spec i 5) as [Hi|Hi]; wp_steps.
      * apply wp_new_data. intros a _. wp_steps. apply Hgo; [done|]. unfold rcu_rank. cbn. lia.
      * apply Hgo; [done|]. unfold rcu_rank. cbn. destruct r; simpl; lia.
    + wp_steps. apply Hgo; [done|]. unfold rcu_rank. cbn. lia.
    + wp_step. eapply wp_value; [rewrite (i_print _ _ _ _ _ I _ _ _ eq_refl); exact Hc|]. wp_steps.
      apply Hgo; [done|]. unfold rcu_rank. cbn. lia.
    + wp_steps. eapply wp_deref; [exact Hq|]. wp_steps. apply Hgo; [done|]. unfold rcu_rank. cbn [fst snd].
      destruct (waiting _ _), r; simpl; lia.
    + wp_steps. eapply wp_deref; [exact Hq|]. wp_steps. destruct (qsbr_check q tok) eqn:Hk.
      * apply Hgo; unfold rcu_blocked, rcu_rank, waiting; cbn [fst snd]; rewrite Hq, Hk; [done|]. simpl. lia.
      * unfold progress, rcu_blocked, waiting. cbn [fst]. rewrite Hq, Hk. done.
    + wp_step. eapply wp_free_data; [by apply Ho|]. wp_steps. apply Hgo; [done|]. unfold rcu_rank, round_base. cbn in *. lia.
    + wp_steps. destruct (finished s) eqn:Hf.
      * apply Hgo; unfold rcu_blocked, rcu_rank, waiting; cbn [fst snd]; rewrite ?Hf; [done|]. lia.
      * unfold progress, rcu_blocked, waiting. cbn [fst]. by rewrite Hf.
    + wp_steps. eapply wp_free_data; [exact Hc|]. wp_steps. eapply wp_deref; [exact Hq|]. wp_steps.
      apply Hgo; [done|]. unfold rcu_rank. cbn. lia.
    + by destruct (i_running _ _ _ _ _ I).
  - pose proof (i_stop _ _ _ _ _ I) as Hs. pose proof (i_finished _ _ _ _ _ I) as Hf.
    pose proof (i_leaving _ _ _ _ _ I) as Hl. cbn [fst snd] in *.
    eapply wp_mono; [apply wp_and; [by apply (reader_step_ok _ _ _ _ _ _ I)|by apply (reader_step_effect _ _ _ _ _ _ I)]| |done].
    intros r' s' t' [[q1 I'] (q' & Hq' & E1 & E2 & E3 & E4 & E5)]. wp_steps.
    pose proof (i_finished _ _ _ _ _ I') as Hf'. cbn [fst snd] in *.
    unfold progress, rcu_blocked, rcu_rank, waiting. cbn [fst snd]. rewrite Hq, Hq'.
    destruct w as [i|i new|i new old|i old|i old tok|i old| | |]; cbn [stopping] in *;
      try (split; [done|by intros []]).
    + pose proof (i_token _ _ _ _ _ I _ _ _ eq_refl) as Ht. specialize (E1 tok Ht). specialize (E2 tok Ht).
      destruct (qsbr_check q tok); [rewrite E1 by done; split; [done|by intros []]|].
      destruct (decide (r = RQuiescent)) as [->|Hr]; [rewrite E2 by done; simpl; lia|].
      specialize (E3 Hs Hr). simpl. destruct (qsbr_check q' tok); simpl; lia.
    + destruct (finished s) eqn:Hfs.
      * assert (r = RDone) as -> by (by destruct r). rewrite (E5 eq_refl) in *. rewrite Hf'. split; [done|by intros []].
      * simpl. specialize (E4 Hs). destruct r; try done; specialize (E4 ltac:(done)); lia.
Qed.

Lemma rcu_rounds id ls p s t :
  rcu_inv id p s t -> Forall round ls -> (rcu_rank p s t <= length ls)%nat ->
  wp (run writer_step (reader_step id) (concat ls) p) (fun p' _ t' => p' = (WDone, RDone) /\ over p' t') (fun _ _ _ => False) s t.
Proof.
  intros I Hr Hl. eapply wp_mono; [apply (wp_rounds_end _ _ (rcu_inv id) rcu_rank rcu_blocked); [|done..]| |done].
  - intros x p1 s1 t1 I1. apply wp_and; [by apply rcu_step_ok|by eapply rcu_progress].
  - intros p' s' t' [[[q I']|O] H]; [|by pose proof O as [-> _]]. exfalso.
    pose proof (i_running _ _ _ _ _ I') as Hn. destruct H as [H|H].
    + destruct p' as [[] r']; unfold rcu_rank in H; cbn [fst snd] in *; done || lia.
    + pose proof (H Primary) as H1. specialize (H Secondary). unfold rcu_blocked in *.
      destruct (p'.1); try done; rewrite H1 in H; done.
Qed.

(** C36: The RCU example ends: any schedule made of 270 rounds in each of which both threads run at
    least once brings both to their end, with all memory freed; the wait of
    [rte_rcu_qsbr_synchronize] never blocks the writer for good. *)
Theorem rcu_main_ends ls :
  Forall round ls -> (270 <= length ls)%nat ->
  wp (main (concat ls)) (fun p _ t => p = (WDone, RDone) /\ live_blocks t = ∅) (fun _ _ _ => False) rcu0 [].
Proof.
  intros Hr Hl. unfold main. wp_step. eapply wp_mono; [apply setup_rcu_ok| |done]. intros id s t I.
  eapply wp_mono; [apply rcu_rounds; [exact I|done|]| |done].
  - unfold rcu_rank. cbn. lia.
  - intros p s' t' [-> O]. split; [done|apply O].
Qed.
End Rcu.

(** ** A concrete QSBR: who is online, and for every token who has passed *)

Record sim_qsbr_state := SimQsbr { sq_online : gset Z; sq_passed : gmap Z (gset Z) }.
Definition sq_pass (i : Z) (q : sim_qsbr_state) : gmap Z (gset Z) := (fun X => {[i]} ∪ X) <$> sq_passed q.

Definition sim_qsbr : RteQsbr.
Proof.
  refine {| rte_rcu_qsbr := sim_qsbr_state;
    rte_rcu_qsbr_init n := SimQsbr ∅ ∅;
    thread_register q i := q;
    thread_unregister q i := SimQsbr (sq_online q ∖ {[i]}) (sq_passed q);
    thread_online q i := SimQsbr ({[i]} ∪ sq_online q) (sq_pass i q);
    thread_offline q i := SimQsbr (sq_online q ∖ {[i]}) (sq_passed q);
    quiescent q i := SimQsbr (sq_online q) (sq_pass i q);
    qsbr_start q := let t := fresh (dom (sq_passed q)) in (t, SimQsbr (sq_online q) (<[t := ∅]> (sq_passed q)));
    qsbr_check q t := bool_decide (sq_online q ⊆ default ∅ (sq_passed q !! t));
    online_threads := sq_online;
    passed q t := default ∅ (sq_passed q !! t);
    issued q t := is_Some (sq_passed q !! t) |}; try done.
  - intros q. simpl. by rewrite lookup_insert_eq.
  - intros q i t [X HX]. unfold sq_pass. simpl. rewrite lookup_fmap, HX. by split; [eexists|].
  - intros q i t [X HX]. unfold sq_pass. simpl. rewrite lookup_fmap, HX. by split; [eexists|].
  - intros q t _. apply bool_decide_eq_true.
Defined.

#[local] Instance wenv : Env := sim_env quiet_script.
#[local] Existing Instance sim_qsbr.

(** The reader loads the first object; the writer replaces it and waits; the reader uses it, passes
    and only then it is freed. *)
Definition w_sched : list proc :=
  repeat Secondary 4 ++ repeat Primary 6 ++ repeat Secondary 2 ++ repeat Primary 2.
Definition w_result : option (writer_pc * list Z * bool) :=
  match main w_sched rcu0 [] with
  | Done p s t => Some (p.1, reader_saw t, bool_decide (live_blocks t = {[qsbr_at s; gdata s]}))
  | _ => None
  end.

Lemma rcu_main_safe_witness :
  w_result = Some (WTop 1, [0], true) /\
  wp (main w_sched) (fun p _ t => rcu_good p t) (fun _ _ _ => False) rcu0 [].
Proof. split; [by vm_compute|]. apply rcu_main_safe. by apply sim_malloc_works. Defined.

Lemma rcu_main_ends_witness :
  wp (main (concat (repeat [Secondary; Primary] 270))) (fun p _ t => p = (WDone, RDone) /\ live_blocks t = ∅)
    (fun _ _ _ => False) rcu0 [].
Proof.
  apply rcu_main_ends.
  - by apply sim_malloc_works.
  - apply Forall_forall. intros l Hl. apply list_elem_of_In, repeat_spec in Hl. subst.
    split; apply (bool_decide_unpack _); by vm_compute.
  - rewrite repeat_length. lia.
Defined.
