(* ===== verification/Reorder.v ===== *)
(** * reordering: numbering packets and putting them back in order

    rx_burst/main.c and main2.c number the packets they receive, insert them into
    a reorder buffer and drain it; sample/main.c inserts eight packets out of
    order; dynamic_seqno/main.c only numbers packets.  rte_reorder is a
    parameter: [RteReorder] has its operations with their documented laws. *)

From S2P Require Import Prelude Rte Env Packet Ownership Ipc Sim.

(** The sequence numbers [b], [b + 1], ..., which wrap around. *)
Definition serials (b : Z) (n : nat) : list Z := map (fun j => u32 (b + Z.of_nat j)) (seq 0 n).

(** The packets at [b], [b + 1], ... up to the first gap, at most [n]. *)
Fixpoint in_order (held : gmap Z mbuf) (b : Z) (n : nat) : list mbuf :=
  match n with
  | O => []
  | S n' => match held !! b with Some m => m :: in_order held (u32 (b + 1)) n' | None => [] end
  end.

(** ** rte_reorder.h *)

(** [held]: the packets in the buffer by sequence number; [min_seqn]: the next number to deliver,
    set by the first insertion; [all_in_window]: no packet beyond the window has been accepted.
    A packet whose number lies in the window is accepted; draining delivers in order, up to the
    first gap.  [reorder_offset] is the offset of the dynamic field that [rte_reorder_create]
    registers for the sequence number. *)
Class RteReorder := {
  rte_reorder : Type;
  reorder_offset : Z;
  rte_reorder_new : Z -> rte_reorder;
  rte_reorder_insert : rte_reorder -> Z -> mbuf -> Z * rte_reorder;
  rte_reorder_drain : rte_reorder -> Z -> list mbuf * rte_reorder;
  held : rte_reorder -> gmap Z mbuf;
  min_seqn : rte_reorder -> option Z;
  window : rte_reorder -> Z;
  all_in_window : rte_reorder -> Prop;
  reorder_offset_law : 0 <= reorder_offset;
  reorder_new_law n : held (rte_reorder_new n) = ∅ /\ min_seqn (rte_reorder_new n) = None /\
    window (rte_reorder_new n) = n /\ all_in_window (rte_reorder_new n);
  reorder_insert_law q sq m : let b := default sq (min_seqn q) in let r := rte_reorder_insert q sq m in
    all_in_window q -> u32 (sq - b) < window q -> held q !! sq = None ->
    r.1 = 0 /\ held r.2 = <[sq := m]> (held q) /\ min_seqn r.2 = Some b /\ window r.2 = window q /\ all_in_window r.2;
  reorder_insert_error q sq m : (rte_reorder_insert q sq m).1 < 0 -> held (rte_reorder_insert q sq m).2 = held q;
  reorder_drain_law q b n : let r := rte_reorder_drain q n in
    all_in_window q -> min_seqn q = Some b -> 0 <= n ->
    r.1 = in_order (held q) b (Z.to_nat n) /\
    held r.2 = foldr delete (held q) (serials b (length r.1)) /\
    min_seqn r.2 = Some (u32 (b + zlen r.1)) /\ window r.2 = window q /\ all_in_window r.2
}.

Definition EXIT_FAILURE := 1.
Definition RTE_MBUF_DEFAULT_BUF_SIZE := 2176.

Section Reorder.
Context {E : Env} {RO : RteReorder}.

(** The reorder buffer; the offset of the dynamic field of the sequence number, a variable of the
    program that the library shares and sets; and what this field of each mbuf holds. *)
Record rstate := RState { rbuf : option rte_reorder; seqn_offset : Z; seqns : gmap Z Z }.
Definition rstate0 : rstate := RState None (-1) ∅.
Notation M := (M rstate).

(** [RTE_MBUF_DYNFIELD(m, offset, uint32_t * )], written and read. *)
Definition store_seqn (m : mbuf) (v : Z) : M unit :=
  o <-- gets seqn_offset ;;
  if o <? 0 then fault
  else modify (fun s => RState (rbuf s) (seqn_offset s) (<[mb_id m := v]> (seqns s))).
Definition load_seqn (m : mbuf) : M Z :=
  o <-- gets seqn_offset ;;
  if o <? 0 then fault else v <-- gets (fun s => seqns s !! mb_id m) ;; deref v.

Definition put_rbuf (q : rte_reorder) : M unit := modify (fun s => RState (Some q) (seqn_offset s) (seqns s)).
Definition reorder_create (size : Z) : M Z :=
  r <-- call (api_call "rte_reorder_create" [size]) ;;
  when (negb (r =? 0)) (modify (fun s => RState (Some (rte_reorder_new size)) reorder_offset (seqns s))) ;;
  ret r.
Definition reorder_insert (m : mbuf) : M Z :=
  o <-- gets rbuf ;; q <-- deref o ;;
  sq <-- load_seqn m ;;
  put_rbuf (rte_reorder_insert q sq m).2 ;; ret (rte_reorder_insert q sq m).1.
Definition reorder_drain (n : Z) : M (list mbuf) :=
  o <-- gets rbuf ;; q <-- deref o ;;
  put_rbuf (rte_reorder_drain q n).2 ;; ret (rte_reorder_drain q n).1.

(** ** The receive loops of rx_burst *)

(** One received packet; [announce] is the message of main.c, which main2.c does not print. *)
Definition insert_one (announce : Z -> M unit) (m : mbuf) (seq : Z) : M unit :=
  store_seqn m seq ;;
  announce seq ;;
  r <-- reorder_insert m ;;
  when (r <? 0) (rte_pktmbuf_free m).
Definition insert_all (announce : Z -> M unit) (bufs : list mbuf) (seq : Z) : M Z :=
  for_ (length bufs) 0 (fun i seq =>
    m <-- deref (bufs !! Z.to_nat i) ;;
    insert_one announce m seq ;;
    ret (u32 (seq + 1))) seq.
Definition release_one (fmt : string) (m : mbuf) : M unit :=
  seq <-- load_seqn m ;;
  printf fmt [PInt seq] ;;
  rte_pktmbuf_free m.
Definition loop_body (announce : Z -> M unit) (fmt : string) (burst : Z) (seq : Z) : M Z :=
  bufs <-- rte_eth_rx_burst 0 0 burst ;;
  if zlen bufs =? 0 then ret seq
  else
    seq <-- insert_all announce bufs seq ;;
    out <-- reorder_drain burst ;;
    _ <-- for_each (release_one fmt) out ;;
    ret seq.

(** main.c *)
Definition BURST := 8.
Definition WINDOW := 8.
Definition announce_insert (seq : Z) : M unit := printf "Insert seq = %u\n" [PInt seq].
Definition DRAINED : string := "Drained seq = %u\n".

Definition init_port (port mp ntx : Z) (started : string) : M unit :=
  r <-- call (rte_eth_dev_configure port 1 ntx) ;;
  when (r <? 0) (rte_exit EXIT_FAILURE) ;;
  r <-- call (rte_eth_rx_queue_setup port 0 1024 mp) ;;
  when (r <? 0) (rte_exit EXIT_FAILURE) ;;
  r <-- call (rte_eth_dev_start port) ;;
  when (r <? 0) (rte_exit EXIT_FAILURE) ;;
  printf started [PInt port].

(** [rte_panic] aborts. *)
Definition rte_panic {A} : M A := rte_exit (-1).

Definition main (n : nat) : M Z :=
  r <-- call rte_eal_init ;;
  when (r <? 0) rte_panic ;;
  mp <-- call (rte_pktmbuf_pool_create "POOL" 1024 32 0 RTE_MBUF_DEFAULT_BUF_SIZE) ;;
  when (mp =? 0) rte_panic ;;
  init_port 0 mp 1 "Port %u initialized and started.\n" ;;
  buf <-- reorder_create WINDOW ;;
  when (buf =? 0) rte_panic ;;
  printf "reorder created sucess\n" [] ;;
  forever n (loop_body announce_insert DRAINED BURST) 0.

(** main2.c *)
Definition BURST_SIZE := 32.
Definition WINDOW_SIZE := 128.
Definition announce_nothing (seq : Z) : M unit := ret tt.
Definition ORDERED : string := "Ordered packet seq = %u\n".

Definition rx_reorder_loop (n : nat) (mp : Z) : M Z :=
  buf <-- reorder_create WINDOW_SIZE ;;
  when (buf =? 0) (rte_exit EXIT_FAILURE) ;;
  printf "Starting RX + reorder loop\n" [] ;;
  forever n (loop_body announce_nothing ORDERED BURST_SIZE) 0.
Definition main2 (n : nat) : M Z :=
  r <-- call rte_eal_init ;;
  when (r <? 0) (rte_exit EXIT_FAILURE) ;;
  mp <-- call (rte_pktmbuf_pool_create "MBUF_POOL" 8192 256 0 RTE_MBUF_DEFAULT_BUF_SIZE) ;;
  when (mp =? 0) (rte_exit EXIT_FAILURE) ;;
  init_port 0 mp 0 "Port %u started\n" ;;
  rx_reorder_loop n mp.

(** ** Sequence numbers *)

Lemma serials_length b n : length (serials b n) = n.
Proof. unfold serials. by rewrite length_map, length_seq. Qed.
Lemma serials_snoc b n : serials b (S n) = serials b n ++ [u32 (b + Z.of_nat n)].
Proof. unfold serials. by rewrite seq_S, map_app. Qed.
Lemma serials_cons b n : serials b (S n) = u32 b :: serials (u32 (b + 1)) n.
Proof.
  unfold serials. cbn [seq map]. f_equal; [f_equal; lia|]. rewrite <- seq_shift, map_map. apply map_ext. intros j.
  unfold u32. rewrite Zplus_mod_idemp_l. f_equal. lia.
Qed.
Lemma serials_app b n k : serials b (n + k) = serials b n ++ serials (u32 (b + Z.of_nat n)) k.
Proof.
  induction k as [|k IH]; [by rewrite Nat.add_0_r, app_nil_r|].
  rewrite Nat.add_succ_r, !serials_snoc, IH, <- app_assoc. do 3 f_equal. unfold u32.
  rewrite Zplus_mod_idemp_l. f_equal. lia.
Qed.

Definition SPAN := 4294967296.
Lemma u32_span x : u32 x = x mod SPAN.
Proof. done. Qed.
Lemma u32_offset_inj b i j : 0 <= i < SPAN -> 0 <= j < SPAN -> u32 (b + i) = u32 (b + j) -> i = j.
Proof.
  rewrite !u32_span. unfold SPAN. intros Hi Hj H.
  pose proof (Z.div_mod (b + i) 4294967296). pose proof (Z.div_mod (b + j) 4294967296).
  generalize dependent ((b + i) mod 4294967296). generalize dependent ((b + j) mod 4294967296).
  generalize ((b + i) / 4294967296) ((b + j) / 4294967296). intros. lia.
Qed.
Lemma u32_offset_diff b i : is_u32 b -> 0 <= i < SPAN -> u32 (u32 (b + i) - b) = i.
Proof.
  intros _ Hi. unfold u32. rewrite Zminus_mod_idemp_l. rewrite Z.add_simpl_l. by apply Z.mod_small.
Qed.
Lemma serials_nodup b n : Z.of_nat n <= SPAN -> NoDup (serials b n).
Proof.
  intros Hn. unfold serials. apply (NoDup_fmap_2_strong _); [|apply NoDup_seq].
  intros i j Hi%elem_of_seq Hj%elem_of_seq H. apply u32_offset_inj in H; lia.
Qed.

(** ** The buffer after the packets [ms] were inserted at [b], [b + 1], ... *)

Definition placed (b : Z) (ms : list mbuf) : gmap Z mbuf := list_to_map (zip (serials b (length ms)) ms).

Lemma placed_keys b (ms : list mbuf) : (zip (serials b (length ms)) ms).*1 = serials b (length ms).
Proof. apply fst_zip. by rewrite serials_length. Qed.

Lemma placed_lookup b ms j : Z.of_nat (length ms) < SPAN -> (j <= length ms)%nat ->
  placed b ms !! u32 (b + Z.of_nat j) = ms !! j.
Proof.
  intros Hl Hj. unfold placed. destruct (ms !! j) as [m|] eqn:Hm.
  - apply elem_of_list_to_map; [rewrite placed_keys; apply serials_nodup; lia|].
    apply list_elem_of_lookup. exists j. rewrite lookup_zip_with, Hm.
    apply lookup_lt_Some in Hm. unfold serials. change map with (@fmap list list_fmap).
    rewrite list_lookup_fmap, lookup_seq_lt by done. done.
  - apply not_elem_of_list_to_map_1. rewrite placed_keys. unfold serials.
    intros (i & Hi & Hin%elem_of_seq)%list_elem_of_fmap. apply lookup_ge_None in Hm.
    apply u32_offset_inj in Hi; lia.
Qed.

Lemma placed_snoc b ms m : Z.of_nat (length ms) < SPAN ->
  placed b (ms ++ [m]) = <[u32 (b + Z.of_nat (length ms)) := m]> (placed b ms).
Proof.
  intros Hl. unfold placed. rewrite length_app. simpl. rewrite Nat.add_1_r, serials_snoc, zip_with_app
    by by rewrite serials_length.
  simpl. apply list_to_map_snoc. rewrite placed_keys. unfold serials.
  intros (i & Hi & Hin%elem_of_seq)%list_elem_of_fmap. apply u32_offset_inj in Hi; lia.
Qed.

Lemma in_order_placed b ms n : is_u32 b -> Z.of_nat (length ms) < SPAN -> in_order (placed b ms) b n = take n ms.
Proof.
  intros Hb Hl. enough (forall j, (j <= length ms)%nat -> in_order (placed b ms) (u32 (b + Z.of_nat j)) n = take n (drop j ms)) as H.
  { specialize (H O ltac:(lia)). rewrite drop_0 in H. rewrite <- H. f_equal. rewrite Z.add_0_r. symmetry. by apply u32_small. }
  induction n as [|n IH]; intros j Hj; [done|]. cbn [in_order]. rewrite placed_lookup by done.
  destruct (ms !! j) as [m|] eqn:Hm.
  - rewrite (drop_S _ _ _ Hm). simpl. f_equal. pose proof (lookup_lt_Some _ _ _ Hm). rewrite <- IH by lia. f_equal.
    unfold u32. rewrite Zplus_mod_idemp_l. f_equal. lia.
  - apply lookup_ge_None in Hm. by rewrite drop_ge.
Qed.

Lemma lookup_foldr_delete (m : gmap Z mbuf) ks k :
  foldr delete m ks !! k = if decide (k ∈ ks) then None else m !! k.
Proof.
  induction ks as [|x ks IH]; cbn [foldr].
  { destruct (decide (k ∈ [])) as [H|]; [by apply not_elem_of_nil in H|done]. }
  destruct (decide (k = x)) as [->|Hne].
  - by rewrite lookup_delete_eq, decide_True by (by left).
  - rewrite lookup_delete_ne, IH by done. destruct (decide (k ∈ ks)).
    + by rewrite decide_True by (by right).
    + rewrite decide_False; [done|]. by intros [?|?]%elem_of_cons.
Qed.
Lemma placed_drained b ms : foldr delete (placed b ms) (serials b (length ms)) = ∅.
Proof.
  apply map_eq. intros k. rewrite lookup_foldr_delete, lookup_empty. destruct (decide _) as [|Hk]; [done|].
  apply not_elem_of_list_to_map_1. by rewrite placed_keys.
Qed.

(** ** One round of the loop *)

(** The packets freed so far, in order. *)
Fixpoint freed (t : trace) : list mbuf :=
  match t with
  | [] => []
  | EvFree m :: t' => freed t' ++ [m]
  | _ :: t' => freed t'
  end.

(** Nothing happened but messages other than [fmt]. *)
Definition silent (fmt : string) (t t' : trace) : Prop :=
  same_acct t t' /\ received t' = received t /\ freed t' = freed t /\ shown fmt t' = shown fmt t.
Definition quiet (fmt : string) (announce : Z -> M unit) : Prop :=
  forall seq s t, wp (announce seq) (fun _ s' t' => s' = s /\ silent fmt t t') (fun _ _ _ => False) s t.

Lemma silent_refl fmt t : silent fmt t t.
Proof. done. Qed.
Lemma silent_trans fmt t1 t2 t3 : silent fmt t1 t2 -> silent fmt t2 t3 -> silent fmt t1 t3.
Proof.
  intros (A1 & B1 & C1 & D1) (A2 & B2 & C2 & D2). split; [by eapply same_acct_trans|]. split_and!; congruence.
Qed.

Section Round.
Context (announce : Z -> M unit) (fmt : string) (W burst : Z).
Hypothesis announce_quiet : quiet fmt announce.
Hypothesis sizes : 0 <= burst <= W /\ W < SPAN.

(** The dynamic field of the [j]-th of the packets [ms] holds [b + j]. *)
Definition numbered (b : Z) (ms : list mbuf) (s : rstate) : Prop :=
  forall j m, ms !! j = Some m -> seqns s !! mb_id m = Some (u32 (b + Z.of_nat j)).

(** The buffer [q] holds the packets [ms], numbered from [b]. *)
Record holding (b : Z) (ms : list mbuf) (q : rte_reorder) (s : rstate) : Prop := {
  h_rbuf : rbuf s = Some q;
  h_held : held q = placed b ms;
  h_min : min_seqn q = Some b \/ ms = [] /\ min_seqn q = None;
  h_window : window q = W;
  h_all : all_in_window q;
  h_offset : 0 <= seqn_offset s;
  h_numbered : numbered b ms s }.

Lemma wp_store_seqn m v (Q : unit -> rstate -> trace -> Prop) X s t :
  0 <= seqn_offset s -> Q tt (RState (rbuf s) (seqn_offset s) (<[mb_id m := v]> (seqns s))) t ->
  wp (store_seqn m v) Q X s t.
Proof.
  intros Ho H. unfold store_seqn. wp_steps; [apply Z.ltb_lt in H0; lia|done].
Qed.
Lemma wp_load_seqn m v (Q : Z -> rstate -> trace -> Prop) X s t :
  0 <= seqn_offset s -> seqns s !! mb_id m = Some v -> Q v s t -> wp (load_seqn m) Q X s t.
Proof.
  intros Ho Hv H. unfold load_seqn. wp_steps; [apply Z.ltb_lt in H0; lia|]. wp_steps. by eapply wp_deref.
Qed.

Lemma wp_insert_one b ms q m s t :
  is_u32 b -> holding b ms q s -> zlen ms < W -> mb_id m ∉ ids ms ->
  wp (insert_one announce m (u32 (b + zlen ms)))
    (fun _ s' t' => silent fmt t t' /\ exists q', holding b (ms ++ [m]) q' s') (fun _ _ _ => False) s t.
Proof.
  intros Hb [Hq Hh Hm Hw Ha Ho Hn] Hl Hid. unfold insert_one. wp_step. apply wp_store_seqn; [done|].
  wp_step. eapply wp_mono; [apply announce_quiet| |done]. intros [] s1 t1 [-> Hs1].
  wp_step. unfold reorder_insert. wp_steps. eapply wp_deref; [exact Hq|]. wp_step.
  eapply wp_load_seqn; [done|apply lookup_insert_eq|]. wp_steps.
  set (sq := u32 (b + zlen ms)).
  assert (default sq (min_seqn q) = b) as Eb.
  { destruct Hm as [->|[-> ->]]; [done|]. unfold sq, zlen. simpl. rewrite Z.add_0_r. by apply u32_small. }
  pose proof (zlen_nonneg ms) as Hz.
  destruct (reorder_insert_law q sq m) as (R & H' & M' & W' & A'); rewrite ?Eb; [done| | |].
  { unfold sq. rewrite u32_offset_diff by (done || lia). lia. }
  { rewrite Hh. unfold sq, zlen. rewrite placed_lookup by (unfold zlen in *; lia). by apply lookup_ge_None. }
  rewrite R. change (0 <? 0) with false. cbn [when]. wp_steps. split; [done|].
  exists (rte_reorder_insert q sq m).2. rewrite Eb in M'. constructor; cbn [rbuf seqn_offset seqns]; try done.
  - rewrite H', Hh, placed_snoc by (unfold zlen in *; lia). done.
  - by left.
  - congruence.
  - intros j m' Hj. cbn [seqns]. destruct (decide (j = length ms)) as [->|Hne].
    + rewrite list_lookup_middle in Hj by done. injection Hj as <-. apply lookup_insert_eq.
    + assert (ms !! j = Some m') as Hj'.
      { rewrite lookup_app_l in Hj; [done|]. pose proof (lookup_lt_Some _ _ _ Hj) as L.
        rewrite length_app in L. simpl in L. lia. }
      rewrite lookup_insert_ne; [by apply Hn|]. intros E0. apply Hid. rewrite E0.
      apply list_elem_of_fmap. exists m'. split; [done|]. by eapply list_elem_of_lookup_2.
Qed.

Lemma wp_insert_all b bufs q s t :
  is_u32 b -> holding b [] q s -> zlen bufs <= burst -> NoDup (ids bufs) ->
  wp (insert_all announce bufs b)
    (fun seq s' t' => seq = u32 (b + zlen bufs) /\ silent fmt t t' /\ exists q', holding b bufs q' s') (fun _ _ _ => False) s t.
Proof.
  intros Hb Hq Hl Hd. unfold insert_all.
  eapply wp_mono; [apply (wp_for (fun i seq s' t' => seq = u32 (b + i) /\ silent fmt t t' /\
     exists q', holding b (take (Z.to_nat i) bufs) q' s') _ (fun _ _ _ => False))| |done].
  - intros i seq s1 t1 Hi (-> & S1 & q1 & H1). destruct (lookup_lt_is_Some_2 bufs (Z.to_nat i)) as [m Hm]; [lia|].
    wp_step. eapply wp_deref; [exact Hm|]. wp_step.
    assert (zlen (take (Z.to_nat i) bufs) = i) as Hz by (unfold zlen; rewrite length_take; lia).
    rewrite <- Hz at 1. eapply wp_mono; [apply (wp_insert_one b _ q1)| |done].
    + done.
    + done.
    + unfold zlen in *. lia.
    + intros Hin. rewrite <- (take_drop_middle _ _ _ Hm), map_app in Hd. apply NoDup_app in Hd as (_ & Hd & _).
      apply (Hd _ Hin). by left.
    + intros [] s2 t2 (S2 & q2 & H2). wp_steps. split.
      { unfold u32. rewrite Zplus_mod_idemp_l. f_equal. lia. }
      split; [by eapply silent_trans|]. exists q2. rewrite <- (take_S_r _ _ _ Hm) in H2.
      by replace (Z.to_nat (i + 1)) with (S (Z.to_nat i)) by lia.
  - split; [by rewrite Z.add_0_r, u32_small|]. split; [done|]. by exists q.
  - intros seq s' t' (-> & S' & q' & H'). rewrite Z.add_0_l in *. split; [done|]. split; [done|]. exists q'.
    rewrite Nat2Z.id, take_ge in H' by lia. done.
Qed.

Lemma wp_release_all b ms held_ids q s t :
  numbered b ms s -> 0 <= seqn_offset s -> rbuf s = Some q -> owned (ids ms ++ held_ids) t ->
  wp (for_each (release_one fmt) ms) (fun _ s' t' => s' = s /\ received t' = received t /\
    freed t' = freed t ++ ms /\ shown fmt t' = shown fmt t ++ serials b (length ms) /\
    (forall fmt', fmt' <> fmt -> shown fmt' t' = shown fmt' t) /\ owned held_ids t')
    (fun _ _ _ => False) s t.
Proof.
  intros Hn Ho Hq Hown.
  eapply wp_mono; [apply (wp_for_each (fun pre _ s' t' => s' = s /\ received t' = received t /\
    freed t' = freed t ++ pre /\ shown fmt t' = shown fmt t ++ serials b (length pre) /\
    (forall fmt', fmt' <> fmt -> shown fmt' t' = shown fmt' t) /\
    forall post, ms = pre ++ post -> owned (ids post ++ held_ids) t') _ (fun _ _ _ => False))| |done].
  - intros pre m post rs s1 t1 Hms (-> & R1 & F1 & S1 & N1 & O1). unfold release_one. wp_step.
    eapply wp_load_seqn; [done|apply (Hn (length pre)); rewrite Hms; by apply list_lookup_middle|]. wp_steps.
    split; [done|]. split; [done|]. split; [simpl; by rewrite F1, app_assoc|]. split.
    + cbn [shown]. rewrite String.eqb_refl, S1, length_app. simpl. by rewrite Nat.add_1_r, serials_snoc, app_assoc.
    + split.
      { intros fmt' Hf. cbn [shown]. rewrite (proj2 (String.eqb_neq _ _)) by congruence. by apply N1. }
      intros post' Hp. apply owned_free. rewrite Hms, <- app_assoc in Hp. apply app_inv_head in Hp. injection Hp as <-.
      by apply (O1 (m :: post)).
  - split_and!; rewrite ?app_nil_r; try done. by intros post ->.
  - intros rs s1 t1 (-> & R1 & F1 & S1 & N1 & O1). split_and!; try done. apply (O1 []). by rewrite app_nil_r.
Qed.

(** Between two rounds: the buffer is empty, the counter and the next number to deliver are the
    number of packets received, and all of them were delivered in order and freed. *)
Record looped (seq : Z) (s : rstate) (t : trace) : Prop := {
  lo_holding : exists q, holding seq [] q s;
  lo_seq : seq = u32 (zlen (received t));
  lo_owned : owned [] t;
  lo_freed : freed t = received t;
  lo_shown : shown fmt t = serials 0 (length (received t)) }.

(** The NIC never delivers a buffer twice in a burst. *)
Definition rx_distinct : Prop := forall t p q n, NoDup (ids (env_rx t p q n)).

Lemma reorder_body_ok seq s t :
  rx_distinct -> looped seq s t -> wp (loop_body announce fmt burst seq) looped (fun _ _ _ => False) s t.
Proof.
  intros Hd [[q Hq] Hs Ho Hf Hsh]. unfold loop_body. wp_step. unfold wp at 1, rte_eth_rx_burst.
  pose proof (env_rx_len t 0 0 burst ltac:(lia)) as Hl. pose proof (Hd t 0 0 burst) as Hnd.
  set (bufs := env_rx t 0 0 burst) in *. set (t1 := EvRx 0 0 burst bufs :: t).
  assert (is_u32 seq) as Hu by (rewrite Hs; apply u32_range).
  assert (owned (ids bufs) t1) as O1 by (rewrite <- (app_nil_r (ids bufs)); by apply owned_rx).
  apply wp_if; intros Hz.
  { apply Z.eqb_eq in Hz. assert (bufs = []) as E0 by (by destruct bufs). apply wp_ret.
    unfold t1. rewrite E0 in *. constructor; try (simpl; by rewrite app_nil_r); [by exists q|done]. }
  assert (bufs <> []) as Hne by (by intros E0; rewrite E0 in Hz).
  wp_step. eapply wp_mono; [by apply (wp_insert_all seq bufs q)| |done].
  intros seq' s2 t2 (Hseq & S2 & q2 & H2). destruct H2 as [Hq2 Hh2 Hm2 Hw2 Ha2 Ho2 Hn2].
  assert (min_seqn q2 = Some seq) as Hmin by (by destruct Hm2 as [|[? _]]).
  wp_step. unfold reorder_drain, put_rbuf. wp_steps. eapply wp_deref; [exact Hq2|]. wp_steps.
  destruct (reorder_drain_law q2 seq burst Ha2 Hmin ltac:(lia)) as (D1 & D2 & D3 & D4 & D5).
  unfold zlen in Hl. rewrite Hh2 in *.
  rewrite in_order_placed, take_ge in D1 by (done || lia). rewrite D1 in *. rewrite placed_drained in D2.
  destruct S2 as (A2 & R2 & F2 & Sh2).
  eapply wp_mono; [eapply (wp_release_all seq bufs []); [done|done|done|]| |done].
  { rewrite app_nil_r. by eapply owned_acct. }
  intros rs s3 t3 (-> & R3 & F3 & Sh3 & _ & O3). wp_steps. rewrite R2 in R3. rewrite F2 in F3. rewrite Sh2 in Sh3.
  simpl in R3, F3, Sh3. constructor; cbn [rbuf seqn_offset seqns].
  - eexists. constructor; try done; [left; rewrite Hseq; exact D3|congruence].
  - rewrite Hseq, Hs, R3. unfold zlen, u32. rewrite length_app, Zplus_mod_idemp_l. f_equal. lia.
  - done.
  - by rewrite F3, R3, Hf.
  - rewrite Sh3, Hsh, R3, length_app, serials_app, Z.add_0_l. by rewrite Hs.
Qed.
End Round.

Lemma quiet_insert : quiet DRAINED announce_insert.
Proof. intros seq s t. unfold announce_insert. by wp_steps. Qed.
Lemma quiet_nothing : quiet ORDERED announce_nothing.
Proof. intros seq s t. unfold announce_nothing. by wp_steps. Qed.

Lemma looped_start fmt W t :
  received t = [] -> rx_ids t = [] -> out_ids t = [] -> freed t = [] -> shown fmt t = [] ->
  looped fmt W 0 (RState (Some (rte_reorder_new W)) reorder_offset ∅) t.
Proof.
  intros R1 R2 R3 R4 R5. destruct (reorder_new_law W) as (N1 & N2 & N3 & N4). constructor; rewrite ?R1, ?R4, ?R5; try done.
  - exists (rte_reorder_new W). constructor; try done; [by right|apply reorder_offset_law].
  - unfold owned. by rewrite R2, R3.
Qed.

(** C12: The receive-and-reorder loop of rx_burst/main.c, for every number of iterations: it exits only
    during set-up; the packets are delivered and freed in exactly the order in which they were
    received, each once, none is left in the reorder buffer between two rounds, and the printed
    sequence numbers count from 0, wrapping around after 2^32 packets. *)
Theorem reorder_main_correct n :
  rx_distinct ->
  wp (main n) (fun seq _ t => freed t = received t /\ owned [] t /\
      shown DRAINED t = serials 0 (length (received t)) /\ seq = u32 (zlen (received t)))
    (fun _ _ t => received t = [] /\ rx_ids t = []) rstate0 [].
Proof.
  intros Hd. unfold main, init_port, reorder_create, rte_panic. wp_steps; try done;
    try (exfalso; by destruct (r4 =? 0)).
  eapply wp_mono; [apply (wp_forever (looped DRAINED WINDOW) _ (fun _ _ _ => False))| |done].
  - intros seq s t L. apply reorder_body_ok; [apply quiet_insert|done|done|done].
  - by apply looped_start.
  - intros seq s t [_ L1 L2 L3 L4]. done.
Qed.

(** The same of main2.c, with bursts of 32 packets and a window of 128. *)
Theorem reorder_main2_correct n :
  rx_distinct ->
  wp (main2 n) (fun seq _ t => freed t = received t /\ owned [] t /\
      shown ORDERED t = serials 0 (length (received t)) /\ seq = u32 (zlen (received t)))
    (fun c _ t => c = EXIT_FAILURE /\ received t = [] /\ rx_ids t = []) rstate0 [].
Proof.
  intros Hd. unfold main2, rx_reorder_loop, init_port, reorder_create. wp_steps; try done;
    try (exfalso; by destruct (r4 =? 0)).
  eapply wp_mono; [apply (wp_forever (looped ORDERED WINDOW_SIZE) _ (fun _ _ _ => False))| |done].
  - intros seq s t L. apply reorder_body_ok; [apply quiet_nothing|done|done|done].
  - by apply looped_start.
  - intros seq s t [_ L1 L2 L3 L4]. done.
Qed.

(** ** sample/main.c: eight packets out of order *)

Definition seq_list : list Z := [0; 2; 1; 4; 3; 6; 5; 7].
Definition INSERT : string := "Insert seq = %u\n".

Definition sample_insert (mp : Z) (seq : Z) : M unit :=
  om <-- rte_pktmbuf_alloc mp ;;
  match om with
  | None => rte_panic
  | Some m =>
      store_seqn m seq ;;
      v <-- load_seqn m ;;
      printf INSERT [PInt v] ;;
      _ <-- reorder_insert m ;; ret tt
  end.

Definition sample_main : M Z :=
  r <-- call rte_eal_init ;;
  when (r <? 0) rte_panic ;;
  mp <-- call (rte_pktmbuf_pool_create "POOL" 1024 32 0 RTE_MBUF_DEFAULT_BUF_SIZE) ;;
  when (mp =? 0) rte_panic ;;
  buf <-- reorder_create WINDOW ;;
  when (buf =? 0) rte_panic ;;
  _ <-- for_each (sample_insert mp) seq_list ;;
  out <-- reorder_drain BURST ;;
  _ <-- for_each (release_one DRAINED) out ;;
  _ <-- call (api_call "rte_reorder_free" [buf]) ;;
  ret 0.

(** The pool never hands out a buffer that the program holds. *)
Definition alloc_distinct : Prop :=
  forall t mp m ids, env_alloc t mp = Some m -> owned ids t -> mb_id m ∉ ids.

(** The buffer [q] holds [H], every packet under the number in its dynamic field. *)
Record keyed (H : gmap Z mbuf) (s : rstate) (t : trace) : Prop := {
  k_rbuf : exists q, rbuf s = Some q /\ held q = H /\ (min_seqn q = Some 0 \/ H = ∅ /\ min_seqn q = None) /\
           window q = WINDOW /\ all_in_window q;
  k_offset : 0 <= seqn_offset s;
  k_seqns k m : H !! k = Some m -> seqns s !! mb_id m = Some k;
  k_owned : owned (ids (map_to_list H).*2) t }.

Lemma ids_of_map (H : gmap Z mbuf) k m : H !! k = Some m -> mb_id m ∈ ids (map_to_list H).*2.
Proof.
  intros Hk. apply list_elem_of_fmap. exists m. split; [done|]. apply list_elem_of_fmap. exists (k, m).
  split; [done|]. by apply elem_of_map_to_list.
Qed.

Lemma wp_sample_insert mp sq H s t :
  alloc_distinct -> keyed H s t -> 0 <= sq < WINDOW -> H !! sq = None -> (H = ∅ -> sq = 0) ->
  wp (sample_insert mp sq) (fun _ s' t' => shown INSERT t' = shown INSERT t ++ [sq] /\ shown DRAINED t' = shown DRAINED t /\
    freed t' = freed t /\ exists m, keyed (<[sq := m]> H) s' t') (fun c _ _ => c = -1) s t.
Proof.
  intros Hd [(q & Hq & Hh & Hm & Hw & Ha) Ho Hs Hown] Hsq Hn H0. unfold sample_insert. wp_step.
  unfold wp at 1, rte_pktmbuf_alloc. destruct (env_alloc t mp) as [m|] eqn:Em; [|by apply wp_exit].
  pose proof (Hd _ _ _ _ Em Hown) as Hfresh.
  wp_step. apply wp_store_seqn; [done|]. wp_step. eapply wp_load_seqn; [done|apply lookup_insert_eq|].
  wp_steps. unfold reorder_insert, put_rbuf. wp_steps. eapply wp_deref; [exact Hq|]. wp_step.
  eapply wp_load_seqn; [done|apply lookup_insert_eq|]. wp_steps.
  assert (default sq (min_seqn q) = 0) as E0.
  { destruct Hm as [->|[HH ->]]; [done|]. by apply H0. }
  destruct (reorder_insert_law q sq m) as (R & H' & M' & W' & A'); rewrite ?E0; [done| |by rewrite Hh|].
  { rewrite Hw, Z.sub_0_r, u32_small; [lia|]. unfold WINDOW in *. words. }
  split; [done|]. split; [done|]. split; [done|]. exists m. rewrite E0 in M'. constructor; cbn [rbuf seqn_offset seqns].
  - eexists. split; [done|]. rewrite H', Hh, M', W'. split_and!; try done. by left.
  - done.
  - intros k m' [[<- <-]|[Hne Hk]]%lookup_insert_Some; [apply lookup_insert_eq|].
    rewrite lookup_insert_ne; [by apply Hs|]. intros E1. apply Hfresh. rewrite E1. by eapply ids_of_map.
  - rewrite map_to_list_insert by done. simpl. apply (owned_acct _ (EvAlloc mp (Some m) :: t)); [done|]. by apply owned_alloc.
Qed.

#[local] Instance mbuf_inhabited : Inhabited mbuf := populate (Mbuf 0 [] 0 0 0).

(** A buffer with the numbers 0 to [n - 1] delivers [n] packets. *)
Lemma full_placed (H : gmap Z mbuf) n :
  Z.of_nat n < SPAN -> dom H = list_to_set (serials 0 n) ->
  exists ms, length ms = n /\ H = placed 0 ms.
Proof.
  intros Hn Hdom. set (ms := (fun k => H !!! k) <$> serials 0 n).
  assert (length ms = n) as Hl by (unfold ms; by rewrite length_fmap, serials_length).
  exists ms. split; [done|]. apply map_eq. intros k. destruct (decide (k ∈ serials 0 n)) as [Hk|Hk].
  - pose proof Hk as (j & -> & Hj%elem_of_seq)%list_elem_of_fmap. rewrite placed_lookup by lia.
    unfold ms. rewrite list_lookup_fmap. unfold serials at 1. change map with (@fmap list list_fmap).
    rewrite list_lookup_fmap, lookup_seq_lt by lia. simpl.
    assert (u32 (0 + Z.of_nat j) ∈ dom H) as [m Hm]%elem_of_dom by (rewrite Hdom; by apply elem_of_list_to_set).
    change (u32 (Z.of_nat j)) with (u32 (0 + Z.of_nat j)). by rewrite (lookup_total_correct _ _ _ Hm).
  - assert (H !! k = None) as ->.
    { apply not_elem_of_dom. rewrite Hdom. by rewrite elem_of_list_to_set. }
    symmetry. apply not_elem_of_list_to_map_1. by rewrite placed_keys, Hl.
Qed.

(** The reorder sample: the eight packets go in as 0 2 1 4 3 6 5 7 and come out as 0 1 2 3 4 5 6 7,
    and each is freed exactly once; if the program stops early, it stopped in [rte_panic]. *)
Theorem reorder_sample_correct :
  alloc_distinct ->
  wp sample_main (fun r _ t => r = 0 /\ owned [] t /\ shown INSERT t = seq_list /\
      shown DRAINED t = [0; 1; 2; 3; 4; 5; 6; 7] /\ zlen (freed t) = 8)
    (fun c _ _ => c = -1) rstate0 [].
Proof.
  intros Hd. unfold sample_main, reorder_create, rte_panic. wp_steps; try done; try (exfalso; by destruct (r1 =? 0)).
  set (t0 := EvApi _ r1 :: _).
  eapply wp_mono; [apply (wp_for_each (fun pre _ s t => shown INSERT t = pre /\ shown DRAINED t = [] /\ freed t = [] /\
    exists B, dom B = list_to_set pre /\ keyed B s t) _ (fun c _ _ => c = -1))| |done].
  - intros pre sq post rs s t Hsl (S1 & S2 & F1 & B & Hdom & K).
    assert (NoDup seq_list) as Hnd by (apply (bool_decide_unpack _); by vm_compute).
    assert (sq ∈ seq_list) as Hin by (rewrite Hsl; apply elem_of_app; right; by left).
    rewrite Hsl in Hnd. apply NoDup_app in Hnd as (_ & Hnd & _).
    eapply wp_mono; [apply (wp_sample_insert _ _ B); [done|done| | |]| |done].
    + unfold seq_list, WINDOW in *. repeat (apply elem_of_cons in Hin as [->|Hin]; [lia|]). by apply not_elem_of_nil in Hin.
    + apply not_elem_of_dom. rewrite Hdom, elem_of_list_to_set. intros Hp. apply (Hnd _ Hp). by left.
    + intros ->. rewrite dom_empty_L in Hdom. destruct pre as [|x pre]; [by injection Hsl|]. simpl in Hdom. set_solver.
    + intros [] s1 t1 (S1' & S2' & F1' & m & K'). rewrite S1', S2', F1', S1, S2. split_and!; try done.
      eexists. split; [|exact K']. rewrite dom_insert_L, Hdom, list_to_set_app_L. simpl. set_solver.
  - split_and!; try done. exists ∅. split; [by rewrite dom_empty_L|]. destruct (reorder_new_law WINDOW) as (N1 & N2 & N3 & N4).
    constructor; [|apply reorder_offset_law|by intros k m ?%lookup_empty_Some|rewrite map_to_list_empty; constructor].
    eexists. split; [done|]. split_and!; try done. by right.
  - intros rs s t (S1 & S2 & F1 & B & Hdom & [(q & Hq & Hh & Hm & Hw & Ha) Ho Hs Hown]).
    destruct (full_placed B 8) as (ms & Hl & HH); [done|rewrite Hdom; apply set_eq; intros x; rewrite !elem_of_list_to_set;
      unfold seq_list, serials; simpl; rewrite !elem_of_cons; tauto|].
    assert (B <> ∅) as Hne.
    { intros ->. rewrite dom_empty_L in Hdom. simpl in Hdom. set_solver. }
    assert (min_seqn q = Some 0) as Hmin by (by destruct Hm as [|[? _]]).
    wp_step. unfold reorder_drain, put_rbuf. wp_steps. eapply wp_deref; [exact Hq|]. wp_steps.
    destruct (reorder_drain_law q 0 BURST Ha Hmin ltac:(done)) as (D1 & _).
    rewrite Hh, HH in D1. rewrite in_order_placed, take_ge in D1 by (rewrite ?Hl; done || words). rewrite D1.
    assert (map_to_list B ≡ₚ zip (serials 0 (length ms)) ms) as Hp.
    { rewrite HH. apply map_to_list_to_map. rewrite placed_keys, Hl. by apply serials_nodup. }
    eapply wp_mono; [eapply (wp_release_all DRAINED 0 ms [])| |done].
    + intros j m Hj. cbn [seqns]. apply Hs. rewrite HH, placed_lookup; [done|rewrite Hl; done|].
      apply lookup_lt_Some in Hj. lia.
    + done.
    + done.
    + rewrite app_nil_r. eapply owned_proper; [|reflexivity|exact Hown]. rewrite Hp.
      apply Permutation_map. rewrite snd_zip; [done|]. rewrite serials_length. lia.
    + intros rs2 s2 t2 (-> & _ & F2 & S2' & N2 & O2). wp_steps. split; [done|]. split; [done|]. cbn [shown freed].
      rewrite N2 by done. cbn [shown freed] in *. rewrite S2', F2, S1, S2, F1. cbn [Datatypes.app]. unfold zlen. by rewrite Hl.
Qed.

(** ** dynamic_seqno/main.c: numbers for the first ten packets *)

Definition ASSIGNED : string := "Assigned seq_no = %u\n".

Definition register_seqno_dynfield : M unit :=
  off <-- call (api_call "rte_mbuf_dynfield_register" [4; 4]) ;;
  modify (fun s => RState (rbuf s) off (seqns s)) ;;
  when (off <? 0) (rte_exit EXIT_FAILURE) ;;
  printf "Dynamic field registered. Offset = %d\n" [PInt off].

Definition port_init (port mp : Z) : M Z :=
  v <-- call (rte_eth_dev_is_valid_port port) ;;
  if v =? 0 then ret (-1)
  else
    r <-- call (rte_eth_dev_configure port 1 0) ;;
    if r <? 0 then ret r
    else
      r <-- call (rte_eth_rx_queue_setup port 0 128 mp) ;;
      if r <? 0 then ret r
      else
        r <-- call (rte_eth_dev_start port) ;;
        if r <? 0 then ret r
        else printf "Port %u initialized\n" [PInt port] ;; ret 0.

Definition number_one (m : mbuf) (seq : Z) : M Z :=
  seq <-- (if seq <? 10
           then store_seqn m seq ;; v <-- load_seqn m ;; printf ASSIGNED [PInt v] ;; ret (u32 (seq + 1))
           else ret seq) ;;
  rte_pktmbuf_free m ;;
  ret seq.

(** At most [n] rounds; the flag says whether the loop has ended. *)
Fixpoint lcore_main_loop (n : nat) (seq : Z) : M (bool * Z) :=
  match n with
  | O => ret (false, seq)
  | S n' =>
      bufs <-- rte_eth_rx_burst 0 0 BURST_SIZE ;;
      if zlen bufs =? 0 then lcore_main_loop n' seq
      else
        seq <-- for_ (length bufs) 0 (fun i seq => m <-- deref (bufs !! Z.to_nat i) ;; number_one m seq) seq ;;
        if 10 <=? seq
        then printf "Assigned sequence numbers to 10 packets. Exiting.\n" [] ;; ret (true, seq)
        else lcore_main_loop n' seq
  end.

(** The result of [main], unless the loop is still running after [n] rounds. *)
Definition dynamic_main (n : nat) : M (option Z) :=
  r <-- call rte_eal_init ;;
  when (r <? 0) (rte_exit EXIT_FAILURE) ;;
  mp <-- call (rte_pktmbuf_pool_create "MBUF_POOL" 8192 256 0 RTE_MBUF_DEFAULT_BUF_SIZE) ;;
  when (mp =? 0) (rte_exit EXIT_FAILURE) ;;
  register_seqno_dynfield ;;
  r <-- port_init 0 mp ;;
  when (negb (r =? 0)) (rte_exit EXIT_FAILURE) ;;
  printf "Starting RX loop...\n" [] ;;
  e <-- lcore_main_loop n 0 ;;
  if negb e.1 then ret None
  else
    _ <-- call (rte_eth_dev_stop 0) ;;
    _ <-- call (rte_eth_dev_close 0) ;;
    printf "Application exiting\n" [] ;;
    ret (Some 0).

(** After the packets [freed t]: the first ten of them have numbers. *)
Record numbering (seq : Z) (s : rstate) (t : trace) : Prop := {
  n_offset : 0 <= seqn_offset s;
  n_seq : seq = Z.min 10 (zlen (freed t));
  n_shown : shown ASSIGNED t = seqZ 0 seq }.

Lemma wp_number_one m held_ids seq s t :
  numbering seq s t -> owned (mb_id m :: held_ids) t ->
  wp (number_one m seq) (fun seq' s' t' => numbering seq' s' t' /\ owned held_ids t' /\
    freed t' = freed t ++ [m] /\ received t' = received t) (fun _ _ _ => False) s t.
Proof.
  intros [Ho Hs Hsh] Hown. pose proof (zlen_nonneg (freed t)) as Hz. unfold number_one. wp_step.
  assert (zlen (freed t ++ [m]) = zlen (freed t) + 1) as L by (unfold zlen; rewrite length_app; simpl; lia).
  apply wp_if; intros Hlt.
  - apply Z.ltb_lt in Hlt. wp_step. apply wp_store_seqn; [done|]. wp_step.
    eapply wp_load_seqn; [done|apply lookup_insert_eq|]. wp_steps. split; [|by split_and!; [apply owned_free|..]].
    assert (u32 (seq + 1) = seq + 1) as -> by (apply u32_small; words).
    constructor; cbn [seqn_offset freed shown]; [done|lia|].
    rewrite String.eqb_refl, Hsh, seqZ_app by lia. done.
  - apply Z.ltb_ge in Hlt. wp_steps. split; [|by split_and!; [apply owned_free|..]].
    constructor; cbn [seqn_offset freed shown]; [done|lia|done].
Qed.

Lemma wp_number_all bufs seq s t :
  numbering seq s t -> owned (ids bufs) t ->
  wp (for_ (length bufs) 0 (fun i seq => m <-- deref (bufs !! Z.to_nat i) ;; number_one m seq) seq)
    (fun seq' s' t' => numbering seq' s' t' /\ owned [] t' /\
      freed t' = freed t ++ bufs /\ received t' = received t) (fun _ _ _ => False) s t.
Proof.
  intros Hn Hown. eapply wp_mono; [apply (wp_for (fun i seq' s' t' => numbering seq' s' t' /\
    owned (ids (drop (Z.to_nat i) bufs)) t' /\ freed t' = freed t ++ take (Z.to_nat i) bufs /\ received t' = received t)
    _ (fun _ _ _ => False))| |done].
  - intros i seq1 s1 t1 Hi (N1 & O1 & F1 & R1). destruct (lookup_lt_is_Some_2 bufs (Z.to_nat i)) as [m Hm]; [lia|].
    wp_step. eapply wp_deref; [exact Hm|]. rewrite (drop_S _ _ _ Hm) in O1.
    replace (Z.to_nat (i + 1)) with (S (Z.to_nat i)) by lia.
    eapply wp_mono; [by apply wp_number_one| |done]. intros seq2 s2 t2 (N2 & O2 & F2 & R2). split; [done|].
    split; [done|]. split; [|congruence]. by rewrite F2, F1, (take_S_r _ _ _ Hm), app_assoc.
  - split; [done|]. split_and!; [done|by rewrite app_nil_r|done].
  - intros seq1 s1 t1 (N1 & O1 & F1 & R1). rewrite Z.add_0_l, Nat2Z.id in *.
    rewrite take_ge in F1 by lia. rewrite drop_ge in O1 by lia. done.
Qed.

Lemma lcore_main_loop_ok n seq s t :
  numbering seq s t -> owned [] t -> freed t = received t -> seq < 10 ->
  wp (lcore_main_loop n seq) (fun e s' t' => numbering e.2 s' t' /\ owned [] t' /\ freed t' = received t' /\
      (e.1 = true <-> 10 <= e.2) /\
      ((forall t p q n, 0 < n -> env_rx t p q n <> []) -> 10 <= seq + Z.of_nat n -> e.1 = true))
    (fun _ _ _ => False) s t.
Proof.
  revert seq s t. induction n as [|n IH]; intros seq s t Hn Ho Hf Hs; cbn [lcore_main_loop].
  { wp_steps. split_and!; try done; simpl; lia. }
  wp_step. unfold wp at 1, rte_eth_rx_burst. set (bufs := env_rx t 0 0 BURST_SIZE). set (t1 := EvRx _ _ _ bufs :: t).
  apply wp_if; intros Hz.
  - apply Z.eqb_eq in Hz. assert (bufs = []) as E0 by (by destruct bufs).
    assert (freed t1 = received t1) as Hf1 by (unfold t1; rewrite E0; simpl; by rewrite app_nil_r).
    assert (owned [] t1) as O1 by (unfold t1; by rewrite E0).
    eapply wp_mono; [apply (IH seq); [by destruct Hn|done|done|done]| |done].
    intros e s' t' (N1 & O & F1 & K & L). split_and!; try done; try apply K.
    intros He _. exfalso. by apply (He t 0 0 BURST_SIZE).
  - wp_step. assert (owned (ids bufs) t1) as O1.
    { rewrite <- (app_nil_r (ids bufs)). by apply owned_rx. }
    eapply wp_mono; [apply wp_number_all; [by destruct Hn|exact O1]| |done].
    intros seq2 s2 t2 (N2 & O2 & F2 & R2). assert (freed t2 = received t2) as Hf2.
    { rewrite F2, R2. simpl. by rewrite Hf. }
    assert (seq + 1 <= seq2 \/ 10 <= seq2) as Hgrow.
    { pose proof (n_seq _ _ _ N2) as E2. pose proof (n_seq _ _ _ Hn) as E1. rewrite F2 in E2. simpl in E2.
      assert (0 < zlen bufs) by (destruct bufs; [done|unfold zlen; simpl; lia]).
      unfold zlen in *. rewrite length_app in E2. lia. }
    apply wp_if; intros Hk.
    + apply Z.leb_le in Hk. wp_steps. split_and!; try done; simpl; auto. by destruct N2.
    + apply Z.leb_gt in Hk. eapply wp_mono; [by apply (IH seq2)| |done].
      intros e s' t' (N3 & O3 & F3 & K & L). split_and!; try done; try apply K.
      intros He Hle. apply L; [done|]. lia.
Qed.

(** The numbering program: the first ten packets it receives get the numbers 0 to 9, in order, and
    every packet is freed once; it ends, stopping the port and returning 0, with the burst that
    brings the tenth packet, and so after at most ten bursts if no poll is empty. *)
Theorem dynamic_seqno_correct n :
  wp (dynamic_main n) (fun r _ t => owned [] t /\ freed t = received t /\
      shown ASSIGNED t = seqZ 0 (Z.min 10 (zlen (received t))) /\
      (r = Some 0 <-> 10 <= zlen (received t)) /\ (r = None <-> zlen (received t) < 10) /\
      ((forall t p q n, 0 < n -> env_rx t p q n <> []) -> 10 <= Z.of_nat n -> r = Some 0))
    (fun c _ t => c = EXIT_FAILURE /\ rx_ids t = []) rstate0 [].
Proof.
  unfold dynamic_main, register_seqno_dynfield, port_init. wp_steps; try done.
  all: match goal with
       | Hl : (?x <? 0) = true, Hn : negb (?x =? 0) = false |- _ =>
           exfalso; apply Z.ltb_lt in Hl; apply negb_false_iff, Z.eqb_eq in Hn; lia
       | _ => idtac end.
  eapply wp_mono; [apply (lcore_main_loop_ok n 0)| |done].
  - constructor; [simpl; by apply Z.ltb_ge|done|done].
  - constructor.
  - done.
  - done.
  - intros [b seq] s t ([No Ns Nsh] & O & F & K & L). cbn [fst snd] in *. rewrite F in *.
    assert (b = true <-> 10 <= zlen (received t)) as Kz by (rewrite K, Ns; lia).
    assert (shown ASSIGNED t = seqZ 0 (Z.min 10 (zlen (received t)))) as Sh by congruence.
    destruct b; cbn [negb]; cbv iota; wp_steps.
    + assert (10 <= zlen (received t)) by (by apply Kz). split_and!; try done. cbn [received]; split; [done|intros ?; exfalso; lia].
    + assert (zlen (received t) < 10) by (destruct (Z.lt_ge_cases (zlen (received t)) 10) as [?|Hge]; [done|by apply Kz in Hge]).
      split_and!; try done; [cbn [received]; split; [done|intros ?; exfalso; lia]|]. intros Hp Hn. by apply L in Hp.
Qed.
End Reorder.

(** ** A reorder buffer that keeps the packets in a map *)

Record sim_reorder_state := SimReorder { sr_held : gmap Z mbuf; sr_min : option Z; sr_window : Z }.

Definition sim_reorder : RteReorder.
Proof.
  refine {| rte_reorder := sim_reorder_state; reorder_offset := 72;
    rte_reorder_new n := SimReorder ∅ None n;
    rte_reorder_insert q sq m :=
      let b := default sq (sr_min q) in
      if u32 (sq - b) <? sr_window q then (0, SimReorder (<[sq := m]> (sr_held q)) (Some b) (sr_window q)) else (-1, q);
    rte_reorder_drain q n :=
      match sr_min q with
      | None => ([], q)
      | Some b =>
          let out := in_order (sr_held q) b (Z.to_nat n) in
          (out, SimReorder (foldr delete (sr_held q) (serials b (length out))) (Some (u32 (b + zlen out))) (sr_window q))
      end;
    held := sr_held; min_seqn := sr_min; window := sr_window; all_in_window q := True |}; try done.
  - intros q sq m b r _ Hw _. unfold r. cbv zeta. fold b. destruct (Z.ltb_spec (u32 (sq - b)) (sr_window q)); [done|lia].
  - intros q sq m. cbv zeta. by destruct (_ <? _).
  - intros q b n r _ Hb _. unfold r. by rewrite Hb.
Defined.

(** An environment whose pool hands out a new address every time. *)
Definition fresh_env (sc : script) : Env.
Proof.
  pose (e := sim_env sc).
  refine {|
    env_call := @env_call e; env_rx := @env_rx e; env_tx := @env_tx e;
    env_alloc t mp :=
      let room := pool_room t mp in
      if 0 <=? room then Some (Mbuf (foldr Z.max 0 (rx_ids t) + 64) (repeat 0 (Z.to_nat room)) (Z.min 128 room) 0 0) else None;
    env_vals := @env_vals e; env_cycles := @env_cycles e; env_hz := @env_hz e;
    env_malloc := @env_malloc e; env_indet := @env_indet e; env_file := @env_file e;
    env_scanf_int := @env_scanf_int e; env_scanf_word := @env_scanf_word e; env_ports := @env_ports e;
    env_quit := @env_quit e;
    env_rx_len := @env_rx_len e; env_rx_bytes := @env_rx_bytes e;
    env_tx_bound := @env_tx_bound e; env_vals_law := @env_vals_law e;
    env_cycles_u64 := @env_cycles_u64 e; env_hz_u64 := @env_hz_u64 e;
    env_malloc_fresh := @env_malloc_fresh e; env_indet_bytes := @env_indet_bytes e |}.
  intros t mp m. cbv zeta. destruct (Z.leb_spec 0 (pool_room t mp)); [|done]. intros [= <-].
  split; [apply Forall_repeat0|]. split; [|done]. unfold zlen. simpl. rewrite repeat_length. lia.
Defined.

Lemma max_in x l : x ∈ l -> x <= foldr Z.max 0 l.
Proof. induction l as [|y l IH]; simpl; [by intros ?%not_elem_of_nil|]. intros [->|H]%elem_of_cons; [lia|]. specialize (IH H). lia. Qed.
Lemma fresh_env_distinct sc : @alloc_distinct (fresh_env sc).
Proof.
  intros t mp m held. simpl. destruct (0 <=? pool_room t mp); [|done]. intros [= <-] Ho Hin. simpl in Hin.
  assert (foldr Z.max 0 (rx_ids t) + 64 ∈ rx_ids t) as H%max_in; [|lia].
  revert Hin. generalize (foldr Z.max 0 (rx_ids t) + 64). intros k Hin. rewrite Ho. apply elem_of_app. by left.
Qed.

#[local] Existing Instance sim_reorder.

Definition w_packet : mbuf := Mbuf 5 (repeat 0 64) 0 64 64.
Lemma w_packet_ok : bytes_ok w_packet.
Proof. by apply Forall_u8_dec. Qed.

Lemma reorder_main_correct_witness :
  @wp _ _ (@main (steady_env quiet_script w_packet w_packet_ok) _ 3) (fun seq _ t => freed t = received t /\ owned [] t /\
      shown DRAINED t = serials 0 (length (received t)) /\ seq = u32 (zlen (received t)))
    (fun _ _ t => received t = [] /\ rx_ids t = []) rstate0 [] /\
  match @main (steady_env quiet_script w_packet w_packet_ok) _ 3 rstate0 [] with
  | Done seq _ t => seq = 3 /\ shown DRAINED t = [0; 1; 2]
  | _ => False
  end.
Proof.
  split; [|by vm_compute]. apply reorder_main_correct. intros t p q n. simpl.
  destruct (Z.to_nat n); [apply NoDup_nil_2|]. rewrite take_ge by (simpl; lia). apply NoDup_singleton.
Defined.

Lemma reorder_sample_correct_witness :
  @wp _ _ (@sample_main (fresh_env quiet_script) _) (fun r _ t => r = 0 /\ owned [] t /\ shown INSERT t = seq_list /\
      shown DRAINED t = [0; 1; 2; 3; 4; 5; 6; 7] /\ zlen (freed t) = 8)
    (fun c _ _ => c = -1) rstate0 [] /\
  match @sample_main (fresh_env quiet_script) _ rstate0 [] with Done r _ _ => r = 0 | _ => False end.
Proof. split; [apply reorder_sample_correct, fresh_env_distinct|by vm_compute]. Defined.
