(* ===== verification/BurstIo.v ===== *)
(** * Reading the packets of a burst

    Byte accesses that fault outside the buffer, loops over a burst that only
    read, and the lines a program has printed; shared by the small programs. *)

From S2P Require Import Prelude Rte Env Packet Ownership.

(** A byte of the data, which must lie in the buffer. *)
Definition data_at {St} (m : mbuf) (o : Z) : M St Z :=
  if (0 <=? data_off m + o) && (data_off m + o <? zlen (mb_buf m)) then ret (load8 m o) else fault.

(** The lines printed, oldest first. *)
Fixpoint printed (t : trace) : list event :=
  match t with
  | [] => []
  | EvPrintf f a :: t' => printed t' ++ [EvPrintf f a]
  | _ :: t' => printed t'
  end.

Lemma printed_lines ls t : Forall is_printf ls -> printed (rev ls ++ t) = printed t ++ ls.
Proof.
  intros H. revert t. induction H as [|e ls He _ IH]; intros t; simpl; [by rewrite app_nil_r|].
  rewrite <- app_assoc, IH. destruct e; try done. simpl. by rewrite <- app_assoc.
Qed.

Section BurstIo.
Context {St : Type}.
Implicit Types (s : St) (t : trace).

Lemma data_at_ok n m o s t : room m n -> 0 <= o < n -> data_at m o s t = Done (load8 m o) s t.
Proof.
  intros [H1 H2] Ho. unfold data_at. destruct (Z.leb_spec 0 (data_off m + o)), (Z.ltb_spec (data_off m + o) (zlen (mb_buf m))); try lia. done.
Qed.

(** Results up to equal memory and trace: a loop whose bodies agree in its range. *)
Lemma for_ext {L} (body body' : Z -> L -> M St L) n i l s t :
  (forall j l s t, i <= j < i + Z.of_nat n -> body j l s t = body' j l s t) ->
  for_ n i body l s t = for_ n i body' l s t.
Proof.
  revert i l s t. induction n as [|n IH]; intros i l s t H; simpl; [done|].
  unfold bind at 1 2. rewrite H by lia. destruct (body' i l s t); [|done|done].
  apply IH. intros. apply H. lia.
Qed.

(** A loop over the burst whose body reads one value of the packet. *)
Lemma for_reads (f : mbuf -> M St Z) (g : mbuf -> Z) pkts s t :
  Forall (fun m => forall s t, f m s t = Done (g m) s t) pkts ->
  for_ (length pkts) 0 (fun i vals => m <-- deref (pkts !! Z.to_nat i) ;; v <-- f m ;; ret (vals ++ [v])) [] s t =
  Done (map g pkts) s t.
Proof.
  intros Hf. enough (forall post pre acc, pkts = pre ++ post ->
    for_ (length post) (zlen pre) (fun i vals => m <-- deref (pkts !! Z.to_nat i) ;; v <-- f m ;; ret (vals ++ [v])) acc s t =
    Done (acc ++ map g post) s t) as G by (by apply (G pkts [] [])).
  induction post as [|m post IH]; intros pre acc ->; simpl; [by rewrite app_nil_r|].
  unfold bind, zlen. rewrite Nat2Z.id, list_lookup_middle by done. simpl.
  apply Forall_app in Hf as [_ Hf]. apply Forall_cons in Hf as [Hm _]. rewrite Hm. simpl. unfold ret.
  specialize (IH (pre ++ [m]) (acc ++ [g m])). rewrite <- !app_assoc in IH. simpl in IH. rewrite <- IH by done.
  unfold zlen. rewrite length_app. simpl. unfold bind. f_equal. lia.
Qed.
End BurstIo.
