(* ===== verification/Prefetch.v ===== *)
(** * prefetch: the same work with and without prefetching

    demo/main.c and wrong/main.c measure a loop over a burst twice.  A prefetch
    is a hint without effect on memory; the address it is given is computed from
    the mbuf, which therefore must exist. *)

From S2P Require Import Prelude Rte Env Packet Ownership BurstIo Sim.

Definition BURST_SIZE := 32.
Definition PREFETCH_OFFSET := 4.
Definition ITERATIONS := 100000.
Definition TABLE_SIZE := 65536.
Definition NUM_MBUFS := 8191.
Definition EXIT_FAILURE := 1.
Definition RTE_MBUF_DEFAULT_BUF_SIZE := 2176.

Section Prefetch.
Context {E : Env} {St : Type}.
Notation M := (M St).

(** [rte_prefetch0(rte_pktmbuf_mtod(pkts[i], void * ))] *)
Definition prefetch0 (pkts : list mbuf) (i : Z) : M unit := _ <-- deref (pkts !! Z.to_nat i) ;; ret tt.
Definition prefetch_ahead (pkts : list mbuf) (nb i : Z) : M unit :=
  when (i + PREFETCH_OFFSET <? nb) (prefetch0 pkts (i + PREFETCH_OFFSET)).

(** ** demo/main.c: the values read through the volatile variable are the result *)

Variable table : list Z.

Definition lookup_packet (m : mbuf) : M Z :=
  d0 <-- data_at m 0 ;; d14 <-- data_at m 14 ;; d34 <-- data_at m 34 ;; d54 <-- data_at m 54 ;;
  let key := u32 (d0 + d14 + d34 + d54) in
  let key := key mod TABLE_SIZE in
  deref (table !! Z.to_nat key).

Definition process_without_prefetch (pkts : list mbuf) (nb : Z) : M (list Z) :=
  for_ (Z.to_nat nb) 0 (fun i vals =>
    m <-- deref (pkts !! Z.to_nat i) ;;
    v <-- lookup_packet m ;; ret (vals ++ [v])) [].
Definition process_with_prefetch (pkts : list mbuf) (nb : Z) : M (list Z) :=
  for_ (Z.to_nat nb) 0 (fun i vals =>
    prefetch_ahead pkts nb i ;;
    m <-- deref (pkts !! Z.to_nat i) ;;
    v <-- lookup_packet m ;; ret (vals ++ [v])) [].

(** One measurement: [n] times the loop, between two readings of the clock. *)
Definition measure (n : nat) (fmt : string) (work : M (list Z)) : M unit :=
  t1 <-- rte_get_timer_cycles ;;
  _ <-- for_ n 0 (fun _ _ => work) [] ;;
  t2 <-- rte_get_timer_cycles ;;
  printf fmt [PInt (u64 (t2 - t1))].

(** The body of [while (1)], in both programs. *)
Definition bench (n : nat) (fmt : string) (plain ahead : list mbuf -> Z -> M (list Z)) (_ : unit) : M unit :=
  bufs <-- rte_eth_rx_burst 0 0 BURST_SIZE ;;
  let nb_rx := zlen bufs in
  if nb_rx =? 0 then ret tt
  else
    measure n fmt (plain bufs nb_rx) ;;
    measure n "With prefetch cycles: %lu\n" (ahead bufs nb_rx) ;;
    free_all bufs.

Definition start_port (started : string) : M unit :=
  r <-- call rte_eal_init ;;
  when (r <? 0) (rte_exit EXIT_FAILURE) ;;
  mp <-- call (rte_pktmbuf_pool_create "MBUF_POOL" (NUM_MBUFS * 2) 250 0 RTE_MBUF_DEFAULT_BUF_SIZE) ;;
  when (mp =? 0) (rte_exit EXIT_FAILURE) ;;
  _ <-- call (rte_eth_dev_configure 0 1 0) ;;
  _ <-- call (rte_eth_rx_queue_setup 0 0 1024 mp) ;;
  _ <-- call (rte_eth_dev_start 0) ;;
  printf started [].

(** ** wrong/main.c *)

Definition wrong_without_prefetch (pkts : list mbuf) (nb : Z) : M (list Z) :=
  for_ (Z.to_nat nb) 0 (fun i vals =>
    m <-- deref (pkts !! Z.to_nat i) ;;
    x <-- data_at m 0 ;; ret (vals ++ [x])) [].
Definition wrong_with_prefetch (pkts : list mbuf) (nb : Z) : M (list Z) :=
  for_ (Z.to_nat nb) 0 (fun i vals =>
    prefetch_ahead pkts nb i ;;
    m <-- deref (pkts !! Z.to_nat i) ;;
    x <-- data_at m 0 ;; ret (vals ++ [x])) [].
Definition wrong_main (n : nat) : M unit :=
  start_port "Starting packet processing test...\n" ;;
  forever n (bench 1 "No prefetch cycles: %lu\n" wrong_without_prefetch wrong_with_prefetch) tt.
End Prefetch.

(** The [main] of demo/main.c; [table] is set before anything reads it. *)
Definition init_table : list Z := map Z.of_nat (seq 0 (Z.to_nat TABLE_SIZE)).
Definition main {E : Env} {St : Type} (n : nat) : M St unit :=
  start_port "Starting prefetch benchmark...\n" ;;
  forever n (bench (Z.to_nat ITERATIONS) "Without prefetch cycles: %lu\n"
               (process_without_prefetch init_table) (process_with_prefetch init_table)) tt.

(** ** The loops do the same *)

Section Theorems.
Context {E : Env} {St : Type}.
Implicit Types (s : St) (t : trace).

Lemma prefetch_ahead_nop pkts nb i s t :
  0 <= i < nb -> nb <= zlen pkts -> prefetch_ahead pkts nb i s t = Done tt s t.
Proof.
  intros Hi Hn. unfold prefetch_ahead, prefetch0, when. destruct (Z.ltb_spec (i + PREFETCH_OFFSET) nb) as [H|]; [|done].
  unfold PREFETCH_OFFSET in *. destruct (lookup_lt_is_Some_2 pkts (Z.to_nat (i + 4))) as [m Hm]; [unfold zlen in Hn; lia|].
  unfold bind. by rewrite Hm.
Qed.

Lemma with_prefetch_same (body : Z -> list Z -> M St (list Z)) pkts nb s t :
  nb <= zlen pkts ->
  for_ (Z.to_nat nb) 0 (fun i vals => prefetch_ahead pkts nb i ;; body i vals) [] s t =
  for_ (Z.to_nat nb) 0 body [] s t.
Proof.
  intros Hn. apply for_ext. intros j l s' t' Hj. unfold bind. by rewrite prefetch_ahead_nop by lia.
Qed.

(** The bytes the demo reads. *)
Definition key_of (m : mbuf) : Z := load8 m 0 + load8 m 14 + load8 m 34 + load8 m 54.

Lemma key_of_range m : bytes_ok m -> 0 <= key_of m <= 1020.
Proof.
  intros H. unfold key_of. pose proof (load8_byte m 0 H). pose proof (load8_byte m 14 H).
  pose proof (load8_byte m 34 H). pose proof (load8_byte m 54 H). words.
Qed.

Lemma table_entry n k : 0 <= k < Z.of_nat n -> map Z.of_nat (seq 0 n) !! Z.to_nat k = Some k.
Proof.
  intros Hk. rewrite list_lookup_fmap, lookup_seq_lt by lia. simpl. f_equal. lia.
Qed.

Lemma lookup_packet_ok m s t : room m 55 -> bytes_ok m -> lookup_packet init_table m s t = Done (key_of m) s t.
Proof.
  intros Hr Hb. unfold lookup_packet, bind. rewrite !(data_at_ok 55) by (done || lia).
  pose proof (key_of_range m Hb) as Hk. fold (key_of m). rewrite u32_small by words.
  rewrite Z.mod_small by (unfold TABLE_SIZE; lia).
  unfold init_table. rewrite table_entry; [done|]. rewrite Z2Nat.id by done. unfold TABLE_SIZE. lia.
Qed.

(** A packet that the loops can read. *)
Definition readable (m : mbuf) : Prop := room m 55 /\ bytes_ok m.

Lemma demo_same tab pkts s t :
  process_with_prefetch tab pkts (zlen pkts) s t = process_without_prefetch tab pkts (zlen pkts) s t.
Proof. by apply (with_prefetch_same (fun i vals => m <-- deref (pkts !! Z.to_nat i) ;; v <-- lookup_packet tab m ;; ret (vals ++ [v]))). Qed.
Lemma wrong_same pkts s t : wrong_with_prefetch pkts (zlen pkts) s t = wrong_without_prefetch pkts (zlen pkts) s t.
Proof. by apply (with_prefetch_same (fun i vals => m <-- deref (pkts !! Z.to_nat i) ;; x <-- data_at m 0 ;; ret (vals ++ [x]))). Qed.

Lemma demo_reads pkts s t : Forall readable pkts ->
  process_without_prefetch init_table pkts (zlen pkts) s t = Done (map key_of pkts) s t.
Proof.
  intros Hp. unfold process_without_prefetch, zlen. rewrite Nat2Z.id. apply for_reads.
  eapply Forall_impl; [exact Hp|]. intros m [Hr Hb] s' t'. by apply lookup_packet_ok.
Qed.
Lemma wrong_reads pkts s t : Forall readable pkts ->
  wrong_without_prefetch pkts (zlen pkts) s t = Done (map (fun m => load8 m 0) pkts) s t.
Proof.
  intros Hp. unfold wrong_without_prefetch, zlen. rewrite Nat2Z.id. apply for_reads.
  eapply Forall_impl; [exact Hp|]. intros m [Hr Hb] s' t'. by apply (data_at_ok 55).
Qed.

(** C15: Prefetching changes no result and never reaches behind the burst: both loops of demo/main.c, and
    both of wrong/main.c, do the same on every burst, faults included; and on packets with 55 bytes
    of buffer they fault nowhere and read from the table, for each packet, the sum of its four bytes. *)
Theorem prefetch_equivalent pkts s t :
  (forall tab, process_with_prefetch tab pkts (zlen pkts) s t = process_without_prefetch tab pkts (zlen pkts) s t) /\
  wrong_with_prefetch pkts (zlen pkts) s t = wrong_without_prefetch pkts (zlen pkts) s t /\
  (Forall readable pkts ->
     process_with_prefetch init_table pkts (zlen pkts) s t = Done (map key_of pkts) s t /\
     wrong_with_prefetch pkts (zlen pkts) s t = Done (map (fun m => load8 m 0) pkts) s t).
Proof.
  split_and!; [intros tab; apply demo_same|apply wrong_same|]. intros Hp.
  rewrite demo_same, wrong_same. split; [by apply demo_reads|by apply wrong_reads].
Qed.

(** The received packets leave room for what the demo reads: the pool is made for 2048 bytes of data. *)
Definition rx_room : Prop := forall t p q n, Forall (fun m => room m 55) (env_rx t p q n).

(** Loops that read packets and nothing else. *)
Definition reads_only (work : list mbuf -> Z -> M St (list Z)) : Prop :=
  forall pkts, Forall readable pkts -> exists vs, forall s t, work pkts (zlen pkts) s t = Done vs s t.

Lemma wp_measure k fmt work s t t0 :
  (exists vs, forall s t, work s t = Done vs s t) -> same_acct t0 t ->
  wp (measure k fmt work) (fun _ _ t' => same_acct t0 t') (fun _ _ _ => False) s t.
Proof.
  intros [vs Hw] Ht. unfold measure. wp_steps.
  eapply wp_mono; [apply (wp_for (fun _ _ s' t' => s' = s /\ same_acct t0 t') _ (fun _ _ _ => False))| |done].
  - intros j l s' t' _ [-> A]. unfold wp. by rewrite Hw.
  - done.
  - intros _ s' t' [-> A]. by wp_steps.
Qed.

Lemma bench_ok k fmt plain ahead u s t :
  reads_only plain -> reads_only ahead -> rx_room -> owned [] t ->
  wp (bench k fmt plain ahead u) (fun _ _ t' => owned [] t') (fun _ _ _ => False) s t.
Proof.
  intros Hp Ha Hroom Ho. unfold bench. wp_step. unfold wp at 1, rte_eth_rx_burst.
  set (bufs := env_rx t 0 0 BURST_SIZE). set (t1 := EvRx _ _ _ bufs :: t).
  assert (Forall readable bufs) as Hf.
  { apply Forall_and. split; [apply Hroom|apply env_rx_bytes]. }
  assert (owned (ids bufs) t1) as O1 by (rewrite <- (app_nil_r (ids bufs)); by apply owned_rx).
  apply wp_if; intros Hz.
  - wp_steps. apply Z.eqb_eq in Hz. assert (bufs = []) as E0 by (by destruct bufs). by rewrite E0 in O1.
  - wp_step. eapply wp_mono; [apply (wp_measure _ _ _ _ _ t1); [by apply Hp|done]| |done]. intros [] ? t2 A2. cbn beta in A2.
    wp_step. eapply wp_mono; [apply (wp_measure _ _ _ _ _ t1); [by apply Ha|done]| |done]. intros [] ? t3 A3. cbn beta in A3.
    apply wp_free_all. apply owned_free_all. rewrite app_nil_r. by eapply owned_acct.
Qed.

Lemma start_port_ok started s :
  wp (start_port started) (fun _ _ t => owned [] t) (fun c _ t => c = EXIT_FAILURE /\ rx_ids t = []) s [].
Proof. unfold start_port. wp_steps; try done. apply owned_nil. Qed.

(** Both benchmarks, for any number of bursts: they exit only with status 1 before the first burst,
    never read outside a buffer or the table, and free every packet once. *)
Theorem prefetch_main_safe n s :
  rx_room ->
  wp (main n) (fun _ _ t => owned [] t) (fun c _ t => c = EXIT_FAILURE /\ rx_ids t = []) s [] /\
  wp (wrong_main n) (fun _ _ t => owned [] t) (fun c _ t => c = EXIT_FAILURE /\ rx_ids t = []) s [].
Proof.
  intros Hroom.
  assert (forall k fmt started plain ahead, reads_only plain -> reads_only ahead ->
    wp (start_port started ;; forever n (bench k fmt plain ahead) tt) (fun _ _ t => owned [] t)
      (fun c _ t => c = EXIT_FAILURE /\ rx_ids t = []) s []) as H.
  { intros k fmt started plain ahead Hp Ha. wp_step. eapply wp_mono; [apply start_port_ok| |done]. intros [] s1 t1 O1.
    eapply wp_mono; [apply (wp_forever (fun _ _ t => owned [] t) _ (fun _ _ _ => False)); [|exact O1]| |done].
    - intros u s2 t2 O2. by apply bench_ok.
    - done. }
  split; apply H; intros pkts Hf; eexists; intros s' t'; rewrite ?demo_same, ?wrong_same;
    by apply demo_reads || by apply wrong_reads.
Qed.
End Theorems.

(** ** Witnesses *)

#[local] Instance wenv : Env := sim_env quiet_script.
Definition w_packet : mbuf := Mbuf 5 (repeat 3 64) 0 64 64.
Lemma w_prefetch_packet_ok : bytes_ok w_packet.
Proof. by apply Forall_u8_dec. Qed.

Lemma prefetch_equivalent_witness :
  Forall readable [w_packet] /\ @process_with_prefetch unit init_table [w_packet] 1 tt [] = Done [12] tt [].
Proof.
  assert (Forall readable [w_packet]) as H by (repeat constructor; by vm_compute).
  split; [done|]. destruct (@prefetch_equivalent unit [w_packet] tt []) as (_ & _ & Hr). by apply Hr.
Defined.

Lemma prefetch_main_safe_witness :
  let e := steady_env quiet_script w_packet w_prefetch_packet_ok in
  @wp _ _ (@main e unit 3) (fun _ _ t => owned [] t) (fun c _ t => c = EXIT_FAILURE /\ rx_ids t = []) tt [] /\
  @wp _ _ (@wrong_main e unit 3) (fun _ _ t => owned [] t) (fun c _ t => c = EXIT_FAILURE /\ rx_ids t = []) tt [].
Proof.
  apply prefetch_main_safe. intros t p q n. simpl. apply Forall_take. repeat constructor; by vm_compute.
Defined.
