(* ===== verification/Threads.v ===== *)
(** * Threads: any number of lcores that interleave

    As [Schedule], for more than two threads.  A configuration holds the program
    counters of all threads; [step i] is the step of thread [i] on it, and on the
    common state.  A schedule is the list of the threads that step.  Below, the
    case of a list of threads that do not look at each other. *)

From S2P Require Import Prelude Rte Env.

Section Config.
Context {St C : Type} (step : nat -> C -> M St C).

Fixpoint run_config (sched : list nat) (c : C) : M St C :=
  match sched with
  | [] => ret c
  | i :: sched' => c' <-- step i c ;; run_config sched' c'
  end.

(** An invariant that may depend on the number of steps to come. *)
Lemma wp_run_config (I : nat -> C -> St -> trace -> Prop) X :
  (forall n i c s t, I (S n) c s t -> wp (step i c) (I n) X s t) ->
  forall sched c s t, I (length sched) c s t -> wp (run_config sched c) (I O) X s t.
Proof.
  intros H. induction sched as [|i sched IH]; intros c s t HI; simpl; [done|].
  wp_step. eapply wp_mono; [by apply H| |done]. intros. by apply IH.
Qed.

(** When some steps may fault: the schedule comes to one of them, or it does not. *)
Lemma wp_run_config_or (I : C -> St -> trace -> Prop) (ok : nat -> C -> St -> bool) :
  (forall i c s t, I c s t -> ok i c s = true -> wp (step i c) I (fun _ _ _ => False) s t) ->
  forall sched c s t, I c s t ->
    wp (run_config sched c) I (fun _ _ _ => False) s t \/
    exists pre i post, sched = pre ++ i :: post /\
      wp (run_config pre c) (fun c' s' t' => I c' s' t' /\ ok i c' s' = false) (fun _ _ _ => False) s t.
Proof.
  intros H. induction sched as [|i sched IH]; intros c s t HI; simpl; [by left|].
  destruct (ok i c s) eqn:K; [|right; by exists [], i, sched].
  specialize (H _ _ _ _ HI K). unfold wp, bind in *. destruct (step i c s t) as [c1 s1 t1| |] eqn:R; [|done..].
  destruct (IH _ _ _ H) as [G|(pre & j & post & -> & G)]; [by left|].
  right. exists (i :: pre), j, post. split; [done|]. simpl. unfold bind. by rewrite R.
Qed.

Lemma run_config_app l l' c s t : run_config (l ++ l') c s t = bind (run_config l c) (run_config l') s t.
Proof.
  revert c s t. induction l as [|i l IH]; intros c s t; simpl; [done|].
  unfold bind in *. destruct (step i c s t); [apply IH|done|done].
Qed.

(** ** Termination under fair schedules of [k] threads

    An enabled thread lowers [rank] with its step, another one changes nothing
    but the trace: then as many rounds as the rank end with no thread enabled. *)
Section Fair.
Context (k : nat) (I : C -> St -> trace -> Prop) (rank : C -> St -> nat) (enabled : nat -> C -> St -> bool).
Hypothesis progress : forall i c s t, I c s t ->
  wp (step i c) (fun c' s' t' => I c' s' t' /\
    if enabled i c s then (rank c' s' < rank c s)%nat else c' = c /\ s' = s) (fun _ _ _ => False) s t.

Definition fair_round (l : list nat) : Prop := forall i, (i < k)%nat -> i ∈ l.

Lemma wp_run_round l c s t :
  I c s t ->
  wp (run_config l c) (fun c' s' t' => I c' s' t' /\
    ((rank c' s' < rank c s)%nat \/ (c' = c /\ s' = s /\ forall i, i ∈ l -> enabled i c s = false)))
    (fun _ _ _ => False) s t.
Proof.
  revert c s t. induction l as [|i l IH]; intros c s t HI; simpl.
  - apply wp_ret. split; [done|]. right. split_and!; [done|done|]. by intros i ?%not_elem_of_nil.
  - wp_step. eapply wp_mono; [by apply progress| |done]. intros c1 s1 t1 [I1 G1].
    eapply wp_mono; [by apply IH| |done]. intros c2 s2 t2 [I2 G2]. split; [done|].
    destruct (enabled i c s) eqn:En.
    + left. destruct G2 as [?|(-> & -> & _)]; lia.
    + destruct G1 as [-> ->]. destruct G2 as [?|(-> & -> & Hl)]; [by left|]. right. split_and!; [done|done|].
      intros j [->|Hj]%elem_of_cons; [done|by apply Hl].
Qed.

Lemma wp_run_stuck_config l c s t :
  I c s t -> (forall i, (i < k)%nat -> enabled i c s = false) -> Forall (fun i => i < k)%nat l ->
  wp (run_config l c) (fun c' s' t' => I c' s' t' /\ c' = c /\ s' = s) (fun _ _ _ => False) s t.
Proof.
  intros HI Hd. revert t HI. induction l as [|i l IH]; intros t HI Hl; simpl; [by apply wp_ret|].
  inversion Hl; subst. wp_step. eapply wp_mono; [by apply progress| |done]. intros c1 s1 t1 [I1 G1].
  rewrite Hd in G1 by done. destruct G1 as [-> ->]. by apply IH.
Qed.

Lemma wp_fair_rounds ls c s t :
  I c s t -> Forall fair_round ls -> Forall (Forall (fun i => i < k)%nat) ls -> (rank c s < length ls)%nat ->
  wp (run_config (concat ls) c) (fun c' s' t' => I c' s' t' /\ forall i, (i < k)%nat -> enabled i c' s' = false)
    (fun _ _ _ => False) s t.
Proof.
  revert c s t. induction ls as [|l ls IH]; intros c s t HI Hf Hk Hr; simpl in *; [lia|].
  inversion Hf as [|? ? F1 F2]; inversion Hk as [|? ? K1 K2]; subst.
  unfold wp. rewrite run_config_app. apply wp_bind. eapply wp_mono; [by apply wp_run_round| |done].
  intros c1 s1 t1 [I1 [Hlt|(-> & -> & Hd)]].
  - apply IH; [done..|lia].
  - eapply wp_mono; [apply wp_run_stuck_config; [done| |by apply Forall_concat]| |done].
    + intros i Hi. by apply Hd, F1.
    + intros c2 s2 t2 (I2 & -> & ->). split; [done|]. intros i Hi. by apply Hd, F1.
Qed.
End Fair.

(** The rule of helpful directions: in every state one thread is helpful.  Its step lowers [rank]; the
    step of another one lowers it, or keeps it together with the helpful thread.  Other things may
    change, as in a loop that asks again and again.  As many rounds as the rank bring it to 0. *)
Section Helpful.
Context (k : nat) (I : C -> St -> trace -> Prop) (rank : C -> St -> nat) (helpful : C -> St -> nat).
Definition helps (i : nat) (c : C) (s : St) (c' : C) (s' : St) : Prop :=
  (rank c' s' < rank c s)%nat \/
  rank c' s' = rank c s /\ (rank c s = O \/ (i <> helpful c s /\ helpful c' s' = helpful c s)).
Hypothesis help : forall i c s t, I c s t ->
  wp (step i c) (fun c' s' t' => I c' s' t' /\ helps i c s c' s') (fun _ _ _ => False) s t.
Hypothesis helpful_thread : forall c s, (helpful c s < k)%nat.

Lemma wp_run_helpful l c s t :
  I c s t ->
  wp (run_config l c) (fun c' s' t' => I c' s' t' /\
    ((rank c' s' < rank c s)%nat \/ rank c' s' = rank c s /\
       (rank c s = O \/ (helpful c s ∉ l /\ helpful c' s' = helpful c s)))) (fun _ _ _ => False) s t.
Proof.
  revert c s t. induction l as [|i l IH]; intros c s t HI; simpl.
  - apply wp_ret. split; [done|]. right. split; [done|]. right. split; [apply not_elem_of_nil|done].
  - wp_step. eapply wp_mono; [by apply help| |done]. intros c1 s1 t1 [I1 G1].
    eapply wp_mono; [by apply IH| |done]. intros c2 s2 t2 [I2 G2]. split; [done|].
    destruct G1 as [G1|[R1 G1]]; [destruct G2 as [?|[? _]]; left; lia|]. rewrite R1 in G2.
    destruct G2 as [G2|[R2 G2]]; [by left|]. right. split; [done|].
    destruct G1 as [G1|[N1 H1]]; [by left|]. destruct G2 as [G2|[N2 H2]]; [by left|]. right. rewrite H1 in *.
    split; [|done]. rewrite not_elem_of_cons. by split.
Qed.

Lemma wp_helpful_rounds ls c s t :
  I c s t -> Forall (fair_round k) ls -> (rank c s <= length ls)%nat ->
  wp (run_config (concat ls) c) (fun c' s' t' => I c' s' t' /\ rank c' s' = O) (fun _ _ _ => False) s t.
Proof.
  revert c s t. induction ls as [|l ls IH]; intros c s t HI Hf Hr; simpl in *; [apply wp_ret; split; [done|lia]|].
  inversion Hf as [|? ? F1 F2]; subst. unfold wp. rewrite run_config_app. apply wp_bind.
  eapply wp_mono; [by apply wp_run_helpful| |done]. intros c1 s1 t1 [I1 G1]. apply IH; [done..|].
  destruct G1 as [G1|[R1 [G1|[N1 _]]]]; [lia..|]. by destruct (N1 (F1 _ (helpful_thread c s))).
Qed.
End Helpful.
End Config.

(** The sum of what the threads have left to do, when one of them moves. *)
Lemma sum_left_insert {P} (f : P -> nat) l k x y :
  l !! k = Some x -> (sum_list_with f (<[k := y]> l) + f x = sum_list_with f l + f y)%nat.
Proof.
  revert k. induction l as [|z l IH]; intros [|k] H; simpl in *; [done|done| |].
  - injection H as ->. lia.
  - specialize (IH _ H). lia.
Qed.

(** ** Working on a part of the state *)

Section Zoom.
Context {St T : Type} (part : T -> St) (put : St -> T -> T).
Definition zoom {A} (m : M St A) : M T A := fun s t =>
  match m (part s) t with
  | Done a p t' => Done a (put p s) t'
  | Exit c p t' => Exit c (put p s) t'
  | Fault p t' => Fault (put p s) t'
  end.
Lemma wp_zoom {A} (m : M St A) (Q : A -> T -> trace -> Prop) X s t :
  wp m (fun a p => Q a (put p s)) (fun c p => X c (put p s)) (part s) t -> wp (zoom m) Q X s t.
Proof. unfold wp, zoom. by destruct (m (part s) t). Qed.
End Zoom.

(** ** Threads that step on their own *)

Section Threads.
Context {St P : Type} (step : P -> M St P).

(** One step of thread [i], if there is one. *)
Definition thread_step (i : nat) (ps : list P) : M St (list P) :=
  match ps !! i with
  | Some p => p' <-- step p ;; ret (<[i := p']> ps)
  | None => ret ps
  end.
Definition run_threads (sched : list nat) (ps : list P) : M St (list P) := run_config thread_step sched ps.

Lemma wp_run_threads_n (I : nat -> list P -> St -> trace -> Prop) X :
  (forall n pre p post s t, I (S n) (pre ++ p :: post) s t -> wp (step p) (fun p' => I n (pre ++ p' :: post)) X s t) ->
  (forall n ps s t, I (S n) ps s t -> I n ps s t) ->
  forall sched ps s t, I (length sched) ps s t -> wp (run_threads sched ps) (I O) X s t.
Proof.
  intros H Hn. apply wp_run_config. intros n i ps s t HI. unfold thread_step.
  destruct (ps !! i) as [p|] eqn:Hi; [|apply wp_ret; by apply Hn].
  pose proof (take_drop_middle _ _ _ Hi) as E.
  wp_step. eapply wp_mono; [apply (H n (take i ps) p (drop (S i) ps)); by rewrite E| |done].
  intros p' s1 t1 I1. apply wp_ret. by rewrite insert_take_drop by (by apply lookup_lt_Some in Hi).
Qed.

(** The step sees the threads before and after its own. *)
Lemma wp_run_threads (I : list P -> St -> trace -> Prop) X :
  (forall pre p post s t, I (pre ++ p :: post) s t -> wp (step p) (fun p' => I (pre ++ p' :: post)) X s t) ->
  forall sched ps s t, I ps s t -> wp (run_threads sched ps) I X s t.
Proof. intros H sched ps s t. apply (wp_run_threads_n (fun _ => I)); [by intros _|done]. Qed.
End Threads.
