(* ===== verification/Rss.v ===== *)
(** * rss_dpdk: one receive loop per lcore

    main.c and af_packet_rss/main.c give every worker lcore, and then the main
    lcore, a receive queue of its own.  A thread is an lcore with the packets it
    still has to free; it steps from packet to packet, and the threads interleave
    in any order.  The worker lcores are those of [RTE_LCORE_FOREACH_WORKER]. *)

From S2P Require Import Prelude Rte Env Ownership Sim Threads.

Definition RX_RING := 1024.
Definition NUM_MBUFS := 8191.
Definition BURST := 32.
Definition RX_QUEUES := 4.
Definition EXIT_FAILURE := 1.
Definition RTE_MBUF_DEFAULT_BUF_SIZE := 2176.

(** Where the loop of [lcore_rx] is: before its first line, or with the packets of the last burst
    that it has not freed yet. *)
Inductive rx_pc := RxStart | RxLoop (bufs : list mbuf).
Record lcore := Lcore { lc_id : Z; queue_id : Z; lc_pc : rx_pc }.
Definition lc_bufs (c : lcore) : list mbuf := match lc_pc c with RxStart => [] | RxLoop bufs => bufs end.

Section Rss.
Context {E : Env}.
Notation M := (M unit).
Variables (workers : list Z) (main_lcore : Z) (driver_name : string).

(** [packet_line] is printed for each packet. *)
Definition lcore_rx (packet_line : string) (c : lcore) : M lcore :=
  match lc_pc c with
  | RxStart =>
      printf "Lcore %u polling queue %u\n" [PInt (lc_id c); PInt (queue_id c)] ;;
      ret (Lcore (lc_id c) (queue_id c) (RxLoop []))
  | RxLoop [] =>
      bufs <-- rte_eth_rx_burst 0 (queue_id c) BURST ;;
      ret (Lcore (lc_id c) (queue_id c) (RxLoop bufs))
  | RxLoop (m :: ms) =>
      printf packet_line [PInt (queue_id c); PInt (lc_id c)] ;;
      rte_pktmbuf_free m ;;
      ret (Lcore (lc_id c) (queue_id c) (RxLoop ms))
  end.

(** The threads that start, and the next queue.  The result of [rte_eal_remote_launch] is not
    looked at: it tells whether there is a new thread. *)
Fixpoint launch_workers (ws : list Z) (nqueues q : Z) : M (list lcore * Z) :=
  match ws with
  | [] => ret ([], q)
  | w :: ws' =>
      if nqueues <=? q then ret ([], q)
      else
        r <-- call (rte_eal_remote_launch "lcore_rx" w) ;;
        let* (cs, q') := launch_workers ws' nqueues (u16 (q + 1)) in
        ret (if r =? 0 then Lcore w q RxStart :: cs else cs, q')
  end.

(** The rest of [main], in which the main lcore is a thread, too, if there is a queue left. *)
Definition run_lcores (packet_line : string) (nqueues : Z) (sched : list nat) : M (list lcore) :=
  let* (cs, q) := launch_workers workers nqueues 0 in
  run_threads (lcore_rx packet_line) sched (if q <? nqueues then cs ++ [Lcore main_lcore q RxStart] else cs).

Definition setup_queues (nqueues mp : Z) : M unit :=
  for_ (Z.to_nat nqueues) 0 (fun q _ =>
    r <-- call (rte_eth_rx_queue_setup 0 q RX_RING mp) ;;
    when (r <? 0) (rte_exit EXIT_FAILURE)) tt.

(** The multi-queue mode of [port_conf]. *)
Definition RTE_ETH_MQ_RX_NONE := 0.
Definition RTE_ETH_MQ_RX_RSS := 1.
(** [RTE_ETH_RSS_IP | RTE_ETH_RSS_TCP | RTE_ETH_RSS_UDP], sets of the flow types of
    rte_ethdev.h: IPv4 and IPv6, fragments, other payloads and extension headers; TCP;
    UDP. *)
Definition rss_set (flows : list Z) : Z := foldr (fun b x => Z.lor (Z.shiftl 1 b) x) 0 flows.
Definition RTE_ETH_RSS_IP := rss_set [2; 3; 7; 8; 9; 13; 15].
Definition RTE_ETH_RSS_TCP := rss_set [4; 10; 16].
Definition RTE_ETH_RSS_UDP := rss_set [5; 11; 17].
Definition RSS_HF := Z.lor (Z.lor RTE_ETH_RSS_IP RTE_ETH_RSS_TCP) RTE_ETH_RSS_UDP.
Definition configure (nqueues mq_mode rss_hf : Z) : M unit :=
  r <-- call (api_call "rte_eth_dev_configure" [0; nqueues; 0; mq_mode; rss_hf]) ;;
  when (r <? 0) (rte_exit EXIT_FAILURE).

(** main.c *)
Definition PACKET_LINE : string := "Packet on queue %u (lcore %u)\n".
Definition main (sched : list nat) : M (list lcore) :=
  r <-- call rte_eal_init ;;
  when (r <? 0) (rte_exit EXIT_FAILURE) ;;
  nb_ports <-- call rte_eth_dev_count_avail ;;
  when (u16 nb_ports =? 0) (rte_exit EXIT_FAILURE) ;;
  mp <-- call (rte_pktmbuf_pool_create "MBUF_POOL" NUM_MBUFS 250 0 RTE_MBUF_DEFAULT_BUF_SIZE) ;;
  when (mp =? 0) (rte_exit EXIT_FAILURE) ;;
  configure RX_QUEUES RTE_ETH_MQ_RX_RSS RSS_HF ;;
  setup_queues RX_QUEUES mp ;;
  r <-- call (rte_eth_dev_start 0) ;;
  when (r <? 0) (rte_exit EXIT_FAILURE) ;;
  printf "RSS enabled with %d RX queues\n" [PInt RX_QUEUES] ;;
  run_lcores PACKET_LINE RX_QUEUES sched.

(** af_packet_rss/main.c *)
Definition used_rx_queues (max_rx_queues : Z) : Z :=
  let lcore_count := u32 (1 + zlen workers) in
  let desired_queues := u16 (lcore_count - 1) in
  let desired_queues := if desired_queues =? 0 then 1 else desired_queues in
  let used := if desired_queues <? max_rx_queues then desired_queues else max_rx_queues in
  if used =? 0 then 1 else used.

Definition AF_PACKET_LINE : string := "Packet received on queue %u (lcore %u)\n".
(** From the set-up of the queues on. *)
Definition af_start (used mp : Z) (sched : list nat) : M (list lcore) :=
  setup_queues used mp ;;
  r <-- call (rte_eth_dev_start 0) ;;
  when (r <? 0) (rte_exit EXIT_FAILURE) ;;
  printf "Port started successfully\n" [] ;;
  run_lcores AF_PACKET_LINE used sched.
Definition af_main (sched : list nat) : M (list lcore) :=
  r <-- call rte_eal_init ;;
  when (r <? 0) (rte_exit EXIT_FAILURE) ;;
  nb_ports <-- call rte_eth_dev_count_avail ;;
  when (u16 nb_ports =? 0) (rte_exit EXIT_FAILURE) ;;
  printf "Detected %u port(s)\n" [PInt (u16 nb_ports)] ;;
  mp <-- call (rte_pktmbuf_pool_create "MBUF_POOL" NUM_MBUFS 256 0 RTE_MBUF_DEFAULT_BUF_SIZE) ;;
  when (mp =? 0) (rte_exit EXIT_FAILURE) ;;
  _ <-- call (rte_eth_dev_info_get 0) ;;
  info <-- read_vals "max_rx_queues" 1 ;;
  max_rx_queues <-- deref (info !! 0%nat) ;;
  let max_rx_queues := u16 max_rx_queues in
  printf "Driver: %s\n" [PStr driver_name] ;;
  printf "Max RX queues supported: %u\n" [PInt max_rx_queues] ;;
  let used := used_rx_queues max_rx_queues in
  printf "Using %u RX queue(s)\n" [PInt used] ;;
  let* (mq_mode, rss_hf) :=
    if 1 <? used then printf "Enabling RSS\n" [] ;; ret (RTE_ETH_MQ_RX_RSS, RSS_HF)
    else printf "Single queue mode (RSS disabled)\n" [] ;; ret (RTE_ETH_MQ_RX_NONE, 0) in
  configure used mq_mode rss_hf ;;
  af_start used mp sched.

(** ** Who polls what *)

(** The queues that were polled, the packets that came from one, and how often a line announced one. *)
Fixpoint polled (t : trace) : list Z :=
  match t with [] => [] | EvRx _ q _ _ :: t' => q :: polled t' | _ :: t' => polled t' end.
Fixpoint rx_on (q : Z) (t : trace) : list mbuf :=
  match t with
  | [] => []
  | EvRx _ q' _ bufs :: t' => rx_on q t' ++ (if q' =? q then bufs else [])
  | _ :: t' => rx_on q t'
  end.
Fixpoint announced (line : string) (q : Z) (t : trace) : Z :=
  match t with
  | [] => 0
  | EvPrintf f [PInt q'; _] :: t' => (if String.eqb f line && (q' =? q) then 1 else 0) + announced line q t'
  | _ :: t' => announced line q t'
  end.
Definition held_on (q : Z) (cs : list lcore) : list mbuf := concat (map lc_bufs (filter (fun c => queue_id c = q) cs)).

(** The threads [cs] poll distinct queues, only these, and of every packet that came from a queue the
    thread has announced and freed it, or still has it. *)
Record lcores_ok (line : string) (cs : list lcore) (t : trace) : Prop := {
  lo_owned : owned (ids (concat (map lc_bufs cs))) t;
  lo_distinct : NoDup (map queue_id cs);
  lo_polled : Forall (fun q => q ∈ map queue_id cs) (polled t);
  lo_counted q : zlen (rx_on q t) = announced line q t + zlen (held_on q cs) }.

Lemma held_on_middle q pre c post :
  held_on q (pre ++ c :: post) = held_on q pre ++ (if queue_id c =? q then lc_bufs c else []) ++ held_on q post.
Proof.
  unfold held_on. rewrite filter_app, filter_cons, map_app, concat_app.
  destruct (Z.eqb_spec (queue_id c) q), (decide (queue_id c = q)); done.
Qed.

(** Every launch succeeded. *)
Definition is_launch (e : event) : Prop := match e with EvApi (rte_eal_remote_launch _ _) _ => True | _ => False end.
Definition all_launched (t : trace) : Prop :=
  Forall (fun e => match e with EvApi (rte_eal_remote_launch _ _) r => r = 0 | _ => True end) t.

(** The number of receive queues, the mode and the hash functions the port was configured with. *)
Fixpoint configured (t : trace) : option (Z * Z * Z) :=
  match t with
  | [] => None
  | EvApi (api_call f [_; n; _; mq; hf]) _ :: t' =>
      if String.eqb f "rte_eth_dev_configure" then Some (n, mq, hf) else configured t'
  | _ :: t' => configured t'
  end.

(** What a step may change of the thread and the trace. *)
Lemma lcores_ok_step line pre c c' post t t' :
  lcores_ok line (pre ++ c :: post) t -> queue_id c' = queue_id c ->
  (forall h, owned (ids (lc_bufs c) ++ h) t -> owned (ids (lc_bufs c') ++ h) t') ->
  Forall (fun q => q = queue_id c \/ q ∈ polled t) (polled t') ->
  (forall q, zlen (rx_on q t') - announced line q t' - (if queue_id c =? q then zlen (lc_bufs c') else 0) =
             zlen (rx_on q t) - announced line q t - (if queue_id c =? q then zlen (lc_bufs c) else 0)) ->
  lcores_ok line (pre ++ c' :: post) t'.
Proof.
  intros [Ho Hd Hp Hc] Hq Hown Hpol Hcnt.
  assert (map queue_id (pre ++ c' :: post) = map queue_id (pre ++ c :: post)) as Em.
  { rewrite !map_app. simpl. by rewrite Hq. }
  constructor; rewrite ?Em; [|done| |].
  - revert Ho. rewrite !map_app, !concat_app. simpl. rewrite !map_app.
    rewrite !(Permutation_app_swap_app (ids (concat (map lc_bufs pre)))). apply Hown.
  - eapply Forall_impl; [exact Hpol|]. intros q [->|Hin]; [rewrite map_app; simpl; set_solver|].
    rewrite Forall_forall in Hp. by apply Hp.
  - intros q. specialize (Hcnt q). specialize (Hc q). rewrite held_on_middle in *. rewrite Hq.
    rewrite !zlen_app in *. destruct (queue_id c =? q); change (zlen []) with 0 in *; lia.
Qed.

Lemma wp_lcore_rx line pre c post s t :
  line <> "Lcore %u polling queue %u\n"%string -> lcores_ok line (pre ++ c :: post) t ->
  wp (lcore_rx line c) (fun c' _ t' => lcores_ok line (pre ++ c' :: post) t' /\ queue_id c' = queue_id c /\
    (all_launched t' -> all_launched t) /\ configured t' = configured t) (fun _ _ _ => False) s t.
Proof.
  intros Hline H.
  assert (forall e, all_launched (e :: t) -> all_launched t) as Hl1 by (by intros e [_ ?]%Forall_cons).
  assert (forall e e', all_launched (e :: e' :: t) -> all_launched t) as Hl2 by (by intros e e' [_ [_ ?]%Forall_cons]%Forall_cons). destruct c as [id q pc]. unfold lcore_rx. cbn [lc_pc lc_id queue_id].
  assert (Forall (fun k => k = q \/ k ∈ polled t) (polled t)) as Hself by (apply Forall_forall; by right).
  destruct pc as [|[|m ms]].
  - wp_steps. split; [|by split; [|split]; eauto]. eapply lcores_ok_step; [exact H|done|done|done|]. intros k. cbn [rx_on announced].
    destruct (String.eqb_spec "Lcore %u polling queue %u\n" line) as [Hl|]; [by rewrite Hl in Hline|].
    cbn [andb lc_bufs lc_pc queue_id]. change (zlen (@nil mbuf)) with 0. destruct (q =? k); lia.
  - wp_steps. apply wp_rx. intros bufs _ _. wp_steps. split; [|by split; [|split]; eauto]. eapply lcores_ok_step; [exact H|done| | |].
    + intros h Ho. by apply owned_rx.
    + simpl. constructor; [by left|done].
    + intros k. cbn [rx_on announced lc_bufs lc_pc queue_id]. rewrite zlen_app.
      change (zlen (@nil mbuf)) with 0. destruct (q =? k); change (zlen (@nil mbuf)) with 0; lia.
  - wp_steps. split; [|by split; [|split]; eauto]. eapply lcores_ok_step; [exact H|done| |done|].
    + intros h Ho. by apply owned_free.
    + intros k. cbn [rx_on announced lc_bufs lc_pc queue_id]. rewrite String.eqb_refl. simpl andb.
      assert (zlen (m :: ms) = 1 + zlen ms) by (unfold zlen; simpl; lia).
      destruct (q =? k); lia.
Qed.

(** ** Which queues have a thread *)


Lemma launches_frame line pre t :
  Forall is_launch pre ->
  polled (pre ++ t) = polled t /\ same_acct t (pre ++ t) /\
  (forall q, rx_on q (pre ++ t) = rx_on q t) /\ (forall q, announced line q (pre ++ t) = announced line q t) /\
  configured (pre ++ t) = configured t.
Proof.
  induction 1 as [|e pre He _ IH]; [done|]. destruct e as [[]| | | | | | | | | | | | | | |]; done.
Qed.

Lemma launch_workers_ok nq ws q s t :
  0 <= q <= nq -> nq < 65536 ->
  wp (launch_workers ws nq q) (fun r _ t' => exists pre, t' = pre ++ t /\ Forall is_launch pre /\
      r.2 = Z.min nq (q + zlen ws) /\ map queue_id r.1 `sublist_of` seqZ q (r.2 - q) /\
      concat (map lc_bufs r.1) = [] /\ (forall k, held_on k r.1 = []) /\
      (all_launched t' -> map queue_id r.1 = seqZ q (r.2 - q)))
    (fun _ _ _ => False) s t.
Proof.
  revert q t. induction ws as [|w ws IH]; intros q t Hq Hn; cbn [launch_workers].
  - wp_steps. exists []. cbn [fst snd]. change (zlen []) with 0. split_and!; try done; [lia|apply sublist_nil_l|].
    intros _. by replace (q - q) with 0 by lia.
  - assert (zlen (w :: ws) = 1 + zlen ws) as Hz by (unfold zlen; simpl; lia). pose proof (zlen_nonneg ws).
    apply wp_if; intros Hle.
    + apply Z.leb_le in Hle. wp_steps. exists []. cbn [fst snd].
      split_and!; try done; [lia|apply sublist_nil_l|]. intros _. by replace (q - q) with 0 by lia.
    + apply Z.leb_gt in Hle. wp_steps. rewrite (u16_small (q + 1)) by words.
      eapply wp_mono; [apply IH; lia| |done]. intros [cs q'] s1 t1 (pre & -> & Hp & Hq' & Hs & Hb & Hh & Hl).
      cbn [fst snd] in *. wp_steps. exists (pre ++ [EvApi (rte_eal_remote_launch "lcore_rx" w) r]).
      assert (seqZ q (q' - q) = q :: seqZ (q + 1) (q' - (q + 1))) as Eq.
      { rewrite (seqZ_cons q) by lia. f_equal. f_equal; lia. }
      cbn [fst snd]. rewrite Eq. split; [by rewrite <- app_assoc|]. split; [apply Forall_app; split; [done|repeat constructor]|].
      split; [simpl; lia|]. destruct (r =? 0) eqn:Hr; cbn [fst snd].
      * split; [simpl; by apply sublist_skip|]. split; [done|].
        split; [intros k; etransitivity; [apply (held_on_middle k [])|]; rewrite Hh; simpl; by destruct (q =? k)|].
        intros Ha. simpl. f_equal. by apply Hl.
      * split; [by apply sublist_cons|]. split_and!; [done..|]. intros Ha. exfalso.
        apply Forall_app in Ha as [_ Ha]. apply Forall_cons in Ha as [Ha _]. by rewrite Ha in Hr.
Qed.

(** What holds when the loops have run: [n] queues are configured, and all have a thread if there
    are enough lcores and all launches succeed. *)
Definition lcores_run (line : string) (n : Z) (cs : list lcore) (t : trace) : Prop :=
  lcores_ok line cs t /\ Forall (fun c => 0 <= queue_id c < n) cs /\
  (all_launched t -> map queue_id cs = seqZ 0 (Z.min n (1 + zlen workers))).

Lemma run_lcores_ok line n sched s t :
  line <> "Lcore %u polling queue %u\n"%string -> 0 <= n < 65536 -> same_acct [] t -> polled t = [] ->
  (forall q, rx_on q t = []) -> (forall q, announced line q t = 0) ->
  wp (run_lcores line n sched) (fun cs _ t' => lcores_run line n cs t' /\ configured t' = configured t) (fun _ _ _ => False) s t.
Proof.
  intros Hline Hn (A1 & A2 & _) Hp Hr Ha. unfold run_lcores. wp_step.
  eapply wp_mono; [apply (launch_workers_ok n workers 0); lia| |done].
  intros [cs q] s1 t1 (pre & -> & Hpre & Hq & Hs & Hb & Hh & Hl). cbn [fst snd] in *.
  destruct (launches_frame line pre t Hpre) as (Fp & (F1 & F2 & _) & Fr & Fa & Fc). pose proof (zlen_nonneg workers).
  rewrite Z.add_0_l, Z.sub_0_r in *.
  set (cs1 := if q <? n then cs ++ [Lcore main_lcore q RxStart] else cs).
  assert (map queue_id cs1 `sublist_of` seqZ 0 (Z.min n (1 + zlen workers)) /\
    (all_launched (pre ++ t) -> map queue_id cs1 = seqZ 0 (Z.min n (1 + zlen workers)))) as [Hs1 Hl1].
  { unfold cs1. destruct (Z.ltb_spec q n).
    - replace (Z.min n (1 + zlen workers)) with (q + 1) by lia. rewrite seqZ_app, map_app by lia. simpl.
      split; [by apply sublist_app|]. intros HA. by rewrite Hl.
    - replace (Z.min n (1 + zlen workers)) with q by lia. done. }
  assert (concat (map lc_bufs cs1) = [] /\ forall k, held_on k cs1 = []) as [Hb1 Hh1].
  { unfold cs1. destruct (q <? n); [|done]. split; [rewrite map_app, concat_app, Hb; done|].
    intros k. rewrite (held_on_middle k cs (Lcore main_lcore q RxStart) []), Hh. simpl. by destruct (q =? k). }
  eapply wp_mono; [apply (wp_run_threads _ (fun cs' _ t' => lcores_ok line cs' t' /\
    map queue_id cs' = map queue_id cs1 /\ (all_launched t' -> all_launched (pre ++ t)) /\ configured t' = configured t) (fun _ _ _ => False))| |done].
  - intros p1 c p2 s2 t2 (H1 & E1 & L1 & C1). eapply wp_mono; [by apply wp_lcore_rx| |done].
    intros c' s3 t3 (H2 & E2 & L2 & C2). split; [done|]. split; [|by split; [auto|congruence]]. rewrite <- E1, !map_app. simpl. by rewrite E2.
  - split; [|by split_and!]. constructor.
    + rewrite Hb1. unfold owned. by rewrite F1, F2, A1, A2.
    + eapply sublist_NoDup; [apply NoDup_seqZ|done].
    + by rewrite Fp, Hp.
    + intros k. by rewrite Fr, Fa, Hr, Ha, Hh1.
  - intros cs' s' t' (H1 & E1 & L1 & C1). split; [|done]. split; [done|]. rewrite E1. split; [|by auto].
    apply Forall_forall. intros c Hc. assert (queue_id c ∈ map queue_id cs') as Hin by (by apply list_elem_of_fmap_2).
    rewrite E1 in Hin. eapply elem_of_sublist in Hin; [|exact Hs1]. apply elem_of_seqZ in Hin. lia.
Qed.

(** Nothing was polled, received or announced. *)
Record idle (line : string) (t : trace) : Prop := {
  i_acct : same_acct [] t; i_polled : polled t = []; i_rx q : rx_on q t = []; i_announced q : announced line q t = 0 }.

Lemma setup_queues_ok line n mp s t :
  idle line t ->
  wp (setup_queues n mp) (fun _ _ t' => idle line t' /\ configured t' = configured t) (fun c _ t' => c = EXIT_FAILURE /\ rx_ids t' = []) s t.
Proof.
  intros Hi. unfold setup_queues.
  apply (wp_for (fun _ _ _ t' => idle line t' /\ configured t' = configured t)); [|done]. intros j l s1 t1 _ [I1 C1].
  assert (forall r, idle line (EvApi (rte_eth_rx_queue_setup 0 j RX_RING mp) r :: t1)) as I2 by (intros r; by destruct I1).
  wp_steps; [split; [done|apply I1]|by split].
Qed.

(** C37: main.c of rss_dpdk, for every interleaving of the lcores: no queue is polled by two of them,
    only queues with a thread are polled, every packet is announced once with its queue and freed
    once, or still waits for that.  If every launch succeeds, the threads serve the queues
    0, 1, ... up to the number of lcores: with fewer than four lcores the rest is never polled. *)
Theorem rss_main_correct sched :
  wp (main sched) (fun cs _ t => lcores_run PACKET_LINE RX_QUEUES cs t /\
      configured t = Some (RX_QUEUES, RTE_ETH_MQ_RX_RSS, RSS_HF))
    (fun c _ t => c = EXIT_FAILURE /\ rx_ids t = []) tt [].
Proof.
  unfold main, configure. wp_steps; try done.
  eapply wp_mono; [by apply (setup_queues_ok PACKET_LINE)| |done]. intros _ s1 t1 [[A P R N] C1].
  wp_steps; [split; [done|apply A]|]. eapply wp_mono; [by apply run_lcores_ok| |done].
  intros cs s2 t2 [Hrun C2]. split; [done|]. rewrite C2. exact C1.
Qed.

Lemma used_rx_queues_range max : 0 <= max < 65536 -> zlen workers < 65536 ->
  0 < used_rx_queues max < 65536 /\ used_rx_queues max <= 1 + zlen workers /\
  (0 < max -> used_rx_queues max <= max).
Proof.
  intros Hm Hw. pose proof (zlen_nonneg workers). unfold used_rx_queues.
  rewrite (u32_small (1 + zlen workers)), (u16_small (1 + zlen workers - 1)) by words.
  destruct (Z.eqb_spec (1 + zlen workers - 1) 0); repeat case_match; lia.
Qed.

Lemma af_start_ok n mq mp sched t :
  0 < n <= 1 + zlen workers -> n < 65536 -> mq = RTE_ETH_MQ_RX_RSS <-> 1 < n ->
  idle AF_PACKET_LINE t -> configured t = Some (n, mq, if 1 <? n then RSS_HF else 0) ->
  wp (af_start n mp sched) (fun cs _ t => exists n mq, 0 < n <= 1 + zlen workers /\
      configured t = Some (n, mq, if 1 <? n then RSS_HF else 0) /\ (mq = RTE_ETH_MQ_RX_RSS <-> 1 < n) /\
      lcores_run AF_PACKET_LINE n cs t /\ (all_launched t -> map queue_id cs = seqZ 0 n))
    (fun c _ t => c = EXIT_FAILURE /\ rx_ids t = []) tt t.
Proof.
  intros Hn Hu Hmq Hi Hc. unfold af_start. wp_step. eapply wp_mono; [by apply setup_queues_ok| |done].
  intros _ [] t1 [[A P R N] C1]. wp_steps; [split; [done|apply A]|].
  eapply wp_mono; [apply run_lcores_ok; done || lia| |done].
  intros cs s2 t2 [Hrun C2]. exists n, mq. split; [lia|]. split; [rewrite C2; simpl; congruence|].
  split_and!; [done|done|]. intros Ha. destruct Hrun as (_ & _ & Hl). rewrite Hl by done. f_equal. lia.
Qed.

(** af_packet_rss/main.c adapts: it configures no more queues than the device has and no more than
    there are lcores, with RSS exactly if there are several, so that if every launch succeeds every
    configured queue has a thread; the rest is as in main.c. *)
Theorem af_main_correct sched :
  zlen workers < 65536 ->
  wp (af_main sched) (fun cs _ t => exists n mq, 0 < n <= 1 + zlen workers /\
      configured t = Some (n, mq, if 1 <? n then RSS_HF else 0) /\ (mq = RTE_ETH_MQ_RX_RSS <-> 1 < n) /\
      lcores_run AF_PACKET_LINE n cs t /\ (all_launched t -> map queue_id cs = seqZ 0 n))
    (fun c _ t => c = EXIT_FAILURE /\ rx_ids t = []) tt [].
Proof.
  intros Hw. unfold af_main, configure. wp_steps; try done.
  apply wp_vals; [done|]. intros vs Hv _. destruct vs as [|v [|v' vs]]; [done| |unfold zlen in Hv; simpl in Hv; lia].
  wp_steps. eapply wp_deref; [done|]. set (n := used_rx_queues (u16 v)).
  assert (0 < n < 65536 /\ n <= 1 + zlen workers) as [Hn Hle].
  { destruct (used_rx_queues_range (u16 v)) as (? & ? & _); [|done|done]. apply u16_range. }
  wp_steps; try done.
  - match goal with Hx : (1 <? n) = true |- _ => pose proof Hx as Hb; apply Z.ltb_lt in Hx end.
    apply (af_start_ok n RTE_ETH_MQ_RX_RSS); try (done || lia). cbn [configured String.eqb]. by rewrite Hb.
  - match goal with Hx : (1 <? n) = false |- _ => pose proof Hx as Hb; apply Z.ltb_ge in Hx end.
    apply (af_start_ok n RTE_ETH_MQ_RX_NONE); try (done || lia); [split; [done|lia]|]. cbn [configured String.eqb]. by rewrite Hb.
Qed.
End Rss.

(** Three lcores, the main one among them, and two packets in one burst. *)
#[local] Instance wenv : Env :=
  sim_env (Script (fun a => match a with rte_eal_remote_launch _ _ => 0 | _ => 1 end)
    [[mk_packet 1 [] [] 6 [] []; mk_packet 2 [] [] 6 [] []]] 32 (fun _ => 0) true None 1000).

Lemma af_main_correct_witness :
  wp (af_main [1; 2] 0 "net_af_packet" [0; 1; 0; 0; 2; 0]%nat) (fun cs _ t => exists n mq, 0 < n <= 1 + zlen [1; 2] /\
      configured t = Some (n, mq, if 1 <? n then RSS_HF else 0) /\ (mq = RTE_ETH_MQ_RX_RSS <-> 1 < n) /\
      lcores_run [1; 2] AF_PACKET_LINE n cs t /\ (all_launched t -> map queue_id cs = seqZ 0 n))
    (fun c _ t => c = EXIT_FAILURE /\ rx_ids t = []) tt [] /\
  match af_main [1; 2] 0 "net_af_packet" [0; 1; 0; 0; 1; 0]%nat tt [] with
  | Done cs _ t => map queue_id cs = [0; 1] /\ announced AF_PACKET_LINE 0 t = 2
  | _ => False
  end.
Proof. split; [by apply af_main_correct|by vm_compute]. Defined.

(** main.c with three lcores: nobody polls queue 3. *)
Example rss_starved_queue :
  match main [1; 2] 0 [0; 1; 2]%nat tt [] with
  | Done cs _ t => map queue_id cs = [0; 1; 2] /\ configured t = Some (4, RTE_ETH_MQ_RX_RSS, RSS_HF)
  | _ => False
  end.
Proof. by vm_compute. Qed.
