(* ===== verification/Echo.v ===== *)
(** * Receive loops on one port: ports/begin, rxtx_callbacks, meter_dpdk

    [Tun] (ports/begin/dpdk_tun_echo.c) prints what it receives and sends it back;
    [Callback] (rxtx_callbacks/sample/simple.c) counts packets in a callback of the
    receive queue; [Meter] (meter_dpdk/main.c) sets up a meter of the NIC and frees
    what passes it. *)

From S2P Require Import Prelude Rte Env Packet Ownership BurstIo Sim.

Definition BURST_SIZE := 32.
Definition EXIT_FAILURE := 1.
Definition RTE_MBUF_DEFAULT_BUF_SIZE := 2176.

(** The data of every received packet lies in its buffer. *)
Definition rx_in_buffer {E : Env} : Prop := forall t p q n,
  Forall (fun m => 0 <= data_len m < 65536 /\ room m (data_len m)) (env_rx t p q n).

(** ** dpdk_tun_echo.c *)

Module Tun.
Section Tun.
Context {E : Env}.
Notation M := (M unit).

Definition print_byte (m : mbuf) (j : Z) : M unit := b <-- data_at m j ;; printf "%02x " [PInt b].
Definition print_packet (i : Z) (m : mbuf) : M unit :=
  let len := data_len m in
  printf "Packet %d: len=%u : " [PInt i; PInt len] ;;
  for_ (Z.to_nat len) 0 (fun j _ => print_byte m j) tt ;;
  printf "\n" [].
Definition print_packets (bufs : list mbuf) : M unit :=
  for_ (length bufs) 0 (fun i _ => m <-- deref (bufs !! Z.to_nat i) ;; print_packet i m) tt.

Definition loop_body (_ : unit) : M unit :=
  bufs <-- rte_eth_rx_burst 0 0 BURST_SIZE ;;
  let nb_rx := zlen bufs in
  if nb_rx =? 0 then ret tt
  else
    printf "Received %u packets\n" [PInt nb_rx] ;;
    print_packets bufs ;;
    tx_or_free 0 0 bufs.

Definition main (n : nat) : M unit :=
  r <-- call rte_eal_init ;;
  when (r <? 0) (rte_exit EXIT_FAILURE) ;;
  printf "EAL Initialized.\n" [] ;;
  nb_ports <-- call rte_eth_dev_count_avail ;;
  let nb_ports := u16 nb_ports in
  printf "Ports available: %u\n" [PInt nb_ports] ;;
  when (nb_ports =? 0) (rte_exit EXIT_FAILURE) ;;
  mp <-- call (rte_pktmbuf_pool_create "MBUF_POOL" 8192 256 0 RTE_MBUF_DEFAULT_BUF_SIZE) ;;
  when (mp =? 0) (rte_exit EXIT_FAILURE) ;;
  _ <-- call (rte_eth_dev_configure 0 1 1) ;;
  _ <-- call (rte_eth_rx_queue_setup 0 0 1024 mp) ;;
  _ <-- call (rte_eth_tx_queue_setup 0 0 1024) ;;
  _ <-- call (rte_eth_dev_start 0) ;;
  printf "Port %u started.\n" [PInt 0] ;;
  forever n loop_body tt.

(** What is printed for a packet, for a burst. *)
Definition packet_lines (i : Z) (m : mbuf) : list event :=
  EvPrintf "Packet %d: len=%u : " [PInt i; PInt (data_len m)] ::
  map (fun b => EvPrintf "%02x " [PInt b]) (load_bytes m 0 (Z.to_nat (data_len m))) ++ [EvPrintf "\n" []].
Definition burst_lines (bufs : list mbuf) : list event :=
  EvPrintf "Received %u packets\n" [PInt (zlen bufs)] ::
  concat (imap (fun i m => packet_lines (Z.of_nat i) m) bufs).

(** The lines of a loop, by what one round prints. *)
Lemma prints_for (body : Z -> unit -> M unit) (lines : Z -> list event) n i :
  (forall j, i <= j < i + Z.of_nat n -> prints (body j tt) (lines j) tt) ->
  prints (for_ n i body tt) (concat (map (fun k => lines (i + Z.of_nat k)) (seq 0 n))) tt.
Proof.
  revert i. induction n as [|n IH]; intros i H; cbn [for_]; [apply prints_ret|].
  simpl. rewrite Z.add_0_r. eapply prints_bind; [apply H; lia|]. cbn beta.
  rewrite <- seq_shift, map_map. erewrite map_ext; [apply (IH (i + 1)); intros; apply H; lia|].
  intros k. simpl. f_equal. lia.
Qed.

Lemma print_packet_prints i m : room m (data_len m) -> 0 <= data_len m ->
  prints (print_packet i m) (packet_lines i m) tt.
Proof.
  intros Hr Hl. unfold print_packet, packet_lines. apply prints_line.
  eapply (prints_bind _ _ _ [_] tt tt); [|apply prints_printf].
  replace (map (fun b => EvPrintf "%02x " [PInt b]) (load_bytes m 0 (Z.to_nat (data_len m)))) with
    (concat (map (fun k => [EvPrintf "%02x " [PInt (load8 m (0 + Z.of_nat k))]]) (seq 0 (Z.to_nat (data_len m))))).
  - apply (prints_for (fun j _ => print_byte m j) (fun j => [EvPrintf "%02x " [PInt (load8 m j)]])).
    intros j Hj s t. unfold print_byte, bind. rewrite (data_at_ok (data_len m)) by (done || lia). done.
  - unfold load_bytes. rewrite map_map. induction (seq 0 _); simpl; congruence.
Qed.

Lemma print_packets_prints bufs :
  Forall (fun m => 0 <= data_len m < 65536 /\ room m (data_len m)) bufs ->
  prints (print_packets bufs) (concat (imap (fun i m => packet_lines (Z.of_nat i) m) bufs)) tt.
Proof.
  intros Hb. unfold print_packets.
  set (lines j := match bufs !! Z.to_nat j with Some m => packet_lines j m | None => [] end).
  replace (concat (imap _ bufs)) with (concat (map (fun k => lines (0 + Z.of_nat k)) (seq 0 (length bufs)))).
  - apply (prints_for _ lines). intros j Hj. destruct (lookup_lt_is_Some_2 bufs (Z.to_nat j)) as [m Hm]; [lia|].
    unfold lines. rewrite Hm. intros s t. unfold bind. simpl.
    rewrite Forall_lookup in Hb. destruct (Hb _ _ Hm) as [[? _] ?]. by apply (print_packet_prints j m).
  - f_equal. apply list_eq. intros k. rewrite list_lookup_fmap, list_lookup_imap.
    destruct (decide (k < length bufs)%nat) as [Hk|Hk].
    + rewrite lookup_seq_lt by done. cbn [fmap option_fmap option_map]. unfold lines.
      rewrite Nat.add_0_l, Z.add_0_l, Nat2Z.id. destruct (lookup_lt_is_Some_2 bufs k Hk) as [m Hm]. by rewrite Hm.
    + rewrite lookup_seq_ge by lia. by rewrite lookup_ge_None_2 by lia.
Qed.

(** The lines of all bursts, in order. *)
Fixpoint expected (t : trace) : list event :=
  match t with
  | [] => []
  | EvRx _ _ _ bufs :: t' => expected t' ++ (if zlen bufs =? 0 then [] else burst_lines bufs)
  | _ :: t' => expected t'
  end.
Lemma expected_lines ls t : Forall is_printf ls -> expected (rev ls ++ t) = expected t.
Proof.
  intros H. revert t. induction H as [|e ls He _ IH]; intros t; simpl; [done|]. rewrite <- app_assoc, IH. by destruct e.
Qed.
Lemma printed_free_all ms t : printed (rev (map EvFree ms) ++ t) = printed t /\ expected (rev (map EvFree ms) ++ t) = expected t.
Proof. revert t. induction ms as [|m ms IH]; intros t; simpl; [done|]. rewrite <- app_assoc. apply (IH (EvFree m :: t)). Qed.

Lemma burst_lines_printf bufs : Forall is_printf (burst_lines bufs).
Proof.
  constructor; [done|]. apply Forall_concat, Forall_forall. intros l (k & m & -> & _)%elem_of_lookup_imap_1.
  unfold packet_lines. constructor; [done|]. apply Forall_app. split; [|by repeat constructor].
  apply Forall_forall. by intros e (b & -> & _)%list_elem_of_fmap.
Qed.

(** After each round: everything printed, echoed and given back. *)
Record echoed (t : trace) : Prop := {
  e_owned : owned [] t; e_given : given t = received t; e_printed : drop 3 (printed t) = expected t;
  e_header : (3 <= length (printed t))%nat }.

Lemma tun_body_ok s t :
  rx_in_buffer -> echoed t -> wp (loop_body tt) (fun _ _ t' => echoed t') (fun _ _ _ => False) s t.
Proof.
  intros Hrx [Ho Hg Hp Hh]. unfold loop_body. wp_step. unfold wp at 1, rte_eth_rx_burst.
  specialize (Hrx t 0 0 BURST_SIZE). set (bufs := env_rx t 0 0 BURST_SIZE) in *. set (t1 := EvRx _ _ _ bufs :: t).
  assert (owned (ids bufs ++ []) t1) as O1 by (by apply owned_rx). cbv zeta.
  destruct (zlen bufs =? 0) eqn:Hz.
  - apply Z.eqb_eq in Hz. assert (bufs = []) as E0 by (by destruct bufs). wp_steps. unfold t1. rewrite E0 in *.
    constructor; simpl; rewrite ?app_nil_r; done.
  - apply wp_bind, wp_printf. apply wp_bind. eapply prints_acct; [by apply print_packets_prints|].
    set (ls := concat _). set (t2 := rev ls ++ _).
    assert (t2 = rev (burst_lines bufs) ++ t1) as E2 by (unfold t2, burst_lines; simpl; by rewrite <- app_assoc).
    assert (only_printed t1 t2) as A2.
    { exists (rev (burst_lines bufs)). split; [done|]. apply Forall_rev, burst_lines_printf. }
    pose proof (only_printed_acct _ _ A2) as B2.
    assert (received t2 = received t ++ bufs /\ given t2 = given t) as [R2 G2].
    { split; [rewrite (only_printed_ext received t1)|rewrite (only_printed_ext given t1)]; try done; by intros []. }
    unfold tx_or_free, tx_count_or_free. do 2 apply wp_bind. apply wp_tx. intros k Hk.
    assert (forall t', owned [] t' -> received t' = received t ++ bufs -> given t' = given t ++ bufs ->
      printed t' = printed t ++ burst_lines bufs -> expected t' = expected t ++ burst_lines bufs -> echoed t') as Hend.
    { intros t' H1 H2 H3 H4 H5. constructor; [done|congruence| |].
      - rewrite H4, H5, drop_app_le by done. by rewrite Hp.
      - rewrite H4, length_app. lia. }
    assert (printed t2 = printed t ++ burst_lines bufs /\ expected t2 = expected t ++ burst_lines bufs) as [P2 X2].
    { rewrite E2, printed_lines, expected_lines by apply burst_lines_printf. unfold t1. simpl. by rewrite Hz. }
    apply wp_bind, wp_when; intros Hlt.
    + apply wp_free_all. wp_steps.
      apply Hend; rewrite ?received_free_all, ?given_free_all, ?(proj1 (printed_free_all _ _)), ?(proj2 (printed_free_all _ _)); simpl; try congruence.
      apply owned_tx_all. by eapply owned_acct.
    + wp_steps. apply Hend; simpl; try congruence. apply owned_tx_full; [by eapply owned_acct|]. apply Z.ltb_ge in Hlt. lia.
Qed.

(** The echo program, for any number of bursts: it never reads outside a packet; it prints every packet
    it receives, byte for byte in order, sends the packets back in that order, and frees what the
    NIC refuses: no buffer is lost or freed twice. *)
Theorem tun_main_correct n :
  rx_in_buffer ->
  wp (main n) (fun _ _ t => owned [] t /\ given t = received t /\ drop 3 (printed t) = expected t)
    (fun c _ t => c = EXIT_FAILURE /\ rx_ids t = []) tt [].
Proof.
  intros Hrx. unfold main. wp_steps; try done.
  eapply wp_mono; [apply (wp_forever (fun _ _ t => echoed t) _ (fun _ _ _ => False))| |done].
  - intros [] s t He. by apply tun_body_ok.
  - constructor; simpl; try done; constructor.
  - intros _ s t []. done.
Qed.
End Tun.

(** A packet of four bytes at every poll, one of which the NIC refuses to send. *)
Definition w_packet : mbuf := Mbuf 5 [1; 2; 254; 4] 0 4 4.
Lemma w_echo_packet_ok : bytes_ok w_packet.
Proof. by apply Forall_u8_dec. Qed.

Lemma tun_main_correct_witness :
  let e := steady_env (Script (fun _ => 1) [] 0 (fun _ => 0) true None 1000) w_packet w_echo_packet_ok in
  @wp _ _ (@main e 2) (fun _ _ t => owned [] t /\ given t = received t /\ drop 3 (printed t) = expected t)
    (fun c _ t => c = EXIT_FAILURE /\ rx_ids t = []) tt [] /\
  match @main e 1 tt [] with
  | Done _ _ t => drop 3 (printed t) = [EvPrintf "Received %u packets\n" [PInt 1];
      EvPrintf "Packet %d: len=%u : " [PInt 0; PInt 4]; EvPrintf "%02x " [PInt 1]; EvPrintf "%02x " [PInt 2];
      EvPrintf "%02x " [PInt 254]; EvPrintf "%02x " [PInt 4]; EvPrintf "\n" []]
  | _ => False
  end.
Proof.
  split; [|by vm_compute]. apply tun_main_correct. intros t p q n. simpl. apply Forall_take.
  constructor; [|constructor]. by vm_compute.
Defined.
End Tun.

(** ** rxtx_callbacks/sample/simple.c *)

Module Callback.
Section Callback.
Context {E : Env}.

(** [rx_count] of [main], and whether the port runs the callback. *)
Record cb_state := CbState { rx_count : Z; installed : bool }.
Notation M := (M cb_state).

Definition my_rx_callback (nb_pkts : Z) : M Z :=
  modify (fun s => CbState (u64 (rx_count s + nb_pkts)) (installed s)) ;;
  ret nb_pkts.

(** [rte_eth_rx_burst] hands what the driver received to the callbacks of the queue. *)
Definition rx_burst : M (list mbuf) :=
  bufs <-- rte_eth_rx_burst 0 0 32 ;;
  cb <-- gets installed ;;
  if cb : bool then nb <-- my_rx_callback (zlen bufs) ;; ret (take (Z.to_nat nb) bufs) else ret bufs.

Definition GOT : string := "Got %u packets (total seen by callback = %lu)\n".
Definition loop_body (_ : unit) : M unit :=
  bufs <-- rx_burst ;;
  let nb := zlen bufs in
  when (0 <? nb) (
    c <-- gets rx_count ;;
    printf GOT [PInt nb; PInt c] ;;
    free_all bufs).

Definition main (n : nat) : M unit :=
  r <-- call rte_eal_init ;;
  when (r <? 0) (rte_exit (-1)) ;;
  _ <-- call (rte_eth_dev_configure 0 1 1) ;;
  mp <-- call (rte_pktmbuf_pool_create "MBUF_POOL" 8192 256 0 RTE_MBUF_DEFAULT_BUF_SIZE) ;;
  _ <-- call (rte_eth_rx_queue_setup 0 0 128 mp) ;;
  _ <-- call (rte_eth_tx_queue_setup 0 0 128) ;;
  _ <-- call (rte_eth_dev_start 0) ;;
  cb <-- call (api_call "rte_eth_add_rx_callback" [0; 0]) ;;
  when (negb (cb =? 0)) (modify (fun s => CbState (rx_count s) true)) ;;
  printf "Packet RX loop started...\n" [] ;;
  forever n loop_body tt.

(** Every line of the trace names the number of packets received up to it. *)
Fixpoint totals_ok (count : trace -> Z) (t : trace) : Prop :=
  match t with
  | [] => True
  | EvPrintf f [PInt nb; PInt c] :: t' => (f = GOT -> c = count t') /\ totals_ok count t'
  | _ :: t' => totals_ok count t'
  end.
Definition counted (cb : bool) (t : trace) : Z := if cb then u64 (zlen (received t)) else 0.

Record counting (cb : bool) (s : cb_state) (t : trace) : Prop := {
  c_installed : installed s = cb; c_count : rx_count s = counted cb t;
  c_owned : owned [] t; c_lines : totals_ok (counted cb) t }.

Lemma totals_free_all count ms t : totals_ok count (rev (map EvFree ms) ++ t) <-> totals_ok count t.
Proof. revert t. induction ms as [|m ms IH]; intros t; simpl; [done|]. rewrite <- app_assoc. apply (IH (EvFree m :: t)). Qed.

Lemma wp_rx_burst cb s t :
  counting cb s t ->
  wp rx_burst (fun bufs s' t' => installed s' = cb /\ rx_count s' = counted cb t' /\ owned (ids bufs) t' /\
    totals_ok (counted cb) t') (fun _ _ _ => False) s t.
Proof.
  intros [Hi Hc Ho Ht]. unfold rx_burst, my_rx_callback. wp_step. apply wp_rx. intros bufs _ _.
  assert (owned (ids bufs) (EvRx 0 0 32 bufs :: t)) as O1 by (rewrite <- (app_nil_r (ids bufs)); by apply owned_rx).
  wp_step. wp_step. cbn beta. destruct cb; rewrite Hi; cbv iota; wp_steps; cbn [installed rx_count].
  - unfold zlen at 2. rewrite Nat2Z.id, take_ge by done. split_and!; try done. rewrite Hc. simpl.
    unfold zlen. rewrite length_app, Nat2Z.inj_add. unfold u64. by rewrite Zplus_mod_idemp_l.
  - done.
Qed.

Lemma callback_body_ok cb s t :
  counting cb s t -> wp (loop_body tt) (fun _ s' t' => counting cb s' t') (fun _ _ _ => False) s t.
Proof.
  intros HI. unfold loop_body. wp_step. eapply wp_mono; [by apply wp_rx_burst| |done].
  intros bufs s1 t1 (Hi & Hc & Ho & Ht). cbv zeta. apply wp_when; intros Hn.
  - wp_steps. apply wp_free_all. constructor; [done| | |].
    + unfold counted. by rewrite received_free_all.
    + apply owned_free_all. by rewrite app_nil_r.
    + apply totals_free_all. by split.
  - apply Z.ltb_ge in Hn. destruct bufs; [|unfold zlen in Hn; simpl in Hn; lia]. done.
Qed.

(** The packet counter, for any number of bursts: every line tells how many packets had been received
    up to it, modulo 2^64, if the callback could be installed, and 0 otherwise; all are freed. *)
Theorem callback_main_correct n :
  wp (main n) (fun _ s t => owned [] t /\ rx_count s = counted (installed s) t /\ totals_ok (counted (installed s)) t)
    (fun c _ t => c = -1 /\ rx_ids t = []) (CbState 0 false) [].
Proof.
  unfold main. wp_steps; try done.
  all: match goal with |- wp _ _ _ ?s _ =>
    eapply wp_mono; [apply (wp_forever (fun _ s' t' => counting (installed s) s' t') _ (fun _ _ _ => False))| |done] end.
  all: try (intros [] s1 t1 H1; by apply callback_body_ok).
  all: try (intros [] s1 t1 [H1 H2 H3 H4]; cbn beta; by rewrite H1).
  all: constructor; try done; constructor.
Qed.
End Callback.
End Callback.

(** ** meter_dpdk/main.c *)

Module Meter.

(** The structures of rte_mtr.h and rte_flow.h, with the fields the program sets; the others are 0. *)
Inductive mtr_algorithm := RTE_MTR_NONE | RTE_MTR_TRTCM_RFC2698.
Record profile := Profile { alg : mtr_algorithm; cir : Z; pir : Z; cbs : Z; pbs : Z }.
Inductive action := ACTION_END | ACTION_DROP | ACTION_METER (mtr_id : Z).
Inductive color := GREEN | YELLOW | RED.
Definition policy : Type := color -> list action.
Record mtr_params := MtrParams { meter_profile_id : Z; meter_policy_id : Z }.
Inductive item := ITEM_END | ITEM_ETH | ITEM_IPV4.
Record flow := Flow { ingress : Z; pattern : list item; actions : list action }.

(** What the port has been told: objects by their id, and the flows. *)
Record nic := Nic {
  profiles : gmap Z profile; policies : gmap Z policy; meters : gmap Z mtr_params; flows : list flow }.
Definition nic0 : nic := Nic ∅ ∅ ∅ [].

Section Meter.
Context {E : Env}.
Notation M := (M nic).

(** A call that changes the port if it succeeds. *)
Definition configure_nic (a : api) (ok : Z -> bool) (f : nic -> nic) : M Z :=
  r <-- call a ;; when (ok r) (modify f) ;; ret r.
Definition not_negative (r : Z) : bool := negb (r <? 0).
Definition rte_mtr_meter_profile_add (id : Z) (p : profile) : M Z :=
  configure_nic (api_call "rte_mtr_meter_profile_add" [0; id]) not_negative
    (fun s => Nic (<[id := p]> (profiles s)) (policies s) (meters s) (flows s)).
Definition rte_mtr_meter_policy_add (id : Z) (p : policy) : M Z :=
  configure_nic (api_call "rte_mtr_meter_policy_add" [0; id]) not_negative
    (fun s => Nic (profiles s) (<[id := p]> (policies s)) (meters s) (flows s)).
Definition rte_mtr_create (id : Z) (p : mtr_params) (shared : Z) : M Z :=
  configure_nic (api_call "rte_mtr_create" [0; id; shared]) not_negative
    (fun s => Nic (profiles s) (policies s) (<[id := p]> (meters s)) (flows s)).
(** A pointer to the flow, or NULL. *)
Definition rte_flow_create (f : flow) : M Z :=
  configure_nic (api_call "rte_flow_create" [0]) (fun r => negb (r =? 0))
    (fun s => Nic (profiles s) (policies s) (meters s) (flows s ++ [f])).

Definition the_profile : profile :=
  Profile RTE_MTR_TRTCM_RFC2698 (10 * 1000 * 1000) (20 * 1000 * 1000) (64 * 1024) (128 * 1024).
Definition green_actions : list action := [ACTION_END].
Definition yellow_actions : list action := [ACTION_END].
Definition red_actions : list action := [ACTION_DROP; ACTION_END].
Definition the_policy : policy := fun c =>
  match c with GREEN => green_actions | YELLOW => yellow_actions | RED => red_actions end.
Definition profile_id := 1.
Definition policy_id := 1.
Definition mtr_id := 1.
Definition the_flow : flow := Flow 1 [ITEM_ETH; ITEM_IPV4; ITEM_END] [ACTION_METER mtr_id; ACTION_END].

Definition port_setup : M unit :=
  r <-- call rte_eal_init ;;
  when (r <? 0) (rte_exit EXIT_FAILURE) ;;
  mp <-- call (rte_pktmbuf_pool_create "MBUF_POOL" 8192 250 0 RTE_MBUF_DEFAULT_BUF_SIZE) ;;
  when (mp =? 0) (rte_exit EXIT_FAILURE) ;;
  r <-- call (rte_eth_dev_configure 0 1 1) ;;
  when (r <? 0) (rte_exit EXIT_FAILURE) ;;
  r <-- call (rte_eth_rx_queue_setup 0 0 1024 mp) ;;
  when (r <? 0) (rte_exit EXIT_FAILURE) ;;
  r <-- call (rte_eth_tx_queue_setup 0 0 1024) ;;
  when (r <? 0) (rte_exit EXIT_FAILURE) ;;
  r <-- call (rte_eth_dev_start 0) ;;
  when (r <? 0) (rte_exit EXIT_FAILURE) ;;
  printf "Port %u started\n" [PInt 0].

Definition meter_setup : M unit :=
  r <-- rte_mtr_meter_profile_add profile_id the_profile ;;
  when (r <? 0) (rte_exit EXIT_FAILURE) ;;
  printf "Meter profile created\n" [] ;;
  r <-- rte_mtr_meter_policy_add policy_id the_policy ;;
  when (r <? 0) (rte_exit EXIT_FAILURE) ;;
  printf "Meter policy created\n" [] ;;
  r <-- rte_mtr_create mtr_id (MtrParams profile_id policy_id) 1 ;;
  when (r <? 0) (rte_exit EXIT_FAILURE) ;;
  printf "Meter instance created\n" [] ;;
  f <-- rte_flow_create the_flow ;;
  when (f =? 0) (rte_exit EXIT_FAILURE) ;;
  printf "Flow created and meter attached\n" [].

Definition loop_body (_ : unit) : M unit :=
  bufs <-- rte_eth_rx_burst 0 0 BURST_SIZE ;;
  if zlen bufs =? 0 then ret tt else free_all bufs.

Definition main (n : nat) : M unit := port_setup ;; meter_setup ;; forever n loop_body tt.

(** The actions up to the end of the list. *)
Fixpoint effective (l : list action) : list action :=
  match l with [] | ACTION_END :: _ => [] | a :: l' => a :: effective l' end.
(** The profile and the policy of the meter that the first flow attaches to received IPv4 packets. *)
Definition metered (s : nic) : option (profile * policy) :=
  match flows s with
  | [Flow 1 [ITEM_ETH; ITEM_IPV4; ITEM_END] acts] =>
      match effective acts with
      | [ACTION_METER id] =>
          m ← meters s !! id; p ← profiles s !! meter_profile_id m;
          q ← policies s !! meter_policy_id m; Some (p, q)
      | _ => None
      end
  | _ => None
  end.

(** A configuration that exits on failure. *)
Lemma wp_configure_or_exit {B} a (ok bad : Z -> bool) f (k : M B) Q (X : Z -> nic -> trace -> Prop) s t :
  (forall r, bad r = negb (ok r)) -> (forall r, X EXIT_FAILURE s (EvApi a r :: t)) -> (forall r, wp k Q X (f s) (EvApi a r :: t)) ->
  wp (r <-- configure_nic a ok f ;; when (bad r) (rte_exit EXIT_FAILURE) ;; k) Q X s t.
Proof.
  intros Hbad HX Hk. unfold configure_nic, wp, bind, call. cbv zeta. specialize (HX (env_call t a)). specialize (Hk (env_call t a)).
  destruct (ok (env_call t a)) eqn:Hr; cbn; rewrite Hbad, Hr; cbn; [exact Hk|exact HX].
Qed.

Lemma meter_body_ok s t :
  owned [] t -> wp (loop_body tt) (fun _ s' t' => s' = s /\ owned [] t') (fun _ _ _ => False) s t.
Proof.
  intros Ho. unfold loop_body. wp_step. apply wp_rx. intros bufs _ _. apply (owned_rx _ 0 0 BURST_SIZE bufs) in Ho.
  apply wp_if; intros Hz.
  - wp_steps. split; [done|]. apply Z.eqb_eq in Hz. destruct bufs; [done|]. unfold zlen in Hz. simpl in Hz. lia.
  - apply wp_free_all. split; [done|]. by apply owned_free_all.
Qed.

(** When the loop runs, the flow for received IPv4 packets refers to a meter whose profile and policy
    exist: a two-rate marker whose committed rate and burst are below the peak ones, that drops the
    red packets and no others; without all of it the program exits before it receives anything.
    Every packet that passes is freed once. *)
Theorem meter_main_correct n :
  wp (main n) (fun _ s t => owned [] t /\ exists p q, metered s = Some (p, q) /\
      alg p = RTE_MTR_TRTCM_RFC2698 /\ 0 < cir p < pir p /\ pir p < 2 ^ 31 /\ 0 < cbs p < pbs p /\
      forall c, ACTION_DROP ∈ effective (q c) <-> c = RED)
    (fun c _ t => c = EXIT_FAILURE /\ rx_ids t = []) nic0 [].
Proof.
  unfold main, port_setup. wp_steps; try done. unfold meter_setup.
  assert (forall r, (r <? 0) = negb (not_negative r)) as Hneg by (intros r'; unfold not_negative; by rewrite negb_involutive).
  do 3 (apply (wp_configure_or_exit _ not_negative); [done|done|]; intros ?; do 2 wp_step).
  apply (wp_configure_or_exit _ (fun r => negb (r =? 0))); [intros r'; by rewrite negb_involutive|done|]. intros ?. wp_step.
  eapply wp_mono; [apply (wp_forever (fun _ s' t' => s' = Nic {[profile_id := the_profile]} {[policy_id := the_policy]}
    {[mtr_id := MtrParams profile_id policy_id]} [the_flow] /\ owned [] t') _ (fun _ _ _ => False))| |done].
  - intros [] s t [-> Ho]. eapply wp_mono; [by apply meter_body_ok| |done]. intros _ s' t' [-> H']. done.
  - split; [done|]. constructor.
  - intros _ s t [-> Ho]. split; [done|]. exists the_profile, the_policy. split; [done|].
    repeat (split; [done|]). intros []; simpl; split; intros Hin; try done; [by apply not_elem_of_nil in Hin..|]. by apply list_elem_of_singleton.
Qed.
End Meter.
End Meter.
