(* ===== verification/Power.v ===== *)
(** * power_aware_polling: choosing the frequency of a core

    [Automatic] (automatic/main.c) measures the cycles between two rounds of a
    loop and scales the frequency; [Manual] (manual/main.c) walks through the
    calls of the power library. *)

From S2P Require Import Prelude Rte Env Ownership Sim.

Definition EXIT_FAILURE := 1.

Section Calls.
Context {E : Env} {St : Type}.
Notation M := (M St).
Definition power (f : string) (lcore : Z) : M Z := call (api_call f [lcore]).
Definition sleep (n : Z) : M Z := call (api_call "sleep" [n]).
(** [printf(fmt, rte_power_get_freq(lcore_id))] *)
Definition print_freq (fmt : string) (lcore : Z) : M unit :=
  i <-- power "rte_power_get_freq" lcore ;; printf fmt [PInt (u32 i)].
End Calls.

(** ** automatic/main.c *)

Module Automatic.
Definition HIGH_LOAD_THRESHOLD := 8000000.
Definition LOW_LOAD_THRESHOLD := 2000000.

Section Automatic.
Context {E : Env}.
Notation M := (M unit).

(** The body of [while (1)]; [prev_tsc] is the loop variable.  The busy loop has no effect. *)
Definition loop_body (lcore_id prev_tsc : Z) : M Z :=
  cur_tsc <-- rte_get_timer_cycles ;;
  let diff := u64 (cur_tsc - prev_tsc) in
  (if HIGH_LOAD_THRESHOLD <? diff then
     _ <-- power "rte_power_freq_max" lcore_id ;;
     print_freq "High load → increasing frequency (index %u)\n" lcore_id
   else if diff <? LOW_LOAD_THRESHOLD then
     _ <-- power "rte_power_freq_min" lcore_id ;;
     print_freq "Low load → decreasing frequency (index %u)\n" lcore_id
   else print_freq "Moderate load → keeping frequency (index %u)\n" lcore_id) ;;
  _ <-- sleep 1 ;;
  ret cur_tsc.

(** The worker on lcore 1; [None] while it is still running after [n] rounds. *)
Definition power_worker (n : nat) (lcore_id : Z) : M (option Z) :=
  printf "Worker running on lcore %u\n" [PInt lcore_id] ;;
  r <-- power "rte_power_init" lcore_id ;;
  if r <? 0 then printf "Power init failed\n" [] ;; ret (Some (-1))
  else
    prev_tsc <-- rte_get_timer_cycles ;;
    _ <-- forever n (loop_body lcore_id) prev_tsc ;;
    ret None.

(** The main lcore only launches and waits: the worker, if it was launched, is all that runs. *)
Definition main (n : nat) : M (option Z) :=
  r <-- call rte_eal_init ;;
  when (r <? 0) (rte_exit EXIT_FAILURE) ;;
  printf "Starting automatic power management demo\n" [] ;;
  l <-- call (rte_eal_remote_launch "power_worker" 1) ;;
  w <-- (if l =? 0 then power_worker n 1 else ret (Some 0)) ;;
  match w with
  | None => ret None
  | Some _ => _ <-- call rte_eal_mp_wait_lcore ;; ret (Some 0)
  end.

(** What a round must do for the cycles it measures. *)
Inductive scaling := ToMax | ToMin | Keep.
Definition decide_scaling (diff : Z) : scaling :=
  if HIGH_LOAD_THRESHOLD <? diff then ToMax else if diff <? LOW_LOAD_THRESHOLD then ToMin else Keep.

(** The rounds of a trace, oldest first: each ends with its sleep. *)
Fixpoint scalings (t : trace) : list scaling :=
  match t with
  | [] => []
  | EvPrintf f [_] :: t' =>
      scalings t' ++
      (if String.eqb f "High load → increasing frequency (index %u)\n" then [ToMax]
       else if String.eqb f "Low load → decreasing frequency (index %u)\n" then [ToMin]
       else if String.eqb f "Moderate load → keeping frequency (index %u)\n" then [Keep] else [])
  | _ :: t' => scalings t'
  end.
(** The differences of neighbouring clock readings. *)
Fixpoint gaps (vs : list Z) : list Z :=
  match vs with v :: (w :: _) as vs' => u64 (w - v) :: gaps vs' | _ => [] end.
(** The frequency is set as the line says. *)
Fixpoint calls_max_min (t : trace) : list scaling :=
  match t with
  | [] => []
  | EvApi (api_call f [_]) _ :: t' =>
      calls_max_min t' ++ (if String.eqb f "rte_power_freq_max" then [ToMax]
                           else if String.eqb f "rte_power_freq_min" then [ToMin] else [])
  | _ :: t' => calls_max_min t'
  end.
Definition acts (l : list scaling) : list scaling :=
  List.filter (fun x => match x with Keep => false | _ => true end) l.

Lemma gaps_snoc vs v w : gaps (vs ++ [v; w]) = gaps (vs ++ [v]) ++ [u64 (w - v)].
Proof.
  induction vs as [|a [|b vs] IH]; [done|done|]. change (u64 (b - a) :: gaps ((b :: vs) ++ [v; w]) = u64 (b - a) :: gaps ((b :: vs) ++ [v]) ++ [u64 (w - v)]).
  by rewrite IH.
Qed.

(** The calls of [sleep(1)] in a trace. *)
Fixpoint sleeps (t : trace) : nat :=
  match t with
  | [] => O
  | EvApi (api_call f [n]) _ :: t' => ((if String.eqb f "sleep" && (n =? 1)%Z then 1 else 0) + sleeps t')%nat
  | _ :: t' => sleeps t'
  end.
(** The time stamp counter runs at more than 8 MHz: a second of sleep is more than the high threshold. *)
Definition fast_clock : Prop := forall ls t,
  sleeps ls = 1%nat -> HIGH_LOAD_THRESHOLD < u64 (env_cycles (ls ++ EvCycles (env_cycles t) :: t) - env_cycles t).

(** After a number of rounds; [prev] is the last reading, and unless it is the first the worker has
    slept once since. *)
Record scaled (prev : Z) (t : trace) : Prop := {
  s_last : exists vs, readings t = vs ++ [prev];
  s_lines : scalings t = map decide_scaling (gaps (readings t));
  s_calls : calls_max_min t = acts (scalings t);
  s_since : exists ls t0, t = ls ++ EvCycles prev :: t0 /\ prev = env_cycles t0 /\
    (scalings t <> [] -> sleeps ls = 1%nat);
  s_high : fast_clock -> Forall (fun x => x = ToMax) (drop 1 (scalings t)) }.

Lemma scaled_round prev t ls :
  let cur := env_cycles t in
  let t' := ls ++ EvCycles cur :: t in
  let d := decide_scaling (u64 (cur - prev)) in
  scaled prev t -> readings t' = readings t ++ [cur] -> scalings t' = scalings t ++ [d] ->
  calls_max_min t' = calls_max_min t ++ acts [d] -> sleeps ls = 1%nat -> scaled cur t'.
Proof.
  cbv zeta. intros [[vs Hv] Hl Hc (ls0 & t0 & Ht & Hp & Hs) Hh] R S C N.
  assert (readings (ls ++ EvCycles (env_cycles t) :: t) = vs ++ [prev; env_cycles t]) as R' by (by rewrite R, Hv, <- app_assoc).
  constructor.
  - exists (vs ++ [prev]). by rewrite R', <- app_assoc.
  - rewrite R', gaps_snoc, S, Hl, Hv, map_app. done.
  - rewrite C, S, Hc. unfold acts. by rewrite List.filter_app.
  - exists ls, t. done.
  - intros Hf. rewrite S. destruct (decide (scalings t = [])) as [->|Hne]; [constructor|].
    rewrite drop_app_le by (destruct (scalings t); [done|simpl; lia]). apply Forall_app. split; [by apply Hh|].
    constructor; [|constructor]. specialize (Hf ls0 t0 (Hs Hne)). rewrite <- Hp in Hf. rewrite <- Ht in Hf.
    unfold decide_scaling. apply Z.ltb_lt in Hf. by rewrite Hf.
Qed.

Lemma power_body_ok prev s t :
  scaled prev t -> wp (loop_body 1 prev) (fun cur _ t' => scaled cur t') (fun _ _ _ => False) s t.
Proof.
  intros Hs. unfold loop_body, print_freq, power, sleep. wp_step. unfold wp at 1, rte_get_timer_cycles. cbv zeta.
  set (diff := u64 (env_cycles t - prev)). fold (decide_scaling diff).
  assert (forall ls, readings (ls ++ EvCycles (env_cycles t) :: t) = readings t ++ [env_cycles t] ->
    scalings (ls ++ EvCycles (env_cycles t) :: t) = scalings t ++ [decide_scaling diff] ->
    calls_max_min (ls ++ EvCycles (env_cycles t) :: t) = calls_max_min t ++ acts [decide_scaling diff] ->
    sleeps ls = 1%nat -> scaled (env_cycles t) (ls ++ EvCycles (env_cycles t) :: t)) as H
    by (intros ls; by apply scaled_round).
  unfold decide_scaling in H. destruct (HIGH_LOAD_THRESHOLD <? diff); [|destruct (diff <? LOW_LOAD_THRESHOLD)]; wp_steps.
  - apply (H [_; _; _; _]); simpl; by rewrite ?app_nil_r.
  - apply (H [_; _; _; _]); simpl; by rewrite ?app_nil_r.
  - apply (H [_; _; _]); simpl; by rewrite ?app_nil_r.
Qed.

Definition measured (t : trace) : Prop :=
  scalings t = map decide_scaling (gaps (readings t)) /\ calls_max_min t = acts (scalings t) /\
  (fast_clock -> Forall (fun x => x = ToMax) (drop 1 (scalings t))).

Lemma power_worker_ok n s t :
  readings t = [] -> scalings t = [] -> calls_max_min t = [] ->
  wp (power_worker n 1) (fun _ _ t' => measured t') (fun _ _ _ => False) s t.
Proof.
  intros R S C. unfold power_worker, power. do 2 wp_step. do 2 wp_step. apply wp_if; intros _.
  - wp_steps. unfold measured. simpl. by rewrite R, S, C, !app_nil_r.
  - wp_step. unfold wp at 1, rte_get_timer_cycles. wp_step.
    match goal with |- wp _ _ _ _ (EvCycles _ :: ?t0) => set (t1 := t0) end.
    eapply wp_mono; [apply (wp_forever (fun prev _ t => scaled prev t) _ (fun _ _ _ => False))| |done].
    + intros prev s' t' Hs. by apply power_body_ok.
    + constructor; simpl; rewrite ?R, ?S, ?C; try done; [by exists []|]. exists [], t1. done.
    + intros prev s' t' []. by wp_steps.
Qed.

(** C38: The power worker scales by what it measures: each round compares the cycles since the round
    before with the thresholds, and sets the frequency and prints accordingly.  But the second that
    it sleeps is part of what it measures: with a clock above 8 MHz every round but the first sees a
    high load, whatever the load is, and asks for the maximum. *)
Theorem automatic_always_high n :
  fast_clock ->
  wp (main n) (fun r _ t => scalings t = map decide_scaling (gaps (readings t)) /\
      calls_max_min t = acts (scalings t) /\ Forall (fun x => x = ToMax) (drop 1 (scalings t)))
    (fun c _ t => c = EXIT_FAILURE /\ readings t = []) tt [].
Proof.
  intros Hf. unfold main. wp_steps; try done.
  eapply wp_mono; [by apply power_worker_ok| |done]. intros w s t (H1 & H2 & H3). destruct w; wp_steps; auto.
Qed.
End Automatic.

Definition clock_env : Env := sim_env (Script (fun a => match a with rte_eal_remote_launch _ _ => 0 | _ => 1 end)
  [] 0 (fun t => 2000000000 * Z.of_nat (sleeps t)) true None 1000).

Lemma clock_env_fast : @fast_clock clock_env.
Proof.
  intros ls t Hs. simpl. assert (forall l1 l2, sleeps (l1 ++ l2) = (sleeps l1 + sleeps l2)%nat) as Happ.
  { intros l1 l2. induction l1 as [|e l1 IH]; [done|]. simpl. destruct e as [[]| | | | | | | | | | | | | | |]; try done.
    destruct args as [|a [|]]; try done. rewrite IH. lia. }
  rewrite Happ, Hs. unfold u64. simpl sleeps. rewrite <- Zminus_mod.
  replace (2000000000 * Z.of_nat (1 + sleeps t) - 2000000000 * Z.of_nat (sleeps t)) with 2000000000 by lia. done.
Qed.

Lemma automatic_always_high_witness :
  @wp _ _ (@main clock_env 3) (fun r _ t => scalings t = map decide_scaling (gaps (readings t)) /\
      calls_max_min t = acts (scalings t) /\ Forall (fun x => x = ToMax) (drop 1 (scalings t)))
    (fun c _ t => c = EXIT_FAILURE /\ readings t = []) tt [] /\
  match @main clock_env 3 tt [] with Done _ _ t => scalings t = [ToMin; ToMax; ToMax] | _ => False end.
Proof. split; [apply automatic_always_high, clock_env_fast|by vm_compute]. Defined.
End Automatic.

(** ** manual/main.c *)

Module Manual.
Section Manual.
Context {E : Env}.
Notation M := (M unit).

(** The worker lcores; after [RTE_LCORE_FOREACH_WORKER] has found none, its variable is [RTE_MAX_LCORE]. *)
Variables (workers : list Z) (RTE_MAX_LCORE : Z).
Definition first_worker : Z := default RTE_MAX_LCORE (head workers).

Definition FREQ : string := "Current CPU frequency index: %u\n".
(** Three times up, or down. *)
Definition three_steps (f : string) (lcore_id : Z) : M unit :=
  for_ 3 0 (fun _ _ => _ <-- power f lcore_id ;; print_freq FREQ lcore_id ;; _ <-- sleep 1 ;; ret tt) tt.

Definition main : M Z :=
  r <-- call rte_eal_init ;;
  when (r <? 0) (rte_exit EXIT_FAILURE) ;;
  let lcore_id := first_worker in
  printf "Using worker lcore %u\n" [PInt lcore_id] ;;
  r <-- power "rte_power_init" lcore_id ;;
  when (r <? 0) (rte_exit EXIT_FAILURE) ;;
  printf "Power management initialized\n" [] ;;
  print_freq FREQ lcore_id ;;
  printf "Increasing CPU frequency\n" [] ;;
  three_steps "rte_power_freq_up" lcore_id ;;
  printf "Decreasing CPU frequency\n" [] ;;
  three_steps "rte_power_freq_down" lcore_id ;;
  printf "Setting MAX frequency\n" [] ;;
  _ <-- power "rte_power_freq_max" lcore_id ;;
  print_freq FREQ lcore_id ;;
  _ <-- sleep 2 ;;
  printf "Setting MIN frequency\n" [] ;;
  _ <-- power "rte_power_freq_min" lcore_id ;;
  print_freq FREQ lcore_id ;;
  _ <-- sleep 2 ;;
  _ <-- power "rte_power_exit" lcore_id ;;
  printf "Power management exited\n" [] ;;
  ret 0.

(** The calls of the power library on a core, oldest first, and the frequencies that were printed. *)
Fixpoint power_calls (t : trace) : list (string * Z) :=
  match t with
  | [] => []
  | EvApi (api_call f [l]) _ :: t' =>
      power_calls t' ++ (if String.eqb f "sleep" || String.eqb f "rte_power_get_freq" then [] else [(f, l)])
  | _ :: t' => power_calls t'
  end.
Fixpoint freqs_read (t : trace) : list Z :=
  match t with
  | [] => []
  | EvApi (api_call f [_]) r :: t' => freqs_read t' ++ (if String.eqb f "rte_power_get_freq" then [u32 r] else [])
  | _ :: t' => freqs_read t'
  end.
Fixpoint freqs_printed (t : trace) : list Z :=
  match t with
  | [] => []
  | EvPrintf f [PInt i] :: t' => freqs_printed t' ++ (if String.eqb f FREQ then [i] else [])
  | _ :: t' => freqs_printed t'
  end.

(** The demonstration on one core, in order; it prints every frequency it reads, nine in all; the core
    is released at the end.  A failed [rte_power_init] ends it before anything is changed. *)
Theorem manual_main_correct :
  wp main (fun r _ t => r = 0 /\ freqs_printed t = freqs_read t /\ length (freqs_read t) = 9%nat /\
      power_calls t = map (fun f => (f, first_worker))
        ["rte_power_init"; "rte_power_freq_up"; "rte_power_freq_up"; "rte_power_freq_up"; "rte_power_freq_down";
         "rte_power_freq_down"; "rte_power_freq_down"; "rte_power_freq_max"; "rte_power_freq_min"; "rte_power_exit"]%string)
    (fun c _ t => c = EXIT_FAILURE /\ freqs_read t = [] /\
      forall f l, (f, l) ∈ power_calls t -> f = "rte_power_init"%string) tt [].
Proof.
  unfold main, three_steps, print_freq, power, sleep. cbn [for_]. wp_steps; simpl; split_and!; try done.
  - by intros f l ?%not_elem_of_nil.
  - by intros f l [= -> _]%list_elem_of_singleton.
Qed.
End Manual.
End Manual.
