(* ===== verification/Telemetry.v ===== *)
(** * telementry: counters that other threads read

    advanced_stats/main.c: every worker lcore counts its loops in a slot of its
    own and in a variable they all share; two telemetry commands, which run in a
    thread of the library, report them.  A step of a thread is one access to what
    others see.  sample/main.c: a command with fixed contents. *)

From S2P Require Import Prelude Rte Env Threads Sim.

Definition EXIT_FAILURE := 1.

(** The values of a [struct rte_tel_data]. *)
Inductive tel_value := TelString (v : string) | TelInt (v : Z).
Definition tel_dict : Type := list (string * tel_value).

Section Advanced.
Context {E : Env}.

(** [g_lcore_stats], where absent slots are 0, and [g_total_loops]. *)
Record stats := Stats { loops : Z -> Z; g_total_loops : Z }.
Definition stats0 : stats := Stats (fun _ => 0) 0.
Notation M := (M stats).

Definition set_loops (id v : Z) (s : stats) : stats :=
  Stats (fun k => if k =? id then v else loops s k) (g_total_loops s).
Definition set_total (v : Z) (s : stats) : stats := Stats (loops s) v.

(** A worker in [worker_loop], with the value it has read of [g_total_loops]; or
    the array command, with the lcores it has reported and those it
    has not, and the values so far. *)
Inductive thread :=
| WCount (lcore_id : Z)
| WLoad (lcore_id : Z)
| WStore (lcore_id v : Z)
| TStats (reported todo : list Z) (out : list Z).

Definition thread_body (th : thread) : M thread :=
  match th with
  | WCount id => v <-- gets (fun s => loops s id) ;; modify (set_loops id (u64 (v + 1))) ;; ret (WLoad id)
  | WLoad id => v <-- gets g_total_loops ;; ret (WStore id v)
  | WStore id v =>
      modify (set_total (u64 (v + 1))) ;;
      _ <-- call (api_call "rte_delay_us_block" [1000]) ;;
      ret (WCount id)
  | TStats reported [] out => ret (TStats reported [] out)
  | TStats reported (id :: todo) out =>
      v <-- gets (fun s => loops s id) ;; ret (TStats (reported ++ [id]) todo (out ++ [v]))
  end.

(** [adv_lcore_stats_handler] starts with all lcores to do. *)
Definition adv_lcore_stats_handler (lcores : list Z) : thread := TStats [] lcores [].

Definition adv_summary_handler (g_start_tsc hz lcore_count : Z) : M tel_dict :=
  now <-- rte_get_timer_cycles ;;
  let uptime_sec := if hz =? 0 then 0 else u64 (now - g_start_tsc) / hz in
  total <-- gets g_total_loops ;;
  ret [("app", TelString "advanced-telemetry"); ("uptime_sec", TelInt uptime_sec);
       ("lcore_count", TelInt lcore_count); ("total_loops", TelInt total)]%string.

Fixpoint launch (workers : list Z) : M (list thread) :=
  match workers with
  | [] => ret []
  | w :: ws =>
      r <-- call (rte_eal_remote_launch "worker_loop" w) ;;
      ths <-- launch ws ;;
      ret (if r =? 0 then WCount w :: ths else ths)
  end.

(** While the main lcore sleeps; [commands] are the threads of the library that serve array commands. *)
Definition main (workers : list Z) (commands : list thread) (sched : list nat) : M (list thread) :=
  r <-- call rte_eal_init ;;
  when (r <? 0) (rte_exit EXIT_FAILURE) ;;
  printf "EAL initialized (advanced_stats)\n" [] ;;
  g_start_tsc <-- rte_get_timer_cycles ;;
  ths <-- launch workers ;;
  _ <-- call (api_call "sleep" [1]) ;;
  r <-- call (api_call "rte_telemetry_register_cmd" [0]) ;;
  printf "Register /adv/summary -> %d\n" [PInt r] ;;
  r <-- call (api_call "rte_telemetry_register_cmd" [1]) ;;
  printf "Register /adv/lcore_stats -> %d\n" [PInt r] ;;
  pid <-- call (api_call "getpid" []) ;;
  printf "PID %d running advanced_stats...\n" [PInt pid] ;;
  printf "Use dpdk-telemetry.py or adv_client.py to query /adv/summary and /adv/lcore_stats\n" [] ;;
  run_threads thread_body sched (ths ++ commands).

(** ** What the counters tell *)

(** The lcore of a thread; the loops it has finished, of those counted in its slot. *)
Definition worker (th : thread) : list Z :=
  match th with WCount id | WLoad id | WStore id _ => [id] | TStats _ _ _ => [] end.
Definition finished (s : stats) (th : thread) : Z :=
  match th with WCount id => loops s id | WLoad id | WStore id _ => loops s id - 1 | TStats _ _ _ => 0 end.
Definition sum (f : thread -> Z) (ths : list thread) : Z := foldr (fun th n => f th + n) 0 ths.
Definition counted (s : stats) (th : thread) : Z := foldr (fun id n => loops s id + n) 0 (worker th).

Lemma sum_app f l l' : sum f (l ++ l') = sum f l + sum f l'.
Proof. induction l as [|x l IH]; simpl; [done|]. rewrite IH. lia. Qed.
Lemma sum_ext f g l : (forall th, th ∈ l -> f th = g th) -> sum f l = sum g l.
Proof.
  intros H. induction l as [|x l IH]; simpl; [done|]. rewrite (H x) by (by left). f_equal. apply IH.
  intros th Hth. apply H. by right.
Qed.
Lemma sum_le f g l : (forall th, th ∈ l -> f th <= g th) -> sum f l <= sum g l.
Proof.
  intros H. induction l as [|x l IH]; simpl; [done|]. specialize (H x ltac:(by left)) as Hx.
  assert (sum f l <= sum g l); [|lia]. apply IH. intros th Hth. apply H. by right.
Qed.

(** Every value that was read or reported was right at some time before. *)
Definition honest (s : stats) (th : thread) (bound : Z) : Prop :=
  match th with
  | WCount id => 0 <= loops s id
  | WLoad id => 1 <= loops s id
  | WStore id v => 1 <= loops s id /\ 0 <= v <= bound
  | TStats reported _ out => Forall2 (fun id v => 0 <= v <= loops s id) reported out
  end.

(** [n] more steps cannot make a counter wrap around. *)
Record counting (n : nat) (ths : list thread) (s : stats) (t : trace) : Prop := {
  k_distinct : NoDup (concat (map worker ths));
  k_total : 0 <= g_total_loops s <= sum (finished s) ths;
  k_honest th : th ∈ ths -> honest s th (sum (finished s) ths);
  k_slots id : 0 <= loops s id;
  k_room : sum (counted s) ths + Z.of_nat n < 2 ^ 64;
  k_exact : (length (concat (map worker ths)) <= 1)%nat ->
    g_total_loops s = sum (finished s) ths /\ forall id v, WStore id v ∈ ths -> v = g_total_loops s }.

Lemma sum_middle f pre th post : sum f (pre ++ th :: post) = f th + (sum f pre + sum f post).
Proof. rewrite sum_app. simpl. lia. Qed.

Lemma counted_nonneg s th : (forall id, 0 <= loops s id) -> 0 <= counted s th.
Proof. intros H. destruct th as [id|id|id v|rep todo out]; unfold counted; simpl; try specialize (H id); lia. Qed.
Lemma sum_nonneg f l : (forall th, th ∈ l -> 0 <= f th) -> 0 <= sum f l.
Proof.
  intros H. etransitivity; [|apply (sum_le (fun _ => 0)), H]. clear. induction l; simpl; lia.
Qed.
Lemma finished_counted s th : finished s th <= counted s th.
Proof. destruct th; unfold counted; simpl; lia. Qed.

(** A step of a worker on its own slot does not touch the other threads. *)
Lemma worker_apart pre th post id :
  NoDup (concat (map worker (pre ++ th :: post))) -> worker th = [id] ->
  forall th', th' ∈ pre ++ post -> id ∉ worker th'.
Proof.
  intros Hn Hw th' Hin Hid. rewrite map_app, concat_app in Hn. simpl in Hn. rewrite Hw in Hn.
  apply NoDup_app in Hn as (_ & H1 & H2). apply NoDup_app in H2 as (_ & H2 & _).
  assert (forall l, th' ∈ l -> id ∈ concat (map worker l)) as Hc.
  { intros l Hl. apply list_elem_of_In, in_concat. exists (worker th'). split; [apply in_map|]; by apply list_elem_of_In. }
  apply elem_of_app in Hin as [Hin|Hin].
  - apply (H1 id); [by apply Hc|]. by left.
  - apply (H2 id); [by left|by apply Hc].
Qed.

Lemma apart_slot f id v s th : id ∉ worker th ->
  (forall s s', (forall k, k ∈ worker th -> loops s' k = loops s k) -> f s' th = f s th :> Z) ->
  f (set_loops id v s) th = f s th.
Proof.
  intros Hid Hf. apply Hf. intros k Hk. simpl. destruct (Z.eqb_spec k id) as [->|]; done.
Qed.
Lemma finished_slot th s s' : (forall k, k ∈ worker th -> loops s' k = loops s k) -> finished s' th = finished s th.
Proof. intros H. destruct th as [id|id|id v|rep todo out]; simpl; rewrite ?H by (by left); done. Qed.
Lemma counted_slot th s s' : (forall k, k ∈ worker th -> loops s' k = loops s k) -> counted s' th = counted s th.
Proof. intros H. unfold counted. destruct th as [id|id|id v|rep todo out]; simpl; rewrite ?H by (by left); done. Qed.

Lemma honest_mono s s' th b b' :
  (forall k, loops s k <= loops s' k) -> b <= b' -> honest s th b -> honest s' th b'.
Proof.
  intros Hl Hb. destruct th as [id|id|id v|rep todo out]; simpl; try specialize (Hl id); try lia.
  intros H. eapply Forall2_impl; [exact H|]. intros k v Hv. simpl in Hv. specialize (Hl k). lia.
Qed.

(** What a step must keep. *)
Lemma counting_step n pre th th' post s s' t t' :
  counting (S n) (pre ++ th :: post) s t -> worker th' = worker th ->
  (forall x, x ∈ pre ++ post -> finished s' x = finished s x /\ counted s' x = counted s x) ->
  (forall id, loops s id <= loops s' id) ->
  0 <= g_total_loops s' <= finished s' th' + (sum (finished s) pre + sum (finished s) post) ->
  finished s th <= finished s' th' ->
  honest s' th' (finished s' th' + (sum (finished s) pre + sum (finished s) post)) ->
  counted s' th' <= counted s th + 1 ->
  (g_total_loops s = finished s th + (sum (finished s) pre + sum (finished s) post) ->
   (forall id v, th = WStore id v -> v = g_total_loops s) ->
   g_total_loops s' = finished s' th' + (sum (finished s) pre + sum (finished s) post) /\
   (forall id v, th' = WStore id v -> v = g_total_loops s') /\
   (g_total_loops s' = g_total_loops s \/ worker th <> [])) ->
  counting n (pre ++ th' :: post) s' t'.
Proof.
  intros [Hd Ht Hh Hs Hr Hexact] Hw Ho Hl Ht' Hf Hh' Hc Hx'.
  assert (forall l, (forall x, x ∈ l -> x ∈ pre ++ post) -> sum (finished s') l = sum (finished s) l /\ sum (counted s') l = sum (counted s) l) as Hsum.
  { intros l Hin. split; apply sum_ext; intros x Hx; by apply Ho, Hin. }
  destruct (Hsum pre) as [Fp Cp]; [intros x; rewrite elem_of_app; by left|].
  destruct (Hsum post) as [Fq Cq]; [intros x; rewrite elem_of_app; by right|].
  rewrite !sum_middle in *. constructor; rewrite ?sum_middle, ?Fp, ?Fq, ?Cp, ?Cq; [|done| | |lia|].
  - rewrite map_app in *. simpl in *. by rewrite Hw.
  - intros x [Hx|[->|Hx]%elem_of_cons]%elem_of_app; [|done|]; (eapply (honest_mono s); [done| |apply Hh]; [lia|]);
      rewrite elem_of_app, elem_of_cons; auto.
  - intros id. specialize (Hs id). specialize (Hl id). lia.
  - intros H1.
    assert (concat (map worker (pre ++ th' :: post)) = concat (map worker (pre ++ th :: post))) as Ew
      by (rewrite !map_app; simpl; by rewrite Hw).
    rewrite Ew in H1. destruct (Hexact H1) as [X1 X2].
    destruct Hx' as (Y1 & Y2 & Y3); [done|intros id v ->; apply X2 with id, elem_of_app; right; by left|].
    split; [done|]. intros id v Hin. apply elem_of_app in Hin as [Hin|[<-|Hin]%elem_of_cons]; [|by eapply Y2|].
    all: destruct Y3 as [->|Y3]; [apply X2 with id, elem_of_app; rewrite ?elem_of_cons; auto|exfalso].
    all: apply list_elem_of_split in Hin as (l1 & l2 & ->); rewrite !map_app, !concat_app in H1; simpl in H1;
      rewrite ?map_app, ?concat_app in H1; simpl in H1; rewrite !length_app in H1; simpl in H1;
      rewrite ?length_app in H1; simpl in H1; destruct (worker th); [done|simpl in H1; lia].
Qed.

Lemma thread_body_ok n pre th post s t :
  counting (S n) (pre ++ th :: post) s t ->
  wp (thread_body th) (fun th' s' t' => worker th' = worker th /\ counting n (pre ++ th' :: post) s' t') (fun _ _ _ => False) s t.
Proof.
  intros HI. pose proof HI as [Hd Ht Hh Hs Hr _].
  assert (th ∈ pre ++ th :: post) as Hin by (apply elem_of_app; right; by left).
  assert (0 <= sum (counted s) pre + sum (counted s) post) as Hrest.
  { rewrite <- sum_app. apply sum_nonneg. intros x _. by apply counted_nonneg. }
  assert (sum (finished s) (pre ++ th :: post) <= sum (counted s) (pre ++ th :: post)) as Hfc
    by (apply sum_le; intros; apply finished_counted).
  pose proof (Hh _ Hin) as Hth. rewrite !sum_middle in *.
  destruct th as [id|id|id v|rep [|id todo] out]; unfold thread_body; cbn [honest finished] in *; wp_steps; (split; [done|]).
  - change (counted s (WCount id)) with (loops s id + 0) in Hr. rewrite u64_small by words.
    pose proof (worker_apart _ _ _ id Hd eq_refl) as Hap.
    eapply counting_step; [exact HI|done| | | | | | |]; simpl; rewrite ?Z.eqb_refl; try lia.
    + intros x Hx. split; apply apart_slot; auto using finished_slot, counted_slot.
    + intros k. destruct (Z.eqb_spec k id) as [->|]; lia.
    + unfold counted. simpl. rewrite Z.eqb_refl. lia.
    + intros Hg _. split; [lia|]. split; [done|by left].
  - eapply counting_step; [exact HI|done|done|done| | | | |]; unfold counted; simpl; try lia.
    intros Hg _. split; [lia|]. split; [by intros ? ? [= _ ->]|by left].
  - rewrite u64_small by words.
    eapply counting_step; [exact HI|done|done|done| | | | |]; simpl; try lia; [unfold counted; simpl; lia|].
    intros Hg Hv. rewrite (Hv id v eq_refl) in *. split; [lia|]. split; [done|by right].
  - eapply counting_step; [exact HI|done|done|done| | | | |]; unfold counted; simpl; try lia; [done|].
    intros Hg _. split; [lia|]. split; [done|by left].
  - eapply counting_step; [exact HI|done|done|done| | | | |]; simpl; try lia; [|unfold counted; simpl; lia|].
    + apply Forall2_app; [done|]. constructor; [|done]. specialize (Hs id). lia.
    + intros Hg _. split; [lia|]. split; [done|by left].
Qed.

Lemma launch_ok ws s t :
  wp (launch ws) (fun ths s' t' => s' = s /\ concat (map worker ths) `sublist_of` ws /\
    forall th, th ∈ ths -> exists id, th = WCount id) (fun _ _ _ => False) s t.
Proof.
  revert t. induction ws as [|w ws IH]; intros t; cbn [launch]; wp_steps.
  - split_and!; [done|constructor|]. by intros th ?%not_elem_of_nil.
  - eapply wp_mono; [apply IH| |done]. intros ths s' t' (-> & Hs & Hc). wp_steps. split; [done|].
    destruct (r =? 0); [|split; [by apply sublist_cons|done]].
    split; [simpl; by apply sublist_skip|]. intros th [->|Hth]%elem_of_cons; [by eexists|by apply Hc].
Qed.

(** The numbers of the array command, which the lcores have reached. *)
Definition reply_ok (s : stats) (th : thread) : Prop :=
  match th with TStats reported _ out => Forall2 (fun id v => 0 <= v <= loops s id) reported out | _ => True end.

(** C39: The statistics, for every interleaving of the workers and the array commands that is too short for
    a 64-bit counter to wrap around: an array command reports for each lcore a number of loops it had
    reached; [g_total_loops] is never above the number of loops, and if there is one worker it is the
    number of loops that are finished.  With more workers it may lose updates. *)
Theorem advanced_main_correct workers commands sched :
  NoDup workers -> Forall (fun c => exists lcores, c = adv_lcore_stats_handler lcores) commands ->
  Z.of_nat (length sched) < 2 ^ 64 ->
  wp (main workers commands sched) (fun ths s _ => 0 <= g_total_loops s <= sum (counted s) ths /\
      Forall (reply_ok s) ths /\
      (length workers = 1%nat -> g_total_loops s = sum (finished s) ths))
    (fun c _ _ => c = EXIT_FAILURE) stats0 [].
Proof.
  intros Hw Hc Hn. unfold main. wp_steps; [done|].
  eapply wp_mono; [apply launch_ok| |done]. intros ths s t (-> & Hsub & Hth). wp_steps.
  assert (forall c, c ∈ commands -> worker c = []) as Hcw.
  { intros c Hin. rewrite Forall_forall in Hc. by destruct (Hc c Hin) as [l ->]. }
  assert (concat (map worker commands) = []) as Hcn.
  { clear -Hcw. induction commands as [|c cs IH]; [done|]. simpl. rewrite Hcw by (by left). apply IH.
    intros c' Hin. apply Hcw. by right. }
  assert (concat (map worker (ths ++ commands)) `sublist_of` workers) as Hsub'.
  { by rewrite map_app, concat_app, Hcn, app_nil_r. }
  assert (forall th, th ∈ ths ++ commands -> finished stats0 th = 0 /\ counted stats0 th = 0 /\
    (exists id, th = WCount id) \/ finished stats0 th = 0 /\ counted stats0 th = 0 /\ exists l, th = TStats [] l []) as Hnew.
  { intros th [Hin|Hin]%elem_of_app; [destruct (Hth th Hin) as [id ->]; left; by eauto|].
    rewrite Forall_forall in Hc. destruct (Hc th Hin) as [l ->]. right. by eauto. }
  assert (sum (finished stats0) (ths ++ commands) = 0 /\ sum (counted stats0) (ths ++ commands) = 0) as [F0 C0].
  { assert (sum (fun _ => 0) (ths ++ commands) = 0) as Hz by (clear; induction (ths ++ commands); simpl; auto).
    rewrite <- Hz at 2. split; [rewrite <- Hz|]; apply sum_ext; intros th Hin;
      destruct (Hnew th Hin) as [(?&?&?)|(?&?&?)]; lia. }
  eapply wp_mono; [apply (wp_run_threads_n thread_body (fun n ps s t => counting n ps s t /\
    concat (map worker ps) `sublist_of` workers) (fun _ _ _ => False))| |done].
  - intros n pre th post s' t' [K Hps]. eapply wp_mono; [by apply thread_body_ok| |done].
    intros th' s2 t2 [Ew K2]. split; [done|]. rewrite !map_app in *. simpl in *. by rewrite Ew.
  - intros n ps s' t' [[D T Ho S R X] Hps]. split; [constructor; try done; lia|done].
  - split; [|done]. constructor; rewrite ?F0, ?C0.
    + by eapply sublist_NoDup.
    + simpl. lia.
    + intros th Hin. destruct (Hnew th Hin) as [(_ & _ & id & ->)|(_ & _ & l & ->)]; simpl; [lia|constructor].
    + done.
    + lia.
    + intros _. split; [done|]. intros id v0 Hin. by destruct (Hnew _ Hin) as [(_ & _ & ? & ?)|(_ & _ & ? & ?)].
  - intros ps s' t' [[D T Ho S R X] Hps]. cbn beta.
    assert (sum (finished s') ps <= sum (counted s') ps) by (apply sum_le; intros; apply finished_counted).
    split; [lia|]. split.
    + apply Forall_forall. intros th Hin. specialize (Ho th Hin). by destruct th.
    + intros Hone. apply X. apply sublist_length in Hps. lia.
Qed.

(** The summary: the whole seconds since the start, and the loops of the moment. *)
Theorem adv_summary_correct start hz count s t :
  0 <= start <= env_cycles t -> 0 < hz ->
  wp (adv_summary_handler start hz count) (fun d s' _ => s' = s /\ exists up,
      d = [("app", TelString "advanced-telemetry"); ("uptime_sec", TelInt up); ("lcore_count", TelInt count);
           ("total_loops", TelInt (g_total_loops s))]%string /\
      up * hz <= env_cycles t - start < (up + 1) * hz) (fun _ _ _ => False) s t.
Proof.
  intros Hs Hhz. unfold adv_summary_handler. wp_step. unfold wp at 1, rte_get_timer_cycles. wp_steps.
  pose proof (env_cycles_u64 t) as Hu. split; [done|]. destruct (Z.eqb_spec hz 0); [lia|].
  rewrite u64_small by words. eexists. split; [done|].
  pose proof (Z.div_mod (env_cycles t - start) hz). pose proof (Z.mod_pos_bound (env_cycles t - start) hz). lia.
Qed.
End Advanced.

(** ** sample/main.c *)

Section Sample.
Context {E : Env}.
Notation M := (M unit).

Definition or_null (o : option string) : parg := PStr (default "(null)"%string o).

Definition QUOTE : string := String (Ascii.ascii_of_nat 34) EmptyString.
(** [d]: whether the library passes a place for the answer. *)
Definition app_stats_handler (lcore_count main_lcore : Z) (cmd params : option string) (d : bool) : M (Z * tel_dict) :=
  printf ">>> app_stats_handler CALLED <<<\n" [] ;;
  printf ">>> cmd: %s, params: %s\n" [or_null cmd; or_null params] ;;
  if negb d then printf ">>> ERROR: d is NULL!\n" [] ;; ret (-1, [])
  else
    printf ">>> Handler returning 0 (success)\n" [] ;;
    ret (0, [("app", TelString "minimal-telemetry"); ("lcore_count", TelInt lcore_count);
             ("main_lcore", TelInt main_lcore)]%string).

Definition sample_main (n : nat) : M unit :=
  r <-- call rte_eal_init ;;
  when (r <? 0) (rte_exit EXIT_FAILURE) ;;
  printf "EAL initialized\n" [] ;;
  _ <-- call (api_call "sleep" [1]) ;;
  r <-- call (api_call "rte_telemetry_register_cmd" [0]) ;;
  printf "Telemetry register returned: %d\n" [PInt r] ;;
  (if r <? 0 then printf "Telemetry register FAILED: %d\n" [PInt r]
   else printf "Telemetry register OK: /harsh_stats\n" []) ;;
  printf ("\nTry running: python3 telementry.py (with cmd = " ++ QUOTE ++ "/" ++ QUOTE ++ ")\n")%string [] ;;
  printf "to see if /harsh_stats appears in the command list\n\n" [] ;;
  pid <-- call (api_call "getpid" []) ;;
  printf "PID %d running...\n" [PInt pid] ;;
  forever n (fun _ => _ <-- call (api_call "sleep" [1]) ;; ret tt) tt.
End Sample.

(** ** Witnesses *)

#[local] Instance wenv : Env := sim_env (Script (fun _ => 0) [] 0 (fun _ => 5) true None 1000).

(** Two workers; the first reads the total and stores it after the second has counted three loops: of four
    finished loops one is left, fewer than the slot of the second worker shows. *)
Definition lost_schedule : list nat := [0; 0; 1; 1; 1; 1; 1; 1; 1; 1; 1; 0; 2; 2]%nat.
Example lost_updates :
  match main [1; 2] [adv_lcore_stats_handler [1; 2]] lost_schedule stats0 [] with
  | Done ths s _ => g_total_loops s = 1 /\ ths = [WCount 1; WCount 2; TStats [1; 2] [] [1; 3]]
  | _ => False
  end.
Proof. by vm_compute. Qed.

Lemma advanced_main_correct_witness :
  wp (main [1] [adv_lcore_stats_handler [0; 1]] [0; 0; 0; 0; 1]%nat) (fun ths s _ =>
      0 <= g_total_loops s <= sum (counted s) ths /\ Forall (reply_ok s) ths /\
      (length [1] = 1%nat -> g_total_loops s = sum (finished s) ths))
    (fun c _ _ => c = EXIT_FAILURE) stats0 [].
Proof.
  apply advanced_main_correct; [apply NoDup_singleton| |done]. constructor; [by eexists|constructor].
Defined.
