(* ===== verification/GraphSched.v ===== *)
(** * rte_graph: which nodes wait to run

    [RteGraph] leaves open what happens when no objects are enqueued.  The small
    graph programs depend on it: a node to which something was enqueued, even
    nothing, waits until the walk has run it.  [RteSched] is the library with the
    set of the waiting nodes; the order in which they run stays open. *)

From S2P Require Import Prelude Rte Env RteGraph.

Class RteSched (node obj : Type) := {
  sgraph : Type;
  sgraph_new : sgraph;
  stream_of : sgraph -> node -> list obj;
  waits : sgraph -> node -> Prop;
  sgraph_enqueue : sgraph -> node -> list obj -> sgraph;
  sgraph_next : sgraph -> option (node * sgraph);
  sgraph_new_law n : ~ waits sgraph_new n /\ stream_of sgraph_new n = [];
  senqueue_waits g n os n' : waits (sgraph_enqueue g n os) n' <-> n' = n \/ waits g n';
  senqueue_same g n os : stream_of (sgraph_enqueue g n os) n = stream_of g n ++ os;
  senqueue_other g n os n' : n' <> n -> stream_of (sgraph_enqueue g n os) n' = stream_of g n';
  snext_law g :
    match sgraph_next g with
    | None => forall n, ~ waits g n
    | Some (n, g') => waits g n /\ stream_of g' n = [] /\ (forall n', waits g' n' <-> n' <> n /\ waits g n') /\
                      forall n', n' <> n -> stream_of g' n' = stream_of g n'
    end
}.

Section Walk.
Context {node obj : Type} {EQ : EqDecision node} {RG : RteSched node obj} {A : Type}.
Notation M := (M (gstate sgraph A)).

Definition put_sgraph (g : sgraph) : M unit := modify (fun s => GState g (app s)).
Definition put_vars (f : A -> A) : M unit := modify (fun s => GState (graph s) (f (app s))).
Definition enqueue_to (n : node) (os : list obj) : M unit :=
  g <-- gets graph ;; put_sgraph (sgraph_enqueue g n os).

(** [rte_graph_walk]: the source nodes, then whatever waits.  Out of fuel is a fault. *)
Fixpoint run_waiting (process : node -> list obj -> M Z) (fuel : nat) : M unit :=
  match fuel with
  | O => fault
  | S fuel' =>
      g <-- gets graph ;;
      match sgraph_next g with
      | None => ret tt
      | Some (n, g') =>
          put_sgraph g' ;;
          _ <-- process n (stream_of g n) ;;
          run_waiting process fuel'
      end
  end.
Definition sched_walk (process : node -> list obj -> M Z) (sources : list node) (fuel : nat) : M unit :=
  _ <-- for_each (fun n => process n []) sources ;;
  run_waiting process fuel.

(** [l]: the nodes that wait, each once. *)
Definition waiting (l : list node) (g : sgraph) : Prop := NoDup l /\ forall n, waits g n <-> n ∈ l.
Definition resting (g : sgraph) : Prop := waiting [] g /\ forall n, stream_of g n = [].

Lemma resting_new : resting sgraph_new.
Proof.
  split; [split; [constructor|]|]; intros n; destruct (sgraph_new_law n); [|done].
  split; [done|]. by intros ?%not_elem_of_nil.
Qed.

Lemma waiting_enqueue l g n os : waiting l g -> n ∉ l -> waiting (l ++ [n]) (sgraph_enqueue g n os).
Proof.
  intros [Hd Hw] Hn. split.
  - apply NoDup_app. split; [done|]. split; [|apply NoDup_singleton]. by intros x Hx ->%list_elem_of_singleton.
  - intros n'. rewrite senqueue_waits, Hw, elem_of_app, list_elem_of_singleton. tauto.
Qed.
Lemma waiting_again l g n os : waiting l g -> n ∈ l -> waiting l (sgraph_enqueue g n os).
Proof. intros [Hd Hw] Hn. split; [done|]. intros n'. rewrite senqueue_waits, Hw. split; [by intros [->|]|auto]. Qed.

(** One waiting node after the other, when the nodes that run enqueue nothing: [J l] with [l] still waiting. *)
Lemma wp_run_waiting (J : list node -> gstate sgraph A -> trace -> Prop) process X l fuel s t :
  (forall pre n post s t g', J (pre ++ n :: post) s t -> (forall n', n' <> n -> stream_of g' n' = stream_of (graph s) n') ->
     stream_of g' n = [] ->
     wp (process n (stream_of (graph s) n)) (fun _ s' t' => graph s' = g' /\ J (pre ++ post) s' t') X (GState g' (app s)) t) ->
  waiting l (graph s) -> J l s t -> (length l < fuel)%nat ->
  wp (run_waiting process fuel) (fun _ s' t' => waiting [] (graph s') /\ J [] s' t') X s t.
Proof.
  intros Hp. revert l s t. induction fuel as [|fuel IH]; intros l s t [Hd Hw] HJ Hf; [lia|]. cbn [run_waiting].
  wp_step. apply wp_gets. pose proof (snext_law (graph s)) as L.
  destruct (sgraph_next (graph s)) as [[n g']|].
  - destruct L as (Hn & He & Hw' & Ho). apply Hw in Hn. apply list_elem_of_split in Hn as (pre & post & ->).
    wp_step. unfold put_sgraph. wp_step. wp_step. eapply wp_mono; [by apply Hp| |done].
    intros r s1 t1 [Hg HJ1]. apply (IH (pre ++ post)); [|done|rewrite !length_app in *; simpl in *; lia].
    rewrite Hg. apply NoDup_app in Hd as (D1 & D2 & D3). apply NoDup_cons in D3 as [D3 D4]. split.
    + apply NoDup_app. split_and!; [done| |done]. intros x Hx Hp'. apply (D2 x Hx). by right.
    + intros n'. rewrite Hw', Hw, !elem_of_app, elem_of_cons. split; [tauto|].
      intros H. split; [|tauto]. intros ->. destruct H as [H|H]; [|done]. apply (D2 n H). by left.
  - wp_step. assert (l = []) as ->; [|by split].
    destruct l as [|n l]; [done|]. destruct (L n). apply Hw. by left.
Qed.

(** A source that enqueues to one node, which enqueues nothing: a walk of two processes. *)
Lemma wp_one_walk process src fuel (Q : unit -> gstate sgraph A -> trace -> Prop) X s t :
  resting (graph s) ->
  wp (process src []) (fun _ s1 t1 => exists n os, graph s1 = sgraph_enqueue (graph s) n os /\
    forall g', resting g' -> wp (process n os) (fun _ s2 t2 => graph s2 = g' /\ Q tt s2 t2) X (GState g' (app s1)) t1) X s t ->
  wp (sched_walk process [src] (S (S fuel))) Q X s t.
Proof.
  intros [Hw He] Hp. unfold sched_walk. cbn [for_each]. do 2 wp_step. eapply wp_mono; [exact Hp| |done].
  intros r s1 t1 (n & os & Hg & Hn). do 3 wp_step. cbn [run_waiting]. wp_step. apply wp_gets.
  assert (waiting [n] (graph s1)) as [_ Hw1].
  { rewrite Hg. apply (waiting_enqueue []); [done|]. by intros ?%not_elem_of_nil. }
  pose proof (snext_law (graph s1)) as L. destruct (sgraph_next (graph s1)) as [[n' g']|].
  - destruct L as (Hn' & Hem & Hw' & Ho). apply Hw1, list_elem_of_singleton in Hn' as ->.
    assert (stream_of (graph s1) n = os) as Hos by (by rewrite Hg, senqueue_same, He).
    assert (resting g') as Hr.
    { split; [split; [constructor|]|]; intros n'.
      - rewrite Hw', Hw1, list_elem_of_singleton. split; [by intros [? ?]|by intros ?%not_elem_of_nil].
      - destruct (decide (n' = n)) as [->|Hd]; [done|].
        by rewrite Ho, Hg, senqueue_other, He. }
    wp_step. unfold put_sgraph. wp_step. wp_step. rewrite Hos. eapply wp_mono; [by apply Hn| |done].
    intros r2 s2 t2 [Hg2 HQ]. cbn [run_waiting]. wp_step. apply wp_gets. pose proof (snext_law (graph s2)) as L2.
    destruct (sgraph_next (graph s2)) as [[n2 g2]|]; [|by apply wp_ret].
    destruct L2 as (H2 & _). rewrite Hg2 in H2. apply Hr in H2. by apply not_elem_of_nil in H2.
  - destruct (L n). apply Hw1. by left.
Qed.
End Walk.

(** ** A concrete instance: in the order in which the nodes were first enqueued to *)

Definition sim_sched {node obj} {EQ : EqDecision node} : RteSched node obj.
Proof.
  refine {| sgraph := list (node * list obj) ; sgraph_new := []; stream_of := stream;
            waits g n := n ∈ map fst g; sgraph_enqueue := stream_add;
            sgraph_next g := match g with
              | [] => None
              | (n, _) :: g' => Some (n, filter (fun p => p.1 <> n) g')
              end |}.
  - intros n. split; [by intros ?%not_elem_of_nil|done].
  - intros g n os n'. split; [apply stream_add_keys|]. intros [->|H].
    + induction g as [|[k o] g IH]; simpl; [by left|]. destruct (decide (k = n)) as [->|]; simpl; [by left|by right].
    + induction g as [|[k o] g IH]; simpl in *; [by apply not_elem_of_nil in H|].
      destruct (decide (k = n)) as [->|]; simpl in *; [done|].
      apply elem_of_cons in H as [->|H]; [by left|]. right. by apply IH.
  - apply stream_add_same.
  - intros g n os n'. apply stream_add_other.
  - intros [|[n os] g]; [by intros n ?%not_elem_of_nil|]. simpl. split; [by left|].
    assert (forall n', stream (filter (fun p => p.1 <> n) g) n' = if decide (n' = n) then [] else stream g n') as Hs.
    { intros n'. induction g as [|[k o] g IH]; simpl; [by destruct (decide (n' = n))|]. rewrite filter_cons. simpl.
      destruct (decide (k <> n)) as [Hk|Hk]; simpl.
      - destruct (decide (k = n')) as [->|]; [by rewrite decide_False|]. done.
      - destruct (decide (k = n)) as [->|]; [|done]. rewrite IH. destruct (decide (n' = n)) as [->|]; [done|].
        by rewrite decide_False by congruence. }
    split; [by rewrite Hs, decide_True|]. split.
    + intros n'. rewrite elem_of_cons. split.
      * intros ([k o] & -> & Hin)%list_elem_of_fmap. apply list_elem_of_filter in Hin as [Hk Hin]. simpl in *.
        split; [done|]. right. by apply (list_elem_of_fmap_2 fst) in Hin.
      * intros [Hne [?|H]]; [done|]. apply list_elem_of_fmap in H as ([k o] & -> & Hin).
        apply (list_elem_of_fmap_2 fst). by apply list_elem_of_filter.
    + intros n' Hne. rewrite Hs, decide_False by done. by rewrite decide_False by congruence.
Defined.
