(* ===== verification/GraphSmall.v ===== *)
(** * Small graphs: graph/node_sched, graph/sample, graph/two_start_with_worker, graph/two_start_node, feature_arc/graph_arc

    Each program has a module with its nodes, the functions registered for them,
    and [main].  The application variables are the state besides the graph.  All
    are over [RteSched], since most of them enqueue no objects, or none that
    matter. *)

From S2P Require Import Prelude Cstd Rte Env Ownership BurstIo RteGraph GraphSched Sim.

Definition EXIT_FAILURE := 1.

Section Common.
Context {node obj : Type} {RG : RteSched node obj} {E : Env} {A : Type}.
Notation M := (M (gstate sgraph A)).

(** The beginning of [main], up to the signal handlers. *)
Definition eal_start (signals : list string) : M unit :=
  r <-- call rte_eal_init ;;
  when (r <? 0) (rte_exit EXIT_FAILURE) ;;
  _ <-- for_each (fun sg => call (signal_handler_install sg)) signals ;;
  ret tt.
(** [rte_graph_create] and [rte_graph_lookup]; the result is the id of the graph. *)
Definition graph_create (running : string) : M Z :=
  id <-- call (api_call "rte_graph_create" []) ;;
  when (u16 id =? 65535) (rte_exit EXIT_FAILURE) ;;
  put_sgraph sgraph_new ;;
  g <-- call (api_call "rte_graph_lookup" []) ;;
  when (g =? 0) (rte_exit EXIT_FAILURE) ;;
  printf running [] ;;
  ret (u16 id).

(** [while (!force_quit && cond) body], at most [n] rounds; whether it has ended. *)
Fixpoint while_both (n : nat) (cond : A -> bool) (body : M unit) : M bool :=
  match n with
  | O => ret false
  | S n' =>
      q <-- read_quit ;;
      a <-- gets app ;;
      if negb q && cond a then body ;; while_both n' cond body else ret true
  end.

(** If it has not ended it has run [n] times; if it has, the condition is false or the flag was read. *)
Lemma wp_while_both (I : nat -> gstate sgraph A -> trace -> Prop) cond body X n s t :
  (forall i s t, I i s t -> cond (app s) = true -> wp body (fun _ s' t' => I (S i) s' t') X s t) ->
  (forall i s t b, I i s t -> I i s (EvQuit b :: t)) -> I O s t ->
  wp (while_both n cond body) (fun ended s' t' => exists i, (i <= n)%nat /\ I i s' t' /\
    if ended : bool then cond (app s') = false \/ (exists t1, t' = EvQuit true :: t1) else i = n) X s t.
Proof.
  intros Hb Hq. enough (forall k s t, I k s t ->
    wp (while_both n cond body) (fun ended s' t' => exists i, (i <= n)%nat /\ I (k + i)%nat s' t' /\
      if ended : bool then cond (app s') = false \/ (exists t1, t' = EvQuit true :: t1) else i = n) X s t) as H
    by apply (H O).
  induction n as [|n IH]; intros k s' t' HI; cbn [while_both].
  { wp_steps. exists O. by rewrite Nat.add_0_r. }
  wp_step. unfold wp at 1, read_quit. set (b := env_quit t'). wp_step. apply wp_gets. apply wp_if; intros Hc.
  - apply andb_true_iff in Hc as [_ Hc]. wp_step. eapply wp_mono; [apply Hb; [by apply Hq|done]| |done].
    intros [] s1 t1 I1. eapply wp_mono; [by apply IH| |done]. intros ended s2 t2 (i & Hi & I2 & He).
    exists (S i). rewrite Nat.add_succ_r. split; [lia|]. split; [done|]. destruct ended; [done|lia].
  - wp_steps. exists O. rewrite Nat.add_0_r. split; [lia|]. split; [by apply Hq|].
    destruct b; [right; by eexists|]. left. by destruct (cond (app s')).
Qed.
End Common.

(** ** graph/node_sched *)

Module NodeSched.
Inductive node := HELLO_NODE | DUMMY_NODE | DUMMY_NODE2.
#[export] Instance node_eq_dec : EqDecision node.
Proof. solve_decision. Defined.

Section NodeSched.
Context {obj : Type} {RG : RteSched node obj} {E : Env}.
(** What [objs[0]] of the source node is: the library passes 0 objects, so nothing is promised. *)
Variable objs_slot : option obj.
(** The state is [count]. *)
Notation M := (M (gstate sgraph Z)).

Definition hello_node_process (objs : list obj) : M Z :=
  put_vars (fun count => count + 1) ;;
  count <-- gets app ;;
  (if Z.rem count 2 =? 0 then
     printf "Hello -> dummy1\n" [] ;;
     o <-- deref objs_slot ;; enqueue_to DUMMY_NODE [o]
   else
     printf "Hello -> dummy2\n" [] ;;
     o <-- deref objs_slot ;; enqueue_to DUMMY_NODE2 [o]) ;;
  ret 0.
Definition dummy_node_process (objs : list obj) : M Z := printf ">>> dummy 1 executed\n" [] ;; ret 0.
Definition dummy_node_process2 (objs : list obj) : M Z := printf ">>> dummy 2 executed\n" [] ;; ret 0.
Definition process (n : node) : list obj -> M Z :=
  match n with
  | HELLO_NODE => hello_node_process
  | DUMMY_NODE => dummy_node_process
  | DUMMY_NODE2 => dummy_node_process2
  end.
Definition walk : M unit := sched_walk process [HELLO_NODE] 4.

Definition main (n : nat) : M bool :=
  eal_start ["SIGINT"%string] ;;
  id <-- graph_create "Running minimal DPDK graph...\n" ;;
  ended <-- while_both n (fun count => count <? 10) walk ;;
  when ended (
    _ <-- call (api_call "rte_graph_dump" [id]) ;;
    _ <-- call (api_call "rte_graph_destroy" [id]) ;; ret tt) ;;
  ret ended.

(** What the walk with the given value of [count] prints. *)
Definition round_lines (count : nat) : list event :=
  if Z.even (Z.of_nat count) then [EvPrintf "Hello -> dummy1\n" []; EvPrintf ">>> dummy 1 executed\n" []]
  else [EvPrintf "Hello -> dummy2\n" []; EvPrintf ">>> dummy 2 executed\n" []].

Record walked (i : nat) (s : gstate sgraph Z) (t : trace) : Prop := {
  w_resting : resting (graph s);
  w_count : app s = Z.of_nat i;
  w_lines : printed t = EvPrintf "Running minimal DPDK graph...\n" [] :: concat (map round_lines (seq 1 i)) }.

Lemma walk_sched_ok o i s t :
  objs_slot = Some o -> walked i s t -> app s <? 10 = true -> wp walk (fun _ s' t' => walked (S i) s' t') (fun _ _ _ => False) s t.
Proof.
  intros Ho [Hr Hc Hl] _. unfold walk. apply wp_one_walk; [done|]. cbn [process]. unfold hello_node_process, put_vars.
  do 4 wp_step. cbn [app]. rewrite Hc.
  assert ((Z.rem (Z.of_nat i + 1) 2 =? 0) = Z.even (Z.of_nat (S i))) as Heven.
  { replace (Z.of_nat i + 1) with (Z.of_nat (S i)) by lia. rewrite Z.rem_mod_nonneg, Zmod_even by lia.
    by destruct (Z.even _). }
  rewrite Heven. clear Heven.
  assert (printed t ++ round_lines (S i) =
    EvPrintf "Running minimal DPDK graph...\n" [] :: concat (map round_lines (seq 1 (S i)))) as Hlines.
  { rewrite Hl, seq_S, map_app, concat_app. simpl. by rewrite app_nil_r. }
  unfold round_lines in Hlines at 1. destruct (Z.even (Z.of_nat (S i))).
  all: unfold enqueue_to, put_sgraph; wp_steps; (eapply wp_deref; [exact Ho|]); wp_steps.
  all: do 2 eexists; split; [done|]; intros g' Hg'; cbn [process]; wp_steps; split; [done|].
  all: constructor; [done|simpl; lia|]; rewrite <- Hlines; cbn [printed]; by rewrite <- app_assoc.
Qed.

(** The scheduling demonstration, if [objs[0]] can be read: the walks alternate between the second and
    the first dummy node, beginning with the second, and each of these runs in the walk in which it
    was enqueued to; there are ten walks unless a signal stops the program. *)
Theorem node_sched_correct n o :
  objs_slot = Some o ->
  wp (main n) (fun ended s t => exists i, (i <= n)%nat /\
      printed t = EvPrintf "Running minimal DPDK graph...\n" [] :: concat (map round_lines (seq 1 i)) /\
      if ended : bool then (10 <= i)%nat \/ EvQuit true ∈ t else i = n)
    (fun c _ _ => c = EXIT_FAILURE) (GState sgraph_new 0) [].
Proof.
  intros Ho. unfold main, eal_start, graph_create, put_sgraph. cbn [for_each]. wp_steps; try done.
  eapply wp_mono; [apply (wp_while_both walked _ walk (fun _ _ _ => False))| |done].
  - intros i s t Hw Hc. by eapply walk_sched_ok.
  - by intros i s t b [].
  - constructor; [apply resting_new|done|done].
  - intros ended s t (i & Hi & [Hr Hc Hl] & He). destruct ended; cbn [when]; wp_steps; exists i; (split; [done|]); (split; [done|]).
    + destruct He as [He|[t1 ->]]; [left; apply Z.ltb_ge in He; lia|right]. do 2 right. by left.
    + done.
Qed.
End NodeSched.

#[local] Existing Instance sim_sched.
#[local] Instance wenv : Env := sim_env quiet_script.

Lemma node_sched_correct_witness :
  wp (main (Some 7) 12) (fun ended s t => exists i, (i <= 12)%nat /\
      printed t = EvPrintf "Running minimal DPDK graph...\n" [] :: concat (map round_lines (seq 1 i)) /\
      if ended : bool then (10 <= i)%nat \/ EvQuit true ∈ t else i = 12%nat)
    (fun c _ _ => c = EXIT_FAILURE) (GState sgraph_new 0) [] /\
  match main (Some 7) 12 (GState sgraph_new 0) [] with Done ended s _ => ended = true /\ app s = 10 | _ => False end.
Proof. split; [by apply (node_sched_correct (Some 7) 12 7)|by vm_compute]. Defined.

(** The source node reads [objs[0]] although it is told that there are no objects. *)
Example node_sched_undefined :
  match main (obj := Z) None 12 (GState sgraph_new 0) [] with Fault _ _ => True | _ => False end.
Proof. by vm_compute. Qed.
End NodeSched.

(** ** graph/sample *)

Module Hello.
Inductive node := HELLO_NODE | DUMMY_NODE | DUMMY_NODE2.
#[export] Instance hello_node_eq_dec : EqDecision node.
Proof. solve_decision. Defined.

Section Hello.
Context {obj : Type} {RG : RteSched node obj} {E : Env}.
(** The state is [count]. *)
Notation M := (M (gstate sgraph Z)).

Definition incr_count : M unit := put_vars (fun count => count + 1).
Definition hello_node_process (objs : list obj) : M Z :=
  count <-- gets app ;;
  when (count =? 0) (printf "Hello from graph node!\n" []) ;;
  incr_count ;;
  enqueue_to DUMMY_NODE [] ;;
  ret 0.
Definition dummy_node_process (objs : list obj) : M Z :=
  count <-- gets app ;;
  when (count =? 10) (printf "Going into dummy node 1\n" []) ;;
  incr_count ;;
  ret (zlen objs).
(** Not registered for any node. *)
Definition dummy_node_process2 (objs : list obj) : M Z :=
  count <-- gets app ;;
  when (count =? 10) (printf "Going into dummy node 2\n" []) ;;
  incr_count ;;
  ret (zlen objs).
Definition process (n : node) : list obj -> M Z :=
  match n with
  | HELLO_NODE => hello_node_process
  | DUMMY_NODE | DUMMY_NODE2 => dummy_node_process
  end.
Definition walk : M unit := sched_walk process [HELLO_NODE] 4.

Definition RUNNING : string := "Running minimal DPDK graph (Ctrl+C to exit)\n".
Definition main (n : nat) : M bool :=
  eal_start ["SIGINT"%string] ;;
  id <-- graph_create RUNNING ;;
  ended <-- while_both n (fun count => count <? 10) walk ;;
  when ended (_ <-- call (api_call "rte_graph_destroy" [id]) ;; ret tt) ;;
  ret ended.

Record walked (i : nat) (s : gstate sgraph Z) (t : trace) : Prop := {
  w_resting : resting (graph s);
  w_count : app s = 2 * Z.of_nat i;
  w_lines : printed t = EvPrintf RUNNING [] :: match i with O => [] | S _ => [EvPrintf "Hello from graph node!\n" []] end }.

Lemma walk_hello_ok i s t :
  walked i s t -> app s <? 10 = true -> wp walk (fun _ s' t' => walked (S i) s' t') (fun _ _ _ => False) s t.
Proof.
  intros [Hr Hc Hl] Hlt. apply Z.ltb_lt in Hlt. unfold walk. apply wp_one_walk; [done|]. cbn [process].
  unfold hello_node_process, incr_count, put_vars, enqueue_to, put_sgraph.
  wp_steps; do 2 eexists; (split; [done|]); intros g' Hg'; cbn [process]; unfold dummy_node_process, incr_count, put_vars.
  all: wp_steps; cbn [app] in *; try (exfalso; match goal with H : (_ =? 10) = true |- _ => apply Z.eqb_eq in H end; lia).
  all: (split; [done|]); constructor; [done|cbn [app]; lia|]; cbn [printed]; rewrite Hl.
  - match goal with H : (app s =? 0) = true |- _ => apply Z.eqb_eq in H end. by destruct i; [|lia].
  - match goal with H : (app s =? 0) = false |- _ => apply Z.eqb_neq in H end. by destruct i; [lia|].
Qed.

(** The greeting is printed once and there are five walks, for each of them counts twice.  What
    the dummy nodes would say when [count] is 10 is never printed: it is odd when they run. *)
Theorem hello_correct n :
  wp (main n) (fun ended s t => exists i, (i <= 5)%nat /\ app s = 2 * Z.of_nat i /\
      printed t = EvPrintf RUNNING [] :: match i with O => [] | S _ => [EvPrintf "Hello from graph node!\n" []] end /\
      if ended : bool then i = 5%nat \/ EvQuit true ∈ t else i = n)
    (fun c _ _ => c = EXIT_FAILURE) (GState sgraph_new 0) [].
Proof.
  unfold main, eal_start, graph_create, put_sgraph. cbn [for_each]. wp_steps; try done.
  eapply wp_mono; [apply (wp_while_both (fun i s t => walked i s t /\ (i <= 5)%nat) _ walk (fun _ _ _ => False))| |done].
  - intros i s t [Hw Hi] Hc. pose proof (w_count _ _ _ Hw) as Ha. apply Z.ltb_lt in Hc as Hc'.
    eapply wp_mono; [by apply walk_hello_ok| |done]. intros [] s1 t1 W1. split; [exact W1|lia].
  - by intros i s t b [[] ?].
  - split; [|lia]. constructor; [apply resting_new|done|done].
  - intros ended s t (i & Hi & [[Hr Hc Hl] Hi5] & He).
    destruct ended; cbn [when]; wp_steps; exists i; (split; [done|]); (split; [done|]); (split; [done|]); [|done].
    destruct He as [He|[t1 ->]]; [left; apply Z.ltb_ge in He; lia|right]. right. by left.
Qed.
End Hello.
End Hello.

(** ** graph/two_start_with_worker *)

Module TwoWorkers.
Definition BURST := 4.
Inductive node := START1 | WORK1 | START2 | WORK2.
#[export] Instance workers_node_eq_dec : EqDecision node.
Proof. solve_decision. Defined.

Section TwoWorkers.
Context {RG : RteSched node Z} {E : Env}.
(** The objects are numbers in the place of pointers; the state is [count]. *)
Notation M := (M (gstate sgraph Z)).

Definition objects (from : Z) : list Z := map (fun i => from + Z.of_nat i) (seq 0 (Z.to_nat BURST)).
Definition start1_process (objs : list Z) : M Z :=
  printf "START1 -> enqueue %d objs\n" [PInt BURST] ;;
  enqueue_to WORK1 (objects 0) ;; ret BURST.
Definition start2_process (objs : list Z) : M Z :=
  printf "START2 -> enqueue %d objs\n" [PInt BURST] ;;
  enqueue_to WORK2 (objects 100) ;; ret BURST.
Definition work1_process (objs : list Z) : M Z :=
  printf "WORK1  -> dequeued %u objs\n" [PInt (zlen objs)] ;; ret (zlen objs).
Definition work2_process (objs : list Z) : M Z :=
  printf "WORK2  -> dequeued %u objs\n" [PInt (zlen objs)] ;; ret (zlen objs).
Definition process (n : node) : list Z -> M Z :=
  match n with
  | START1 => start1_process
  | WORK1 => work1_process
  | START2 => start2_process
  | WORK2 => work2_process
  end.
Definition walk : M unit := sched_walk process [START1; START2] 5.

Definition RUNNING : string := "Running 2-start-node graph (Ctrl+C to exit)\n".
Definition main (n : nat) : M bool :=
  eal_start ["SIGINT"; "SIGTERM"]%string ;;
  id <-- graph_create RUNNING ;;
  ended <-- while_both n (fun count => count <? 10) (walk ;; put_vars (fun count => count + 1)) ;;
  when ended (_ <-- call (api_call "rte_graph_destroy" [id]) ;; ret tt) ;;
  ret ended.

(** The lines of one walk; the library chooses which worker runs first. *)
Definition line (n : node) : event :=
  match n with
  | START1 => EvPrintf "START1 -> enqueue %d objs\n" [PInt 4]
  | START2 => EvPrintf "START2 -> enqueue %d objs\n" [PInt 4]
  | WORK1 => EvPrintf "WORK1  -> dequeued %u objs\n" [PInt 4]
  | WORK2 => EvPrintf "WORK2  -> dequeued %u objs\n" [PInt 4]
  end.
Definition walk_lines (first1 : bool) : list event :=
  map line ([START1; START2] ++ if first1 then [WORK1; WORK2] else [WORK2; WORK1]).

Record walked (i : nat) (s : gstate sgraph Z) (t : trace) : Prop := {
  w_resting : resting (graph s);
  w_count : app s = Z.of_nat i;
  w_lines : exists orders, length orders = i /\ printed t = EvPrintf RUNNING [] :: concat (map walk_lines orders) }.

(** The state while the workers [l] wait. *)
Record working (c : Z) (base : list event) (l : list node) (s : gstate sgraph Z) (t : trace) : Prop := {
  k_count : app s = c;
  k_streams n : zlen (stream_of (graph s) n) = if decide (n ∈ l) then 4 else 0;
  k_lines : exists ds, ds ++ l ≡ₚ [WORK1; WORK2] /\ printed t = base ++ map line ds }.

Lemma work_ok n os s t c base l :
  n = WORK1 \/ n = WORK2 -> zlen os = 4 -> app s = c ->
  (exists ds, (ds ++ [n]) ++ l ≡ₚ [WORK1; WORK2] /\ printed t = base ++ map line ds) ->
  (forall n', zlen (stream_of (graph s) n') = if decide (n' ∈ l) then 4 else 0) ->
  wp (process n os) (fun _ s' t' => graph s' = graph s /\ working c base l s' t') (fun _ _ _ => False) s t.
Proof.
  intros Hn Ho Hc (ds & Hp & Hl) Hs.
  assert (printed (line n :: t) = base ++ map line (ds ++ [n])) as Hl'.
  { rewrite map_app, app_assoc, <- Hl. by destruct n. }
  destruct Hn as [-> | ->]; cbn [process]; unfold work1_process, work2_process; rewrite Ho; wp_steps; (split; [done|]);
    (constructor; [done|done|]; eexists; split; [exact Hp|exact Hl']).
Qed.

Lemma walk_workers_ok i s t :
  walked i s t ->
  wp (walk ;; put_vars (fun count => count + 1)) (fun _ s' t' => walked (S i) s' t') (fun _ _ _ => False) s t.
Proof.
  intros [[Hw He] Hc (orders & Ho & Hl)]. unfold walk, sched_walk. cbn [for_each process].
  unfold start1_process, start2_process, enqueue_to, put_sgraph. wp_steps.
  set (s1 := GState _ _). set (t1 := EvPrintf _ _ :: _).
  eapply wp_mono; [apply (wp_run_waiting (working (app s) (printed t1)) process (fun _ _ _ => False) [WORK1; WORK2])| |done].
  - intros pre n post s2 t2 g' [K1 K2 (ds & Hp & K3)] Ho' Hem.
    assert (n = WORK1 \/ n = WORK2) as Hn.
    { assert (n ∈ [WORK1; WORK2]) as Hin by (rewrite <- Hp, !elem_of_app, elem_of_cons; auto). set_solver. }
    assert (NoDup (ds ++ pre ++ n :: post)) as Hnd by (rewrite Hp; by apply (bool_decide_unpack _)).
    assert (n ∉ pre ++ post) as Hni.
    { rewrite app_assoc in Hnd. apply NoDup_app in Hnd as (_ & H1 & H2). apply NoDup_cons in H2 as [H2 _].
      intros [Hx|Hx]%elem_of_app; [|done]. apply (H1 n); [rewrite elem_of_app; auto|by left]. }
    apply work_ok; [done| |done| |].
    + rewrite K2, decide_True; [done|]. rewrite elem_of_app, elem_of_cons. auto.
    + exists ds. split; [|done]. rewrite <- Hp, <- app_assoc. apply Permutation_app_head. simpl. by rewrite Permutation_middle.
    + intros n'. cbn [graph]. destruct (decide (n' = n)) as [->|Hne]; [by rewrite Hem, decide_False|].
      rewrite Ho', K2 by done. apply decide_ext. rewrite !elem_of_app, elem_of_cons. tauto.
  - apply (waiting_enqueue [WORK1]); [|by intros ?%list_elem_of_singleton].
    apply (waiting_enqueue []); [done|by intros ?%not_elem_of_nil].
  - constructor; [done| |exists []; split; [done|by rewrite app_nil_r]].
    intros n. unfold s1. cbn [graph].
    destruct n; rewrite ?senqueue_same, ?(senqueue_other _ WORK2) by done; rewrite ?senqueue_same, ?(senqueue_other _ WORK1) by done;
      by rewrite ?senqueue_same, ?He.
  - simpl. lia.
  - intros [] s2 t2 [W2 [K1 K2 (ds & Hp & K3)]]. unfold put_vars. wp_steps. constructor.
    + split; [done|]. intros n. cbn [graph]. specialize (K2 n). rewrite decide_False in K2 by (by intros ?%not_elem_of_nil).
      by destruct (stream_of (graph s2) n).
    + cbn [app]. lia.
    + rewrite app_nil_r in Hp. symmetry in Hp. apply Permutation_length_2_inv in Hp.
      exists (orders ++ [bool_decide (ds = [WORK1; WORK2])]). split; [rewrite length_app; simpl; lia|].
      rewrite K3. unfold t1. cbn [printed]. rewrite Hl, map_app, concat_app. cbn [map concat]. rewrite app_nil_r, <- !app_assoc.
      simpl. do 2 f_equal. by destruct Hp as [-> | ->].
Qed.

(** The graph with two sources: in each walk both sources enqueue four objects, then each worker gets
    exactly the four objects of its own source, in the same walk, in an order the library chooses; there
    are ten walks unless a signal stops the program. *)
Theorem two_workers_correct n :
  wp (main n) (fun ended s t => exists orders, (length orders <= n)%nat /\
      printed t = EvPrintf RUNNING [] :: concat (map walk_lines orders) /\
      if ended : bool then (10 <= length orders)%nat \/ EvQuit true ∈ t else length orders = n)
    (fun c _ _ => c = EXIT_FAILURE) (GState sgraph_new 0) [].
Proof.
  unfold main, eal_start, graph_create, put_sgraph. cbn [for_each]. wp_steps; try done.
  eapply wp_mono; [apply (wp_while_both walked _ _ (fun _ _ _ => False))| |done].
  - intros i s t Hw _. by apply walk_workers_ok.
  - by intros i s t b [].
  - constructor; [apply resting_new|done|by exists []].
  - intros ended s t (i & Hi & [Hr Hc (orders & Ho & Hl)] & He).
    destruct ended; cbn [when]; wp_steps; exists orders; (split; [lia|]); (split; [done|]); [|lia].
    destruct He as [He|[t1 ->]]; [left; apply Z.ltb_ge in He; lia|right]. right. by left.
Qed.
End TwoWorkers.
End TwoWorkers.

(** ** graph/two_start_node *)

Module TwoStarts.
Definition NB_MBUF := 1024.
Definition RTE_MBUF_DEFAULT_BUF_SIZE := 2176.
Inductive node := START1 | START2 | WORKER.
#[export] Instance starts_node_eq_dec : EqDecision node.
Proof. solve_decision. Defined.

Section TwoStarts.
Context {RG : RteSched node mbuf} {E : Env}.
Record vars := Vars { mbuf_pool : Z; total_prints : Z }.
Notation M := (M (gstate sgraph vars)).

(** [start1_process] and [start2_process], which differ in what they print. *)
Definition start_process (producing : string) (objs : list mbuf) : M Z :=
  v <-- gets app ;;
  if 10 <=? total_prints v then ret 0
  else
    printf producing [] ;;
    o <-- rte_pktmbuf_alloc (mbuf_pool v) ;;
    match o with
    | None => ret 0
    | Some m =>
        enqueue_to WORKER [m] ;;
        put_vars (fun v => Vars (mbuf_pool v) (total_prints v + 1)) ;;
        _ <-- call (api_call "usleep" [200000]) ;;
        ret 0
    end.
Definition worker_process (objs : list mbuf) : M Z :=
  printf "WORKER <- received %u packet(s)\n" [PInt (zlen objs)] ;;
  free_all objs ;;
  ret (zlen objs).
Definition process (n : node) : list mbuf -> M Z :=
  match n with
  | START1 => start_process "START1 -> producing packet\n"
  | START2 => start_process "START2 -> producing packet\n"
  | WORKER => worker_process
  end.
Definition walk : M unit := sched_walk process [START1; START2] 4.

(** [while (total_prints < 10)], at most [n] rounds; whether it has ended. *)
Fixpoint produce (n : nat) : M bool :=
  match n with
  | O => v <-- gets app ;; ret (negb (total_prints v <? 10))
  | S n' => v <-- gets app ;; if total_prints v <? 10 then walk ;; produce n' else ret true
  end.

Definition main (n : nat) : M bool :=
  eal_start [] ;;
  mp <-- call (rte_pktmbuf_pool_create "MBUF_POOL" NB_MBUF 256 0 RTE_MBUF_DEFAULT_BUF_SIZE) ;;
  when (mp =? 0) (rte_exit EXIT_FAILURE) ;;
  put_vars (fun _ => Vars mp 0) ;;
  _ <-- graph_create "Running graph debug example...\n" ;;
  ended <-- produce n ;;
  when ended (printf "Stopping after 10 prints.\n" []) ;;
  ret ended.

(** A pool whose mbufs have room does not run dry. *)
Definition pool_yields : Prop := forall t mp, 0 <= pool_room t mp -> env_alloc t mp <> None.

Lemma pool_room_free_all ms t mp : pool_room (rev (map EvFree ms) ++ t) mp = pool_room t mp.
Proof.
  revert t. induction ms as [|m ms IH]; intros t; [done|]. simpl. rewrite <- app_assoc. by rewrite IH.
Qed.

(** After so many source nodes have run: the packets on their way are those the worker has. *)
Record producing (k0 : Z) (s : gstate sgraph vars) (t : trace) : Prop := {
  p_owned : owned (ids (stream_of (graph s) WORKER)) t;
  p_other n : n <> WORKER -> stream_of (graph s) n = [];
  p_total : total_prints (app s) = zlen (rx_packets t);
  p_bound : total_prints (app s) <= 10;
  p_room : pool_room t (mbuf_pool (app s)) = RTE_MBUF_DEFAULT_BUF_SIZE;
  p_progress : pool_yields -> Z.min 10 k0 <= total_prints (app s) }.
(** The nodes that wait: the worker, or none if it has no packets. *)
Definition worker_waits (l : list node) (s : gstate sgraph vars) : Prop :=
  l = [] /\ stream_of (graph s) WORKER = [] \/ l = [WORKER].

Lemma start_ok line k0 s t :
  producing k0 s t -> (exists l, worker_waits l s /\ waiting l (graph s)) ->
  wp (start_process line []) (fun _ s' t' => producing (k0 + 1) s' t' /\
    exists l, worker_waits l s' /\ waiting l (graph s')) (fun _ _ _ => False) s t.
Proof.
  intros [Ho Hn Ht Hb Hm Hp] Hw. unfold start_process. wp_step. apply wp_gets. apply wp_if; intros Hlt.
  - wp_step. apply Z.leb_le in Hlt. split; [|done]. constructor; try done. intros. lia.
  - apply Z.leb_gt in Hlt. wp_step. wp_step. wp_step. unfold wp at 1, rte_pktmbuf_alloc. cbv zeta.
    set (t1 := EvPrintf line [] :: t). destruct (env_alloc t1 (mbuf_pool (app s))) as [m|] eqn:Ha.
    + unfold enqueue_to, put_sgraph, put_vars. wp_steps. split.
      * constructor; cbn [graph app mbuf_pool total_prints].
        -- rewrite senqueue_same, map_app. simpl ids. rewrite Permutation_app_comm. simpl Datatypes.app.
           apply (owned_acct _ (EvAlloc (mbuf_pool (app s)) (Some m) :: t1)); [done|]. by apply owned_alloc.
        -- intros n Hne. rewrite senqueue_other by done. by apply Hn.
        -- cbn [rx_packets t1]. unfold zlen in *. simpl. lia.
        -- lia.
        -- done.
        -- intros Halloc. specialize (Hp Halloc). lia.
      * exists [WORKER]. split; [by right|]. cbn [graph]. destruct Hw as (l & [[-> _]| ->] & Hw).
        -- apply (waiting_enqueue []); [done|by intros ?%not_elem_of_nil].
        -- apply waiting_again; [done|by left].
    + wp_steps. split; [|done]. constructor; try done. intros Halloc.
      destruct (Halloc t1 (mbuf_pool (app s))); [|done]. cbn [pool_room t1]. by rewrite Hm.
Qed.

Definition idle_at (k0 : Z) (s : gstate sgraph vars) (t : trace) : Prop := producing k0 s t /\ resting (graph s).

Lemma worker_ok k0 pre n post s t g' :
  producing k0 s t -> worker_waits (pre ++ n :: post) s ->
  (forall n', n' <> n -> stream_of g' n' = stream_of (graph s) n') -> stream_of g' n = [] ->
  wp (process n (stream_of (graph s) n)) (fun _ s' t' => graph s' = g' /\
    producing k0 s' t' /\ worker_waits (pre ++ post) s') (fun _ _ _ => False) (GState g' (app s)) t.
Proof.
  intros [Ho Hn Ht Hb Hm Hp] [[Hl _]|Hl] Hoth Hem; [by destruct pre|].
  assert (pre = [] /\ n = WORKER /\ post = []) as (-> & -> & ->).
  { destruct pre as [|x [|y pre]]; simplify_list_eq; done. }
  cbn [process]. unfold worker_process. wp_steps. apply wp_free_all. wp_steps. split; [done|]. split.
  - constructor; cbn [graph app]; rewrite ?rx_packets_free_all; try done.
    + rewrite Hem. apply owned_free_all. by rewrite app_nil_r.
    + intros n Hne. by rewrite Hoth, Hn.
    + by rewrite pool_room_free_all.
  - left. done.
Qed.

Lemma starts_walk_ok k0 s t :
  idle_at k0 s t -> wp walk (fun _ s' t' => idle_at (k0 + 2) s' t') (fun _ _ _ => False) s t.
Proof.
  intros [Hp Hr]. unfold walk, sched_walk. cbn [for_each process]. do 2 wp_step.
  eapply wp_mono; [apply start_ok; [done|]| |done].
  { exists []. split; [left; split; [done|apply Hr]|apply Hr]. }
  intros r1 s1 t1 [P1 W1]. do 2 wp_step. eapply wp_mono; [by apply start_ok| |done].
  intros r2 s2 t2 [P2 (l & W2 & L2)]. wp_steps. replace (k0 + 1 + 1) with (k0 + 2) in P2 by lia.
  eapply wp_mono; [apply (wp_run_waiting (fun l s t => producing (k0 + 2) s t /\ worker_waits l s) process (fun _ _ _ => False) l)| |done].
  - intros pre n post s3 t3 g' [P3 W3]. by apply worker_ok.
  - done.
  - done.
  - destruct W2 as [[-> _]| ->]; simpl; lia.
  - intros [] s3 t3 (L3 & P3 & [[_ W3]|W3]); [|done]. split; [done|]. split; [done|].
    intros n. destruct (decide (n = WORKER)) as [->|Hne]; [done|]. by apply P3.
Qed.

Lemma produce_ok n k0 s t :
  idle_at k0 s t ->
  wp (produce n) (fun ended s' t' => (exists k, k0 <= k /\ (total_prints (app s') < 10 -> k0 + 2 * Z.of_nat n <= k) /\ idle_at k s' t') /\
    (ended = true <-> 10 <= total_prints (app s'))) (fun _ _ _ => False) s t.
Proof.
  revert k0 s t. induction n as [|n IH]; intros k0 s t HI; cbn [produce].
  - wp_steps. split; [exists k0; split; [lia|]; split; [lia|done]|]. rewrite negb_true_iff, Z.ltb_ge. done.
  - wp_step. apply wp_gets. apply wp_if; intros Hlt.
    + wp_step. eapply wp_mono; [by apply starts_walk_ok| |done]. intros [] s1 t1 I1.
      eapply wp_mono; [by apply IH| |done]. intros ended s2 t2 [(k & Hk & Hb & I2) He]. split; [|done].
      exists k. split; [lia|]. split; [lia|done].
    + apply Z.ltb_ge in Hlt. wp_steps. split; [exists k0; split; [lia|]; split; [lia|done]|done].
Qed.

(** C40: The packet producers: never more than ten packets are allocated, exactly ten when the program
    stops, and every one reaches the worker, which frees it once, within the walk that allocated it;
    if its pool does not run dry the program stops after five walks. *)
Theorem two_starts_correct n (s0 : gstate sgraph vars) :
  wp (main n) (fun ended s t => owned [] t /\ zlen (rx_packets t) <= 10 /\ (ended = true <-> zlen (rx_packets t) = 10) /\
      (pool_yields -> (5 <= n)%nat -> ended = true))
    (fun c _ t => c = EXIT_FAILURE /\ rx_packets t = []) s0 [].
Proof.
  unfold main, eal_start, graph_create, put_sgraph, put_vars. cbn [for_each]. wp_steps; try done.
  eapply wp_mono; [apply (produce_ok n 0)| |done].
  - split; [constructor; cbn [graph app total_prints]|apply resting_new].
    + rewrite (proj2 (sgraph_new_law WORKER)). constructor.
    + intros k _. apply sgraph_new_law.
    + done.
    + lia.
    + cbn [pool_room]. by rewrite Z.eqb_refl.
    + intros _. lia.
  - intros ended s t [(k & Hk & Hbound & [[Ho Hn Ht Hb Hm Hp] [_ Hr]]) He]. rewrite Hr in Ho.
    assert (ended = true <-> zlen (rx_packets t) = 10) as He' by (rewrite He; lia).
    assert (pool_yields -> (5 <= n)%nat -> ended = true) as Hl.
    { intros Halloc H5. apply He. specialize (Hp Halloc). lia. }
    assert (zlen (rx_packets t) <= 10) by lia. destruct ended; cbn [when]; wp_steps; auto.
Qed.
End TwoStarts.

#[local] Existing Instance sim_sched.
#[local] Instance wenv : Env := sim_env quiet_script.

(** A pool that does not run dry: five walks, and not four, allocate the ten packets. *)
Definition w_state : gstate (@sgraph node mbuf sim_sched) vars := GState sgraph_new (Vars 0 0).
Lemma two_starts_correct_witness :
  pool_yields /\
  (match main 5 w_state [], main 4 w_state [] with
   | Done b _ t, Done b' _ t' => b && (zlen (rx_packets t) =? 10) && negb b' && (zlen (rx_packets t') =? 8)
   | _, _ => false
   end) = true /\
  wp (main 5) (fun ended s t => owned [] t /\ zlen (rx_packets t) <= 10 /\ (ended = true <-> zlen (rx_packets t) = 10) /\
      (pool_yields -> (5 <= 5)%nat -> ended = true))
    (fun c _ t => c = EXIT_FAILURE /\ rx_packets t = []) w_state [].
Proof.
  split; [|split; [by vm_compute|apply two_starts_correct]].
  intros t mp Hr. simpl. destruct (Z.eqb_spec (Z.max 0 (pool_room t mp)) (pool_room t mp)); [done|lia].
Defined.
End TwoStarts.

(** ** feature_arc/graph_arc *)

Module GraphArc.
(** [(int)strtol(s, NULL, 10)] *)
Definition strtol10 (s : string) : Z :=
  let s := skip_space s in
  let r := match s with
           | String c s' => if code c =? 45 then (true, s') else if code c =? 43 then (false, s') else (false, s)
           | EmptyString => (false, s)
           end in
  let v := default 0 (take_digits 0 false r.2) in
  let v := if r.1 : bool then Z.max (- 2 ^ 63) (- v) else Z.min (2 ^ 63 - 1) v in
  (v + 2 ^ 31) mod 2 ^ 32 - 2 ^ 31.

Inductive node := HELLO_NODE | DUMMY_NODE | DUMMY_NODE2.
#[export] Instance arc_node_eq_dec : EqDecision node.
Proof. solve_decision. Defined.

(** When the launched [helper] runs: while [hello_node_process] has not returned, after that, or
    not before the program ends. *)
Inductive timing := During | After | Never.

Section GraphArc.
Context {obj : Type} {RG : RteSched node obj} {E : Env}.
Variables (lcore : Z) (helper_runs : timing).
Record vars := Vars { count : Z; feature0 : Z; feature1 : Z; quit : bool }.
Notation M := (M (gstate sgraph vars)).
Definition incr_count : M unit := put_vars (fun v => Vars (count v + 1) (feature0 v) (feature1 v) (quit v)).

(** [h] is a variable of [hello_node_process]: it is gone when that has returned. *)
Definition helper (h : option (list obj)) : M unit :=
  printf "Helper function called\n" [] ;;
  printf "Lcore id is %u\n" [PInt 1] ;;
  objs <-- deref h ;;
  enqueue_to DUMMY_NODE2 objs.

Definition hello_node_process (objs : list obj) : M Z :=
  printf "Lcore id for source node make  %u\n" [PInt lcore] ;;
  printf "Hello from graph node!\n" [] ;;
  incr_count ;;
  v <-- gets app ;;
  if (feature0 v =? 1) && (feature1 v =? 0) then
    printf "Feature 1 is enabled\n" [] ;;
    enqueue_to DUMMY_NODE objs ;; ret 0
  else if (feature1 v =? 1) && (feature0 v =? 0) then
    printf "Feature 2 is enabled\n" [] ;;
    enqueue_to DUMMY_NODE2 objs ;; ret 0
  else if (feature0 v =? 1) && (feature1 v =? 1) then
    printf "Both features are enabled\n" [] ;;
    enqueue_to DUMMY_NODE objs ;;
    r <-- call (rte_eal_remote_launch "helper" 1) ;;
    when (r =? 0) (match helper_runs with During => helper (Some objs) | After => helper None | Never => ret tt end) ;;
    ret 0
  else
    printf "No features enabled exiting the program\n" [] ;;
    put_vars (fun v => Vars (count v) (feature0 v) (feature1 v) true) ;; ret 0.
Definition dummy_node_process (objs : list obj) : M Z :=
  printf "Going into dummy node 1\n" [] ;;
  printf "Lcore id id %u\n" [PInt lcore] ;;
  incr_count ;; ret (zlen objs).
Definition dummy_node_process2 (objs : list obj) : M Z :=
  printf "Going into dummy node 2\n" [] ;;
  printf "Lcore id id %u\n" [PInt lcore] ;;
  incr_count ;; ret (zlen objs).
Definition process (n : node) : list obj -> M Z :=
  match n with
  | HELLO_NODE => hello_node_process
  | DUMMY_NODE => dummy_node_process
  | DUMMY_NODE2 => dummy_node_process2
  end.
Definition walk : M unit := sched_walk process [HELLO_NODE] 4.

Definition RUNNING : string := "Running minimal DPDK graph (Ctrl+C to exit)\n".
(** [args]: what [rte_eal_init] leaves of the arguments, with the name of the program. *)
Definition main (args : list string) (n : nat) : M bool :=
  eal_start [] ;;
  printf "Printing lcore id in main %u\n" [PInt lcore] ;;
  match args with
  | _ :: a1 :: a2 :: _ =>
      let f1 := strtol10 a1 in
      let f2 := strtol10 a2 in
      printf "Runtime flags: f1=%d f2=%d\n" [PInt f1; PInt f2] ;;
      put_vars (fun v => Vars (count v) f1 f2 (quit v)) ;;
      id <-- graph_create RUNNING ;;
      ended <-- while_both n (fun v => negb (quit v) && (count v <? 1)) walk ;;
      when ended (_ <-- call (api_call "rte_graph_destroy" [id]) ;; ret tt) ;;
      ret ended
  | _ => rte_exit EXIT_FAILURE
  end.

Definition header (f1 f2 : Z) : list event :=
  [EvPrintf "Printing lcore id in main %u\n" [PInt lcore]; EvPrintf "Runtime flags: f1=%d f2=%d\n" [PInt f1; PInt f2];
   EvPrintf RUNNING []].
(** The lines of the walk when not both features are 1. *)
Definition arc_lines (f1 f2 : Z) : list event :=
  [EvPrintf "Lcore id for source node make  %u\n" [PInt lcore]; EvPrintf "Hello from graph node!\n" []] ++
  (if (f1 =? 1) && (f2 =? 0) then
     [EvPrintf "Feature 1 is enabled\n" []; EvPrintf "Going into dummy node 1\n" []; EvPrintf "Lcore id id %u\n" [PInt lcore]]
   else if (f2 =? 1) && (f1 =? 0) then
     [EvPrintf "Feature 2 is enabled\n" []; EvPrintf "Going into dummy node 2\n" []; EvPrintf "Lcore id id %u\n" [PInt lcore]]
   else [EvPrintf "No features enabled exiting the program\n" []]).

Record walked (f1 f2 : Z) (i : nat) (s : gstate sgraph vars) (t : trace) : Prop := {
  w_features : feature0 (app s) = f1 /\ feature1 (app s) = f2;
  w_lines : printed t = header f1 f2 ++ match i with O => [] | S _ => arc_lines f1 f2 end;
  w_rounds : match i with
             | O => resting (graph s) /\ count (app s) = 0 /\ quit (app s) = false
             | S O => quit (app s) = true \/ 1 <= count (app s)
             | _ => False
             end }.

Lemma one_idle_walk (Q : unit -> gstate sgraph vars -> trace -> Prop) X s t :
  resting (graph s) ->
  wp (process HELLO_NODE []) (fun _ s1 t1 => graph s1 = graph s /\ Q tt s1 t1) X s t -> wp walk Q X s t.
Proof.
  intros [[_ Hw] _] Hp. unfold walk, sched_walk. cbn [for_each]. do 2 wp_step. eapply wp_mono; [exact Hp| |done].
  intros r s1 t1 [Hg HQ]. wp_steps. cbn [run_waiting]. wp_step. apply wp_gets. pose proof (snext_law (graph s1)) as L.
  destruct (sgraph_next (graph s1)) as [[n' g']|]; [|by apply wp_ret].
  destruct L as (H & _). rewrite Hg in H. apply Hw in H. by apply not_elem_of_nil in H.
Qed.

Lemma arc_walk_ok f1 f2 i s t :
  f1 <> 1 \/ f2 <> 1 -> walked f1 f2 i s t -> negb (quit (app s)) && (count (app s) <? 1) = true ->
  wp walk (fun _ s' t' => walked f1 f2 (S i) s' t') (fun _ _ _ => False) s t.
Proof.
  intros Hne [[F1 F2] Hl Hr] Hc. apply andb_true_iff in Hc as [Hq Hc]. apply Z.ltb_lt in Hc. apply negb_true_iff in Hq.
  destruct i as [|[|i]]; [|destruct Hr; [congruence|lia]|done]. destruct Hr as (Hr & Hc0 & _). rewrite app_nil_r in Hl.
  assert ((f1 =? 1) && (f2 =? 0) = true \/ (f1 =? 1) && (f2 =? 0) = false /\ (f2 =? 1) && (f1 =? 0) = true \/
    (f1 =? 1) && (f2 =? 0) = false /\ (f2 =? 1) && (f1 =? 0) = false /\ (f1 =? 1) && (f2 =? 1) = false) as Hcases.
  { destruct (Z.eqb_spec f1 1), (Z.eqb_spec f2 1), (Z.eqb_spec f1 0), (Z.eqb_spec f2 0); subst; simpl; auto; lia. }
  assert (forall s' t', feature0 (app s') = f1 -> feature1 (app s') = f2 -> printed t' = printed t ++ arc_lines f1 f2 ->
    quit (app s') = true \/ 1 <= count (app s') -> walked f1 f2 1 s' t') as Hend.
  { intros s' t' H1 H2 H3 H4. constructor; [done| |done]. by rewrite H3, Hl. }
  unfold arc_lines in Hend.
  destruct Hcases as [H|[[H1 H2]|(H1 & H2 & H3)]].
  - rewrite H in Hend. apply wp_one_walk; [done|]. cbn [process]. unfold hello_node_process, incr_count, put_vars.
    do 6 wp_step. do 2 wp_step. cbn [app feature0 feature1]. rewrite F1, F2, H. unfold enqueue_to, put_sgraph. wp_steps.
    do 2 eexists. split; [done|]. intros g' Hg. cbn [process]. unfold dummy_node_process, incr_count, put_vars. wp_steps.
    split; [done|]. apply Hend; cbn [app feature0 feature1 count]; [done|done| |right; lia].
    cbn [printed]. by rewrite <- !app_assoc.
  - rewrite H1, H2 in Hend. apply wp_one_walk; [done|]. cbn [process]. unfold hello_node_process, incr_count, put_vars.
    do 6 wp_step. do 2 wp_step. cbn [app feature0 feature1]. rewrite F1, F2, H1, H2. unfold enqueue_to, put_sgraph. wp_steps.
    do 2 eexists. split; [done|]. intros g' Hg. cbn [process]. unfold dummy_node_process2, incr_count, put_vars. wp_steps.
    split; [done|]. apply Hend; cbn [app feature0 feature1 count]; [done|done| |right; lia].
    cbn [printed]. by rewrite <- !app_assoc.
  - rewrite H1, H2 in Hend. apply one_idle_walk; [done|]. cbn [process]. unfold hello_node_process, incr_count, put_vars.
    do 6 wp_step. do 2 wp_step. cbn [app feature0 feature1]. rewrite F1, F2, H1, H2, H3. wp_steps.
    split; [done|]. apply Hend; cbn [app feature0 feature1 count quit]; [done|done| |by left].
    cbn [printed]. by rewrite <- !app_assoc.
Qed.

(** The arc of two features, unless both are enabled: with one feature its node runs, in the same walk
    and with nothing to do; with none, or with flags other than 0 and 1, the source stops the program;
    in every case there is one walk at most, and none only after a signal. *)
Theorem graph_arc_correct name a1 a2 rest n s0 :
  strtol10 a1 <> 1 \/ strtol10 a2 <> 1 -> app s0 = Vars 0 0 0 false ->
  wp (main (name :: a1 :: a2 :: rest) n) (fun ended s t => exists i, (i <= 1)%nat /\
      printed t = header (strtol10 a1) (strtol10 a2) ++ match i with O => [] | S _ => arc_lines (strtol10 a1) (strtol10 a2) end /\
      (ended = true -> i = 1%nat \/ EvQuit true ∈ t) /\ (ended = false -> i = n))
    (fun c _ _ => c = EXIT_FAILURE) s0 [].
Proof.
  intros Hne H0. unfold main, eal_start, graph_create, put_sgraph, put_vars. cbn [for_each]. wp_steps; try done.
  rewrite H0. cbn [count quit].
  eapply wp_mono; [apply (wp_while_both (walked (strtol10 a1) (strtol10 a2)) _ walk (fun _ _ _ => False))| |done].
  - intros i s t Hw Hc. by apply arc_walk_ok.
  - by intros i s t b [].
  - constructor; [done|done|]. split; [apply resting_new|done].
  - intros ended s t (i & Hi & [Hf Hl Hr] & He). assert (i <= 1)%nat by (destruct i as [|[|i]]; [lia|lia|done]).
    destruct ended; cbn [when]; wp_steps; exists i; (split; [done|]); (split; [done|]); (split; [|done]); [|done].
    intros _. destruct He as [He|[t1 ->]]; [left|right; right; by left].
    destruct i as [|[|i]]; [|done|done]. destruct Hr as (_ & Hc & Hq). rewrite Hc, Hq in He. done.
Qed.
End GraphArc.

#[local] Existing Instance sim_sched.
#[local] Instance wenv : Env := sim_env (Script (fun a => match a with rte_eal_remote_launch _ _ => 0 | _ => 1 end)
  [] 0 (fun _ => 0) true None 1000).

Lemma graph_arc_correct_witness :
  let s0 : gstate sgraph vars := GState (sgraph_new : @sgraph _ Z sim_sched) (Vars 0 0 0 false) in
  wp (main 0 After ["arc"; " 0"; "1x"]%string 3) (fun ended s t => exists i, (i <= 1)%nat /\
      printed t = header 0 (strtol10 " 0") (strtol10 "1x") ++ match i with O => [] | S _ => arc_lines 0 (strtol10 " 0") (strtol10 "1x") end /\
      (ended = true -> i = 1%nat \/ EvQuit true ∈ t) /\ (ended = false -> i = 3%nat))
    (fun c _ _ => c = EXIT_FAILURE) s0 [] /\ strtol10 " 0" = 0 /\ strtol10 "1x" = 1.
Proof. split; [apply graph_arc_correct; [by left|done]|by vm_compute]. Defined.

(** Both features: when the helper runs after the source has returned it reads a variable that is gone. *)
Example both_features_undefined :
  match main (obj := Z) 0 After ["arc"; "1"; "1"]%string 3 (GState sgraph_new (Vars 0 0 0 false)) [] with Fault _ _ => True | _ => False end.
Proof. by vm_compute. Qed.
Example both_features_overlapping :
  match main (obj := Z) 0 During ["arc"; "1"; "1"]%string 3 (GState sgraph_new (Vars 0 0 0 false)) [] with
  | Done true s _ => count (app s) = 3
  | _ => False
  end.
Proof. by vm_compute. Qed.
End GraphArc.
