(* ===== verification/EventDev.v ===== *)
(** * rte_eventdev: queues of events between ports

    The interface of an event device for the programs of eventdev and
    inter_process_comm/eventdev, which use atomic queues.  How a device schedules
    is its own; [RteEventdev] states what the library promises: nothing is lost or
    made up, a port only receives from the queues linked to it, and the events of
    a flow come in order. *)

From S2P Require Import Prelude Rte Env Sim.

Definition RTE_EVENT_OP_NEW := 0.
Definition RTE_EVENT_OP_FORWARD := 1.
Definition RTE_EVENT_OP_RELEASE := 2.
Definition RTE_SCHED_TYPE_ATOMIC := 1.
Definition RTE_EVENT_TYPE_ETHDEV := 0.
Definition RTE_EVENT_TYPE_CPU := 3.

(** struct rte_event; [payload] is the union of u64, event_ptr and mbuf.  The field [op] is not
    preserved between enqueue and dequeue. *)
Record rte_event (V : Type) := Event {
  queue_id : Z; op : Z; sched_type : Z; event_type : Z; flow_id : Z; payload : V }.
Arguments Event {V}.
Arguments queue_id {V}.
Arguments op {V}.
Arguments sched_type {V}.
Arguments event_type {V}.
Arguments flow_id {V}.
Arguments payload {V}.

Definition with_op {V} (o : Z) (e : rte_event V) : rte_event V :=
  Event (queue_id e) o (sched_type e) (event_type e) (flow_id e) (payload e).
Definition same_flow {V} (e e' : rte_event V) : Prop := queue_id e = queue_id e' /\ flow_id e = flow_id e'.

(** [queued]: the events accepted and not yet received, oldest first; [linked d p]: the queues
    linked to port [p], as they were when the device was started. *)
Class RteEventdev (V : Type) := {
  evdev : Type;
  queued : evdev -> list (rte_event V);
  linked : evdev -> Z -> list Z;
  evdev_start : (Z -> list Z) -> evdev;
  ev_enqueue : evdev -> Z -> rte_event V -> Z * evdev;
  ev_dequeue : evdev -> Z -> option (rte_event V) * evdev;
  start_law l : queued (evdev_start l) = [] /\ linked (evdev_start l) = l;
  enqueue_law d p e :
    let r := ev_enqueue d p e in
    linked r.2 = linked d /\
    (r.1 = 1 /\ queued r.2 = (if op e =? RTE_EVENT_OP_RELEASE then queued d else queued d ++ [e]) \/
     r.1 = 0 /\ queued r.2 = queued d);
  dequeue_law d p :
    let r := ev_dequeue d p in
    linked r.2 = linked d /\
    match r.1 with
    | None => queued r.2 = queued d
    | Some e' => exists pre e post, queued d = pre ++ e :: post /\ queued r.2 = pre ++ post /\
        (exists o, e' = with_op o e) /\ queue_id e ∈ linked d p /\
        (sched_type e = RTE_SCHED_TYPE_ATOMIC -> Forall (fun x => ~ same_flow x e) pre)
    end
}.

Section Calls.
Context {E : Env} {V : Type} {RE : RteEventdev V}.

(** The links made so far, and the device once it is started. *)
Record evstate := EvState { links : Z -> list Z; dev : option evdev }.
Notation M := (M evstate).
Definition no_device : evstate := EvState (fun _ => []) None.
Definition set_dev (d : evdev) (s : evstate) : evstate := EvState (links s) (Some d).

(** rte_event_port_link: the first r of the queues are linked. *)
Definition rte_event_port_link (dev_id port : Z) (queues : list Z) : M Z :=
  r <-- call (api_call "rte_event_port_link" [dev_id; port; zlen queues]) ;;
  modify (fun s => EvState (fun p => if p =? port then links s p ++ take (Z.to_nat r) queues else links s p) (dev s)) ;;
  ret r.
Definition rte_event_dev_start (dev_id : Z) : M Z :=
  r <-- call (api_call "rte_event_dev_start" [dev_id]) ;;
  when (0 <=? r) (modify (fun s => set_dev (evdev_start (links s)) s)) ;;
  ret r.

(** The burst functions, which the programs call for one event; the device must be started. *)
Definition rte_event_enqueue_burst (dev_id port : Z) (e : rte_event V) : M Z :=
  o <-- gets dev ;;
  d <-- deref o ;;
  let r := ev_enqueue d port e in
  modify (set_dev r.2) ;;
  emit (EvVals "rte_event_enqueue_burst" [r.1]) ;;
  ret r.1.
Definition rte_event_dequeue_burst (dev_id port : Z) : M (option (rte_event V)) :=
  o <-- gets dev ;;
  d <-- deref o ;;
  let r := ev_dequeue d port in
  modify (set_dev r.2) ;;
  ret r.1.

(** ** Rules *)

Lemma wp_event_enqueue dev_id p e d (Q : Z -> evstate -> trace -> Prop) X s t :
  dev s = Some d ->
  (forall r d', linked d' = linked d ->
    r = 1 /\ queued d' = (if op e =? RTE_EVENT_OP_RELEASE then queued d else queued d ++ [e]) \/
    r = 0 /\ queued d' = queued d ->
    (r, d') = ev_enqueue d p e -> Q r (set_dev d' s) (EvVals "rte_event_enqueue_burst" [r] :: t)) ->
  wp (rte_event_enqueue_burst dev_id p e) Q X s t.
Proof.
  intros Hd H. unfold rte_event_enqueue_burst. wp_steps. eapply wp_deref; [done|]. wp_steps.
  destruct (enqueue_law d p e) as [L1 L2]. destruct (ev_enqueue d p e) as [r d']. by apply H.
Qed.

Lemma wp_call_is a (s : evstate) t :
  wp (call a) (fun r s' t' => r = env_call t a /\ s' = s /\ t' = EvApi a (env_call t a) :: t) (fun _ _ _ => False) s t.
Proof. done. Qed.

(** What is received: an event of a linked queue, the first of its flow if it is atomic. *)
Definition taken (d : evdev) (p : Z) (e : rte_event V) (d' : evdev) : Prop :=
  exists pre e0 post, queued d = pre ++ e0 :: post /\ queued d' = pre ++ post /\
    (exists o, e = with_op o e0) /\ queue_id e ∈ linked d p /\
    (sched_type e = RTE_SCHED_TYPE_ATOMIC -> Forall (fun x => ~ same_flow x e) pre).

Lemma wp_dequeue dev_id p d (Q : option (rte_event V) -> evstate -> trace -> Prop) X s t :
  dev s = Some d ->
  (forall d', linked d' = linked d -> queued d' = queued d -> (None, d') = ev_dequeue d p -> Q None (set_dev d' s) t) ->
  (forall e d', linked d' = linked d -> taken d p e d' -> (Some e, d') = ev_dequeue d p -> Q (Some e) (set_dev d' s) t) ->
  wp (rte_event_dequeue_burst dev_id p) Q X s t.
Proof.
  intros Hd H0 H1. unfold rte_event_dequeue_burst. wp_steps. eapply wp_deref; [done|]. wp_steps.
  destruct (dequeue_law d p) as [L1 L2]. destruct (ev_dequeue d p) as [[e|] d']; cbn [fst snd] in *; [|by apply H0].
  apply H1; [done| |done]. destruct L2 as (pre & e0 & post & ? & ? & [o ->] & ? & ?). exists pre, e0, post.
  split_and!; [done|done|by exists o|done|done].
Qed.

(** ** Loops that wait for the device *)

(** [while (rte_event_enqueue_burst(...) != 1) rte_pause();], at most [n] times; whether it ended. *)
Fixpoint enqueue_retry (n : nat) (dev_id port : Z) (e : rte_event V) : M bool :=
  match n with
  | O => ret false
  | S n' =>
      r <-- rte_event_enqueue_burst dev_id port e ;;
      if r =? 1 then ret true else enqueue_retry n' dev_id port e
  end.

(** A device with fewer than [room] events takes a new one within [k] tries. *)
Fixpoint takes (k : nat) (d : evdev) (p : Z) (e : rte_event V) : bool :=
  match k with
  | O => false
  | S k' => let r := ev_enqueue d p e in (r.1 =? 1) || takes k' r.2 p e
  end.
Definition takes_within (room : Z) (k : nat) : Prop := forall d p e, zlen (queued d) < room -> takes k d p e = true.

(** Polling each of the ports once, until one receives something. *)
Fixpoint first_delivery (ports : list Z) (d : evdev) : bool * evdev :=
  match ports with
  | [] => (false, d)
  | p :: ps => let r := ev_dequeue d p in if r.1 then (true, r.2) else first_delivery ps r.2
  end.
Fixpoint delivers (ports : list Z) (k : nat) (d : evdev) : bool :=
  match k with
  | O => false
  | S k' => let r := first_delivery ports d in r.1 || delivers ports k' r.2
  end.
(** Who polls all the ports to which the queue of a waiting event is linked, and there is one,
    receives something within [k] rounds. *)
Definition all_polled (ports : list Z) (d : evdev) : Prop :=
  exists e, e ∈ queued d /\ (exists p, p ∈ ports /\ queue_id e ∈ linked d p) /\
  forall p, queue_id e ∈ linked d p -> p ∈ ports.
Definition delivers_within (ports : list Z) (k : nat) : Prop :=
  forall d, all_polled ports d -> delivers ports k d = true.

Lemma wp_retry room k n dev_id p e d (Q : bool -> evstate -> trace -> Prop) X s t :
  takes_within room k -> zlen (queued d) < room -> (k <= n)%nat -> op e <> RTE_EVENT_OP_RELEASE -> dev s = Some d ->
  (forall d' t', linked d' = linked d -> queued d' = queued d ++ [e] ->
     (exists rs, t' = map (fun r => EvVals "rte_event_enqueue_burst" [r]) rs ++ t) -> Q true (set_dev d' s) t') ->
  wp (enqueue_retry n dev_id p e) Q X s t.
Proof.
  intros Hk Hr Hn Ho Hd HQ. specialize (Hk d p e Hr). clear Hr. apply Z.eqb_neq in Ho.
  assert (forall d' t', linked d' = linked d -> queued d' = queued d ++ [e] ->
     (exists rs, t' = map (fun r => EvVals "rte_event_enqueue_burst" [r]) rs ++ t) -> Q true (set_dev d' s) t') as HQ' by done.
  clear HQ. revert d n s t Hk Hn Hd HQ'. induction k as [|k IH]; intros d n s t Hk Hn Hd HQ; simpl in Hk; [done|].
  destruct n as [|n]; [lia|]. simpl. wp_step. eapply wp_event_enqueue; [done|]. intros r d' L1 L2 L3. rewrite <- L3 in Hk. simpl in Hk.
  destruct (Z.eqb_spec r 1) as [->|Hne].
  - apply wp_ret. rewrite Ho in L2. destruct L2 as [[_ L2]|[? _]]; [|lia]. apply HQ; [done|done|by exists [1]].
  - destruct L2 as [[? _]|[-> L2]]; [lia|]. simpl in Hk. eapply (IH d'); [done|lia|done|].
    intros d2 t2 M1 M2 [rs ->]. change (set_dev d2 (set_dev d' s)) with (set_dev d2 s). apply HQ; [congruence|congruence|].
    exists (rs ++ [0]). by rewrite map_app, <- app_assoc.
Qed.
End Calls.

(** ** A device: one list for all queues *)

Section Fifo.
Context {V : Type}.
Record fifo := Fifo { fifo_links : Z -> list Z; fifo_events : list (rte_event V) }.

(** The first event of a queue that is linked to the port, and the events without it. *)
Fixpoint take_first (l : list Z) (es : list (rte_event V)) : option (rte_event V * list (rte_event V)) :=
  match es with
  | [] => None
  | e :: es' =>
      if bool_decide (queue_id e ∈ l) then Some (e, es')
      else match take_first l es' with Some (e', r) => Some (e', e :: r) | None => None end
  end.
Definition fifo_enqueue (d : fifo) (p : Z) (e : rte_event V) : Z * fifo :=
  (1, Fifo (fifo_links d) (if op e =? RTE_EVENT_OP_RELEASE then fifo_events d else fifo_events d ++ [e])).
Definition fifo_dequeue (d : fifo) (p : Z) : option (rte_event V) * fifo :=
  match take_first (fifo_links d p) (fifo_events d) with
  | Some (e, r) => (Some e, Fifo (fifo_links d) r)
  | None => (None, d)
  end.

Lemma take_first_some l es e r : take_first l es = Some (e, r) ->
  exists pre post, es = pre ++ e :: post /\ r = pre ++ post /\ queue_id e ∈ l /\ Forall (fun x => queue_id x ∉ l) pre.
Proof.
  revert e r. induction es as [|e0 es IH]; intros e r; simpl; [done|]. case_bool_decide as Hd.
  - intros [= <- <-]. by exists [], es.
  - destruct (take_first l es) as [[e1 r1]|]; [|done]. intros [= <- <-].
    destruct (IH _ _ eq_refl) as (pre & post & -> & -> & H1 & H2). exists (e0 :: pre), post. split_and!; try done. by constructor.
Qed.
Lemma take_first_none l es : take_first l es = None -> forall e, e ∈ es -> queue_id e ∉ l.
Proof.
  induction es as [|e0 es IH]; simpl; [by intros _ e ?%not_elem_of_nil|]. case_bool_decide as Hd; [done|].
  destruct (take_first l es) as [[? ?]|]; [done|]. intros _ e [->|He]%elem_of_cons; [done|by apply IH].
Qed.

#[local] Instance fifo_device : RteEventdev V.
Proof.
  refine {| evdev := fifo; queued := fifo_events; linked := fifo_links; evdev_start l := Fifo l [];
            ev_enqueue := fifo_enqueue; ev_dequeue := fifo_dequeue |}.
  - done.
  - intros d p e. simpl. split; [done|]. by left.
  - intros d p. unfold fifo_dequeue. destruct (take_first _ _) as [[e r]|] eqn:K; [|done]. split; [done|].
    apply take_first_some in K as (pre & post & H1 & H2 & H3 & H4). exists pre, e, post. simpl. split_and!; try done.
    + exists (op e). by destruct e.
    + intros _. eapply Forall_impl; [done|]. intros x Hx [Hq _]. apply Hx. by rewrite Hq.
Defined.

Lemma fifo_takes room : takes_within room 1.
Proof. by intros d p e _. Qed.
Lemma fifo_delivers ports : delivers_within ports 1.
Proof.
  intros d (e & He & (p & Hp & Hl) & _). simpl. rewrite orb_false_r.
  enough (forall ps, p ∈ ps -> (first_delivery ps d).1 = true) as G by by apply G.
  induction ps as [|p0 ps IH]; [by intros ?%not_elem_of_nil|]. simpl. unfold fifo_dequeue.
  destruct (take_first _ _) as [[e1 r]|] eqn:K; simpl; [done|].
  intros [->|Hps]%elem_of_cons; [|by apply IH]. by destruct (take_first_none _ _ K e He).
Qed.
End Fifo.
