(* ===== verification/EventApps.v ===== *)
(** * eventdev: one lcore that sends events to itself

    [One] (eventdev/01project) sends one event from a producer port to a consumer
    port; [Two] (eventdev/02practice) sends ten events of two flows to two
    consumers.  Both wait for the device in loops that only it can end. *)

From S2P Require Import Prelude Rte Env Sim Ipc EventDev.

Definition EXIT_FAILURE := 1.
Definition EVENT_DEV_ID := 0.
Definition RTE_EVENT_DEV_PRIORITY_NORMAL := 128.
Definition RTE_EVENT_PORT_CFG_HINT_PRODUCER := 4.
Definition RTE_EVENT_PORT_CFG_HINT_CONSUMER := 8.

Section Setup.
Context {E : Env} {St : Type}.
Notation M := (M St).
(** dev_conf: queues, ports, dequeue and enqueue depth, flows, limit of events. *)
Definition dev_configure (nb_queues nb_ports : Z) : M Z :=
  call (api_call "rte_event_dev_configure" [EVENT_DEV_ID; nb_queues; nb_ports; 32; 32; 1024; 4096]).
(** qconf: schedule type, flows, order sequences, priority. *)
Definition queue_setup (q : Z) : M Z :=
  call (api_call "rte_event_queue_setup"
    [EVENT_DEV_ID; q; RTE_SCHED_TYPE_ATOMIC; 1024; 1024; RTE_EVENT_DEV_PRIORITY_NORMAL]).
(** The default configuration of the port with a hint. *)
Definition port_setup (p hint : Z) : M Z :=
  _ <-- call (api_call "rte_event_port_default_conf_get" [EVENT_DEV_ID; p]) ;;
  call (api_call "rte_event_port_setup" [EVENT_DEV_ID; p; hint]).
Definition stop_and_close : M unit :=
  _ <-- call (api_call "rte_event_dev_stop" [EVENT_DEV_ID]) ;;
  _ <-- call (api_call "rte_event_dev_close" [EVENT_DEV_ID]) ;;
  ret tt.
(** [if (r < 0) rte_exit(EXIT_FAILURE, ...);] *)
Definition check (r : Z) : M unit := when (r <? 0) (rte_exit EXIT_FAILURE).
End Setup.

(** Linking never fails. *)
Definition links_work {E : Env} : Prop :=
  forall t d p n, env_call t (api_call "rte_event_port_link" [d; p; n]) = n.

Lemma wp_link {E : Env} {V} {RE : RteEventdev V} p qs (Q : Z -> evstate -> trace -> Prop) X s t :
  links_work ->
  (forall t', t' = EvApi (api_call "rte_event_port_link" [EVENT_DEV_ID; p; zlen qs]) (zlen qs) :: t ->
    Q (zlen qs) (EvState (fun p' => if p' =? p then links s p' ++ qs else links s p') (dev s)) t') ->
  wp (rte_event_port_link EVENT_DEV_ID p qs) Q X s t.
Proof.
  intros HL H. unfold rte_event_port_link. wp_step. unfold wp at 1, call. rewrite HL. wp_steps.
  assert (take (Z.to_nat (zlen qs)) qs = qs) as -> by (apply take_ge; unfold zlen; lia). by apply H.
Qed.
Lemma wp_start {E : Env} {V} {RE : RteEventdev V} (Q : Z -> evstate -> trace -> Prop) X s t :
  (forall r, r < 0 -> Q r s (EvApi (api_call "rte_event_dev_start" [EVENT_DEV_ID]) r :: t)) ->
  (forall r, 0 <= r -> Q r (set_dev (evdev_start (links s)) s) (EvApi (api_call "rte_event_dev_start" [EVENT_DEV_ID]) r :: t)) ->
  wp (rte_event_dev_start EVENT_DEV_ID) Q X s t.
Proof. intros H0 H1. unfold rte_event_dev_start. wp_steps; [apply H1|apply H0]; lia. Qed.

(** Starting the device succeeds. *)
Definition starts {E : Env} : Prop := forall t d, 0 <= env_call t (api_call "rte_event_dev_start" [d]).

Lemma wp_starts {E : Env} {V} {RE : RteEventdev V} (Q : Z -> evstate -> trace -> Prop) X s t :
  starts ->
  (forall r, Q r (set_dev (evdev_start (links s)) s) (EvApi (api_call "rte_event_dev_start" [EVENT_DEV_ID]) r :: t)) ->
  wp (rte_event_dev_start EVENT_DEV_ID) Q X s t.
Proof.
  intros HS H. specialize (HS t EVENT_DEV_ID). apply Z.leb_le in HS.
  unfold wp, rte_event_dev_start, bind, call. rewrite HS. apply H.
Qed.

(** The events of the programs, by flow and number. *)
Definition new_event (flow i : Z) : rte_event Z :=
  Event 0 RTE_EVENT_OP_NEW RTE_SCHED_TYPE_ATOMIC RTE_EVENT_TYPE_CPU flow i.

(** ** 01project *)

Module One.
Section One.
Context {E : Env} {RE : RteEventdev Z}.
Notation M := (M evstate).
Definition NUM_QUEUES := 1.
Definition NUM_PORTS := 2.
Definition RECEIVED : string := "Received event! data=%lu\n".

(** Step 7, at most [n] polls; whether the event came. *)
Fixpoint wait_event (n : nat) : M bool :=
  match n with
  | O => ret false
  | S n' =>
      out <-- rte_event_dequeue_burst EVENT_DEV_ID 1 ;;
      match out with
      | Some e => printf RECEIVED [PInt (payload e)] ;; ret true
      | None => wait_event n'
      end
  end.

Definition setup : M unit :=
  r <-- call rte_eal_init ;;
  check r ;;
  printf "EAL initialized\n" [] ;;
  r <-- dev_configure NUM_QUEUES NUM_PORTS ;;
  check r ;;
  printf "Event device configured\n" [] ;;
  r <-- queue_setup 0 ;;
  check r ;;
  printf "Queue created\n" [] ;;
  r <-- port_setup 0 RTE_EVENT_PORT_CFG_HINT_PRODUCER ;;
  check r ;;
  r <-- port_setup 1 RTE_EVENT_PORT_CFG_HINT_CONSUMER ;;
  check r ;;
  printf "Ports created\n" [] ;;
  _ <-- rte_event_port_link EVENT_DEV_ID 1 [0] ;;
  r <-- rte_event_dev_start EVENT_DEV_ID ;;
  check r ;;
  printf "Event device started\n" [].

(** [None] while one of the loops is still running after [n] rounds. *)
Definition main (n : nat) : M (option Z) :=
  setup ;;
  printf "Enqueue event...\n" [] ;;
  sent <-- enqueue_retry n EVENT_DEV_ID 0 (new_event 1 12345) ;;
  if negb sent then ret None
  else
    printf "Waiting for event...\n" [] ;;
    got <-- wait_event n ;;
    if negb got then ret None
    else
      stop_and_close ;;
      printf "Done.\n" [] ;;
      ret (Some 0).

(** The data printed, oldest first. *)
Fixpoint data_printed (t : trace) : list Z :=
  match t with
  | [] => []
  | EvPrintf f [PInt v] :: t' => if String.eqb f RECEIVED then data_printed t' ++ [v] else data_printed t'
  | _ :: t' => data_printed t'
  end.
End One.

Section Theorems.
Context {E : Env} {RE : RteEventdev Z}.

Lemma data_retried rs t : data_printed (map (fun r => EvVals "rte_event_enqueue_burst" [r]) rs ++ t) = data_printed t.
Proof. by induction rs. Qed.

Lemma setup_one_ok s :
  links_work -> links s = (fun _ => []) ->
  wp setup (fun _ s' t' => exists d, dev s' = Some d /\ queued d = [] /\ linked d = (fun p => if p =? 1 then [0] else []) /\
    data_printed t' = []) (fun c _ t' => c = EXIT_FAILURE /\ data_printed t' = []) s [].
Proof.
  intros HL Hs. unfold setup, check, dev_configure, queue_setup, port_setup. wp_steps; try done.
  apply wp_link; [done|]. intros t' ->. wp_steps. apply wp_start.
  - intros rr Hr. wp_steps; [done|]. exfalso. match goal with K : (rr <? 0) = false |- _ => apply Z.ltb_ge in K; lia end.
  - intros rr Hr. wp_steps; [done|]. cbn [dev links set_dev]. eexists. split; [done|].
    destruct (start_law (fun p' => if p' =? 1 then links s p' ++ [0] else links s p')) as [L1 L2].
    split_and!; [done| |done]. rewrite L2, Hs. done.
Qed.

Lemma wait_event_ok j n d s t :
  delivers [1] j d = true -> (j <= n)%nat -> dev s = Some d ->
  (exists o, queued d = [with_op o (new_event 1 12345)]) -> data_printed t = [] ->
  wp (wait_event n) (fun b _ t' => b = true /\ data_printed t' = [12345]) (fun _ _ _ => False) s t.
Proof.
  revert n d s t. induction j as [|j IH]; intros n d s t Hj Hn Hd Hq Ht; [done|].
  destruct n as [|n]; [lia|]. simpl in *. wp_step. eapply wp_dequeue; [done| |].
  - intros d' L1 L2 L3. rewrite <- L3 in Hj. simpl in Hj. eapply (IH n d'); [done|lia|done|by rewrite L2|done].
  - intros e d' L1 (pre & e0 & post & L2 & _ & [o ->] & _) _. wp_steps. split; [done|]. simpl. rewrite Ht.
    destruct Hq as [o' Hq]. rewrite Hq in L2. destruct pre as [|? [|]]; [|done..]. by injection L2 as <- <-.
Qed.

(** A device that takes an event within [k] tries, and hands it over within [k] polls, gives the
    data that was sent: main returns 0 unless it exits before it has received anything. *)
Theorem one_event_received k n :
  links_work -> takes_within 1 k -> delivers_within [1] k -> (k <= n)%nat ->
  wp (main n) (fun r _ t => r = Some 0 /\ data_printed t = [12345])
    (fun c _ t => c = EXIT_FAILURE /\ data_printed t = []) no_device [].
Proof.
  intros HL HT HD Hn. unfold main. wp_step. eapply wp_mono; [by apply setup_one_ok| |done].
  intros [] s1 t1 (d & Hd & Hq & Hl & Ht). wp_steps.
  eapply (wp_retry 1 k); [done|by rewrite Hq|done|done|done|]. intros d2 t2 L1 L2 [rs ->]. wp_steps; [done|].
  rewrite Hq in L2. simpl in L2.
  eapply wp_mono; [eapply (wait_event_ok k _ d2); [|done|done|by exists 0|by simpl; rewrite data_retried]| |done].
  { apply HD. exists (new_event 1 12345). rewrite L1, L2, Hl. split; [by left|]. split.
    - exists 1. split; by left.
    - intros p. simpl. destruct (Z.eqb_spec p 1) as [->|]; [by left|]. by intros ?%not_elem_of_nil. }
  intros b s3 t3 [-> Ht3]. unfold stop_and_close. by wp_steps.
Qed.
End Theorems.
End One.

(** ** 02practice *)

Module Two.
Section Two.
Context {E : Env} {RE : RteEventdev Z}.
Notation M := (M evstate).
Definition NUM_QUEUES := 1.
Definition NUM_PORTS := 3.

Definition GOT (consumer : Z) : string :=
  if consumer =? 1 then "Consumer 1 got event %lu flow %u\n" else "Consumer 2 got event %lu flow %u\n".

(** Step 6; [ok] says whether the loops so far have ended. *)
Definition enqueue_events (n : nat) : M bool :=
  for_ 10 0 (fun i ok =>
    if ok : bool then enqueue_retry n EVENT_DEV_ID 0 (new_event (i mod 2) i) else ret false) true.

(** One [if (rte_event_dequeue_burst(...)) { ... received++; }]. *)
Definition consume (consumer received : Z) : M Z :=
  out <-- rte_event_dequeue_burst EVENT_DEV_ID consumer ;;
  match out with
  | Some e => printf (GOT consumer) [PInt (payload e); PInt (flow_id e)] ;; ret (received + 1)
  | None => ret received
  end.

(** Step 7, at most [n] iterations. *)
Fixpoint dequeue_events (n : nat) (received : Z) : M bool :=
  match n with
  | O => ret false
  | S n' =>
      if received <? 10 then
        received <-- consume 1 received ;;
        received <-- consume 2 received ;;
        dequeue_events n' received
      else ret true
  end.

Definition setup : M unit :=
  r <-- call rte_eal_init ;;
  check r ;;
  printf "EAL initialized\n" [] ;;
  r <-- dev_configure NUM_QUEUES NUM_PORTS ;;
  check r ;;
  printf "Event device configured\n" [] ;;
  r <-- queue_setup 0 ;;
  check r ;;
  printf "Queue created\n" [] ;;
  r <-- port_setup 0 RTE_EVENT_PORT_CFG_HINT_PRODUCER ;;
  check r ;;
  r <-- port_setup 1 RTE_EVENT_PORT_CFG_HINT_CONSUMER ;;
  check r ;;
  r <-- port_setup 2 RTE_EVENT_PORT_CFG_HINT_CONSUMER ;;
  check r ;;
  printf "Ports created\n" [] ;;
  _ <-- rte_event_port_link EVENT_DEV_ID 1 [0] ;;
  _ <-- rte_event_port_link EVENT_DEV_ID 2 [0] ;;
  r <-- rte_event_dev_start EVENT_DEV_ID ;;
  check r ;;
  printf "Event device started\n" [].

Definition main (n : nat) : M (option Z) :=
  setup ;;
  printf "Enqueue events...\n" [] ;;
  sent <-- enqueue_events n ;;
  if negb sent then ret None
  else
    printf "Dequeue events...\n" [] ;;
    got <-- dequeue_events n 0 ;;
    if negb got then ret None
    else
      stop_and_close ;;
      printf "Done.\n" [] ;;
      ret (Some 0).

(** The events announced: number and flow, oldest first. *)
Fixpoint announced (t : trace) : list (Z * Z) :=
  match t with
  | [] => []
  | EvPrintf f [PInt v; PInt w] :: t' =>
      if String.eqb f (GOT 1) || String.eqb f (GOT 2) then announced t' ++ [(v, w)] else announced t'
  | _ :: t' => announced t'
  end.
End Two.

Section Theorems.
Context {E : Env} {RE : RteEventdev Z}.

Lemma announced_retried rs t : announced (map (fun r => EvVals "rte_event_enqueue_burst" [r]) rs ++ t) = announced t.
Proof. by induction rs. Qed.

Definition the_event (i : Z) : rte_event Z := new_event (i mod 2) i.
Definition consumer_links (p : Z) : list Z := if (p =? 1) || (p =? 2) then [0] else [].
Definition of_flow (f : Z) (l : list Z) : list Z := filter (fun i => i mod 2 = f) l.

(** Of the numbers below [n], [got] are received and [wait] are in the device: none is lost or
    doubled, and each flow is in order. *)
Definition split_run (n : Z) (got wait : list Z) : Prop :=
  got ++ wait ≡ₚ seqZ 0 n /\ forall f, of_flow f got ++ of_flow f wait = of_flow f (seqZ 0 n).

Record inv (n : Z) (d : evdev) (t : trace) : Prop := {
  inv_links p : linked d p = consumer_links p;
  inv_split : exists got wait, queued d = map the_event wait /\ split_run n got wait /\
     announced t = map (fun i => (i, i mod 2)) got }.

Lemma split_run_take n got pre i post :
  split_run n got (pre ++ i :: post) -> Forall (fun x => x mod 2 <> i mod 2) pre -> split_run n (got ++ [i]) (pre ++ post).
Proof.
  intros [Hp Hf] Hpre. split.
  - rewrite <- Hp, <- app_assoc. simpl. by rewrite Permutation_middle.
  - intros f. rewrite <- Hf. unfold of_flow. rewrite !filter_app, !filter_cons. simpl. rewrite filter_nil.
    destruct (decide (i mod 2 = f)) as [<-|]; [|by rewrite app_nil_r].
    assert (filter (fun x => x mod 2 = i mod 2) pre = []) as ->; [|by rewrite <- app_assoc].
    clear Hp Hf. induction Hpre as [|x l Hx _ IH]; [done|]. by rewrite filter_cons, decide_False.
Qed.
Lemma split_run_put n got wait : 0 <= n -> split_run n got wait -> split_run (n + 1) got (wait ++ [n]).
Proof.
  intros Hn [Hp Hf]. unfold split_run. rewrite seqZ_snoc by done. split.
  - by rewrite app_assoc, Hp.
  - intros f. unfold of_flow in *. by rewrite !filter_app, app_assoc, Hf.
Qed.

Lemma the_event_flow i j : same_flow (the_event i) (the_event j) <-> i mod 2 = j mod 2.
Proof. unfold same_flow. simpl. tauto. Qed.

Lemma seqZ10_bound i : i ∈ seqZ 0 10 -> 0 <= i < 10.
Proof. rewrite elem_of_seqZ. lia. Qed.

Lemma GOT_announced c v w t : c = 1 \/ c = 2 ->
  announced (EvPrintf (GOT c) [PInt v; PInt w] :: t) = announced t ++ [(v, w)].
Proof. by intros [-> | ->]. Qed.

(** One poll: either nothing happens, or the next event of a flow is announced. *)
Lemma consume_ok c r n d s t :
  c = 1 \/ c = 2 -> dev s = Some d -> inv n d t ->
  wp (consume c r) (fun r' s' t' => exists d', dev s' = Some d' /\ inv n d' t' /\
    ((r' = r /\ queued d' = queued d /\ ev_dequeue d c = (None, d')) \/
     (r' = r + 1 /\ length (queued d) = S (length (queued d'))))) (fun _ _ _ => False) s t.
Proof.
  intros Hc Hd [Il (got & wait & Hq & Hs & Ha)]. unfold consume. wp_step. eapply wp_dequeue; [done| |].
  - intros d' L1 L2 L3. wp_steps. exists d'. split; [done|]. split; [|by left].
    constructor; [by rewrite L1|]. exists got, wait. by rewrite L2.
  - intros e d' L1 (pre & e0 & post & Q1 & Q2 & [o ->] & _ & Hf) _. wp_steps. exists d'. split; [done|]. rewrite Hq in Q1.
    apply map_eq_app in Q1 as (wpre & wrest & -> & <- & Q1).
    apply map_eq_cons in Q1 as (i & wpost & -> & <- & <-). split.
    + constructor; [by rewrite L1|]. exists (got ++ [i]), (wpre ++ wpost). rewrite map_app. split_and!; [done| |].
      * apply split_run_take; [done|]. specialize (Hf eq_refl). rewrite Forall_map in Hf.
        eapply Forall_impl; [done|]. intros x Hx. simpl in Hx. intros Heq. by apply Hx, the_event_flow.
      * by rewrite GOT_announced, Ha, map_app.
    + right. split; [done|]. rewrite Hq, Q2, !length_app. simpl. rewrite !length_map, length_app. simpl. lia.
Qed.

Lemma enqueue_events_ok k n d s t :
  takes_within 10 k -> (k <= n)%nat -> dev s = Some d -> queued d = [] -> (forall p, linked d p = consumer_links p) -> announced t = [] ->
  wp (enqueue_events n) (fun b s' t' => b = true /\ exists d', dev s' = Some d' /\ inv 10 d' t' /\ announced t' = [])
    (fun _ _ _ => False) s t.
Proof.
  intros HT Hn Hd Hq Hl Ht. unfold enqueue_events.
  eapply wp_mono; [apply (wp_for (fun i b s t => b = true /\ exists d', dev s = Some d' /\ (forall p, linked d' p = consumer_links p) /\
    queued d' = map the_event (seqZ 0 i) /\ announced t = []) _ (fun _ _ _ => False))| |done].
  - intros i b s1 t1 Hi (-> & d1 & D1 & D2 & D3 & D4).
    eapply (wp_retry 10 k); [done| |done|done|done|].
    + rewrite D3. unfold zlen. rewrite length_map, length_seqZ. lia.
    + intros d2 t2 L1 L2 [rs ->]. split; [done|]. exists d2. rewrite announced_retried.
      split_and!; [done|by rewrite L1| |done]. rewrite L2, D3, (seqZ_app 0 i 1), map_app by lia. done.
  - split; [done|]. exists d. by rewrite Hq.
  - intros b s1 t1 (-> & d1 & D1 & D2 & D3 & D4). split; [done|]. exists d1. split_and!; [done| |done].
    constructor; [done|]. exists [], (seqZ 0 10). rewrite D4. split; [done|]. split; [|done]. by split.
Qed.

(** Polled again and again, the device hands over all ten events. *)
Lemma dequeue_events_ok k j n r d s t :
  delivers_within [1; 2] k -> dev s = Some d -> inv 10 d t -> r = 10 - zlen (queued d) ->
  (j <= k)%nat -> (length (queued d) * k + j < n + k)%nat ->
  (queued d = [] /\ j = k \/ queued d <> [] /\ delivers [1; 2] j d = true) ->
  wp (dequeue_events n r) (fun b s' t' => b = true /\ exists d', dev s' = Some d' /\ inv 10 d' t' /\ queued d' = [])
    (fun _ _ _ => False) s t.
Proof.
  intros HD. revert j r d s t. induction n as [|n IH]; intros j r d s t Hd HI Hr Hj Hn Hdel; cbn [dequeue_events].
  { exfalso. destruct Hdel as [[Hq ->]|[Hq _]]; [rewrite Hq in Hn; simpl in Hn; lia|].
    destruct (queued d); [done|]. simpl in Hn. lia. }
  assert (zlen (queued d) = Z.of_nat (length (queued d))) as Hz by done.
  destruct Hdel as [[Hq ->]|[Hq Hdel]].
  { rewrite Hq in *. simpl in Hr. rewrite Hr. simpl. apply wp_ret. split; [done|]. by exists d. }
  destruct (queued d) as [|e0 q0] eqn:Hqd; [done|]. rewrite <- Hqd in *. clear Hq.
  assert (length (queued d) = S (length q0)) as Hlen by by rewrite Hqd.
  destruct (Z.ltb_spec r 10) as [Hlt|]; [|lia].
  (* what remains after progress *)
  assert (forall d' s' t' r', dev s' = Some d' -> inv 10 d' t' -> r' = 10 - zlen (queued d') ->
    (length (queued d') < length (queued d))%nat ->
    wp (dequeue_events n r') (fun b s' t' => b = true /\ exists d', dev s' = Some d' /\ inv 10 d' t' /\ queued d' = [])
      (fun _ _ _ => False) s' t') as Hnext.
  { intros d' s' t' r' D' I' R' Hl'. eapply (IH k); [done..| |].
    - destruct j as [|j]; [done|]. nia.
    - destruct (queued d') as [|e' q'] eqn:Hq'; [by left|]. right. split; [done|]. apply HD.
      destruct I' as [Il (got & wait & Hw & _ & _)]. exists e'. rewrite Hq'. split; [by left|].
      assert (queue_id e' = 0) as ->.
      { rewrite Hq' in Hw. destruct wait; [done|]. by injection Hw as -> _. }
      split; [exists 1; rewrite Il; split; by left|]. intros p. rewrite Il. unfold consumer_links.
      destruct (Z.eqb_spec p 1) as [->|]; [by left|]. destruct (Z.eqb_spec p 2) as [->|]; [by right; left|].
      by intros ?%not_elem_of_nil. }
  wp_step. eapply wp_mono; [apply (consume_ok 1); [by left|done|done]| |done].
  intros r1 s1 t1 (d1 & D1 & I1 & C1). wp_step.
  eapply wp_mono; [apply (consume_ok 2); [by right|done|done]| |done]. intros r2 s2 t2 (d2 & D2 & I2 & C2).
  unfold zlen in *. destruct C1 as [(-> & Q1 & E1)|(-> & Q1)], C2 as [(-> & Q2 & E2)|(-> & Q2)].
  - destruct j as [|j]; [done|]. eapply (IH j _ d2); [done|done| |lia| |].
    + rewrite Q2, Q1. lia.
    + rewrite Q2, Q1. lia.
    + right. rewrite Q2, Q1, Hqd. split; [done|]. simpl in Hdel. rewrite E1 in Hdel. simpl in Hdel. by rewrite E2 in Hdel.
  - rewrite Q1 in Q2. apply (Hnext d2); [done|done|lia|lia].
  - apply (Hnext d2); [done|done|rewrite Q2; lia|rewrite Q2; lia].
  - apply (Hnext d2); [done|done|lia|lia].
Qed.

Lemma setup_two_ok s :
  links_work -> links s = (fun _ => []) ->
  wp setup (fun _ s' t' => exists d, dev s' = Some d /\ queued d = [] /\ (forall p, linked d p = consumer_links p) /\
    announced t' = []) (fun c _ t' => c = EXIT_FAILURE /\ announced t' = []) s [].
Proof.
  intros HL Hs. unfold setup, check, dev_configure, queue_setup, port_setup. wp_steps; try done.
  apply wp_link; [done|]. intros t' ->. wp_steps. apply wp_link; [done|]. intros t' ->. wp_steps. apply wp_start.
  - intros rr Hr. wp_steps; [done|]. exfalso. match goal with K : (rr <? 0) = false |- _ => apply Z.ltb_ge in K; lia end.
  - intros rr Hr. wp_steps; [done|]. eexists. split; [done|].
    split_and!; [apply start_law| |done]. intros p.
    match goal with |- linked (evdev_start ?l) _ = _ => destruct (start_law l) as [_ ->] end.
    simpl. rewrite Hs. unfold consumer_links.
    destruct (Z.eqb_spec p 2) as [->|]; [done|]. by destruct (p =? 1).
Qed.

(** C16: A device that takes an event within [k] tries, and hands one over within [k] rounds of polls, hands
    over each of the ten events exactly once, in an order of its own that keeps the order of each
    flow: the consumers announce them with their flows and main returns 0. *)
Theorem two_consumers_correct k n :
  links_work -> takes_within 10 k -> delivers_within [1; 2] k -> (10 * k < n)%nat ->
  wp (main n)
    (fun r _ t => r = Some 0 /\ exists got, announced t = map (fun i => (i, i mod 2)) got /\ got ≡ₚ seqZ 0 10 /\
       of_flow 0 got = [0; 2; 4; 6; 8] /\ of_flow 1 got = [1; 3; 5; 7; 9])
    (fun c _ t => c = EXIT_FAILURE /\ announced t = []) no_device [].
Proof.
  intros HL HT HD Hn. unfold main. wp_step. eapply wp_mono; [by apply setup_two_ok| |done].
  intros [] s1 t1 (d & Hd & Hq & Hl & Ht). wp_steps.
  eapply wp_mono; [eapply (enqueue_events_ok k n d); [done|lia|done..]| |done].
  intros b s2 t2 (-> & d2 & D2 & I2 & A2). wp_steps; [done|].
  assert (exists wait, queued d2 = map the_event wait /\ wait ≡ₚ seqZ 0 10) as (wait & W1 & W2).
  { destruct I2 as [_ (got & wait & W1 & [W2 _] & W3)]. rewrite A2 in W3. destruct got; [|done]. by exists wait. }
  assert (length (queued d2) = 10%nat) as Hlen by by rewrite W1, length_map, W2.
  eapply wp_mono; [eapply (dequeue_events_ok k k n 0 d2); [done|done|by destruct I2; constructor|by unfold zlen; rewrite Hlen|done|lia|]| |done].
  { right. split; [by intros Hz; rewrite Hz in Hlen|]. apply HD. destruct I2 as [Il _].
    destruct wait as [|i wait]; [by rewrite W1 in Hlen|]. exists (the_event i). rewrite W1. split; [by left|].
    split; [exists 1; rewrite Il; split; by left|]. intros p. rewrite Il. simpl. unfold consumer_links.
    destruct (Z.eqb_spec p 1) as [->|]; [by left|]. destruct (Z.eqb_spec p 2) as [->|]; [by right; left|].
    by intros ?%not_elem_of_nil. }
  intros b s3 t3 (-> & d3 & D3 & [_ (got & wait' & V1 & [V2 V3] & V4)] & Q3). unfold stop_and_close. wp_steps; [done|].
  split; [done|]. exists got. rewrite Q3 in V1. destruct wait'; [|done]. rewrite app_nil_r in V2.
  split_and!; [done|done| |].
  - specialize (V3 0). rewrite app_nil_r in V3. by rewrite V3.
  - specialize (V3 1). rewrite app_nil_r in V3. by rewrite V3.
Qed.
End Theorems.
End Two.

(** ** Witnesses *)

Definition links_script : script :=
  Script (fun a => match a with api_call _ [_; _; n] => n | rte_pktmbuf_pool_create _ _ _ _ _ => 1 | _ => 0 end) [] 0 (fun t => Z.of_nat (length t)) true None 0.
#[local] Instance links_env : Env := sim_env links_script.
#[local] Instance links_dev : RteEventdev Z := fifo_device.

Lemma one_event_received_witness :
  links_work /\ takes_within 1 1 /\ delivers_within [1] 1 /\
  wp (One.main 1) (fun r _ t => r = Some 0 /\ One.data_printed t = [12345])
    (fun c _ t => c = EXIT_FAILURE /\ One.data_printed t = []) no_device [].
Proof.
  assert (links_work) as HL by done. pose proof (fifo_takes (V := Z) 1) as HT. pose proof (fifo_delivers (V := Z) [1]) as HD.
  split_and!; [done..|]. by apply (One.one_event_received 1 1).
Defined.

Lemma two_consumers_correct_witness :
  links_work /\ takes_within 10 1 /\ delivers_within [1; 2] 1 /\
  wp (Two.main 11)
    (fun r _ t => r = Some 0 /\ exists got, Two.announced t = map (fun i => (i, i mod 2)) got /\ got ≡ₚ seqZ 0 10 /\
       Two.of_flow 0 got = [0; 2; 4; 6; 8] /\ Two.of_flow 1 got = [1; 3; 5; 7; 9])
    (fun c _ t => c = EXIT_FAILURE /\ Two.announced t = []) no_device [].
Proof.
  assert (links_work) as HL by done. pose proof (fifo_takes (V := Z) 10) as HT. pose proof (fifo_delivers (V := Z) [1; 2]) as HD.
  split_and!; [done..|]. apply (Two.two_consumers_correct 1 11); try done. lia.
Defined.
