(* ===== verification/EventWorkers.v ===== *)
(** * eventdev: events between threads and between processes

    [Parallel] (eventdev/practice): the main lcore sends an event to a worker, both
    through event port 0.  [Parsing] (eventdev/parsing_event): a worker prints the
    addresses of packets that an adapter turns into events.  [Processes]
    (inter_process_comm/eventdev): a primary sends mbufs to a secondary. *)

From S2P Require Import Prelude Rte Env Sim Schedule Threads Ipc BurstIo EventDev EventApps.

(** ** eventdev/practice *)

Module Parallel.

(** The functions of an event device must not be called in parallel on the same port: a call is two
    steps, and [busy] says that one is under way.  [running]: the worker lcore is. *)
Record wstate {RE : RteEventdev Z} := W { ev : evstate; busy : bool; running : bool }.
Arguments W {RE}.

Inductive main_pc := MPrint | MEnqueue | MCalling | MWait | MDone.
Inductive worker_pc := WStart | WPoll | WCalling | WDone.

Section Parallel.
Context {E : Env} {RE : RteEventdev Z}.
(** The worker lcores. *)
Variable workers : list Z.
Notation M := (M wstate).
Definition NUM_QUEUES := 1.
Definition NUM_PORTS := 1.
Definition GOT : string := "Worker lcore %u got event, data=%lu, flow_id=%u\n".
Definition COMPLETED : string := "Event processing completed\n".

Definition wstate0 : wstate := W no_device false false.
Definition on_dev {A} (m : Env.M evstate A) : M A := zoom ev (fun e s => W e (busy s) (running s)) m.
Definition begin_call : M unit :=
  b <-- gets busy ;;
  if b : bool then fault else modify (fun s => W (ev s) true (running s)).
Definition end_call : M unit := modify (fun s => W (ev s) false (running s)).
Definition set_running (b : bool) : M unit := modify (fun s => W (ev s) (busy s) b).

(** main up to the launch of the first worker lcore; the result of the launch is ignored. *)
Definition start : M (main_pc * worker_pc) :=
  r <-- call rte_eal_init ;;
  when (r <? 0) (rte_exit EXIT_FAILURE) ;;
  printf "Eal initialized\n" [] ;;
  r <-- dev_configure NUM_QUEUES NUM_PORTS ;;
  when (r <? 0) (rte_exit EXIT_FAILURE) ;;
  printf "Event dev configured\n" [] ;;
  r <-- queue_setup 0 ;;
  when (negb (r =? 0)) (rte_exit EXIT_FAILURE) ;;
  printf "Queue created\n" [] ;;
  r <-- port_setup 0 0 ;;
  when (negb (r =? 0)) (rte_exit EXIT_FAILURE) ;;
  printf "Port created\n" [] ;;
  r <-- on_dev (rte_event_port_link EVENT_DEV_ID 0 [0]) ;;
  when (r <? 0) (rte_exit EXIT_FAILURE) ;;
  r <-- on_dev (rte_event_dev_start EVENT_DEV_ID) ;;
  when (r <? 0) (rte_exit EXIT_FAILURE) ;;
  printf "Event device started\n" [] ;;
  printf "Port linked to queue\n" [] ;;
  match workers with
  | [] => ret (MPrint, WDone)
  | w :: _ =>
      r <-- call (rte_eal_remote_launch "event_worker" w) ;;
      if r =? 0 then set_running true ;; ret (MPrint, WStart) else ret (MPrint, WDone)
  end.

(** The rest of main: the delay of 100 ms orders nothing. *)
Definition main_step (pc : main_pc) : M main_pc :=
  match pc with
  | MPrint => printf "Main lcore enqueuing event\n" [] ;; ret MEnqueue
  | MEnqueue => begin_call ;; ret MCalling
  | MCalling =>
      r <-- on_dev (rte_event_enqueue_burst EVENT_DEV_ID 0 (new_event 1 42)) ;;
      end_call ;;
      ret (if r =? 1 then MWait else MEnqueue)
  | MWait =>
      b <-- gets running ;;
      if b : bool then ret MWait else printf COMPLETED [] ;; ret MDone
  | MDone => ret MDone
  end.
Definition event_worker (pc : worker_pc) : M worker_pc :=
  let lcore := hd 0 workers in
  match pc with
  | WStart => printf "Worker running on lcore %u\n" [PInt lcore] ;; ret WPoll
  | WPoll => begin_call ;; ret WCalling
  | WCalling =>
      out <-- on_dev (rte_event_dequeue_burst EVENT_DEV_ID 0) ;;
      end_call ;;
      match out with
      | Some e => printf GOT [PInt lcore; PInt (payload e); PInt (flow_id e)] ;; set_running false ;; ret WDone
      | None => ret WPoll
      end
  | WDone => ret WDone
  end.

Definition main (sched : list proc) : M (main_pc * worker_pc) :=
  pcs <-- start ;; run main_step event_worker sched pcs.

(** The data and flows the worker printed. *)
Fixpoint got (t : trace) : list (Z * Z) :=
  match t with
  | [] => []
  | EvPrintf f [PInt _; PInt v; PInt w] :: t' => if String.eqb f GOT then got t' ++ [(v, w)] else got t'
  | _ :: t' => got t'
  end.
Fixpoint completed (t : trace) : bool :=
  match t with
  | [] => false
  | EvPrintf f [] :: t' => String.eqb f COMPLETED || completed t'
  | _ :: t' => completed t'
  end.
End Parallel.

Section Theorems.
Context {E : Env} {RE : RteEventdev Z} (workers : list Z).

(** The next step begins a call while the other thread is in one. *)
Definition collides (x : proc) (p : main_pc * worker_pc) : bool :=
  match x, p with
  | Primary, (MEnqueue, WCalling) | Secondary, (MCalling, WPoll) => true
  | _, _ => false
  end.

Definition sent (pc : main_pc) : bool := match pc with MWait | MDone => true | _ => false end.
Definition in_call (p : main_pc * worker_pc) : bool :=
  match p with (MCalling, _) | (_, WCalling) => true | _ => false end.
(** [launched] says whether there is a worker. *)
Record inv (launched : bool) (p : main_pc * worker_pc) (s : wstate) (t : trace) : Prop := {
  inv_dev : exists d, dev (ev s) = Some d /\
    queued d = (if sent p.1 then match got t with [] => [new_event 1 42] | _ => [] end else []);
  inv_busy : busy s = in_call p;
  inv_calls : p <> (MCalling, WCalling);
  inv_running : running s = match p.2 with WDone => false | _ => true end;
  inv_worker : if launched then got t = match p.2 with WDone => [(42, 1)] | _ => [] end else p.2 = WDone /\ got t = [];
  inv_sent : got t <> [] -> sent p.1 = true;
  inv_done : completed t = true -> launched = true -> got t = [(42, 1)] }.

Lemma main_step_ok launched mp wp0 s t :
  inv launched (mp, wp0) s t -> collides Primary (mp, wp0) = false ->
  wp (main_step mp) (fun mp' s' t' => inv launched (mp', wp0) s' t') (fun _ _ _ => False) s t.
Proof.
  intros [[d [Hd Hq]] Hb Hc Hr Hw Hs Hdn] K. destruct mp; simpl in *.
  - wp_steps. constructor; simpl; try done; eauto.
  - wp_steps. unfold begin_call. wp_steps; [exfalso; destruct wp0; congruence|].
    constructor; simpl; try done; eauto. destruct wp0; done.
  - assert (got t = []) as Hg by (destruct (got t); [done|by discriminate Hs]).
    wp_step. apply wp_zoom. eapply wp_event_enqueue; [done|]. intros rr d' L1 L2 _. unfold end_call. wp_steps.
    simpl in L2. rewrite Hq in L2. destruct L2 as [[-> L2]|[-> L2]]; simpl; constructor; simpl; try done;
      try (eexists; split; [done|]; by rewrite ?Hg); by destruct wp0.
  - wp_steps; constructor; simpl; try done; eauto.
    + intros _ ->. destruct wp0; done || congruence.
  - wp_steps. constructor; simpl; eauto.
Qed.

Lemma worker_step_ok launched mp wp0 s t :
  inv launched (mp, wp0) s t -> collides Secondary (mp, wp0) = false ->
  wp (event_worker workers wp0) (fun wp' s' t' => inv launched (mp, wp') s' t') (fun _ _ _ => False) s t.
Proof.
  intros [[d [Hd Hq]] Hb Hc Hr Hw Hs Hdn] K. destruct wp0; simpl in *.
  - wp_steps. constructor; simpl; try done; eauto; destruct mp, launched; done || by destruct Hw.
  - wp_steps. unfold begin_call. wp_steps; [exfalso; destruct mp; congruence|].
    constructor; simpl; try done; eauto; destruct mp, launched; done || by destruct Hw.
  - destruct launched; [|by destruct Hw]. rewrite Hw in Hq.
    wp_step. apply wp_zoom. eapply wp_dequeue; [done| |].
    + intros d' L1 L2 _. unfold end_call. wp_steps.
      constructor; simpl; try done; [exists d'; by rewrite L2, Hq, Hw|by destruct mp..].
    + intros e d' L1 (pre & e0 & post & Q1 & Q2 & [o ->] & _) _. unfold end_call, set_running. wp_steps.
      rewrite Hq in Q1. destruct (sent mp) eqn:Hm; [|by destruct pre].
      destruct pre as [|? [|]]; [|done..]. injection Q1 as <- <-.
      constructor; simpl; rewrite ?Hw; simpl; try done; [exists d'; by rewrite Hm|by destruct mp..].
  - wp_steps. constructor; simpl; eauto.
Qed.

Lemma start_workers_ok :
  wp (start workers) (fun p s t => exists launched, inv launched p s t /\ (launched = true -> p = (MPrint, WStart)) /\
      (launched = false -> p = (MPrint, WDone)))
    (fun c _ t => c = EXIT_FAILURE /\ got t = []) wstate0 [].
Proof.
  unfold start, dev_configure, queue_setup, port_setup, set_running. wp_steps; try done.
  apply wp_zoom. unfold rte_event_port_link. wp_steps; [done|]. apply wp_zoom. apply wp_start.
  - intros rr Hr. wp_steps; [done|]. exfalso. match goal with K : (rr <? 0) = false |- _ => apply Z.ltb_ge in K; lia end.
  - intros rr Hr. wp_steps; [done|]. destruct workers as [|w ws]; wp_steps;
      [exists false|exists true|exists false]; (split; [|done]); constructor; simpl; try done;
      eexists; (split; [done|]); apply start_law.
Qed.

(** For every schedule in which the two lcores never use port 0 at the same time: the worker prints the
    event that was sent, at most once, and main announces the end only after that, or if there is no
    worker.  A schedule that comes to a call during the other's call is outside what the library allows. *)
Theorem parallel_correct sched :
  wp (start workers) (fun p0 s0 t0 =>
      wp (run main_step (event_worker workers) sched p0)
        (fun p _ t => (got t = [] \/ got t = [(42, 1)]) /\
           (completed t = true -> p0.2 = WStart -> got t = [(42, 1)])) (fun _ _ _ => False) s0 t0 \/
      exists pre x post, sched = pre ++ x :: post /\
        wp (run main_step (event_worker workers) pre p0) (fun p _ _ => collides x p = true) (fun _ _ _ => False) s0 t0)
    (fun c _ t => c = EXIT_FAILURE /\ got t = []) wstate0 [].
Proof.
  eapply wp_mono; [apply start_workers_ok| |done]. intros p0 s0 t0 (launched & I0 & H1 & H2).
  destruct (wp_run_or main_step (event_worker workers) (inv launched) (fun x p _ => negb (collides x p))) with
    (sched := sched) (p := p0) (s := s0) (t := t0) as [G|(pre & x & post & -> & G)]; [|done| |].
  - intros x [mp wp0] s t I K. apply negb_true_iff in K. destruct x; unfold proc_step; simpl; wp_step.
    + eapply wp_mono; [by eapply main_step_ok| |done]. intros mp' s' t' H. by wp_steps.
    + eapply wp_mono; [by eapply worker_step_ok| |done]. intros wp' s' t' H. by wp_steps.
  - left. eapply wp_mono; [exact G| |done]. intros p s t [_ _ _ _ Hw _ Hd]. split.
    + destruct launched; [|left; apply Hw]. destruct (p.2); auto.
    + intros Hc Hp. apply Hd; [done|]. destruct launched; [done|]. by rewrite H2 in Hp.
  - right. exists pre, x, post. split; [done|]. eapply wp_mono; [exact G| |done].
    intros p s t [_ K]. by apply negb_false_iff in K.
Qed.

(** And such a schedule exists whenever the worker was launched. *)
Theorem parallel_use :
  wp (start workers) (fun p0 s0 t0 => p0.2 = WStart ->
      exists s t, run main_step (event_worker workers) [Secondary; Secondary; Primary; Primary] p0 s0 t0 = Fault s t)
    (fun _ _ _ => True) wstate0 [].
Proof.
  eapply wp_mono; [apply start_workers_ok| |done]. intros p0 s0 t0 (launched & I0 & H1 & H2) Hp.
  destruct launched; [|by rewrite H2 in Hp]. rewrite H1 in * by done.
  destruct I0 as [_ Hb _ _ _ _ _]. simpl in Hb. do 2 eexists.
  cbn. unfold bind, gets, begin_call, proc_step, ret, printf, emit, modify, fault. cbn. unfold bind, gets, modify. rewrite Hb. cbn. reflexivity.
Qed.
End Theorems.
End Parallel.

(** ** inter_process_comm/eventdev *)

Module Processes.
Inductive primary_pc := PAlloc | PEnqueue (m : mbuf).
Inductive secondary_pc := SInit | SPoll | SExit.

Section Processes.
Context {E : Env} {RE : RteEventdev mbuf}.
Notation M := (M evstate).
Definition NUM_MBUFS := 1024.
Definition CACHE_SIZE := 32.
Definition RTE_MBUF_DEFAULT_BUF_SIZE := 2176.

(** primary.c before its loop: only the first two results are tested.  NULL for the queues of a
    port is all queues, and there is one. *)
Definition setup : M Z :=
  r <-- call rte_eal_init ;;
  when (r <? 0) (rte_exit EXIT_FAILURE) ;;
  printf "Primary process started\n" [] ;;
  mp <-- call (rte_pktmbuf_pool_create "MBUF_POOL" NUM_MBUFS CACHE_SIZE 0 RTE_MBUF_DEFAULT_BUF_SIZE) ;;
  when (mp =? 0) (rte_exit EXIT_FAILURE) ;;
  _ <-- call (api_call "rte_event_dev_configure" [EVENT_DEV_ID; 1; 2; 32; 32; 1024; 4096]) ;;
  _ <-- call (api_call "rte_event_queue_setup" [EVENT_DEV_ID; 0; RTE_SCHED_TYPE_ATOMIC; 1024; 0; 0]) ;;
  _ <-- call (api_call "rte_event_port_setup" [EVENT_DEV_ID; 0; 1024; 32; 32]) ;;
  _ <-- call (api_call "rte_event_port_setup" [EVENT_DEV_ID; 1; 1024; 32; 32]) ;;
  _ <-- rte_event_port_link EVENT_DEV_ID 0 [0] ;;
  _ <-- rte_event_port_link EVENT_DEV_ID 1 [0] ;;
  _ <-- rte_event_dev_start EVENT_DEV_ID ;;
  printf "Primary sending events...\n" [] ;;
  ret mp.

Definition mbuf_event (m : mbuf) : rte_event mbuf :=
  Event 0 RTE_EVENT_OP_NEW RTE_SCHED_TYPE_ATOMIC RTE_EVENT_TYPE_CPU 0 m.

(** The loop of primary.c: whether the event was accepted is not tested. *)
Definition primary_step (mp : Z) (pc : primary_pc) : M primary_pc :=
  match pc with
  | PAlloc =>
      m <-- rte_pktmbuf_alloc mp ;;
      ret (match m with Some m => PEnqueue m | None => PAlloc end)
  | PEnqueue m =>
      _ <-- rte_event_enqueue_burst EVENT_DEV_ID 0 (mbuf_event m) ;;
      _ <-- call (api_call "rte_delay_us_sleep" [100000]) ;;
      ret PAlloc
  end.

(** secondary.c *)
Definition secondary_step (pc : secondary_pc) : M secondary_pc :=
  match pc with
  | SInit =>
      r <-- call rte_eal_init ;;
      if r <? 0 then ret SExit else printf "Secondary process started\n" [] ;; ret SPoll
  | SPoll =>
      out <-- rte_event_dequeue_burst EVENT_DEV_ID 1 ;;
      match out with
      | Some e =>
          printf "Secondary received event!\n" [] ;;
          rte_pktmbuf_free (payload e) ;;
          ret SPoll
      | None => ret SPoll
      end
  | SExit => ret SExit
  end.

Definition main (sched : list proc) : M (primary_pc * secondary_pc) :=
  mp <-- setup ;;
  run (primary_step mp) secondary_step sched (PAlloc, SInit).

(** Of the trace: the mbufs allocated, those freed, and the events that the device refused. *)
Fixpoint allocated (t : trace) : list mbuf :=
  match t with
  | [] => []
  | EvAlloc _ (Some m) :: t' => allocated t' ++ [m]
  | _ :: t' => allocated t'
  end.
Fixpoint freed (t : trace) : list mbuf :=
  match t with
  | [] => []
  | EvFree m :: t' => freed t' ++ [m]
  | _ :: t' => freed t'
  end.
Fixpoint refusals (t : trace) : nat :=
  match t with
  | [] => O
  | EvVals what [0] :: t' => if String.eqb what "rte_event_enqueue_burst" then S (refusals t') else refusals t'
  | _ :: t' => refusals t'
  end.
Definition held (pc : primary_pc) : list mbuf := match pc with PEnqueue m => [m] | PAlloc => [] end.
End Processes.

Section Theorems.
Context {E : Env} {RE : RteEventdev mbuf}.

(** Every mbuf is with the primary, in the device, freed once, or lost; [D] says what is known of
    the device. *)
Definition inv (D : evdev -> Prop) (p : primary_pc * secondary_pc) (s : evstate) (t : trace) : Prop :=
  exists d, dev s = Some d /\ D d /\ exists lost,
    allocated t ≡ₚ held p.1 ++ freed t ++ map payload (queued d) ++ lost /\ length lost = refusals t.

Lemma setup_processes_ok :
  starts ->
  wp setup (fun _ s t => exists d, dev s = Some d /\ queued d = [] /\ linked d = links s /\
      allocated t = [] /\ freed t = [] /\ refusals t = O) (fun c _ t => c = EXIT_FAILURE /\ allocated t = []) no_device [].
Proof.
  intros HS. unfold setup. wp_steps; try done. unfold rte_event_port_link. wp_steps.
  apply wp_starts; [done|]. intros rr. wp_steps. eexists. split; [done|].
  match goal with |- context [evdev_start ?l] => destruct (start_law l) as [L1 L2] end. by rewrite L1, L2.
Qed.

Lemma primary_ok D mp pp sp s t :
  (forall d d' e r, D d -> (r, d') = ev_enqueue d 0 e -> D d') ->
  inv D (pp, sp) s t ->
  wp (primary_step mp pp) (fun pp' s' t' => inv D (pp', sp) s' t' /\ (freed t' = freed t)) (fun _ _ _ => False) s t.
Proof.
  intros HD (d & Hd & HDd & lost & Hp & Hl). destruct pp as [|m]; simpl in *.
  - wp_step. apply wp_alloc; intros; wp_steps; (split; [|done]); exists d; (split_and!; [done..|]); exists lost; simpl; [done|].
    split; [|done]. rewrite Hp. by rewrite Permutation_app_comm.
  - wp_step. eapply wp_event_enqueue; [done|]. intros rr d' L1 L2 L3. wp_steps. split; [|by simpl].
    exists d'. split; [done|]. split; [by eapply HD|]. destruct L2 as [[-> L2]|[-> L2]]; simpl in L2; rewrite L2.
    + exists lost. split; [|done]. simpl. rewrite Hp, map_app. simpl. solve_Permutation.
    + exists (m :: lost). split; [|simpl; by rewrite Hl]. simpl. rewrite Hp. solve_Permutation.
Qed.

Lemma secondary_ok D pp sp s t :
  (forall d d' r, D d -> (r, d') = ev_dequeue d 1 -> D d') ->
  inv D (pp, sp) s t ->
  wp (secondary_step sp) (fun sp' s' t' => inv D (pp, sp') s' t' /\
    ((forall d, D d -> (ev_dequeue d 1).1 = None) -> freed t' = freed t)) (fun _ _ _ => False) s t.
Proof.
  intros HD (d & Hd & HDd & lost & Hp & Hl). destruct sp; simpl in *.
  - wp_steps; (split; [|done]); exists d; eauto.
  - wp_step. eapply wp_dequeue; [done| |].
    + intros d' L1 L2 L3. wp_steps. split; [|done]. exists d'. split; [done|]. split; [by eapply HD|].
      exists lost. by rewrite L2.
    + intros e d' L1 (pre & e0 & post & Q1 & Q2 & [o ->] & _) L3. wp_steps. split.
      * exists d'. split; [done|]. split; [by eapply HD|]. exists lost. split; [|done]. simpl.
        rewrite Hp, Q1, Q2, !map_app. simpl. solve_Permutation.
      * intros HN. specialize (HN d HDd). by rewrite <- L3 in HN.
  - wp_steps. split; [|done]. exists d; eauto.
Qed.

Lemma run_ok (D : evdev -> Prop) mp sched p s t :
  (forall d d' e r, D d -> (r, d') = ev_enqueue d 0 e -> D d') ->
  (forall d d' r, D d -> (r, d') = ev_dequeue d 1 -> D d') ->
  inv D p s t ->
  wp (run (primary_step mp) secondary_step sched p) (fun p' s' t' => inv D p' s' t' /\
    ((forall d, D d -> (ev_dequeue d 1).1 = None) -> freed t' = freed t)) (fun _ _ _ => False) s t.
Proof.
  intros HE HD HI. eapply wp_mono; [apply (wp_run (primary_step mp) secondary_step (fun p' s' t' => inv D p' s' t' /\
    ((forall d, D d -> (ev_dequeue d 1).1 = None) -> freed t' = freed t)))| |done]; [|by split|done].
  intros x [pp sp] s1 t1 [I1 F1]. destruct x; unfold proc_step; simpl; wp_step.
  - eapply wp_mono; [by apply (primary_ok D)| |done]. intros pp' s' t' [H1 H2]. wp_steps. split; [done|]. intros HN. rewrite H2. auto.
  - eapply wp_mono; [by apply (secondary_ok D)| |done]. intros sp' s' t' [H1 H2]. wp_steps. split; [done|]. intros HN. rewrite H2; auto.
Qed.

(** C24: For every schedule of the two processes and every device: each mbuf that the primary has
    allocated is still with it, waits in the device, has been freed exactly once by the secondary,
    or is lost, and exactly the events that the device refused are lost. *)
Theorem processes_account sched :
  starts ->
  wp (main sched) (fun p s t => exists d lost, dev s = Some d /\
      allocated t ≡ₚ held p.1 ++ freed t ++ map payload (queued d) ++ lost /\ length lost = refusals t)
    (fun c _ t => c = EXIT_FAILURE /\ allocated t = []) no_device [].
Proof.
  intros HS. unfold main. wp_step. eapply wp_mono; [by apply setup_processes_ok| |done].
  intros mp s t (d & Hd & Hq & _ & Ha & Hf & Hr). eapply wp_mono; [apply (run_ok (fun _ => True)); [done|done|]| |done].
  - exists d. split_and!; [done..|]. exists []. by rewrite Ha, Hf, Hq, Hr.
  - intros p s' t' [(d' & Hd' & _ & lost & H1 & H2) _]. by exists d', lost.
Qed.
End Theorems.

(** ** A device that gives a flow to the first port its queue is linked to *)

Section Pinned.
Definition pinned_queues (d : @fifo mbuf) (p : Z) : list Z :=
  if p =? 0 then fifo_links d 0 else filter (fun q => q ∉ fifo_links d 0) (fifo_links d p).
Definition pinned_enqueue (d : @fifo mbuf) (p : Z) (e : rte_event mbuf) : Z * fifo :=
  if zlen (fifo_events d) <? 4096 then fifo_enqueue d p e else (0, d).
Definition pinned_dequeue (d : @fifo mbuf) (p : Z) : option (rte_event mbuf) * fifo :=
  match take_first (pinned_queues d p) (fifo_events d) with
  | Some (e, r) => (Some e, Fifo (fifo_links d) r)
  | None => (None, d)
  end.
Lemma pinned_linked d p q : q ∈ pinned_queues d p -> q ∈ fifo_links d p.
Proof. unfold pinned_queues. destruct (Z.eqb_spec p 0) as [->|]; [done|]. rewrite list_elem_of_filter. tauto. Qed.

#[local] Instance pinned_device : RteEventdev mbuf.
Proof.
  refine {| evdev := fifo; queued := fifo_events; linked := fifo_links; evdev_start l := Fifo l [];
            ev_enqueue := pinned_enqueue; ev_dequeue := pinned_dequeue |}.
  - done.
  - intros d p e. simpl. unfold pinned_enqueue. destruct (_ <? _); (split; [done|]); [by left|by right].
  - intros d p. unfold pinned_dequeue. destruct (take_first _ _) as [[e r]|] eqn:K; [|done]. split; [done|].
    apply take_first_some in K as (pre & post & H1 & H2 & H3 & H4). exists pre, e, post. simpl. split_and!; try done.
    + exists (op e). by destruct e.
    + by apply pinned_linked.
    + intros _. eapply Forall_impl; [done|]. intros x Hx [Hq _]. apply Hx. by rewrite Hq.
Defined.

Lemma pinned_takes : takes_within 4096 1.
Proof. intros d p e Hd. simpl in *. unfold pinned_enqueue. by apply Z.ltb_lt in Hd as ->. Qed.
Lemma pinned_delivers : delivers_within [0; 1] 1.
Proof.
  intros d (e & He & (p & Hp & Hl) & _). simpl. rewrite orb_false_r. unfold pinned_dequeue.
  destruct (take_first (pinned_queues d 0) (fifo_events d)) as [[? ?]|] eqn:K0; simpl; [done|]. unfold pinned_dequeue.
  destruct (take_first (pinned_queues d 1) (fifo_events d)) as [[? ?]|] eqn:K1; simpl; [done|]. exfalso.
  pose proof (take_first_none _ _ K0 e He) as N0. pose proof (take_first_none _ _ K1 e He) as N1.
  unfold pinned_queues in *. simpl in *. apply elem_of_cons in Hp as [Hp0|Hp1%list_elem_of_singleton]; subst p; [done|].
  apply N1, list_elem_of_filter. by split.
Qed.

(** Both ports are linked to the queue, but nobody polls port 0: a device that hands events over to
    whoever polls both ports may keep them all for port 0, and then the secondary receives nothing. *)
Theorem secondary_starves :
  delivers_within [0; 1] 1 /\ takes_within 4096 1 /\
  forall (E : Env) sched, links_work -> starts ->
    wp (main sched) (fun _ _ t => freed t = []) (fun c _ t => c = EXIT_FAILURE) no_device [].
Proof.
  split; [exact pinned_delivers|]. split; [exact pinned_takes|]. intros E sched HL HS. unfold main.
  wp_step. unfold setup. wp_steps; try done. apply wp_link; [done|]. intros ta ->. wp_steps. apply wp_link; [done|]. intros tb ->. wp_steps.
  apply wp_starts; [done|]. intros rr. wp_steps.
  eapply wp_mono; [apply (run_ok (fun d => linked d 0 = [0] /\ linked d 1 = [0]))| |done].
  - intros d d' e r' [H1' H2'] L. destruct (enqueue_law d 0 e) as [L1 _]. rewrite <- L in L1. cbn [fst snd] in L1. by rewrite L1.
  - intros d d' r' [H1' H2'] L. destruct (dequeue_law d 1) as [L1 _]. rewrite <- L in L1. cbn [fst snd] in L1. by rewrite L1.
  - eexists. split; [done|]. split; [done|]. by exists [].
  - intros p s' t' [_ HF]. apply HF. intros d [H1' H2']. simpl in H1', H2'. simpl. unfold pinned_dequeue, pinned_queues. simpl. rewrite H1', H2'.
    rewrite filter_cons_False by (intros Hx; by apply Hx; left). rewrite filter_nil.
    assert (forall es, take_first (V := mbuf) [] es = None) as ->; [|done].
    induction es as [|e es IH]; [done|]. cbn [take_first]. rewrite bool_decide_eq_false_2 by apply not_elem_of_nil. by rewrite IH.
Qed.
End Pinned.
End Processes.

(** ** eventdev/parsing_event *)

Module Parsing.
Inductive step :=
| Adapter (flow : Z) (m : mbuf)     (* the RX adapter enqueues an event for a packet *)
| Worker.                           (* one round of the worker's loop *)

Section Parsing.
Context {E : Env} {BO : Byteorder} {RE : RteEventdev mbuf}.
Variable workers : list Z.
Notation M := (M evstate).
Definition RX_QUEUE_ID := 0.
Definition TX_QUEUE_ID := 1.
Definition NB_QUEUES := 2.
Definition NB_PORTS := 2.
Definition NB_MBUFS := 8192.
Definition MBUF_CACHE := 256.
Definition BURST := 32.
Definition RTE_ETHER_TYPE_IPV4 := 2048.
Definition PARSED : string := "Parsed IPv4 src=%08x dst=%08x\n".

(** The fields of the headers, which must lie in the buffer. *)
Definition ether_type (m : mbuf) : M Z :=
  a <-- data_at m 12 ;; b <-- data_at m 13 ;; ret (of_le16 a b).
Definition ipv4_address (m : mbuf) (o : Z) : M Z :=
  a <-- data_at m o ;; b <-- data_at m (o + 1) ;; c <-- data_at m (o + 2) ;; d <-- data_at m (o + 3) ;;
  ret (rte_be_to_cpu_32 (of_le32 a b c d)).

Definition to_queue {V} (q : Z) (e : rte_event V) : rte_event V :=
  Event q (op e) (sched_type e) (event_type e) (flow_id e) (payload e).

(** One iteration of [while (1)]: the event goes on with the [op] it was received with, and the result
    of the enqueue is ignored. *)
Definition event_worker : M unit :=
  out <-- rte_event_dequeue_burst EVENT_DEV_ID 0 ;;
  match out with
  | None => ret tt
  | Some e =>
      let m := payload e in
      ty <-- ether_type m ;;
      when (ty =? rte_cpu_to_be_16 RTE_ETHER_TYPE_IPV4)
        (src <-- ipv4_address m 26 ;; dst <-- ipv4_address m 30 ;; printf PARSED [PInt src; PInt dst]) ;;
      _ <-- rte_event_enqueue_burst EVENT_DEV_ID 0 (to_queue TX_QUEUE_ID e) ;;
      ret tt
  end.

(** The callback gives the RX adapter the port that exists. *)
Definition rx_adapter_conf_cb (arg : Z) : Z * Z := (arg, 0).

Definition eventdev_setup : M unit :=
  _ <-- call (api_call "rte_event_dev_configure" [EVENT_DEV_ID; NB_QUEUES; NB_PORTS; BURST; BURST; 1024; 4096]) ;;
  _ <-- queue_setup RX_QUEUE_ID ;;
  _ <-- queue_setup TX_QUEUE_ID ;;
  _ <-- port_setup 0 0 ;;
  _ <-- port_setup 1 0 ;;
  _ <-- rte_event_port_link EVENT_DEV_ID 0 [RX_QUEUE_ID; TX_QUEUE_ID] ;;
  _ <-- rte_event_dev_start EVENT_DEV_ID ;;
  ret tt.
Definition adapters_setup : M unit :=
  let conf := rx_adapter_conf_cb 1 in
  r <-- call (api_call "rte_event_eth_rx_adapter_create_ext" [0; EVENT_DEV_ID; conf.1]) ;;
  when (r <? 0) (rte_exit EXIT_FAILURE) ;;
  _ <-- call (api_call "rte_event_eth_rx_adapter_queue_add" [0; 0; RX_QUEUE_ID; RTE_SCHED_TYPE_ATOMIC]) ;;
  _ <-- call (api_call "rte_event_eth_rx_adapter_start" [0]) ;;
  printf "RX adapter started, waiting for packets...\n" [] ;;
  _ <-- call (api_call "rte_event_eth_tx_adapter_create" [0; EVENT_DEV_ID; 0]) ;;
  _ <-- call (api_call "rte_event_eth_tx_adapter_queue_add" [0; 0; TX_QUEUE_ID]) ;;
  _ <-- call (api_call "rte_event_eth_tx_adapter_start" [0]) ;;
  ret tt.
Definition setup : M unit :=
  r <-- call rte_eal_init ;;
  when (r <? 0) (rte_exit EXIT_FAILURE) ;;
  n <-- call rte_eth_dev_count_avail ;;
  printf "Ethdev ports available: %u\n" [PInt n] ;;
  mp <-- call (rte_pktmbuf_pool_create "MBUF_POOL" NB_MBUFS MBUF_CACHE 0 Processes.RTE_MBUF_DEFAULT_BUF_SIZE) ;;
  when (mp =? 0) (rte_exit EXIT_FAILURE) ;;
  _ <-- call (rte_eth_dev_configure 0 1 1) ;;
  _ <-- call (rte_eth_rx_queue_setup 0 RX_QUEUE_ID 1024 mp) ;;
  _ <-- call (rte_eth_tx_queue_setup 0 0 1024) ;;
  _ <-- call (rte_eth_dev_start 0) ;;
  _ <-- call (rte_eth_promiscuous_enable 0) ;;
  eventdev_setup ;;
  adapters_setup.

(** What the RX adapter is configured to send. *)
Definition rx_event (flow : Z) (m : mbuf) : rte_event mbuf :=
  Event RX_QUEUE_ID RTE_EVENT_OP_NEW RTE_SCHED_TYPE_ATOMIC RTE_EVENT_TYPE_ETHDEV flow m.
Definition one_step (x : step) : M unit :=
  match x with
  | Adapter flow m => _ <-- rte_event_enqueue_burst EVENT_DEV_ID 1 (rx_event flow m) ;; ret tt
  | Worker => event_worker
  end.
Fixpoint run_steps (l : list step) : M unit :=
  match l with [] => ret tt | x :: l' => one_step x ;; run_steps l' end.

(** The worker runs on the first worker lcore, if the launch, which is not tested, succeeds; [l] says
    how its rounds and the adapter's interleave. *)
Definition main (l : list step) : M unit :=
  setup ;;
  match workers with
  | [] => ret tt
  | w :: _ =>
      r <-- call (rte_eal_remote_launch "event_worker" w) ;;
      when (r =? 0) (printf "Parser running on lcore %u\n" [PInt w] ;; run_steps l)
  end.

(** The packets of the adapter, and the lines printed. *)
Fixpoint injected (l : list step) : list mbuf :=
  match l with [] => [] | Adapter _ m :: l' => m :: injected l' | Worker :: l' => injected l' end.
Fixpoint parsed (t : trace) : list (Z * Z) :=
  match t with
  | [] => []
  | EvPrintf f [PInt a; PInt b] :: t' => if String.eqb f PARSED then parsed t' ++ [(a, b)] else parsed t'
  | _ :: t' => parsed t'
  end.
(** The mbufs the program handed back: to the NIC or to the pool. *)
Fixpoint handed_back (t : trace) : list mbuf :=
  match t with
  | [] => []
  | EvFree m :: t' => m :: handed_back t'
  | EvTx _ _ bufs _ :: t' => bufs ++ handed_back t'
  | _ :: t' => handed_back t'
  end.
Definition is_ipv4 (m : mbuf) : Prop := load16 m 12 = rte_cpu_to_be_16 RTE_ETHER_TYPE_IPV4.
Definition addresses (m : mbuf) : Z * Z := (rte_be_to_cpu_32 (load32 m 26), rte_be_to_cpu_32 (load32 m 30)).
End Parsing.

Section Theorems.
Context {E : Env} {BO : Byteorder}.

(** What a round prints for a packet. *)
Definition line_of (m : mbuf) : list (Z * Z) :=
  if load16 m 12 =? rte_cpu_to_be_16 RTE_ETHER_TYPE_IPV4 then [addresses m] else [].

Section Device.
Context {RE : RteEventdev mbuf}.

Lemma event_worker_ok d (Q : unit -> evstate -> trace -> Prop) X s t :
  dev s = Some d ->
  (forall d', linked d' = linked d -> queued d' = queued d -> (None, d') = ev_dequeue d 0 -> Q tt (set_dev d' s) t) ->
  (forall e d1 d2 r t', linked d2 = linked d -> room (payload e) 34 -> taken d 0 e d1 ->
     (Some e, d1) = ev_dequeue d 0 -> (r, d2) = ev_enqueue d1 0 (to_queue TX_QUEUE_ID e) ->
     parsed t' = parsed t ++ line_of (payload e) -> handed_back t' = handed_back t -> Q tt (set_dev d2 s) t') ->
  (forall e, e ∈ queued d -> room (payload e) 34) ->
  wp event_worker Q X s t.
Proof.
  intros Hd H0 H1 Hroom. unfold event_worker. wp_step. eapply wp_dequeue; [done| |].
  { intros d' L1 L2 L3. wp_steps. by apply H0. }
  intros e d1 L1 HT L3. assert (room (payload e) 34) as Hr.
  { destruct HT as (pre & e0 & post & Q1 & _ & [o ->] & _). apply (Hroom e0). rewrite Q1. apply elem_of_app. right. by left. }
  wp_step. unfold ether_type. unfold wp at 1, bind at 1 2. rewrite !(data_at_ok 34) by (done || lia). cbn [ret].
  assert (forall k t', parsed t' = parsed t ++ line_of (payload e) -> handed_back t' = handed_back t ->
    wp (_ <-- rte_event_enqueue_burst EVENT_DEV_ID 0 (to_queue TX_QUEUE_ID e) ;; ret k) Q X (set_dev d1 s) t') as Hend.
  { intros [] t' P1 P2. wp_step. eapply wp_event_enqueue; [done|]. intros rr d2 M1 M2 M3. wp_steps.
    change (set_dev d2 (set_dev d1 s)) with (set_dev d2 s). eapply (H1 e d1 d2 rr); try done. by rewrite M1. }
  change (of_le16 (load8 (payload e) 12) (load8 (payload e) 13)) with (load16 (payload e) 12).
  wp_step. unfold line_of in Hend. apply wp_when; intros HE; rewrite HE in Hend; [|apply Hend; [by rewrite app_nil_r|done]].
  unfold ipv4_address. wp_step. unfold wp at 1, bind at 1 2 3 4. rewrite !(data_at_ok 34) by (done || lia). cbn [ret].
  wp_step. unfold wp at 1, bind at 1 2 3 4. rewrite !(data_at_ok 34) by (done || lia). cbn [ret]. wp_steps. by apply Hend.
Qed.

(** What holds after the packets [pkts] came in: none of them has left. *)
Definition inv (pkts : list mbuf) (s : evstate) (t : trace) : Prop :=
  exists d, dev s = Some d /\ map payload (queued d) ⊆+ pkts /\ handed_back t = [] /\
    Forall (fun a => exists m, m ∈ pkts /\ line_of m = [a]) (parsed t).

Lemma run_steps_ok l pkts s t :
  Forall (fun m => room m 34) (pkts ++ injected l) -> inv pkts s t ->
  wp (run_steps l) (fun _ => inv (pkts ++ injected l)) (fun _ _ _ => False) s t.
Proof.
  revert pkts s t. induction l as [|[flow m|] l IH]; intros pkts s t Hr HI; simpl.
  { by rewrite app_nil_r. }
  - simpl in Hr. replace (pkts ++ m :: injected l) with ((pkts ++ [m]) ++ injected l) in * by (by rewrite <- app_assoc).
    wp_step. wp_step. destruct HI as (d & Hd & Hq & Hh & Hp).
    eapply wp_event_enqueue; [done|]. intros rr d' L1 L2 _. wp_steps. apply IH; [done|]. exists d'. split; [done|].
    split_and!; [|done|].
    + simpl in L2. destruct L2 as [[_ ->]|[_ ->]]; [|by apply submseteq_inserts_r]. rewrite map_app. by apply submseteq_app.
    + simpl. eapply Forall_impl; [exact Hp|]. intros a (m' & H1 & H2). exists m'. split; [|done]. apply elem_of_app. by left.
  - wp_step. destruct HI as (d & Hd & Hq & Hh & Hp). eapply event_worker_ok; [done| | |].
    + intros d' L1 L2 _. apply IH; [done|]. exists d'. by rewrite L2.
    + intros e d1 d2 rr t' L1 Hre (pre & e0 & post & Q1 & Q2 & [o ->] & _) _ M P1 P2. apply IH; [done|].
      exists d2. split; [done|]. rewrite Q1, map_app in Hq. simpl in Hq. split_and!; [|by rewrite P2|].
      * destruct (enqueue_law d1 0 (to_queue TX_QUEUE_ID (with_op o e0))) as [_ L2]. rewrite <- M in L2. cbn [fst snd] in L2.
        assert (map payload (pre ++ post) ⊆+ pkts) as Hs.
        { etrans; [|exact Hq]. rewrite map_app. apply submseteq_app; [done|]. by constructor. }
        destruct L2 as [[_ L2]|[_ L2]]; rewrite L2, Q2; [|done]. case_match; [done|].
        rewrite !map_app. simpl. rewrite <- Hq. apply Permutation_submseteq. solve_Permutation.
      * change (payload (with_op o e0)) with (payload e0) in P1. rewrite P1. apply Forall_app. split; [done|]. unfold line_of. case_match eqn:HE; [|done]. constructor; [|done].
        exists (payload e0). split; [|unfold line_of; by rewrite HE]. eapply elem_of_submseteq; [|exact Hq].
        apply elem_of_app. right. by left.
    + intros e He. rewrite Forall_forall in Hr. apply Hr, elem_of_app. left. eapply elem_of_submseteq; [|exact Hq].
      by apply list_elem_of_fmap_2.
Qed.

Lemma setup_parsing_ok :
  starts ->
  wp setup (fun _ s t => exists d, dev s = Some d /\ queued d = [] /\ linked d = links s /\ parsed t = [] /\ handed_back t = [] /\
      (links_work -> links s 0 = [RX_QUEUE_ID; TX_QUEUE_ID]))
    (fun c _ t => c = EXIT_FAILURE /\ parsed t = [] /\ handed_back t = []) no_device [].
Proof.
  intros HS. unfold setup. wp_steps; try done. unfold eventdev_setup, queue_setup, port_setup. wp_steps.
  unfold rte_event_port_link. wp_step. eapply wp_mono; [apply wp_call_is| |done].
  intros rl ? ? (-> & -> & ->). set (rl := env_call _ _). assert (links_work -> rl = 2) as Hl by (intros HL; apply HL).
  wp_steps. apply wp_starts; [done|]. intros rr. wp_steps. unfold adapters_setup. wp_steps; [done|].
  eexists. split; [done|]. match goal with |- context [evdev_start ?l] => destruct (start_law l) as [L1 L2] end. rewrite L1, L2.
  split_and!; [done..|]. intros HL. simpl. by rewrite Hl.
Qed.

(** For every interleaving of the RX adapter and the worker: a line is printed only for an IPv4 packet
    that came in, with its addresses, and no buffer ever leaves: it is neither transmitted nor freed,
    and what the device holds came from the adapter. *)
Theorem parsing_keeps workers l :
  starts -> Forall (fun m => room m 34) (injected l) ->
  wp (main workers l) (fun _ s t => handed_back t = [] /\
      Forall (fun a => exists m, m ∈ injected l /\ line_of m = [a]) (parsed t) /\
      exists d, dev s = Some d /\ map payload (queued d) ⊆+ injected l)
    (fun c _ t => c = EXIT_FAILURE /\ parsed t = [] /\ handed_back t = []) no_device [].
Proof.
  intros HS Hr. unfold main. wp_step. eapply wp_mono; [by apply setup_parsing_ok| |done].
  intros [] s t (d & Hd & Hq & _ & Hp & Hh & _).
  assert (handed_back t = [] /\ Forall (fun a => exists m, m ∈ injected l /\ line_of m = [a]) (parsed t) /\
    exists d, dev s = Some d /\ map payload (queued d) ⊆+ injected l) as Hend.
  { rewrite Hp, Hh. split_and!; [done|done|]. exists d. rewrite Hq. split; [done|]. apply submseteq_nil_l. }
  destruct workers as [|w ws]; [by apply wp_ret|]. wp_steps; [|done].
  eapply wp_mono; [apply (run_steps_ok l [])| |done]; [done| |].
  - exists d. rewrite Hq. simpl. split_and!; [done|constructor|done|by rewrite Hp].
  - intros _ s2 t2 (d2 & D1 & D2 & D3 & D4). split_and!; [done|done|]. by exists d2.
Qed.
End Device.

#[local] Instance fifo_mbuf : RteEventdev mbuf := fifo_device.

Lemma rounds_ok m n lk e s t :
  room m 34 -> line_of m = [addresses m] -> dev s = Some (Fifo lk [e]) -> payload e = m -> queue_id e ∈ lk 0 ->
  TX_QUEUE_ID ∈ lk 0 -> op e = RTE_EVENT_OP_NEW ->
  wp (run_steps (replicate n Worker)) (fun _ _ t' => parsed t' = parsed t ++ replicate n (addresses m))
    (fun _ _ _ => False) s t.
Proof.
  intros Hr Hline. revert e s t. induction n as [|n IH]; intros e s t Hd Hm Hq HT Ho; simpl.
  { apply wp_ret. by rewrite app_nil_r. }
  assert (fifo_dequeue (Fifo lk [e]) 0 = (Some e, Fifo lk [])) as Hdeq.
  { unfold fifo_dequeue. simpl. by rewrite bool_decide_true. }
  wp_step. eapply event_worker_ok; [done| | |].
  - intros d' _ _ L. simpl in L. by rewrite Hdeq in L.
  - intros e1 d1 d2 rr t' _ _ _ L1 L2 P _. simpl in L1. rewrite Hdeq in L1. injection L1 as -> ->.
    injection L2 as -> ->. simpl. rewrite Ho. simpl. rewrite Hm, Hline in P.
    eapply wp_mono; [apply (IH (to_queue TX_QUEUE_ID e)); try done| |done].
    intros _ s2 t2 ->. by rewrite P, <- app_assoc.
  - intros e1 He. simpl in He. apply list_elem_of_singleton in He. subst e1. by rewrite Hm.
Qed.

(** On a device that hands events over in their order, the one packet that came in is parsed in every
    round: the queue the worker sends it to is linked to the worker's own port. *)
Theorem parsing_repeats w flow m n :
  links_work -> starts -> room m 34 -> load16 m 12 = rte_cpu_to_be_16 RTE_ETHER_TYPE_IPV4 ->
  wp (main [w] (Adapter flow m :: replicate n Worker)) (fun _ s t => parsed t = [] \/ parsed t = replicate n (addresses m))
    (fun c _ t => c = EXIT_FAILURE) no_device [].
Proof.
  intros HL HS Hr Hm. assert (line_of m = [addresses m]) as Hline by (unfold line_of; by rewrite Hm, Z.eqb_refl).
  unfold main. wp_step. eapply wp_mono; [by apply setup_parsing_ok| |by intros c s t (-> & _)].
  intros [] s t (d & Hd & Hq & Hlk & Hp & Hh & Hl). specialize (Hl HL). wp_steps; [|by left]. cbn [run_steps one_step].
  wp_steps. eapply wp_event_enqueue; [done|]. intros rr d1 L1 _ L3. wp_steps. injection L3 as -> ->.
  simpl in Hq. rewrite Hq in *.
  eapply wp_mono; [apply (rounds_ok m n (links s) (rx_event flow m)); try done| |done].
  - simpl in Hlk. simpl. by rewrite Hlk.
  - rewrite Hl. by left.
  - rewrite Hl. by right; left.
  - intros _ s2 t2 ->. right. simpl. by rewrite Hp.
Qed.
End Theorems.
End Parsing.

(** ** Witnesses *)

#[local] Instance wenv : Env := sim_env links_script.
#[local] Instance wdev : RteEventdev mbuf := fifo_device.
#[local] Instance worder : Byteorder := sim_byteorder.
Lemma links_start : starts.
Proof. done. Qed.

Lemma processes_account_witness :
  starts /\
  wp (Processes.main [Secondary; Primary; Primary; Secondary]) (fun p s t => exists d lost, dev s = Some d /\
      Processes.allocated t ≡ₚ Processes.held p.1 ++ Processes.freed t ++ map payload (queued d) ++ lost /\
      length lost = Processes.refusals t)
    (fun c _ t => c = EXIT_FAILURE /\ Processes.allocated t = []) no_device [].
Proof. split; [exact links_start|]. apply Processes.processes_account. exact links_start. Defined.

(** An IPv4 packet. *)
Definition w_ipv4 : mbuf := Mbuf 7 (repeat 0 12 ++ [8; 0] ++ repeat 10 50) 0 64 64.

Lemma parsing_keeps_witness :
  starts /\ Forall (fun m => room m 34) (Parsing.injected [Parsing.Adapter 0 w_ipv4; Parsing.Worker]) /\
  wp (Parsing.main [1] [Parsing.Adapter 0 w_ipv4; Parsing.Worker]) (fun _ s t => Parsing.handed_back t = [] /\
      Forall (fun a => exists m, m ∈ Parsing.injected [Parsing.Adapter 0 w_ipv4; Parsing.Worker] /\ Parsing.line_of m = [a])
        (Parsing.parsed t) /\
      exists d, dev s = Some d /\ map payload (queued d) ⊆+ Parsing.injected [Parsing.Adapter 0 w_ipv4; Parsing.Worker])
    (fun c _ t => c = EXIT_FAILURE /\ Parsing.parsed t = [] /\ Parsing.handed_back t = []) no_device [].
Proof.
  assert (Forall (fun m => room m 34) (Parsing.injected [Parsing.Adapter 0 w_ipv4; Parsing.Worker])) as Hr.
  { constructor; [by vm_compute|constructor]. }
  split; [exact links_start|]. split; [exact Hr|]. apply Parsing.parsing_keeps; [exact links_start|exact Hr].
Defined.

Lemma parsing_repeats_witness :
  links_work /\ starts /\ room w_ipv4 34 /\ load16 w_ipv4 12 = rte_cpu_to_be_16 Parsing.RTE_ETHER_TYPE_IPV4 /\
  wp (Parsing.main [1] (Parsing.Adapter 0 w_ipv4 :: replicate 3 Parsing.Worker))
    (fun _ s t => Parsing.parsed t = [] \/ Parsing.parsed t = replicate 3 (Parsing.addresses w_ipv4))
    (fun c _ t => c = EXIT_FAILURE) no_device [].
Proof.
  assert (links_work) as HL by done. assert (room w_ipv4 34) as Hr by by vm_compute.
  assert (load16 w_ipv4 12 = rte_cpu_to_be_16 Parsing.RTE_ETHER_TYPE_IPV4) as Hm by by vm_compute.
  split_and!; [done|exact links_start|done|done|].
  apply (Parsing.parsing_repeats 1 0 w_ipv4 3); [done|exact links_start|done|done].
Defined.
