(* ===== verification/Messaging.v ===== *)
(** * inter_process_comm: messages of the multi-process channel

    [Pair] (Multi_Process_Messaging): the primary asks until the secondary has
    answered, then sends five numbers through a ring.  [Sample] (sample_rte_mp):
    the secondary sends one message with four bytes.  In each process a thread of
    the library runs the callback that is registered for a message, between any
    two steps of the main thread. *)

From S2P Require Import Prelude Rte Env Schedule Threads Ipc RingFifo Sim.

Definition EXIT_FAILURE := 1.
Definition RTE_PROC_PRIMARY := 0.
Definition RTE_PROC_SECONDARY := 1.

(** ** Multi_Process_Messaging *)

Module Pair.
Definition RING_NAME : string := "DATA_RING".
Definition CHECK : string := "ready_check".
Definition REPLY : string := "ready_reply".

Section Pair.
Context {E : Env} {RR : RteRing Z}.

(** The memory both processes share, the names with a registered callback, the messages (their names)
    on the way to each process, and [secondary_ready] of the primary.  A process receives messages
    from when it is attached; one without a callback is dropped. *)
Record mp_state := Mp {
  shm : @shared RR unit;
  primary_actions : list string; secondary_actions : list string;
  to_primary : list string; to_secondary : list string;
  attached : bool; secondary_ready : bool }.
Notation M := (M mp_state).
Definition mp0 : mp_state := Mp no_memory [] [] [] [] false false.
Definition on_shm {A} (m : Env.M (@shared RR unit) A) : M A :=
  zoom shm (fun h s => Mp h (primary_actions s) (secondary_actions s) (to_primary s) (to_secondary s)
    (attached s) (secondary_ready s)) m.

(** rte_mp_action_register and rte_mp_sendmsg, for either side; the programs do not test the results. *)
Definition register_primary (name : string) : M unit :=
  r <-- call (api_call "rte_mp_action_register" []) ;;
  when (r =? 0) (modify (fun s => Mp (shm s) (name :: primary_actions s) (secondary_actions s) (to_primary s)
    (to_secondary s) (attached s) (secondary_ready s))).
Definition register_secondary (name : string) : M unit :=
  r <-- call (api_call "rte_mp_action_register" []) ;;
  when (r =? 0) (modify (fun s => Mp (shm s) (primary_actions s) (name :: secondary_actions s) (to_primary s)
    (to_secondary s) (attached s) (secondary_ready s))).
Definition set_to_secondary (l : list string) (s : mp_state) : mp_state :=
  Mp (shm s) (primary_actions s) (secondary_actions s) (to_primary s) l (attached s) (secondary_ready s).
Definition set_to_primary (l : list string) (s : mp_state) : mp_state :=
  Mp (shm s) (primary_actions s) (secondary_actions s) l (to_secondary s) (attached s) (secondary_ready s).
Definition send_to_secondary (name : string) : M unit :=
  r <-- call (api_call "rte_mp_sendmsg" []) ;;
  b <-- gets attached ;;
  when ((r =? 0) && b) (modify (fun s => set_to_secondary (to_secondary s ++ [name]) s)).
Definition send_to_primary (name : string) : M unit :=
  r <-- call (api_call "rte_mp_sendmsg" []) ;;
  when (r =? 0) (modify (fun s => set_to_primary (to_primary s ++ [name]) s)).

(** primary.c *)
Definition ready_cb : M unit :=
  printf "Primary: Secondary is ready\n" [] ;;
  modify (fun s => Mp (shm s) (primary_actions s) (secondary_actions s) (to_primary s) (to_secondary s) (attached s) true).

Inductive primary_pc :=
| PInit
| PCreate
| PRegister
| PWhile              (* while (!secondary_ready) { *)
| PSend
| PWait               (* the second loop *)
| PFor (i : Z)
| PSent (i : Z)
| PDone
| PExit.
#[global] Instance primary_pc_eq_dec : EqDecision primary_pc.
Proof. solve_decision. Defined.

Definition primary_step (pc : primary_pc) : M primary_pc :=
  match pc with
  | PInit =>
      _ <-- call rte_eal_init ;;
      ty <-- call (api_call "rte_eal_process_type" [RTE_PROC_PRIMARY]) ;;
      ret (if ty =? RTE_PROC_PRIMARY then PCreate else PExit)
  | PCreate =>
      r <-- on_shm (ring_create RING_NAME 32 0) ;;
      ret (if r =? 0 then PExit else PRegister)
  | PRegister =>
      register_primary REPLY ;;
      printf "Primary: Checking if secondary is ready...\n" [] ;;
      ret PWhile
  | PWhile =>
      b <-- gets secondary_ready ;;
      if b : bool then ret PWait else printf "Primary: Sending ready check...\n" [] ;; ret PSend
  | PSend => send_to_secondary CHECK ;; ret PWhile
  | PWait => b <-- gets secondary_ready ;; ret (if b : bool then PFor 0 else PWait)
  | PFor i =>
      if i <? 5 then _ <-- on_shm (enqueue RING_NAME i) ;; ret (PSent i)
      else ret PDone
  | PSent i => printf "Primary sent %d\n" [PInt i] ;; ret (PFor (i + 1))
  | PDone => ret PDone
  | PExit => ret PExit
  end.

(** secondary.c *)
Definition check_cb : M unit :=
  printf "Secondary: Ready check received\n" [] ;;
  send_to_primary REPLY.

Inductive secondary_pc := SInit | SRegister | SLookup | SWhile | SExit.
#[global] Instance secondary_pc_eq_dec : EqDecision secondary_pc.
Proof. solve_decision. Defined.

Definition RECEIVED : string := "Secondary received %ld\n".
Definition secondary_step (pc : secondary_pc) : M secondary_pc :=
  match pc with
  | SInit =>
      _ <-- call rte_eal_init ;;
      ty <-- call (api_call "rte_eal_process_type" [RTE_PROC_SECONDARY]) ;;
      modify (fun s => Mp (shm s) (primary_actions s) (secondary_actions s) (to_primary s) (to_secondary s)
        true (secondary_ready s)) ;;
      ret (if ty =? RTE_PROC_SECONDARY then SRegister else SExit)
  | SRegister => register_secondary CHECK ;; ret SLookup
  | SLookup =>
      b <-- on_shm (ring_lookup RING_NAME) ;;
      if b : bool then printf "Secondary: Ring found\n" [] ;; ret SWhile
      else printf "Secondary waiting for ring...\n" [] ;; ret SLookup
  | SWhile =>
      o <-- on_shm (dequeue RING_NAME) ;;
      match o with Some v => printf RECEIVED [PInt v] ;; ret SWhile | None => ret SWhile end
  | SExit => ret SExit
  end.

(** The threads that handle messages. *)
Definition primary_mp : M unit :=
  l <-- gets to_primary ;;
  match l with
  | [] => ret tt
  | name :: l' =>
      modify (set_to_primary l') ;;
      acts <-- gets primary_actions ;;
      when (bool_decide (name ∈ acts)) ready_cb
  end.
Definition secondary_mp : M unit :=
  l <-- gets to_secondary ;;
  match l with
  | [] => ret tt
  | name :: l' =>
      modify (set_to_secondary l') ;;
      acts <-- gets secondary_actions ;;
      when (bool_decide (name ∈ acts)) check_cb
  end.

(** Threads 0 and 2 are the two [main], 1 and 3 handle the messages of the primary and the secondary
    as long as the process runs.  The argument of rte_eal_process_type tells who calls. *)
Definition pair_step (i : nat) (p : primary_pc * secondary_pc) : M (primary_pc * secondary_pc) :=
  match i with
  | 0%nat => pc <-- primary_step p.1 ;; ret (pc, p.2)
  | 1%nat => match p.1 with PDone | PExit => ret p | _ => primary_mp ;; ret p end
  | 2%nat => pc <-- secondary_step p.2 ;; ret (p.1, pc)
  | 3%nat => match p.2 with SExit => ret p | _ => secondary_mp ;; ret p end
  | _ => ret p
  end.
Definition pair_run (sched : list nat) : M (primary_pc * secondary_pc) := run_config pair_step sched (PInit, SInit).
End Pair.

(** The calls answer as they should. *)
Definition works {E : Env} : Prop := forall t,
  (forall k, env_call t (api_call "rte_eal_process_type" [k]) = k) /\
  (forall n c f, env_call t (rte_ring_create n c f) <> 0) /\
  env_call t (api_call "rte_mp_action_register" []) = 0 /\ env_call t (api_call "rte_mp_sendmsg" []) = 0.

Section Theorems.
Context {E : Env} {RR : RteRing Z}.
Implicit Types (s : mp_state) (t : trace).

(** How many numbers are in the ring or received; whether the ring exists; how far the primary is. *)
Definition sent (pc : primary_pc) : Z := match pc with PFor i => i | PSent i => i + 1 | PDone => 5 | _ => 0 end.
Definition has_ring (pc : primary_pc) : bool := match pc with PInit | PCreate | PExit => false | _ => true end.
Definition registered (pc : primary_pc) : bool := match pc with PInit | PCreate | PRegister | PExit => false | _ => true end.
Definition told (pc : primary_pc) : bool := match pc with PWait | PFor _ | PSent _ | PDone => true | _ => false end.
Definition listens (pc : secondary_pc) : bool := match pc with SLookup | SWhile => true | _ => false end.

(** The secondary has answered a check. *)
Fixpoint answered (t : trace) : bool :=
  match t with
  | [] => false
  | EvPrintf f [] :: t' => String.eqb f "Secondary: Ready check received\n" || answered t'
  | _ :: t' => answered t'
  end.

Record inv (p : primary_pc * secondary_pc) (s : mp_state) (t : trace) : Prop := {
  inv_caps : caps 31 (shm s);
  inv_ring : is_Some (rings (shm s) !! RING_NAME) <-> has_ring p.1 = true;
  inv_fifo : shown RECEIVED t ++ items RING_NAME (shm s) = seqZ 0 (sent p.1);
  inv_index : match p.1 with PFor i => 0 <= i <= 5 | PSent i => 0 <= i < 5 | _ => True end;
  inv_while : p.2 = SWhile -> has_ring p.1 = true;
  inv_checks : Forall (eq CHECK) (to_secondary s);
  inv_replies : Forall (eq REPLY) (to_primary s);
  inv_quiet : listens p.2 = false -> secondary_actions s = [];
  inv_asked : secondary_ready s = true \/ to_primary s <> [] -> answered t = true /\ secondary_actions s <> [];
  inv_told : told p.1 = true -> secondary_ready s = true;
  inv_works : works -> p.1 <> PExit /\ p.2 <> SExit /\ (registered p.1 = true -> REPLY ∈ primary_actions s) /\
    (listens p.2 = true -> CHECK ∈ secondary_actions s) /\ (p.2 <> SInit -> attached s = true) }.

(** What is left to do, and who does it. *)
Definition is_nil (l : list string) : bool := match l with [] => true | _ => false end.
Definition rank (p : primary_pc * secondary_pc) (s : mp_state) : nat :=
  match p.1 with
  | PInit => 40 | PCreate => 39 | PRegister => 38 | PExit => 0
  | PDone => length (items RING_NAME (shm s)) + match p.2 with SWhile => 0 | _ => 1 end
  | PFor i => 8 + Z.to_nat (2 * (5 - i)) | PSent i => 9 + Z.to_nat (2 * (4 - i)) | PWait => 19
  | pc =>
      if secondary_ready s then match pc with PSend => 21 | _ => 20 end
      else match p.2 with
           | SInit => 37 | SRegister => 36
           | _ => if negb (is_nil (to_primary s)) then 30 else if negb (is_nil (to_secondary s)) then 31
                  else match pc with PSend => 32 | _ => 33 end
           end
  end.
Definition helpful (p : primary_pc * secondary_pc) (s : mp_state) : nat :=
  match p.1 with
  | PDone => 2
  | PWhile | PSend =>
      if secondary_ready s then 0
      else match p.2 with
           | SInit | SRegister => 2
           | _ => if negb (is_nil (to_primary s)) then 1 else if negb (is_nil (to_secondary s)) then 3 else 0
           end
  | _ => 0
  end.

Lemma wp_ptype k (Q : Z -> mp_state -> trace -> Prop) X s t :
  (forall r, (works -> r = k) -> Q r s (EvApi (api_call "rte_eal_process_type" [k]) r :: t)) ->
  wp (call (api_call "rte_eal_process_type" [k])) Q X s t.
Proof. intros H. apply (H _). intros HW. apply HW. Qed.
Lemma wp_register (Q : Z -> mp_state -> trace -> Prop) X s t :
  (forall r, (works -> r = 0) -> Q r s (EvApi (api_call "rte_mp_action_register" []) r :: t)) ->
  wp (call (api_call "rte_mp_action_register" [])) Q X s t.
Proof. intros H. apply (H _). intros HW. apply HW. Qed.
Lemma wp_sendmsg (Q : Z -> mp_state -> trace -> Prop) X s t :
  (forall r, (works -> r = 0) -> Q r s (EvApi (api_call "rte_mp_sendmsg" []) r :: t)) ->
  wp (call (api_call "rte_mp_sendmsg" [])) Q X s t.
Proof. intros H. apply (H _). intros HW. apply HW. Qed.

Notation helps := (helps rank helpful).

Lemma helps_same i p s : i <> helpful p s -> helps i p s p s.
Proof. intros H. right. auto. Qed.

Ltac as_works := let HW := fresh in let Ha := fresh in intros HW;
  match goal with Io : works -> _ |- _ => destruct (Io HW) as (? & ? & ? & ? & Ha) end;
  split_and!; try done; intros _; by apply Ha.
(** The invariant when only the primary's counter or the secondary's moves on. *)
Ltac same_inv :=
  constructor; cbn [fst snd shm primary_actions secondary_actions to_primary to_secondary attached secondary_ready
    set_to_primary set_to_secondary has_ring registered told listens sent] in *; simpl shown; simpl answered; try done; try tauto; try as_works.

Ltac lowers := intros _; left; unfold rank; cbn [fst snd]; simpl; repeat case_match; try done; lia.
Ltac stays := intros _; unfold Threads.helps, rank, helpful; cbn [fst snd]; simpl; repeat case_match;
  first [done|left; simpl; lia|right; split; [done|first [by left|by right]]].

(** A step of the primary keeps the invariant, and helps if every call works. *)
Definition pair_primary_advances pp sp s t : Prop :=
  wp (primary_step pp) (fun pp' s' t' => inv (pp', sp) s' t' /\ (works -> helps 0 (pp, sp) s (pp', sp) s'))
    (fun _ _ _ => False) s t.
Ltac opening :=
  intros HI; pose proof HI as [Ic Ir If Ii Iw Ik Ip Iq Ia It Io]; red;
  cbn [primary_step fst snd has_ring sent told] in *.

Lemma pair_init_ok sp s t : inv (PInit, sp) s t -> pair_primary_advances PInit sp s t.
Proof.
  opening. do 3 wp_step. apply wp_ptype. intros ty Hty. wp_steps. destruct (Z.eqb_spec ty RTE_PROC_PRIMARY) as [->|Hne].
  - split; [same_inv|lowers].
  - split; [same_inv|]; by intros HW; destruct Hne; apply Hty.
Qed.
Lemma pair_create_ok sp s t : inv (PCreate, sp) s t -> pair_primary_advances PCreate sp s t.
Proof.
  opening. wp_step. apply wp_zoom. eapply (wp_ring_create 32); [done| | |].
  - destruct (rings (shm s) !! RING_NAME) eqn:K; [|done]. exfalso. by destruct Ir as [Ir _]; discriminate Ir.
  - intros Hr. wp_steps. simpl. split; [same_inv|]; intros HW; destruct (HW t) as (_ & H & _); by apply H in Hr.
  - intros r s' Hr Hc _ Hi He. wp_steps. apply Z.eqb_neq in Hr as ->. split; [same_inv|lowers].
    + rewrite He. tauto.
    + by rewrite Hi.
Qed.
Lemma pair_register_ok sp s t : inv (PRegister, sp) s t -> pair_primary_advances PRegister sp s t.
Proof.
  opening. unfold register_primary. do 2 wp_step. apply wp_register. intros r Hr.
  wp_steps; (split; [same_inv|lowers]).
  - intros HW. destruct (Io HW) as (? & ? & ? & ? & ?). split_and!; try done. intros _. by left.
  - intros HW. rewrite Hr in * by done. done.
Qed.
Lemma pair_while_ok sp s t : inv (PWhile, sp) s t -> pair_primary_advances PWhile sp s t.
Proof.
  opening. wp_steps; (split; [same_inv|]).
  - lowers.
  - stays.
Qed.
Lemma pair_send_ok sp s t : inv (PSend, sp) s t -> pair_primary_advances PSend sp s t.
Proof.
  opening. unfold send_to_secondary. do 2 wp_step. apply wp_sendmsg. intros r Hr. wp_steps; (split; [same_inv|]).
  - apply Forall_app. by repeat constructor.
  - unfold Threads.helps, rank, helpful. simpl. destruct (secondary_ready s); [intros _; left; lia|].
    intros HW. destruct sp; try (right; split; [done|right; split; done]);
      (destruct (is_nil (to_primary s)) eqn:K; [|right; split; [done|right; split; done]]);
      (destruct (to_secondary s); [left; simpl; lia|right; split; [done|right; split; done]]).
  - unfold Threads.helps, rank, helpful. simpl. destruct (secondary_ready s); [intros _; left; lia|].
    intros HW. destruct (Io HW) as (_ & Hx & _ & _ & Hatt). rewrite (Hr HW) in *.
    destruct sp; try (right; split; [done|right; split; done]); (rewrite Hatt in * by done); done.
Qed.
Lemma pair_wait_ok sp s t : inv (PWait, sp) s t -> pair_primary_advances PWait sp s t.
Proof.
  opening. wp_steps. destruct (secondary_ready s) eqn:Hs.
  - split; [same_inv|lowers].
  - discriminate (It eq_refl).
Qed.
Lemma pair_for_ok i sp s t : inv (PFor i, sp) s t -> pair_primary_advances (PFor i) sp s t.
Proof.
  opening. wp_steps. 
  - apply wp_zoom. apply Z.ltb_lt in H.
    assert (zlen (items RING_NAME (shm s)) < 31) as Hroom.
    { apply (f_equal zlen) in If. unfold zlen in *. rewrite length_app, length_seqZ in If. lia. }
    eapply (wp_ring_enqueue 31); [done|by apply Ir|done|]. intros s' [Uh Ui _ Ue Uc]. wp_steps.
    split; [same_inv|].
    + by rewrite Ue.
    + by rewrite Ui, app_assoc, If, seqZ_snoc by lia.
    + lowers.
  - apply Z.ltb_ge in H. assert (i = 5) as -> by lia.
    assert (length (items RING_NAME (shm s)) <= 5)%nat by (apply (f_equal length) in If; rewrite length_app, length_seqZ in If; lia).
    split; [same_inv|lowers].
Qed.
Lemma pair_sent_ok i sp s t : inv (PSent i, sp) s t -> pair_primary_advances (PSent i) sp s t.
Proof.
  opening. wp_steps. split; [same_inv|].
  { lia. }
  lowers.
Qed.
Lemma pair_done_ok sp s t : inv (PDone, sp) s t -> pair_primary_advances PDone sp s t.
Proof.
  opening. wp_steps. split; [done|]. intros _. apply helps_same. simpl. done.
Qed.
Lemma pair_exit_ok sp s t : inv (PExit, sp) s t -> pair_primary_advances PExit sp s t.
Proof.
  opening. wp_steps. split; [done|]. intros HW. by destruct (Io HW) as [? _].
Qed.

Lemma pair_primary_ok pp sp s t : inv (pp, sp) s t -> pair_primary_advances pp sp s t.
Proof.
  intros I. destruct pp; first [by apply pair_init_ok | by apply pair_create_ok | by apply pair_register_ok | by apply pair_while_ok | by apply pair_send_ok | by apply pair_wait_ok | by apply pair_for_ok | by apply pair_sent_ok | by apply pair_done_ok | by apply pair_exit_ok].
Qed.

(** As long as the secondary does not listen, nothing has been answered. *)
Lemma fresh_secondary pp sp s t :
  inv (pp, sp) s t -> listens sp = false ->
  forall sp' s', secondary_ready s' = secondary_ready s -> to_primary s' = to_primary s -> to_secondary s' = to_secondary s ->
  sp = SInit /\ sp' = SRegister \/ sp = SRegister /\ sp' = SLookup ->
  works -> helps 2 (pp, sp) s (pp, sp') s'.
Proof.
  intros HI Hn sp' s' Hr Hp Hs Hc _. pose proof HI as [_ _ _ _ _ _ _ Iq Ia It _]. cbn [fst snd] in *.
  assert (secondary_ready s = false) as Hf.
  { destruct (secondary_ready s); [|done]. destruct Ia as [_ Hx]; [by left|]. by rewrite Iq in Hx. }
  assert (told pp = false) as Ht by (destruct (told pp); [by rewrite It in Hf|done]).
  assert (is_nil (to_primary s) = true) as Hz.
  { destruct (to_primary s); [done|]. destruct Ia as [_ Hx]; [by right|]. by rewrite Iq in Hx. }
  unfold Threads.helps, rank, helpful. cbn [fst snd]. rewrite Hr, Hp, Hs, Hf, Hz.
  destruct Hc as [[-> ->]|[-> ->]], pp; try done; simpl;
    first [by left; repeat case_match; lia|by right; split; [done|left]|by right; split; [done|right]].
Qed.

Lemma pair_secondary_ok pp sp s t :
  inv (pp, sp) s t ->
  wp (secondary_step sp) (fun sp' s' t' => inv (pp, sp') s' t' /\ (works -> helps 2 (pp, sp) s (pp, sp') s'))
    (fun _ _ _ => False) s t.
Proof.
  intros HI. pose proof HI as [Ic Ir If Ii Iw Ik Ip Iq Ia It Io].
  destruct sp; cbn [secondary_step fst snd listens] in *.
  - do 3 wp_step. apply wp_ptype. intros ty Hty. wp_steps. destruct (Z.eqb_spec ty RTE_PROC_SECONDARY) as [->|Hne].
    + split; [same_inv|]. apply (fresh_secondary _ _ _ _ HI eq_refl); [done..|by left].
    + split; [same_inv|]; by intros HW; destruct Hne; apply Hty.
  - unfold register_secondary. do 2 wp_step. apply wp_register. intros r Hr. wp_steps; (split; [same_inv|]).
    + intros HW. destruct (Io HW) as (? & ? & ? & ? & Hatt). split_and!; try done; [intros _; by left|intros _; by apply Hatt].
    + apply (fresh_secondary _ _ _ _ HI eq_refl); [done..|by right].
    + intros HW. by rewrite Hr in *.
    + intros HW. by rewrite Hr in *.
  - wp_step. apply wp_zoom. unfold ring_lookup. wp_steps.
    + apply bool_decide_eq_true in H. split; [same_inv|].
      * stays.
    + split; [same_inv|]. destruct pp; try stays. apply bool_decide_eq_false in H. by destruct H; apply Ir.
  - wp_step. apply wp_zoom. eapply (wp_ring_dequeue 31); [done|apply Ir; by apply Iw|].
    intros s' [Uh Ui _ Ue Uc]. destruct (items RING_NAME (shm s)) as [|v l] eqn:Hl; simpl in *; wp_steps; (split; [same_inv|]).
    + by rewrite Ue.
    + by rewrite Ui.
    + unfold Threads.helps, rank, helpful. cbn [fst snd]. simpl. rewrite Ui, Hl. stays.
    + by rewrite Ue.
    + simpl. by rewrite Ui, <- app_assoc.
    + unfold Threads.helps, rank, helpful. cbn [fst snd]. simpl. rewrite Ui, Hl. stays.
  - wp_steps. split; [done|]. intros HW. by destruct (Io HW) as (_ & ? & _).
Qed.

Lemma primary_mp_ok pp sp s t :
  inv (pp, sp) s t -> pp <> PDone -> pp <> PExit ->
  wp primary_mp (fun _ s' t' => inv (pp, sp) s' t' /\ (works -> helps 1 (pp, sp) s (pp, sp) s'))
    (fun _ _ _ => False) s t.
Proof.
  intros HI Hd He. pose proof HI as [Ic Ir If Ii Iw Ik Ip Iq Ia It Io]. unfold primary_mp. wp_steps.
  destruct (to_primary s) as [|name l] eqn:Hl.
  { wp_steps. split; [done|]. unfold Threads.helps, rank, helpful. rewrite Hl. destruct pp; stays. }
  inversion Ip as [|? ? <- Ip']; subst.
  destruct Ia as [Ia1 Ia2]; [by right|]. assert (listens sp = true) as Hls by (destruct (listens sp) eqn:K; [done|destruct Ia2; by apply Iq]).
  wp_steps; unfold ready_cb; wp_steps; (split; [same_inv|]).
  - unfold Threads.helps, rank, helpful. cbn [fst snd]. simpl. rewrite Hl. destruct pp, sp; try done; stays.
  - intros HW. apply bool_decide_eq_false in H. destruct (Io HW) as (_ & _ & Hreg & _).
    assert (registered pp = false) as Hr by (destruct (registered pp) eqn:K; [destruct H; by apply Hreg|done]).
    destruct pp; try done; revert HW; stays.
Qed.

Lemma secondary_mp_ok pp sp s t :
  inv (pp, sp) s t -> sp <> SExit ->
  wp secondary_mp (fun _ s' t' => inv (pp, sp) s' t' /\ (works -> helps 3 (pp, sp) s (pp, sp) s'))
    (fun _ _ _ => False) s t.
Proof.
  intros HI He. pose proof HI as [Ic Ir If Ii Iw Ik Ip Iq Ia It Io]. unfold secondary_mp. wp_steps.
  destruct (to_secondary s) as [|name l] eqn:Hl.
  { wp_steps. split; [done|]. unfold Threads.helps, rank, helpful. rewrite Hl. destruct pp; stays. }
  inversion Ik as [|? ? <- Ik']; subst.
  wp_steps.
  - unfold check_cb, send_to_primary. apply bool_decide_eq_true in H. cbn [set_to_secondary secondary_actions] in H. do 3 wp_step. apply wp_sendmsg. intros r Hr.
    assert (secondary_actions s <> []) as Hn by (intros Hz; rewrite Hz in H; by apply not_elem_of_nil in H).
    assert (listens sp = true) as Hls by (destruct (listens sp) eqn:K; [done|destruct Hn; by apply Iq]).
    wp_steps; (split; [same_inv|]).
    + apply Forall_app. by repeat constructor.
    + unfold Threads.helps, rank, helpful. cbn [fst snd]. simpl. rewrite Hl. destruct (to_primary s), pp, sp; try done; stays.
    + intros HW. by rewrite Hr in *.
  - split; [same_inv|]. intros HW. apply bool_decide_eq_false in H. destruct (Io HW) as (_ & _ & _ & Hc & _).
    assert (listens sp = false) as Hls by (destruct (listens sp) eqn:K; [destruct H; by apply Hc|done]).
    unfold Threads.helps, rank, helpful. cbn [fst snd]. simpl. rewrite Hl. revert HW. destruct pp, sp; try done; stays.
Qed.

Lemma pair_step_ok i p s t :
  inv p s t ->
  wp (pair_step i p) (fun p' s' t' => inv p' s' t' /\ (works -> helps i p s p' s')) (fun _ _ _ => False) s t.
Proof.
  intros HI. destruct p as [pp sp].
  assert (forall j, helpful (pp, sp) s <> j -> wp (ret (pp, sp)) (fun p' s' t' => inv p' s' t' /\ (works -> helps j (pp, sp) s p' s'))
    (fun _ _ _ => False) s t) as Hidle.
  { intros j Hj. apply wp_ret. split; [done|]. intros _. by apply helps_same. }
  assert (helpful (pp, sp) s < 4)%nat as Hlt by (unfold helpful; repeat case_match; lia).
  destruct i as [|[|[|[|i]]]]; cbn [pair_step fst snd].
  - wp_step. eapply wp_mono; [by apply pair_primary_ok| |done]. intros pp' s' t' H. by apply wp_ret.
  - assert (wp (primary_mp ;; ret (pp, sp)) (fun p' s' t' => inv p' s' t' /\ (works -> helps 1 (pp, sp) s p' s'))
      (fun _ _ _ => False) s t \/ pp = PDone \/ pp = PExit) as Hc.
    { destruct (decide (pp = PDone \/ pp = PExit)) as [?|Hn]; [by right|left].
      wp_step. eapply wp_mono; [apply primary_mp_ok; [done|tauto..]| |done]. intros [] s' t' H. by apply wp_ret. }
    destruct Hc as [Hc|[-> | ->]]; [|by apply Hidle..]. destruct pp; try exact Hc; by apply Hidle.
  - wp_step. eapply wp_mono; [by apply pair_secondary_ok| |done]. intros sp' s' t' H. by apply wp_ret.
  - assert (wp (secondary_mp ;; ret (pp, sp)) (fun p' s' t' => inv p' s' t' /\ (works -> helps 3 (pp, sp) s p' s'))
      (fun _ _ _ => False) s t \/ sp = SExit) as Hc.
    { destruct (decide (sp = SExit)) as [?|Hn]; [by right|left].
      wp_step. eapply wp_mono; [by apply secondary_mp_ok| |done]. intros [] s' t' H. by apply wp_ret. }
    destruct sp; destruct Hc as [Hc|Hc]; try done.
    all: apply wp_ret; split; [done|]; intros HW; by destruct (inv_works _ _ _ HI HW) as (_ & ? & _).
  - apply Hidle. lia.
Qed.

Lemma pair_inv_start : inv (PInit, SInit) mp0 [].
Proof.
  constructor; simpl; try done.
  - split; [by intros []|done].
  - by intros [|].
Qed.

(** For every schedule of the four threads: the secondary receives the numbers 0, 1, ... in order,
    and none before it has answered a check of the primary. *)
Theorem pair_fifo sched :
  wp (pair_run sched) (fun p _ t => exists n, shown RECEIVED t = seqZ 0 n /\ 0 <= n <= 5 /\ (0 < n -> answered t = true))
    (fun _ _ _ => False) mp0 [].
Proof.
  eapply wp_mono; [apply (wp_run_config pair_step (fun _ => inv) (fun _ _ _ => False)); [|apply pair_inv_start]| |done].
  - intros _ i p s t HI. eapply wp_mono; [by apply pair_step_ok| |done]. by intros p' s' t' [? _].
  - intros p s t [_ _ If Ii _ _ _ _ Ia It _]. assert (0 <= sent p.1 <= 5) as Hs by (destruct p.1; simpl; lia).
    pose proof (f_equal zlen If) as Hl. rewrite zlen_app, zlen_seqZ in Hl by lia. unfold zlen in Hl.
    exists (zlen (shown RECEIVED t)). unfold zlen. split_and!; [|lia|lia|].
    + eapply (seqZ_prefix _ _ (sent p.1)); [lia|exact If].
    + intros Hn. apply Ia. left. apply It. destruct p.1; simpl in *; try done; lia.
Qed.

(** C14: If every call succeeds, 40 rounds in which each of the four threads runs at least once end the
    exchange, in whatever order the threads run and however often the primary asks again: the primary
    is done, and the secondary has received 0, 1, 2, 3, 4. *)
Theorem pair_ends ls :
  works -> Forall (fair_round 4) ls -> (40 <= length ls)%nat ->
  wp (pair_run (concat ls)) (fun p _ t => p.1 = PDone /\ shown RECEIVED t = [0; 1; 2; 3; 4])
    (fun _ _ _ => False) mp0 [].
Proof.
  intros HW Hf Hl. eapply wp_mono; [apply (wp_helpful_rounds pair_step 4 inv rank helpful)| |done]; [| |apply pair_inv_start|done|done|].
  - intros i p s t HI. eapply wp_mono; [by apply pair_step_ok| |done]. intros p' s' t' [? H]. auto.
  - intros [pp sp] s. unfold helpful. repeat case_match; lia.
  - intros [pp sp] s t [[_ _ If Ii _ _ _ _ _ _ Io] Hr]. destruct (Io HW) as (Hp & _). cbn [fst snd] in *.
    unfold rank in Hr. cbn [fst snd] in Hr. destruct pp; try done; try (repeat case_match; lia); [].
    split; [done|]. destruct (items RING_NAME (shm s)); [|simpl in Hr; lia]. by rewrite app_nil_r in If.
Qed.
End Theorems.
End Pair.

(** ** sample_rte_mp *)

Module Sample.
(** struct rte_mp_msg; [param] holds bytes. *)
Record rte_mp_msg := Msg { name : string; len_param : Z; param : list Z }.
Definition ACTION : string := "sample_mp".

Inductive primary_pc := PInit | PRegister | PLoop | PReturn (code : Z) | PExit.
Inductive secondary_pc := SInit | SSend | SReturn | SExit.

(** Whether the callback is registered, the messages on the way, and [out]; messages reach the primary
    from when it is up. *)
Record sample_state := SampleState { up : bool; registered : bool; inbox : list rte_mp_msg; out : bool }.
Definition sample0 : sample_state := SampleState false false [] false.

Section Sample.
Context {E : Env}.
Notation M := (M sample_state).
Definition PARAM : string := "Primary received param[%d] = %d\n".
Definition FAILED : string := "Message send failed\n".

(** primary.c *)
Definition mp_message_handler (m : rte_mp_msg) : M unit :=
  printf "Size of param: %d\n" [PInt (len_param m)] ;;
  for_ (Z.to_nat (len_param m)) 0 (fun i _ => v <-- deref (param m !! Z.to_nat i) ;; printf PARAM [PInt i; PInt v]) tt ;;
  modify (fun s => SampleState (up s) (registered s) (inbox s) true).

Definition primary_step (pc : primary_pc) : M primary_pc :=
  match pc with
  | PInit =>
      r <-- call rte_eal_init ;;
      if r <? 0 then ret PExit
      else
        modify (fun s => SampleState true (registered s) (inbox s) (out s)) ;;
        printf "Running PRIMARY process\n" [] ;; ret PRegister
  | PRegister =>
      r <-- call (api_call "rte_mp_action_register" []) ;;
      if r <? 0 then printf "Handler registration failed\n" [] ;; ret (PReturn (-1))
      else modify (fun s => SampleState (up s) true (inbox s) (out s)) ;; ret PLoop
  | PLoop =>
      b <-- gets out ;;
      if b : bool then ret (PReturn 0) else printf "Primary waiting for messages...\n" [] ;; ret PLoop
  | PReturn code => ret (PReturn code)
  | PExit => ret PExit
  end.

(** secondary.c; a byte of [param] takes a value modulo 256. *)
Definition the_message : rte_mp_msg :=
  let value := 42 in Msg ACTION 4 [u8 value; u8 (value + 1); u8 (value + 2); u8 (value + 3)].
Definition send_message : M unit :=
  printf "Secondary sending message...\n" [] ;;
  r <-- call (api_call "rte_mp_sendmsg" []) ;;
  if r <? 0 then printf FAILED []
  else
    b <-- gets up ;;
    when b (modify (fun s => SampleState (up s) (registered s) (inbox s ++ [the_message]) (out s))).
Definition secondary_step (pc : secondary_pc) : M secondary_pc :=
  match pc with
  | SInit =>
      r <-- call rte_eal_init ;;
      if r <? 0 then ret SExit else printf "Running SECONDARY process\n" [] ;; ret SSend
  | SSend => send_message ;; ret SReturn
  | SReturn => ret SReturn
  | SExit => ret SExit
  end.

(** The library's thread in the primary: a message without a callback is dropped. *)
Definition handle : M unit :=
  l <-- gets inbox ;;
  match l with
  | [] => ret tt
  | m :: l' =>
      modify (fun s => SampleState (up s) (registered s) l' (out s)) ;;
      b <-- gets registered ;;
      when (b && String.eqb (name m) ACTION) (mp_message_handler m)
  end.

Definition sample_step (i : nat) (p : primary_pc * secondary_pc) : M (primary_pc * secondary_pc) :=
  match i with
  | 0%nat => pc <-- primary_step p.1 ;; ret (pc, p.2)
  | 1%nat => handle ;; ret p
  | 2%nat => pc <-- secondary_step p.2 ;; ret (p.1, pc)
  | _ => ret p
  end.
Definition sample_run (sched : list nat) (p : primary_pc * secondary_pc) : M (primary_pc * secondary_pc) :=
  run_config sample_step sched p.

(** The bytes printed with their indices. *)
Fixpoint params (t : trace) : list (Z * Z) :=
  match t with
  | [] => []
  | EvPrintf f [PInt i; PInt v] :: t' => if String.eqb f PARAM then params t' ++ [(i, v)] else params t'
  | _ :: t' => params t'
  end.
End Sample.

Section Theorems.
Context {E : Env}.
Implicit Types (s : sample_state) (t : trace).
Definition BYTES : list (Z * Z) := [(0, 42); (1, 43); (2, 44); (3, 45)].

(** The message is still to be sent, on the way, handled, or gone. *)
Record inv (p : primary_pc * secondary_pc) (s : sample_state) (t : trace) : Prop := {
  inv_params : params t = if out s then BYTES else [];
  inv_inbox : inbox s = [] \/ inbox s = [the_message] /\ out s = false;
  inv_unsent : match p.2 with SInit | SSend => inbox s = [] /\ out s = false | _ => True end;
  inv_return : forall code, p.1 = PReturn code -> code = -1 \/ code = 0 /\ out s = true;
  inv_loop : p.1 = PLoop -> registered s = true }.

Lemma handler_prints s t :
  mp_message_handler the_message s t =
  Done tt (SampleState (up s) (registered s) (inbox s) true)
    (map (fun b => EvPrintf PARAM [PInt b.1; PInt b.2]) (rev BYTES) ++ EvPrintf "Size of param: %d\n" [PInt 4] :: t).
Proof. reflexivity. Qed.

Lemma params_printed l t :
  params (map (fun b => EvPrintf PARAM [PInt b.1; PInt b.2]) (rev l) ++ t) = params t ++ l.
Proof.
  induction l as [|[i v] l IH] using rev_ind; simpl; [by rewrite app_nil_r|].
  rewrite rev_app_distr. simpl. by rewrite IH, <- app_assoc.
Qed.

Lemma sample_step_ok i p s t :
  inv p s t -> wp (sample_step i p) (fun p' s' t' => inv p' s' t' /\ (out s = true -> out s' = true)) (fun _ _ _ => False) s t.
Proof.
  intros HI. pose proof HI as [I1 I2 I3 I5 I6]. destruct p as [pp sp]. cbn [fst snd] in *.
  destruct i as [|[|[|i]]]; cbn [sample_step fst snd]; [| | |by apply wp_ret].
  - destruct pp; cbn [primary_step]; wp_steps; (split; [constructor; simpl in *; try done; auto; try (intros code [= <-]; auto)|done]).
  - unfold handle. wp_steps. destruct (inbox s) as [|m l] eqn:Hl.
    { wp_steps. by split. }
    destruct I2 as [?|[[= -> ->] Ho]]; [done|]. rewrite Ho in I1.
    assert (sp = SReturn \/ sp = SExit) as Hsp by (destruct sp; [by destruct I3..|by left|by right]).
    wp_steps.
    + unfold wp. rewrite handler_prints. split; [|done]. constructor; cbn [fst snd inbox out up registered]; try done.
      * rewrite params_printed. simpl. by rewrite I1.
      * by left.
      * by destruct Hsp as [-> | ->].
      * intros code Hc. destruct (I5 code Hc) as [?|[? _]]; auto.
    + split; [|done]. constructor; simpl; try done; [by rewrite Ho|by left|by destruct Hsp as [-> | ->]].
  - destruct sp; cbn [secondary_step]; unfold send_message; wp_steps; (split; [constructor; simpl in *; try done; auto|done]).
    destruct I3 as [-> Ho]. by right.
Qed.

Lemma sample_start : inv (PInit, SInit) sample0 [].
Proof. constructor; simpl; try done. by left. Qed.

(** For every schedule: the primary prints the four bytes 42 to 45 in order, once, or nothing; it
    returns 0 only after it has printed them. *)
Theorem sample_correct sched :
  wp (sample_run sched (PInit, SInit)) (fun p _ t => (params t = [] \/ params t = BYTES) /\ (p.1 = PReturn 0 -> params t = BYTES))
    (fun _ _ _ => False) sample0 [].
Proof.
  eapply wp_mono; [apply (wp_run_config sample_step (fun _ => inv) (fun _ _ _ => False)); [|apply sample_start]| |done].
  - intros _ i p s t HI. eapply wp_mono; [by apply sample_step_ok| |done]. by intros p' s' t' [? _].
  - intros p s t [I1 _ _ I5 _]. split; [destruct (out s); auto|].
    intros Hp. destruct (I5 _ Hp) as [?|[_ Ho]]; [done|]. by rewrite Ho in I1.
Qed.

(** The message is lost when the secondary sends it before the primary has registered the callback, and
    nobody sends it again: from then on no schedule lets the primary end with 0. *)
Definition lost (p : primary_pc * secondary_pc) (s : sample_state) : Prop :=
  inbox s = [] /\ out s = false /\ (p.2 = SReturn \/ p.2 = SExit) /\ p.1 <> PReturn 0.
Theorem sample_message_lost sched :
  wp (sample_run ([0; 2; 2; 1]%nat ++ sched) (PInit, SInit))
    (fun p s _ => p.1 <> PReturn 0 /\ out s = false) (fun _ _ _ => False) sample0 [].
Proof.
  assert (forall p s t, lost p s ->
    wp (run_config sample_step sched p) (fun p' s' _ => lost p' s') (fun _ _ _ => False) s t) as Hrun.
  { intros p s t. apply (wp_run_config sample_step (fun _ p s _ => lost p s) (fun _ _ _ => False)).
    clear. intros _ i [pp sp] s t (Hi & Ho & Hs & Hp). cbn [fst snd] in *.
    destruct i as [|[|[|i]]]; cbn [sample_step fst snd]; [| | |by apply wp_ret].
    - unfold lost. destruct pp; cbn [primary_step]; wp_steps; cbn [fst snd inbox out]; try done. congruence.
    - unfold handle. wp_steps. rewrite Hi. by wp_steps.
    - destruct Hs as [-> | ->]; cbn [secondary_step]; wp_steps; (split_and!; [done..|by auto|done]). }
  assert (forall p s t, lost p s -> wp (run_config sample_step sched p) (fun p' s' _ => p'.1 <> PReturn 0 /\ out s' = false)
    (fun _ _ _ => False) s t) as Hend.
  { intros p s t H. eapply wp_mono; [by apply Hrun| |done]. intros p' s' _ (_ & ? & _ & ?). done. }
  unfold sample_run. cbn [app run_config sample_step].
  repeat (wp_steps; cbn [fst snd primary_step secondary_step]; unfold send_message, handle; cbn [inbox]).
  all: apply Hend; unfold lost; cbn [fst snd inbox out registered]; split_and!; by auto.
Qed.
End Theorems.
End Sample.

(** ** Witness *)

Definition mp_script : script :=
  Script (fun a => match a with rte_ring_create _ _ _ => 1 | api_call _ [k] => k | _ => 0 end) [] 0
    (fun t => Z.of_nat (length t)) true None 0.
#[local] Instance mp_env : Env := sim_env mp_script.

Lemma pair_ends_witness :
  let rounds := replicate 40 [0; 1; 2; 3]%nat in
  Pair.works /\ Forall (fair_round 4) rounds /\ (40 <= length rounds)%nat /\
  wp (@Pair.pair_run mp_env (sim_ring Z) (concat rounds)) (fun p _ t => p.1 = Pair.PDone /\ shown Pair.RECEIVED t = [0; 1; 2; 3; 4])
    (fun _ _ _ => False) Pair.mp0 [].
Proof.
  assert (@Pair.works mp_env) as HW by done.
  assert (Forall (fair_round 4) (replicate 40 [0; 1; 2; 3]%nat)) as Hf.
  { apply Forall_replicate. intros i Hi. destruct i as [|[|[|[|i]]]]; [by repeat constructor..|lia]. }
  split; [exact HW|]. split; [exact Hf|]. split; [done|]. by apply Pair.pair_ends.
Defined.
