(* ===== verification/Lcores.v ===== *)
(** * lcore and practice: functions launched on lcores

    [Wait] (lcore/lcore_wit.c) has the main lcore wait for the result of each worker,
    [PerLcore] (lcore/lcore_var_example.c) counts in a variable per lcore, [Direct]
    (lcore/exp_lcore) calls one launched function from another, [Ring]
    (practice/ring.c) a ring that is freed while an lcore may still poll it, and
    [Unawaited] (practice/sample.c) a function whose end main does not await. *)

From S2P Require Import Prelude Rte Env Schedule Threads Ipc BurstIo Sim.

Definition EXIT_FAILURE := 1.

(** ** lcore/lcore_wit.c *)

Module Wait.
Inductive worker_pc := LStart | LDelay | LReturn (v : Z).
Inductive main_pc := MStart | MDelay | MWait (k : nat) | MBlock (k : nat) | MDone.

Section Wait.
Context {E : Env}.
(** The main lcore and the worker lcores, in the order of RTE_LCORE_FOREACH_WORKER. *)
Variables (main_lcore : Z) (workers : list Z).
Notation M := (M unit).
Definition STARTED : string := ">>> LCORE %u: started work\n".
Definition FINISHED : string := ">>> LCORE %u: finished work\n".
Definition RETURNED : string := "<<< LCORE %u returned %d\n".

(** The function on one lcore; the delay is a number of microseconds, an unsigned int. *)
Definition lcore_main (id : Z) (pc : worker_pc) : M worker_pc :=
  match pc with
  | LStart => printf STARTED [PInt id] ;; ret LDelay
  | LDelay =>
      _ <-- call (api_call "rte_delay_us_block" [u32 (u32 (300 + u32 (id * 100)) * 1000)]) ;;
      printf FINISHED [PInt id] ;;
      ret (LReturn (u32 (id * 10)))
  | LReturn v => ret (LReturn v)
  end.

(** CALL_MAIN: the main lcore runs the function too, after it has launched it on the workers.
    rte_eal_wait_lcore blocks until the worker has returned. *)
Definition main_step (ws : list worker_pc) (pc : main_pc) : M main_pc :=
  match pc with
  | MStart => p <-- lcore_main main_lcore LStart ;; ret MDelay
  | MDelay => p <-- lcore_main main_lcore LDelay ;; ret (MWait 0)
  | MWait k =>
      match workers !! k with
      | Some id => printf "Waiting for lcore %u...\n" [PInt id] ;; ret (MBlock k)
      | None => printf "Main core finished waiting.\n" [] ;; ret MDone
      end
  | MBlock k =>
      match ws !! k, workers !! k with
      | Some (LReturn v), Some id => printf RETURNED [PInt id; PInt v] ;; ret (MWait (S k))
      | _, _ => ret (MBlock k)
      end
  | MDone => ret MDone
  end.

Definition wit_step (i : nat) (c : main_pc * list worker_pc) : M (main_pc * list worker_pc) :=
  match i with
  | O => pc <-- main_step c.2 c.1 ;; ret (pc, c.2)
  | S k =>
      match c.2 !! k, workers !! k with
      | Some p, Some id => p' <-- lcore_main id p ;; ret (c.1, <[k := p']> c.2)
      | _, _ => ret c
      end
  end.

Definition main (sched : list nat) : M (main_pc * list worker_pc) :=
  _ <-- call rte_eal_init ;;
  printf "Launching on all lcores...\n" [] ;;
  run_config wit_step sched (MStart, map (fun _ => LStart) workers).

(** The results the main lcore prints, and the lcores that have announced their end. *)
Fixpoint results (t : trace) : list (Z * Z) :=
  match t with
  | [] => []
  | EvPrintf f [PInt id; PInt v] :: t' => if String.eqb f RETURNED then results t' ++ [(id, v)] else results t'
  | _ :: t' => results t'
  end.
End Wait.

Section Theorems.
Context {E : Env} (main_lcore : Z) (workers : list Z).
Notation step := (wit_step main_lcore workers).
Notation conf := (main_pc * list worker_pc)%type.

Definition waited (pc : main_pc) : nat :=
  match pc with MStart | MDelay => 0 | MWait k | MBlock k => k | MDone => length workers end.
Record inv (c : conf) (s : unit) (t : trace) : Prop := {
  inv_len : length c.2 = length workers;
  inv_ret k v id : c.2 !! k = Some (LReturn v) -> workers !! k = Some id -> v = u32 (id * 10);
  inv_results : results t = map (fun id => (id, u32 (id * 10))) (take (waited c.1) workers);
  inv_block k : c.1 = MBlock k -> (k < length workers)%nat }.

Definition left (p : worker_pc) : nat := match p with LStart => 2 | LDelay => 1 | LReturn _ => 0 end.
Definition main_left (pc : main_pc) : nat :=
  match pc with
  | MStart => 2 * length workers + 3 | MDelay => 2 * length workers + 2
  | MWait k => 2 * (length workers - k) + 1 | MBlock k => 2 * (length workers - k) | MDone => 0
  end.
Definition rank (c : conf) (s : unit) : nat := main_left c.1 + sum_list_with left c.2.
Definition enabled (i : nat) (c : conf) (s : unit) : bool :=
  match i with
  | O => match c.1 with MDone => false | MBlock k => match c.2 !! k with Some (LReturn _) => true | _ => false end | _ => true end
  | S k => match c.2 !! k with Some (LReturn _) | None => false | _ => true end
  end.

Lemma step_ok i c s t :
  inv c s t ->
  wp (step i c) (fun c' s' t' => inv c' s' t' /\ if enabled i c s then (rank c' s' < rank c s)%nat else c' = c /\ s' = s)
    (fun _ _ _ => False) s t.
Proof.
  intros HI. pose proof HI as [Il Iv Ir Ib]. destruct c as [pc ws], s. cbn [fst snd] in *.
  destruct i as [|k]; cbn [wit_step enabled fst snd].
  - destruct pc as [| |k|k|]; cbn [main_step lcore_main]; wp_steps.
    + split; [constructor; simpl in *; done|]. unfold rank. simpl. lia.
    + split; [constructor; simpl in *; done|]. unfold rank. simpl. lia.
    + destruct (workers !! k) as [id|] eqn:Hk; wp_steps.
      * apply lookup_lt_Some in Hk. split; [constructor; simpl in *; try done|unfold rank; simpl; lia].
        by intros ? [= <-].
      * apply lookup_ge_None in Hk. split; [constructor; simpl in *; try done|unfold rank; simpl; lia].
        rewrite Ir, !take_ge; done || lia.
    + destruct (ws !! k) as [p|] eqn:Hw.
      2: { apply lookup_ge_None in Hw. specialize (Ib k eq_refl). lia. }
      destruct (workers !! k) as [id|] eqn:Hk.
      2: { apply lookup_ge_None in Hk. specialize (Ib k eq_refl). lia. }
      destruct p as [| |v]; wp_steps; [by split|by split|].
      pose proof (lookup_lt_Some _ _ _ Hk) as Hlt. split; [constructor; simpl in *; try done|unfold rank; simpl; lia].
      by rewrite Ir, (take_S_r _ _ _ Hk), map_app, (Iv k v id).
    + by split.
  - destruct (ws !! k) as [p|] eqn:Hw; [|by apply wp_ret].
    destruct (workers !! k) as [id|] eqn:Hk.
    2: { apply lookup_ge_None in Hk. apply lookup_lt_Some in Hw. lia. }
    assert (forall p' t', results t' = results t -> (forall v, p' = LReturn v -> v = u32 (id * 10)) ->
      inv (pc, <[k := p']> ws) tt t') as Hinv.
    { intros p' t' Ht Hp. constructor; simpl in *; [by rewrite length_insert| |by rewrite Ht|done].
      intros j v id' Hj Hid. destruct (decide (j = k)) as [->|]; [|rewrite list_lookup_insert_ne in Hj by done; by eapply Iv].
      rewrite list_lookup_insert_eq in Hj by (by apply lookup_lt_Some in Hw). injection Hj as Hj. rewrite Hk in Hid.
      injection Hid as <-. by apply Hp. }
    destruct p as [| |v]; cbn [lcore_main]; wp_steps.
    + split; [by apply Hinv|]. unfold rank. cbn [fst snd]. pose proof (sum_left_insert left ws k _ LDelay Hw). simpl in *. lia.
    + split; [apply Hinv; [done|by intros v [= ->]]|]. unfold rank. cbn [fst snd].
      pose proof (sum_left_insert left ws k _ (LReturn (u32 (id * 10))) Hw). simpl in *. lia.
    + rewrite list_insert_id by done. by split.
Qed.

Lemma start_inv t : results t = [] -> inv (MStart, map (fun _ => LStart) workers) tt t.
Proof.
  intros Ht. constructor; simpl; [by rewrite length_map| |by rewrite Ht|done].
  intros k v id Hk. rewrite list_lookup_fmap in Hk. by destruct (workers !! k).
Qed.

(** C27: For every number of workers and every schedule: the main lcore prints the results of the workers
    in their order, each being ten times the worker's number; and fair rounds, as many as there are steps to make,
    bring all of it to its end. *)
Theorem wit_correct ls :
  Forall (fair_round (S (length workers))) ls -> Forall (Forall (fun i => i < S (length workers))%nat) ls ->
  (4 * length workers + 3 < length ls)%nat ->
  wp (main main_lcore workers (concat ls)) (fun c _ t => c.1 = MDone /\ Forall (fun p => exists v, p = LReturn v) c.2 /\
      results t = map (fun id => (id, u32 (id * 10))) workers) (fun _ _ _ => False) tt [].
Proof.
  intros Hf Hk Hl. unfold main. wp_steps.
  eapply wp_mono; [apply (wp_fair_rounds step (S (length workers)) inv rank enabled step_ok); [by apply start_inv|done|done|]| |done].
  - unfold rank. simpl. assert (sum_list_with left (map (fun _ => LStart) workers) = 2 * length workers)%nat as ->; [|lia].
    clear. induction workers as [|w ws IH]; simpl; [done|]. rewrite IH. lia.
  - intros [pc ws] s t [[Il Iv Ir Ib] Hd]. cbn [fst snd] in *.
    assert (forall k, (k < length ws)%nat -> exists v, ws !! k = Some (LReturn v)) as Hall.
    { intros k Hlt. specialize (Hd (S k)). simpl in Hd. destruct (lookup_lt_is_Some_2 ws k Hlt) as [p Hp]. rewrite Hp in *.
      destruct p as [| |v]; [by discriminate Hd; lia..|by exists v]. }
    assert (pc = MDone) as ->.
    { specialize (Hd 0%nat ltac:(lia)). destruct pc as [| |k|k|]; simpl in Hd; try done.
      destruct (Hall k) as [v Hv]; [rewrite Il; by apply Ib|]. by rewrite Hv in Hd. }
    split; [done|]. split.
    + apply Forall_lookup. intros k p Hp. destruct (Hall k) as [v Hv]; [by eapply lookup_lt_Some|]. exists v. congruence.
    + rewrite Ir. simpl. by rewrite take_ge.
Qed.
End Theorems.
End Wait.

(** ** lcore/lcore_var_example.c *)

Module PerLcore.
Inductive pc := VCount | VPrint | VDone.

Section PerLcore.
Context {E : Env}.
(** [my_counter] of each lcore. *)
Notation M := (M (gmap Z Z)).
Definition my_counter (id : Z) (s : gmap Z Z) : Z := default 0 (s !! id).
Definition COUNTER : string := "Core %u: counter = %d\n".

Definition lcore_main (th : Z * pc) : M (Z * pc) :=
  let id := th.1 in
  match th.2 with
  | VCount =>
      v <-- gets (my_counter id) ;;
      v' <-- deref (if in_int (v + 1) then Some (v + 1) else None) ;;
      modify (<[id := v']>) ;;
      ret (id, VPrint)
  | VPrint => v <-- gets (my_counter id) ;; printf COUNTER [PInt id; PInt v] ;; ret (id, VDone)
  | VDone => ret (id, VDone)
  end.

(** All lcores, the main one among them, run the function; then the main lcore waits for the others. *)
Definition main (lcores : list Z) (sched : list nat) : M (list (Z * pc)) :=
  _ <-- call rte_eal_init ;;
  run_threads lcore_main sched (map (fun id => (id, VCount)) lcores).

Fixpoint counters (t : trace) : list (Z * Z) :=
  match t with
  | [] => []
  | EvPrintf f [PInt id; PInt v] :: t' => if String.eqb f COUNTER then counters t' ++ [(id, v)] else counters t'
  | _ :: t' => counters t'
  end.
End PerLcore.

Section Theorems.
Context {E : Env}.
Definition said (th : Z * pc) : list (Z * Z) := match th.2 with VDone => [(th.1, 1)] | _ => [] end.
Definition value (p : pc) : Z := match p with VCount => 0 | _ => 1 end.

Record inv (lcores : list Z) (ths : list (Z * pc)) (s : gmap Z Z) (t : trace) : Prop := {
  inv_lcores : map fst ths = lcores;
  inv_value : Forall (fun th => my_counter th.1 s = value th.2) ths;
  inv_said : counters t ≡ₚ concat (map said ths) }.

Lemma value_other (l : list (Z * pc)) id v s : id ∉ map fst l ->
  Forall (fun th => my_counter th.1 s = value th.2) l -> Forall (fun th => my_counter th.1 (<[id := v]> s) = value th.2) l.
Proof.
  intros Hn H. rewrite Forall_forall in *. intros th Hth. rewrite <- (H th Hth). unfold my_counter.
  rewrite lookup_insert_ne; [done|]. intros ->. apply Hn. by apply (list_elem_of_fmap_2 fst).
Qed.

(** For every schedule: an lcore announces its own counter, once, and it is 1 although all of them count. *)
Theorem per_lcore_correct lcores sched :
  NoDup lcores ->
  wp (main lcores sched) (fun ths _ t => map fst ths = lcores /\ counters t ≡ₚ concat (map said ths))
    (fun _ _ _ => False) ∅ [].
Proof.
  intros Hd. unfold main. wp_steps.
  eapply wp_mono; [apply (wp_run_threads lcore_main (inv lcores) (fun _ _ _ => False))| |done].
  - intros pre [id p] post s0 t0 [Il Iv Is]. rewrite map_app in Il. simpl in Il.
    assert (id ∉ map fst pre /\ id ∉ map fst post) as [N1 N2].
    { rewrite <- Il in Hd. apply NoDup_app in Hd as (_ & D1 & D2). apply NoDup_cons in D2 as [D2 _]. split; [|done].
      intros Hx. apply (D1 _ Hx). by left. }
    apply Forall_app in Iv as [V1 V2]. apply Forall_cons in V2 as [V0 V2]. cbn [fst snd] in V0.
    rewrite map_app, concat_app in Is. simpl in Is.
    destruct p; unfold lcore_main; cbn [fst snd]; wp_steps.
    + rewrite V0. simpl. wp_steps. constructor; rewrite ?map_app, ?concat_app; simpl; [done| |done].
      apply Forall_app. split; [by apply value_other|]. constructor; [|by apply value_other].
      unfold my_counter. simpl. by rewrite lookup_insert_eq.
    + rewrite V0. constructor; rewrite ?map_app, ?concat_app; simpl; [done|apply Forall_app; split; [done|by constructor]|].
      rewrite Is. simpl. solve_Permutation.
    + constructor; rewrite ?map_app, ?concat_app; simpl; [done|apply Forall_app; split; [done|by constructor]|done].
  - constructor; simpl.
    + rewrite map_map. simpl. by rewrite map_id.
    + apply Forall_map, Forall_true. intros id. done.
    + rewrite map_map. clear. induction lcores; simpl; [done|]. done.
  - by intros ths s0 t0 [? _ ?].
Qed.
End Theorems.
End PerLcore.

(** ** lcore/exp_lcore/main.c *)

Module Direct.
Inductive pc := Func1 | Func2 | Done.

Section Direct.
Context {E : Env}.
Notation M := (M unit).
Definition FUNC1 : string := "Inside func1: running on lcore %u\n".
Definition FUNC2 : string := "Inside func2: running on lcore %u\n".

(** func1 calls func2 directly. *)
Definition func_step (th : Z * pc) : M (Z * pc) :=
  match th.2 with
  | Func1 => printf FUNC1 [PInt th.1] ;; ret (th.1, Func2)
  | Func2 => printf FUNC2 [PInt th.1] ;; ret (th.1, Done)
  | Done => ret th
  end.

(** A launch that fails, which is not tested, starts nothing. *)
Definition main (sched : list nat) : M (list (Z * pc)) :=
  _ <-- call rte_eal_init ;;
  let target := 1 in let target2 := 2 in
  printf "Launching func1 on lcore %u...\n" [PInt target] ;;
  r1 <-- call (rte_eal_remote_launch "func1" target) ;;
  printf "Launching func2 on lcore %u...\n" [PInt target2] ;;
  r2 <-- call (rte_eal_remote_launch "func2" target2) ;;
  run_threads func_step sched
    ((if r1 =? 0 then [(target, Func1)] else []) ++ (if r2 =? 0 then [(target2, Func2)] else [])).

(** What an lcore printed. *)
Fixpoint lines_of (id : Z) (t : trace) : list string :=
  match t with
  | [] => []
  | EvPrintf f [PInt v] :: t' =>
      if (v =? id) && (String.eqb f FUNC1 || String.eqb f FUNC2) then lines_of id t' ++ [f] else lines_of id t'
  | _ :: t' => lines_of id t'
  end.
End Direct.

Section Theorems.
Context {E : Env}.
(** What a thread still prints. *)
Definition todo (id : Z) (ths : list (Z * pc)) : list string :=
  concat (map (fun th => if th.1 =? id then match th.2 with Func1 => [FUNC1; FUNC2] | Func2 => [FUNC2] | Done => [] end else []) ths).
Definition inv (ths : list (Z * pc)) (_ : unit) (t : trace) : Prop :=
  NoDup (map fst ths) /\
  (lines_of 1 t ++ todo 1 ths = [] \/ lines_of 1 t ++ todo 1 ths = [FUNC1; FUNC2]) /\
  (lines_of 2 t ++ todo 2 ths = [] \/ lines_of 2 t ++ todo 2 ths = [FUNC2]).

Lemma todo_other id ths : id ∉ map fst ths -> todo id ths = [].
Proof.
  induction ths as [|[j p] ths IH]; simpl; [done|]. rewrite not_elem_of_cons. intros [Hn H]. unfold todo in *. simpl.
  destruct (Z.eqb_spec j id) as [->|]; [done|]. by apply IH.
Qed.
Lemma todo_app id a b : todo id (a ++ b) = todo id a ++ todo id b.
Proof. unfold todo. by rewrite map_app, concat_app. Qed.

(** For every schedule: func2 runs on lcore 1 after func1, and on lcore 2 on its own. *)
Theorem direct_correct sched :
  wp (main sched) (fun _ _ t =>
      (lines_of 1 t = [] \/ lines_of 1 t = [FUNC1] \/ lines_of 1 t = [FUNC1; FUNC2]) /\
      (lines_of 2 t = [] \/ lines_of 2 t = [FUNC2])) (fun _ _ _ => False) tt [].
Proof.
  unfold main. wp_steps.
  eapply wp_mono; [apply (wp_run_threads func_step inv (fun _ _ _ => False))| |done].
  - intros pre [id p] post [] t0 (Hd & H1 & H2). rewrite map_app in Hd. simpl in Hd.
    assert (id ∉ map fst pre) as N1.
    { apply NoDup_app in Hd as (_ & D1 & _). intros Hx. apply (D1 _ Hx). by left. }
    assert (forall k (p' : pc), todo k (pre ++ (id, p') :: post) =
      todo k pre ++ (if id =? k then match p' with Func1 => [FUNC1; FUNC2] | Func2 => [FUNC2] | Done => [] end else []) ++ todo k post) as Ht.
    { intros k p'. by rewrite todo_app. }
    assert (forall k, id = k -> todo k pre = []) as Hpre by (by intros k <-; apply todo_other).
    rewrite !Ht in *. destruct p; unfold func_step; cbn [fst snd]; wp_steps; unfold inv; rewrite !Ht, ?map_app; simpl;
      (split; [done|]); (split; [destruct (Z.eqb_spec id 1) as [E1|]|destruct (Z.eqb_spec id 2) as [E2|]]); try done;
      rewrite Hpre in * by done; simpl in *; by rewrite <- ?app_assoc.
  - unfold inv. destruct (r0 =? 0), (r1 =? 0); simpl; split_and!; try (by right); try (by left); repeat constructor; try set_solver.
  - intros ths [] t0 (_ & H1 & H2). split.
    + destruct H1 as [[H1 _]%app_nil|H1]; [by left|]. destruct (lines_of 1 t0) as [|a [|b [|c l]]]; simpl in H1; [by left|..|done].
      * injection H1 as -> _. by right; left.
      * injection H1 as -> -> _. by right; right.
    + destruct H2 as [[H2 _]%app_nil|H2]; [by left|]. destruct (lines_of 2 t0) as [|a [|b l]]; simpl in H2; [by left|..|done].
      injection H2 as -> _. by right.
Qed.
End Theorems.
End Direct.

(** ** practice/ring.c *)

Module Ring.
Inductive main_pc := MWait | MFree | MDone.
Inductive sender_pc := HStart | HAlloc | HEnqueue (a : Z) | HEnd.
Inductive receiver_pc := RStart | RPoll | RGot (a : Z) | REnd.
(** [None] is a handler that was not launched. *)
Record conf := Conf { main_at : main_pc; handler_at : option sender_pc; handler2_at : option receiver_pc }.

Section Ring.
Context {E : Env} {RR : RteRing Z}.
Notation shared := (@shared RR Z).
Notation M := (M shared).
Definition RING : string := "ring1".
Definition GOT : string := "Data dequeued from handler2: %d\n".

Definition handler (pc : sender_pc) : M sender_pc :=
  match pc with
  | HStart => printf "In handler function\n" [] ;; printf "lcore id %d\n" [PInt 1] ;; ret HAlloc
  | HAlloc => data <-- alloc_init 4 20 ;; ret (HEnqueue data)
  | HEnqueue a => _ <-- enqueue RING a ;; printf "Data enqueued from handler\n" [] ;; ret HEnd
  | HEnd => ret HEnd
  end.
Definition handler2 (pc : receiver_pc) : M receiver_pc :=
  match pc with
  | RStart => printf "In handler2 function\n" [] ;; printf "lcore id %d\n" [PInt 2] ;; ret RPoll
  | RPoll => o <-- dequeue RING ;; ret (match o with Some a => RGot a | None => RPoll end)
  | RGot a => v <-- load a ;; printf GOT [PInt v] ;; ret REnd
  | REnd => ret REnd
  end.
(** Lcore 0 is the main lcore itself, for which there is nothing to wait; lcore 2 is not waited for. *)
Definition rte_ring_free (name : string) : M unit :=
  modify (fun s => Shared (heap s) (delete name (rings s))).
Definition main_step (h : option sender_pc) (pc : main_pc) : M main_pc :=
  match pc with
  | MWait => ret (match h with Some HEnd | None => MFree | _ => MWait end)
  | MFree => rte_ring_free RING ;; ret MDone
  | MDone => ret MDone
  end.

Definition ring_step (i : nat) (c : conf) : M conf :=
  match i, c with
  | 0%nat, Conf m h r => m' <-- main_step h m ;; ret (Conf m' h r)
  | 1%nat, Conf m (Some h) r => h' <-- handler h ;; ret (Conf m (Some h') r)
  | 2%nat, Conf m h (Some r) => r' <-- handler2 r ;; ret (Conf m h (Some r'))
  | _, _ => ret c
  end.

(** [main] up to the waiting; the results of the launches are ignored. *)
Definition start : M conf :=
  r <-- call rte_eal_init ;;
  when (r <? 0) (rte_exit EXIT_FAILURE) ;;
  ring <-- ring_create RING 1024 0 ;;
  when (ring =? 0) (rte_exit EXIT_FAILURE) ;;
  printf "Ring created successfully\n" [] ;;
  r1 <-- call (rte_eal_remote_launch "handler" 1) ;;
  r2 <-- call (rte_eal_remote_launch "handler2" 2) ;;
  ret (Conf MWait (if r1 =? 0 then Some HStart else None) (if r2 =? 0 then Some RStart else None)).
Definition main (sched : list nat) : M conf := c <-- start ;; run_config ring_step sched c.
End Ring.

Section Theorems.
Context {E : Env} {RR : RteRing Z}.
Implicit Types (s : @shared RR Z) (t : trace).

(** The next step polls the ring that was freed. *)
Definition polls_freed (i : nat) (c : conf) : bool :=
  match i, c with 2%nat, Conf MDone _ (Some RPoll) => true | _, _ => false end.

(** The addresses in flight: at most one, and it holds 20. *)
Definition with_receiver (r : option receiver_pc) : list Z := match r with Some (RGot a) => [a] | _ => [] end.
Record inv (c : conf) (s : @shared RR Z) (t : trace) : Prop := {
  inv_caps : caps 1023 s;
  inv_ring : is_Some (rings s !! RING) <-> main_at c <> MDone;
  inv_acct : accounted s t;
  inv_block a : a ∈ with_receiver (handler2_at c) ++ items RING s -> heap s !! a = Some 20;
  inv_sent a : handler_at c = Some (HEnqueue a) -> heap s !! a = Some 20;
  inv_one : items RING s <> [] -> handler_at c = Some HEnd /\ zlen (items RING s) = 1;
  inv_waited : main_at c <> MWait -> match handler_at c with Some HEnd | None => True | _ => False end;
  inv_got : shown GOT t = match handler2_at c with Some REnd => [20] | _ => [] end;
  inv_end : (exists a, handler2_at c = Some (RGot a)) \/ handler2_at c = Some REnd -> handler_at c = Some HEnd /\ items RING s = [] }.

Lemma handler_ok m h r s t :
  malloc_works -> inv (Conf m (Some h) r) s t ->
  wp (handler h) (fun h' s' t' => inv (Conf m (Some h') r) s' t') (fun _ _ _ => False) s t.
Proof.
  intros Hm HI. pose proof HI as [Ic Ir Ia Ib Is Io Iw Ig Ie]. cbn [main_at handler_at handler2_at] in *.
  assert (h <> HEnd -> items RING s = []) as Hempty.
  { intros Hh. destruct (items RING s); [done|]. destruct Io as [[= ->] _]; done. }
  assert (h <> HEnd -> m = MWait) as Hwait.
  { intros Hh. destruct m; [done|by destruct h; try done; destruct Iw..]. }
  assert (h <> HEnd -> ~ ((exists a, r = Some (RGot a)) \/ r = Some REnd)) as Hnone.
  { intros Hh Hx. destruct (Ie Hx) as [[= ->] _]. done. }
  assert (forall h' s' t', h <> HEnd -> h' <> HEnd -> items RING s' = [] -> caps 1023 s' -> accounted s' t' ->
    (is_Some (rings s' !! RING) <-> is_Some (rings s !! RING)) -> shown GOT t' = shown GOT t ->
    (forall a v, heap s !! a = Some v -> heap s' !! a = Some v) ->
    (forall a, Some h' = Some (HEnqueue a) -> heap s' !! a = Some 20) -> inv (Conf m (Some h') r) s' t') as Hinv.
  { intros h' s' t' Hh Hh' Hi Hc Hacc Hr Ht Hheap Hsent. rewrite Hempty in Ib by done.
    constructor; cbn [main_at handler_at handler2_at]; rewrite ?Hi, ?Hr, ?Ht; try done.
    - intros a Ha. by apply Hheap, Ib.
    - intros Hx. by rewrite Hwait in Hx.
    - intros Hx. by destruct (Hnone Hh). }
  destruct h as [| |a|]; cbn [handler].
  - wp_steps. apply Hinv; try done. by apply Hempty.
  - wp_step. apply wp_alloc_init; [done|done|]. intros a Ha. wp_steps. apply Hinv; try done.
    + by apply Hempty.
    + by apply accounted_alloc.
    + intros b v Hb. simpl. by rewrite lookup_insert_ne by congruence.
    + intros b [= ->]. simpl. by rewrite lookup_insert_eq.
  - specialize (Is a eq_refl). rewrite Hempty in * by done. rewrite Hwait in * by done.
    wp_step. eapply (wp_ring_enqueue 1023); [done|by apply Ir|by rewrite Hempty|]. intros s' U. wp_steps.
    pose proof (accounted_ring _ _ _ _ _ _ U Ia) as Ha'. destruct U as [Uh Ui _ Ue Uc]. rewrite Hempty in Ui by done. simpl in Ui.
    constructor; cbn [main_at handler_at handler2_at shown]; try done; rewrite ?Uh, ?Ui; try done.
    + rewrite Ue. apply Ir.
    + intros b [Hb| ->%list_elem_of_singleton]%elem_of_app; [apply Ib, elem_of_app; by left|done].
    + intros Hx. by destruct (Hnone ltac:(done)).
  - by wp_steps.
Qed.

Lemma handler2_ok m h r s t :
  inv (Conf m h (Some r)) s t -> polls_freed 2 (Conf m h (Some r)) = false ->
  wp (handler2 r) (fun r' s' t' => inv (Conf m h (Some r')) s' t') (fun _ _ _ => False) s t.
Proof.
  intros HI K. pose proof HI as [Ic Ir Ia Ib Is Io Iw Ig Ie]. cbn [main_at handler_at handler2_at] in *.
  assert (forall r' s' t', items RING s' = items RING s -> caps 1023 s' -> accounted s' t' ->
    (is_Some (rings s' !! RING) <-> is_Some (rings s !! RING)) -> heap s' = heap s ->
    shown GOT t' = match r' with REnd => [20] | _ => [] end -> with_receiver (Some r') = [] ->
    (r' = REnd -> h = Some HEnd /\ items RING s = []) -> inv (Conf m h (Some r')) s' t') as Hinv.
  { intros r' s' t' Hi Hc Hacc Hr Hh Ht Hw He. constructor; cbn [main_at handler_at handler2_at]; rewrite ?Hi, ?Hr, ?Hh, ?Ht; try done.
    - intros a Ha. apply Ib. rewrite Hw in Ha. apply elem_of_app. by right.
    - intros [[a [= ->]]|[= ->]]; [done|by apply He]. }
  destruct r as [| |a|]; cbn [handler2].
  - wp_steps. by apply Hinv.
  - wp_step. eapply (wp_ring_dequeue 1023); [done|apply Ir; by destruct m|]. intros s' U. wp_steps.
    pose proof (accounted_ring _ _ _ _ _ _ U Ia) as Ha'. destruct U as [Uh Ui _ Ue Uc].
    destruct (items RING s) as [|a l] eqn:Hl; simpl in *.
    + by apply Hinv.
    + destruct Io as [-> Hz]; [done|]. destruct l; [|unfold zlen in Hz; simpl in Hz; lia]. simpl in *.
      constructor; cbn [main_at handler_at handler2_at]; try done; rewrite ?Uh, ?Ui; try done. by rewrite Ue.
  - wp_step. eapply wp_load; [apply Ib; by left|]. wp_steps. apply Hinv; try done; [simpl; by rewrite Ig|].
    intros _. apply Ie. left. by exists a.
  - by wp_steps.
Qed.

Lemma ring_step_ok i c s t :
  malloc_works -> inv c s t -> polls_freed i c = false -> wp (ring_step i c) inv (fun _ _ _ => False) s t.
Proof.
  intros Hm HI K. destruct c as [m h r].
  destruct i as [|[|[|i]]]; cbn [ring_step]; [| | |by apply wp_ret].
  - pose proof HI as [Ic Ir Ia Ib Is Io Iw Ig Ie]. cbn [main_at handler_at handler2_at] in *.
    destruct m; cbn [main_step]; unfold rte_ring_free; wp_steps.
    + constructor; cbn [main_at handler_at handler2_at]; try done; [|by destruct h as [[| |a|]|]].
      rewrite Ir. by destruct h as [[| |a|]|].
    + assert (items RING (Shared (heap s) (delete RING (rings s))) = []) as Hi by (unfold items; simpl; by rewrite lookup_delete_eq).
      constructor; cbn [main_at handler_at handler2_at]; rewrite ?Hi; simpl; try done.
      * intros name q. simpl. rewrite lookup_delete_Some. intros [_ Hq]. by eapply Ic.
      * rewrite lookup_delete_eq. split; [by intros []|done].
      * intros a Ha. apply Ib. apply elem_of_app. left. by rewrite app_nil_r in Ha.
      * intros _. by apply Iw.
      * intros Hx. destruct (Ie Hx) as [? _]. done.
    + done.
  - destruct h as [h|]; [|by apply wp_ret]. wp_step. eapply wp_mono; [by apply handler_ok| |done]. intros h' s' t' H. by apply wp_ret.
  - destruct r as [r|]; [|by apply wp_ret]. wp_step. eapply wp_mono; [by apply handler2_ok| |done]. intros r' s' t' H. by apply wp_ret.
Qed.

Lemma start_ring_ok :
  wp start (fun c s t => inv c s t) (fun code _ t => code = EXIT_FAILURE /\ shown GOT t = []) no_memory [].
Proof.
  unfold start. wp_steps; [done|]. eapply (wp_ring_create 1024); [by intros ? ? ?|done| |].
  - intros _. by wp_steps.
  - intros r' s' Hr Hc Hh Hi He. wp_steps; [by apply Z.eqb_eq in H0|].
    assert (items RING s' = []) as Hi' by by rewrite Hi.
    constructor; simpl; rewrite ?Hi'; try done.
    + rewrite He. split; [by intros _|by intros _; left].
    + unfold accounted. by rewrite Hh.
    + intros a Ha. exfalso. case_match; by apply not_elem_of_nil in Ha.
    + by case_match.
    + repeat case_match; by simplify_eq.
    + repeat case_match; by intros [[a [=]]|[=]].
Qed.

(** practice/ring.c: for every schedule that does not come to lcore 2 polling the ring after main has freed it,
    nothing faults and lcore 2 prints nothing but the number 20 that lcore 1 sent, once. *)
Theorem ring_correct sched :
  malloc_works ->
  wp start (fun c0 s0 t0 =>
      wp (run_config ring_step sched c0) (fun _ _ t => shown GOT t = [] \/ shown GOT t = [20]) (fun _ _ _ => False) s0 t0 \/
      exists pre i post, sched = pre ++ i :: post /\
        wp (run_config ring_step pre c0) (fun c _ _ => polls_freed i c = true) (fun _ _ _ => False) s0 t0)
    (fun code _ t => code = EXIT_FAILURE /\ shown GOT t = []) no_memory [].
Proof.
  intros Hm. eapply wp_mono; [apply start_ring_ok| |done]. intros c0 s0 t0 HI.
  destruct (wp_run_config_or ring_step inv (fun i c _ => negb (polls_freed i c))) with (sched := sched) (c := c0) (s := s0) (t := t0)
    as [G|(pre & i & post & -> & G)]; [|done| |].
  - intros i c s t I K. apply negb_true_iff in K. by apply ring_step_ok.
  - left. eapply wp_mono; [exact G| |done]. intros c s t [_ _ _ _ _ _ _ Ig _]. rewrite Ig. repeat case_match; auto.
  - right. exists pre, i, post. split; [done|]. eapply wp_mono; [exact G| |done]. intros c s t [_ K]. by apply negb_false_iff in K.
Qed.

(** There is such a schedule: main waits for lcore 1 only, and frees the ring under lcore 2. *)
Theorem ring_use_after_free :
  malloc_works ->
  wp start (fun c0 s0 t0 => handler_at c0 = Some HStart -> handler2_at c0 = Some RStart ->
      exists s t, run_config ring_step ([2; 1; 1; 1; 0; 0] ++ [2])%nat c0 s0 t0 = Fault s t)
    (fun code _ t => code = EXIT_FAILURE) no_memory [].
Proof.
  intros Hm. eapply wp_mono; [apply start_ring_ok| |by intros c s t [? _]]. intros [m h r] s0 t0 HI Hh Hr. simpl in Hh, Hr. subst.
  assert (m = MWait) as -> by (destruct m; [done|by destruct (inv_waited _ _ _ HI)..]).
  assert (wp (run_config ring_step [2; 1; 1; 1; 0; 0]%nat (Conf MWait (Some HStart) (Some RStart)))
    (fun c s _ => c = Conf MDone (Some HEnd) (Some RPoll) /\ rings s !! RING = None) (fun _ _ _ => False) s0 t0) as Hw.
  { pose proof (inv_caps _ _ _ HI) as Hc. pose proof (inv_acct _ _ _ HI) as Ha. pose proof (inv_ring _ _ _ HI) as Hr.
    cbn [run_config ring_step]. do 4 (wp_steps; cbn [handler handler2]). wp_steps.
    apply wp_alloc_init; [done|done|]. intros a Hn. do 2 (wp_steps; cbn [handler]). wp_steps.
    eapply (wp_ring_try 1023); [done|by apply Hr| |].
    - intros _ s' U. do 3 (wp_steps; cbn [main_step]). unfold rte_ring_free. wp_steps.
      split; [done|]. simpl. apply lookup_delete_eq.
    - intros _ rr s' _ U. do 3 (wp_steps; cbn [main_step]). unfold rte_ring_free. wp_steps.
      split; [done|]. simpl. apply lookup_delete_eq. }
  unfold wp in Hw. rewrite run_config_app. unfold bind at 1. destruct (run_config _ _ _ _) as [c s t| |]; try done.
  destruct Hw as [-> Hn]. exists s, t. assert (dequeue RING s t = Fault s t) as Hf by (unfold dequeue, bind, gets; by rewrite Hn).
  cbn [run_config ring_step handler2]. unfold bind. by rewrite Hf.
Qed.
End Theorems.
End Ring.

(** ** practice/sample.c *)

Module Unawaited.
Inductive handler_pc := HCalled | HLcore | HValue | HReturn.
(** [returned]: main has returned, which ends the process and with it the lcores.  [None] is a handler
    that was not launched. *)
Record conf := Conf { returned : bool; running : option handler_pc }.

Section Unawaited.
Context {E : Env} {RR : RteRing Z}.
Notation shared := (@shared RR Z).
Notation M := (M shared).
Definition CALLED : string := "handler called
".
Definition LCORE : string := "lcore id %d
".
Definition VALUE : string := "value is %d
".
Definition INIT_DONE : string := "Eal init done
".

(** [val] is the address that main has passed. *)
Definition handler (val : Z) (pc : handler_pc) : M handler_pc :=
  match pc with
  | HCalled => printf CALLED [] ;; ret HLcore
  | HLcore => printf LCORE [PInt 1] ;; ret HValue
  | HValue => v <-- load val ;; printf VALUE [PInt v] ;; ret HReturn
  | HReturn => ret HReturn
  end.
(** Thread 0 is main after the launch, thread 1 the lcore. *)
Definition step (a : Z) (i : nat) (c : conf) : M conf :=
  match i, c with
  | 0%nat, Conf false h => printf INIT_DONE [] ;; ret (Conf true h)
  | 1%nat, Conf false (Some h) => h' <-- handler a h ;; ret (Conf false (Some h'))
  | _, _ => ret c
  end.
(** main up to the launch; its result [rt] is not looked at. *)
Definition start : M (Z * conf) :=
  r <-- call rte_eal_init ;;
  when (r <? 0) (rte_exit EXIT_FAILURE) ;;
  a <-- alloc_init 4 10 ;;
  rt <-- call (rte_eal_remote_launch "handler" 1) ;;
  ret (a, Conf false (if rt =? 0 then Some HCalled else None)).
Definition main (sched : list nat) : M conf := let* (a, c) := start in run_config (step a) sched c.
End Unawaited.

Section Theorems.
Context {E : Env} {RR : RteRing Z}.
Implicit Types (s : @shared RR Z) (t : trace).

(** What the lcore has printed when it comes to [pc]. *)
Definition said (pc : option handler_pc) : list event :=
  match pc with
  | None | Some HCalled => []
  | Some HLcore => [EvPrintf CALLED []]
  | Some HValue => [EvPrintf CALLED []; EvPrintf LCORE [PInt 1]]
  | Some HReturn => [EvPrintf CALLED []; EvPrintf LCORE [PInt 1]; EvPrintf VALUE [PInt 10]]
  end.
Definition init_done (c : conf) : list event := if returned c then [EvPrintf INIT_DONE []] else [].
Record inv (a : Z) (c : conf) (s : @shared RR Z) (t : trace) : Prop := {
  inv_heap : heap s = {[a := 10]};
  inv_live : accounted s t;
  inv_said : printed t = said (running c) ++ init_done c }.

Lemma unawaited_step_ok a i c s t :
  inv a c s t -> wp (step a i c) (fun c' s' t' => inv a c' s' t') (fun _ _ _ => False) s t.
Proof.
  intros HI. pose proof HI as [Hh Hl Hp]. destruct c as [[] h]; unfold init_done in Hp; cbn [running returned] in Hp.
  { destruct i as [|[|i]]; by apply wp_ret. }
  rewrite app_nil_r in Hp. destruct i as [|[|i]]; cbn [step]; [| |by apply wp_ret].
  - wp_steps. constructor; [done|done|]. simpl. by rewrite Hp.
  - destruct h as [[]|]; cbn [handler]; wp_steps; try done; try (constructor; [done|done|]; simpl; by rewrite Hp).
    eapply wp_load; [by rewrite Hh; apply lookup_singleton_eq|]. wp_steps.
    constructor; [done|done|]. simpl. by rewrite Hp.
Qed.

Lemma unawaited_start_ok :
  malloc_works ->
  wp start (fun p s t => inv p.1 p.2 s t /\ returned p.2 = false /\ said (running p.2) = [])
    (fun code _ t => code = EXIT_FAILURE /\ printed t = []) no_memory [].
Proof.
  intros Hm. unfold start. wp_steps; [done|]. apply wp_alloc_init; [done|done|]. intros a Ha. wp_steps.
  split_and!; [|done|simpl; by case_match]. constructor; [apply insert_empty|by apply (accounted_alloc 4)|]. simpl. by case_match.
Qed.

(** practice/sample.c, for every schedule: nothing faults, the lcore reads 10 when it comes to reading,
    and it prints any beginning of its three lines, after which main's line ends the program; the
    allocated block is never freed. *)
Theorem unawaited_correct sched :
  malloc_works ->
  wp (main sched) (fun c _ t => printed t = said (running c) ++ init_done c /\ size (live_blocks t) = 1%nat)
    (fun code _ t => code = EXIT_FAILURE /\ printed t = []) no_memory [].
Proof.
  intros Hm. unfold main. wp_step. eapply wp_mono; [by apply unawaited_start_ok| |done].
  intros [a c] s t [HI _]. eapply wp_mono; [apply (wp_run_config (step a) (fun _ => inv a) (fun _ _ _ => False)); [|exact HI]| |done].
  - intros _ i c1 s1 t1 H1. by apply unawaited_step_ok.
  - intros c1 s1 t1 [Hh Hl Hp]. split; [done|]. rewrite Hl, Hh, dom_singleton_L. apply size_singleton.
Qed.

(** When main steps first, the lcore prints nothing. *)
Theorem unawaited_silent sched :
  malloc_works ->
  wp (main (0%nat :: sched)) (fun _ _ t => printed t = [EvPrintf INIT_DONE []])
    (fun code _ t => code = EXIT_FAILURE /\ printed t = []) no_memory [].
Proof.
  intros Hm. unfold main. wp_step. eapply wp_mono; [by apply unawaited_start_ok| |done].
  intros [a [b h]] s t ([_ _ Hp] & Hb & Hs). simpl in Hb, Hp, Hs. subst b. cbn [run_config step]. wp_steps.
  eapply wp_mono; [apply (wp_run_config (step a) (fun _ c _ t' => returned c = true /\ printed t' = [EvPrintf INIT_DONE []])
    (fun _ _ _ => False))| |done].
  - intros _ i [r h'] s1 t1 [H1 H2]. simpl in H1. subst r. by destruct i as [|[|i]]; apply wp_ret.
  - split; [done|]. simpl. by rewrite Hp, Hs.
  - by intros c s1 t1 [_ H].
Qed.
End Theorems.
End Unawaited.

(** ** Witnesses *)

Definition lcores_script : script :=
  Script (fun a => match a with rte_ring_create _ _ _ => 1 | _ => 0 end) [] 0 (fun t => Z.of_nat (length t)) true None 0.
#[local] Instance lcores_env : Env := sim_env lcores_script.
#[local] Instance lcores_ring : RteRing Z := sim_ring Z.

Lemma wit_correct_witness :
  let rounds := replicate 12 [0; 1; 2]%nat in
  Forall (fair_round 3) rounds /\ Forall (Forall (fun i => i < 3)%nat) rounds /\ (4 * 2 + 3 < length rounds)%nat /\
  wp (Wait.main 0 [1; 2] (concat rounds)) (fun c _ t => c.1 = Wait.MDone /\ Forall (fun p => exists v, p = Wait.LReturn v) c.2 /\
      Wait.results t = map (fun id => (id, u32 (id * 10))) [1; 2]) (fun _ _ _ => False) tt [].
Proof.
  assert (Forall (fair_round 3) (replicate 12 [0; 1; 2]%nat)) as Hf.
  { apply Forall_replicate. intros i Hi. destruct i as [|[|[|i]]]; [by repeat constructor..|lia]. }
  assert (Forall (Forall (fun i => i < 3)%nat) (replicate 12 [0; 1; 2]%nat)) as Hk.
  { apply Forall_replicate. repeat constructor. }
  split; [exact Hf|]. split; [exact Hk|]. split; [simpl; lia|]. apply (Wait.wit_correct 0 [1; 2]); [exact Hf|exact Hk|simpl; lia].
Defined.

Lemma per_lcore_correct_witness :
  NoDup [0; 1; 2] /\
  wp (PerLcore.main [0; 1; 2] [1; 0; 2; 1]%nat)
    (fun ths _ t => map fst ths = [0; 1; 2] /\ PerLcore.counters t ≡ₚ concat (map PerLcore.said ths)) (fun _ _ _ => False) ∅ [].
Proof.
  assert (NoDup [0; 1; 2]) as Hd by (apply NoDup_ListNoDup; repeat constructor; simpl; lia).
  split; [exact Hd|]. by apply PerLcore.per_lcore_correct.
Defined.

Lemma ring_correct_witness :
  malloc_works /\
  wp Ring.start (fun c0 s0 t0 =>
      wp (run_config Ring.ring_step [1; 2; 1; 1; 2; 2]%nat c0) (fun _ _ t => shown Ring.GOT t = [] \/ shown Ring.GOT t = [20])
        (fun _ _ _ => False) s0 t0 \/
      exists pre i post, [1; 2; 1; 1; 2; 2]%nat = pre ++ i :: post /\
        wp (run_config Ring.ring_step pre c0) (fun c _ _ => Ring.polls_freed i c = true) (fun _ _ _ => False) s0 t0)
    (fun code _ t => code = EXIT_FAILURE /\ shown Ring.GOT t = []) no_memory [].
Proof. split; [by apply sim_malloc_works|]. apply Ring.ring_correct. by apply sim_malloc_works. Defined.
