(* ===== verification/Cloning.v ===== *)
(** * zero_copy_cloning: two mbufs that share a buffer

    The program clones an mbuf, writes through the clone, reads through the
    original and frees both.  mbufs are references here, and the library of
    reference-counted buffers is a class with its documented laws. *)

From S2P Require Import Prelude Rte Env Ownership BurstIo Sim.

(** [taken]: the mbufs that are out of the pool; [owner]: the mbuf whose buffer an mbuf uses, itself
    unless it is a clone; [text]: the C string at an address;
    [length_of]: data_len and pkt_len, which are equal here. *)
Class RteMbufs := {
  pool : Type;
  taken : pool -> gset Z;
  refcnt : pool -> Z -> Z;
  owner : pool -> Z -> Z;
  mtod : pool -> Z -> Z;
  text : pool -> Z -> string;
  length_of : pool -> Z -> Z;
  pool_new : pool;
  mbuf_alloc : pool -> option Z * pool;
  mbuf_clone : pool -> Z -> option Z * pool;
  mbuf_free : pool -> Z -> pool;
  store_text : pool -> Z -> string -> pool;
  store_length : pool -> Z -> Z -> pool;
  new_law : taken pool_new = ∅;
  alloc_law p :
    match mbuf_alloc p with
    | (None, p') => p' = p
    | (Some m, p') => m ∉ taken p /\ taken p' = {[m]} ∪ taken p /\ refcnt p' m = 1 /\ owner p' m = m /\
        forall m', m' ∈ taken p -> refcnt p' m' = refcnt p m' /\ owner p' m' = owner p m' /\ mtod p' m' = mtod p m' /\
          text p' (mtod p m') = text p (mtod p m')
    end;
  clone_law p m : m ∈ taken p -> owner p m = m ->
    match mbuf_clone p m with
    | (None, p') => p' = p
    | (Some c, p') => c ∉ taken p /\ taken p' = {[c]} ∪ taken p /\ refcnt p' c = 1 /\ owner p' c = m /\
        refcnt p' m = refcnt p m + 1 /\ owner p' m = m /\ mtod p' m = mtod p m /\ mtod p' c = mtod p m /\ text p' = text p /\
        length_of p' c = length_of p m
    end;
  store_law p a s : taken (store_text p a s) = taken p /\ refcnt (store_text p a s) = refcnt p /\
    owner (store_text p a s) = owner p /\ mtod (store_text p a s) = mtod p /\ text (store_text p a s) a = s /\ length_of (store_text p a s) = length_of p;
  length_law p m n : taken (store_length p m n) = taken p /\ refcnt (store_length p m n) = refcnt p /\
    owner (store_length p m n) = owner p /\ mtod (store_length p m n) = mtod p /\ text (store_length p m n) = text p /\
    length_of (store_length p m n) m = n;
  free_shared p m : m ∈ taken p -> 1 < refcnt p m ->
    taken (mbuf_free p m) = taken p /\ refcnt (mbuf_free p m) m = refcnt p m - 1 /\
    forall m', m' <> m -> refcnt (mbuf_free p m) m' = refcnt p m' /\ owner (mbuf_free p m) m' = owner p m';
  free_direct p m : m ∈ taken p -> refcnt p m = 1 -> owner p m = m -> taken (mbuf_free p m) = taken p ∖ {[m]};
  free_clone_last p m : m ∈ taken p -> refcnt p m = 1 -> owner p m <> m -> refcnt p (owner p m) = 1 ->
    taken (mbuf_free p m) = taken p ∖ {[m; owner p m]}
}.

Definition NUM_MBUFS := 8192.
Definition MBUF_CACHE_SIZE := 250.
Definition RTE_MBUF_DEFAULT_BUF_SIZE := 2176.
Definition EXIT_FAILURE := 1.

Section Cloning.
Context {E : Env} {RM : RteMbufs}.
Notation M := (M pool).

Definition rte_panic : M unit := rte_exit EXIT_FAILURE.
Definition pktmbuf_alloc : M (option Z) :=
  r <-- gets mbuf_alloc ;; modify (fun _ => r.2) ;; ret r.1.
Definition pktmbuf_clone (m : Z) : M (option Z) :=
  r <-- gets (fun p => mbuf_clone p m) ;; modify (fun _ => r.2) ;; ret r.1.
(** Freeing an mbuf that is back in the pool is undefined. *)
Definition pktmbuf_free (m : Z) : M unit :=
  b <-- gets (fun p => bool_decide (m ∈ taken p)) ;;
  if b : bool then modify (fun p => mbuf_free p m) else fault.
Definition strcpy (a : Z) (s : string) : M unit := modify (fun p => store_text p a s).
Definition show_text (fmt : string) (a : Z) : M unit :=
  s <-- gets (fun p => text p a) ;; printf fmt [PStr s].
(** rte_mbuf_refcnt_read of an mbuf that is still out of the pool. *)
Definition show_refcnt (fmt : string) (m : Z) : M unit :=
  b <-- gets (fun p => bool_decide (m ∈ taken p)) ;;
  if b : bool then n <-- gets (fun p => refcnt p m) ;; printf fmt [PInt n] else fault.

Definition main : M unit :=
  r <-- call rte_eal_init ;;
  when (r <? 0) rte_panic ;;
  printf "DPDK initialized\n" [] ;;
  mp <-- call (rte_pktmbuf_pool_create "MBUF_POOL" NUM_MBUFS MBUF_CACHE_SIZE 0 RTE_MBUF_DEFAULT_BUF_SIZE) ;;
  when (mp =? 0) rte_panic ;;
  printf "Mempool created\n" [] ;;
  o1 <-- pktmbuf_alloc ;;
  match o1 with
  | None => rte_panic
  | Some m1 =>
      data <-- gets (fun p => mtod p m1) ;;
      strcpy data "Hello DPDK Zero Copy!" ;;
      n <-- gets (fun p => Z.of_nat (String.length (text p data))) ;;
      modify (fun p => store_length p m1 (n + 1)) ;;
      show_text "Original packet data: %s\n" data ;;
      o2 <-- pktmbuf_clone m1 ;;
      match o2 with
      | None => rte_panic
      | Some m2 =>
          data_clone <-- gets (fun p => mtod p m2) ;;
          show_text "Cloned packet data: %s\n" data_clone ;;
          printf "\nBuffer addresses:\n" [] ;;
          printf "Original: %p\n" [PInt data] ;;
          printf "Clone   : %p\n" [PInt data_clone] ;;
          (if data =? data_clone then printf "Zero-copy confirmed (same buffer)\n" []
           else printf "Copy happened (unexpected)\n" []) ;;
          show_refcnt "\nRefcnt after clone: %d\n" m1 ;;
          strcpy data_clone "MODIFIED!" ;;
          printf "\nAfter modifying clone:\n" [] ;;
          show_text "Original sees: %s\n" data ;;
          show_text "Clone sees   : %s\n" data_clone ;;
          pktmbuf_free m1 ;;
          show_refcnt "\nAfter freeing original, refcnt = %d\n" m2 ;;
          pktmbuf_free m2 ;;
          printf "Both freed successfully\n" []
      end
  end.

(** Everything printed after the pool was created. *)
Definition report (data : Z) : list event :=
  [EvPrintf "Original packet data: %s\n" [PStr "Hello DPDK Zero Copy!"];
   EvPrintf "Cloned packet data: %s\n" [PStr "Hello DPDK Zero Copy!"];
   EvPrintf "\nBuffer addresses:\n" []; EvPrintf "Original: %p\n" [PInt data]; EvPrintf "Clone   : %p\n" [PInt data];
   EvPrintf "Zero-copy confirmed (same buffer)\n" []; EvPrintf "\nRefcnt after clone: %d\n" [PInt 2];
   EvPrintf "\nAfter modifying clone:\n" []; EvPrintf "Original sees: %s\n" [PStr "MODIFIED!"]; EvPrintf "Clone sees   : %s\n" [PStr "MODIFIED!"];
   EvPrintf "\nAfter freeing original, refcnt = %d\n" [PInt 1]; EvPrintf "Both freed successfully\n" []].
Definition after_pool (t : trace) : list event := drop 2 (printed t).
End Cloning.

Section Theorems.
Context {E : Env} {RM : RteMbufs}.

Lemma wp_alloc_mbuf (Q : option Z -> pool -> trace -> Prop) X p t :
  Q None p t ->
  (forall m p', m ∉ taken p -> taken p' = {[m]} ∪ taken p -> refcnt p' m = 1 -> owner p' m = m -> Q (Some m) p' t) ->
  wp pktmbuf_alloc Q X p t.
Proof.
  intros H0 H1. unfold pktmbuf_alloc. wp_steps. pose proof (alloc_law p) as L.
  destruct (mbuf_alloc p) as [[m|] p']; simpl; [|by subst]. destruct L as (? & ? & ? & ? & _). by apply H1.
Qed.
Lemma wp_free_mbuf m (Q : unit -> pool -> trace -> Prop) X p t :
  m ∈ taken p -> Q tt (mbuf_free p m) t -> wp (pktmbuf_free m) Q X p t.
Proof. intros Hm H. unfold pktmbuf_free. wp_steps; [done|]. by apply bool_decide_eq_false in H0. Qed.
Lemma wp_show_refcnt fmt m (Q : unit -> pool -> trace -> Prop) X p t :
  m ∈ taken p -> Q tt p (EvPrintf fmt [PInt (refcnt p m)] :: t) -> wp (show_refcnt fmt m) Q X p t.
Proof. intros Hm H. unfold show_refcnt. wp_steps; [done|]. by apply bool_decide_eq_false in H0. Qed.

(** C28: The program panics only if the pool cannot be made or has no mbuf left.  Otherwise the clone shares the
    buffer: what is written through it is read through the original, the reference count goes from
    1 to 2 and back, and after both were freed, each once, no mbuf is missing from the pool. *)
Theorem cloning_correct :
  wp main (fun _ p t => taken p = ∅ /\ exists data, after_pool t = report data)
    (fun c _ t => c = EXIT_FAILURE) pool_new [].
Proof.
  unfold main, rte_panic, strcpy, show_text. wp_steps; try done. apply wp_alloc_mbuf; [by wp_steps|].
  intros m1 p1 _ T1 R1 O1. rewrite new_law, (right_id_L ∅ (∪)) in T1. wp_steps.
  set (data := mtod p1 m1). set (hello := "Hello DPDK Zero Copy!").
  destruct (store_law p1 data hello) as (ST & SR & SO & SM & SX & SL). set (p2 := store_text p1 data hello) in *.
  set (n := Z.of_nat (String.length (text p2 data)) + 1).
  destruct (length_law p2 m1 n) as (LT & LR & LO & LM & LX & LL). set (p3 := store_length p2 m1 n) in *.
  unfold pktmbuf_clone. wp_steps.
  assert (m1 ∈ taken p3) as Hm1 by (rewrite LT, ST, T1; set_solver).
  pose proof (clone_law p3 m1 Hm1 ltac:(by rewrite LO, SO)) as L.
  destruct (mbuf_clone p3 m1) as [[m2|] p4]; cbn [fst snd]; [|by wp_steps].
  destruct L as (N2 & T4 & R42 & O42 & R41 & O41 & M41 & M42 & X4 & _).
  assert (m2 <> m1) as Hne by (intros ->; done).
  assert (mtod p4 m2 = data) as Hdata by (by rewrite M42, LM, SM).
  wp_step. wp_step. rewrite Hdata, Z.eqb_refl. wp_steps.
  apply wp_show_refcnt; [set_solver|]. rewrite R41, LR, SR, R1. wp_steps.
  destruct (store_law p4 data "MODIFIED!") as (ST5 & SR5 & SO5 & SM5 & SX5 & _). set (p5 := store_text p4 data "MODIFIED!") in *.
  assert (taken p5 = {[m1; m2]}) as T5 by (rewrite ST5, T4, LT, ST, T1; set_solver).
  assert (m1 ∈ taken p5 /\ m2 ∈ taken p5) as [H51 H52] by (rewrite T5; set_solver).
  assert (refcnt p5 m1 = 2) as R51 by (rewrite SR5, R41, LR, SR, R1; done).
  destruct (free_shared p5 m1 H51 ltac:(lia)) as (T6 & R61 & Hoth). destruct (Hoth m2 Hne) as [R62 O62].
  apply wp_free_mbuf; [done|]. wp_steps. apply wp_show_refcnt; [by rewrite T6|]. wp_steps.
  apply wp_free_mbuf; [by rewrite T6|]. wp_steps.
  assert (owner (mbuf_free p5 m1) m2 = m1) as Ho by (by rewrite O62, SO5).
  assert (refcnt (mbuf_free p5 m1) m2 = 1) as Hr by (by rewrite R62, SR5).
  rewrite Hr. split.
  - rewrite free_clone_last; [rewrite T6, T5, Ho; set_solver|by rewrite T6|done|by rewrite Ho|by rewrite Ho, R61, R51].
  - exists data. unfold after_pool. simpl. by rewrite LX, SX, X4, LX, SX, SX5.
Qed.
End Theorems.

(** ** A pool, and the program on it *)

Record sim_pool := SimPool {
  sp_taken : gset Z; sp_refcnt : Z -> Z; sp_owner : Z -> Z; sp_text : Z -> string; sp_length : Z -> Z }.
Definition put {A} (f : Z -> A) (k : Z) (v : A) : Z -> A := fun x => if x =? k then v else f x.
Lemma put_same {A} (f : Z -> A) k v : put f k v k = v.
Proof. unfold put. by rewrite Z.eqb_refl. Qed.
Lemma put_other {A} (f : Z -> A) k v x : x <> k -> put f k v x = f x.
Proof. intros H. unfold put. by destruct (Z.eqb_spec x k). Qed.

Definition sim_alloc (p : sim_pool) : option Z * sim_pool :=
  let m := fresh (sp_taken p) in
  (Some m, SimPool ({[m]} ∪ sp_taken p) (put (sp_refcnt p) m 1) (put (sp_owner p) m m) (sp_text p) (put (sp_length p) m 0)).
Definition sim_clone (p : sim_pool) (m : Z) : option Z * sim_pool :=
  let c := fresh (sp_taken p) in
  (Some c, SimPool ({[c]} ∪ sp_taken p) (put (put (sp_refcnt p) m (sp_refcnt p m + 1)) c 1) (put (sp_owner p) c (sp_owner p m))
    (sp_text p) (put (sp_length p) c (sp_length p m))).
Definition sim_free (p : sim_pool) (m : Z) : sim_pool :=
  let o := sp_owner p m in
  if 1 <? sp_refcnt p m then SimPool (sp_taken p) (put (sp_refcnt p) m (sp_refcnt p m - 1)) (sp_owner p) (sp_text p) (sp_length p)
  else if (o =? m) || negb (sp_refcnt p o =? 1) then SimPool (sp_taken p ∖ {[m]}) (put (sp_refcnt p) o (sp_refcnt p o - 1)) (sp_owner p) (sp_text p) (sp_length p)
  else SimPool (sp_taken p ∖ {[m; o]}) (sp_refcnt p) (sp_owner p) (sp_text p) (sp_length p).

Definition sim_mbufs : RteMbufs.
Proof.
  refine {| pool := sim_pool; taken := sp_taken; refcnt := sp_refcnt; owner := sp_owner; mtod := sp_owner; text := sp_text;
            length_of := sp_length; pool_new := SimPool ∅ (fun _ => 0) (fun m => m) (fun _ => EmptyString) (fun _ => 0);
            mbuf_alloc := sim_alloc; mbuf_clone := sim_clone; mbuf_free := sim_free;
            store_text p a s := SimPool (sp_taken p) (sp_refcnt p) (sp_owner p) (put (sp_text p) a s) (sp_length p);
            store_length p m n := SimPool (sp_taken p) (sp_refcnt p) (sp_owner p) (sp_text p) (put (sp_length p) m n) |}.
  - done.
  - intros p. simpl. pose proof (is_fresh (sp_taken p)) as Hf. rewrite !put_same. split_and!; try done.
    intros m' Hm. rewrite !put_other by set_solver. done.
  - intros p m Hm Ho. simpl. pose proof (is_fresh (sp_taken p)) as Hf.
    assert (m <> fresh (sp_taken p)) by set_solver. rewrite !put_same, !(put_other _ (fresh _) _ m), put_same by done. done.
  - intros p a s. simpl. by rewrite put_same.
  - intros p m n. simpl. by rewrite put_same.
  - intros p m Hm Hr. unfold sim_free. apply Z.ltb_lt in Hr as ->. simpl. rewrite put_same. split_and!; try done.
    intros m' Hm'. by rewrite put_other.
  - intros p m Hm Hr Ho. unfold sim_free. by rewrite Hr, Ho, Z.eqb_refl.
  - intros p m Hm Hr Ho Hr'. unfold sim_free. rewrite Hr, Hr'. simpl. by apply Z.eqb_neq in Ho as ->.
Defined.

Lemma cloning_correct_witness :
  let e := sim_env quiet_script in
  @wp _ _ (@main e sim_mbufs) (fun _ p t => taken p = ∅ /\ exists data, after_pool t = report data)
    (fun c _ t => c = EXIT_FAILURE) (@pool_new sim_mbufs) [].
Proof. apply cloning_correct. Defined.
