(* ===== verification/FirstSteps.v ===== *)
(** * First steps: one call of the library each

    [Hello] (hello_world) only starts, [Hash] (hashing/sample), [Timer] (timer/sample) and the two sides of
    inter_process_comm/virtu_vhost_ipc: [Backend] sends back what it receives,
    [Frontend] sends a greeting and frees the echoes. *)

From S2P Require Import Prelude Rte Env Packet Ownership BurstIo PacketParse MbufAlloc Sim.

Definition EXIT_FAILURE := 1.

(** ** hello_world *)

Module Hello.
Section Hello.
Context {E : Env} {St : Type}.
Definition HELLO : string := "Hello, World from DPDK!\n".
Definition main : M St Z :=
  r <-- call rte_eal_init ;;
  when (r <? 0) (rte_exit EXIT_FAILURE) ;;
  printf HELLO [] ;;
  ret 0.

(** It greets, or the environment could not be set up. *)
Theorem hello_world_correct s :
  wp main (fun r _ t => r = 0 /\ printed t = [EvPrintf HELLO []]) (fun c _ t => c = EXIT_FAILURE /\ printed t = []) s [].
Proof. unfold main. by wp_steps. Qed.
End Hello.
End Hello.

(** ** hashing/sample *)

Module Hash.
Definition HASH_ENTRIES := 1024.
Section Hash.
Context {E : Env} {RH : RteHash} {St : Type}.
Notation M := (M St).
Definition FOUND : string := "Found value = %d\n".

(** The value is stored as a pointer and cast back to int. *)
Definition to_int (x : Z) : Z := if u32 x <? 2147483648 then u32 x else u32 x - 4294967296.
Definition main : M Z :=
  r <-- call rte_eal_init ;;
  when (r <? 0) (rte_exit EXIT_FAILURE) ;;
  h <-- call (rte_hash_create "custom_hash" HASH_ENTRIES 4) ;;
  when (h =? 0) (rte_exit EXIT_FAILURE) ;;
  let hash := rte_hash_empty HASH_ENTRIES 4 in
  let key := le32 50 in
  let value := 500 in
  let added := rte_hash_add_key_data hash key value in
  match rte_hash_lookup_data added.2 key with
  | Some lookup => printf FOUND [PInt (to_int lookup)]
  | None => printf "Lookup failed\n" []
  end ;;
  ret 0.

(** The value is found unless the table refused it, whose answer the program does not test. *)
Theorem hash_sample_correct s :
  wp main (fun r _ t => r = 0 /\
      (printed t = [EvPrintf FOUND [PInt 500]] \/
       (rte_hash_add_key_data (rte_hash_empty HASH_ENTRIES 4) (le32 50) 500).1 < 0 /\ printed t = [EvPrintf "Lookup failed\n" []]))
    (fun c _ _ => c = EXIT_FAILURE) s [].
Proof.
  unfold main. wp_steps; try done. pose proof (hash_add_law (rte_hash_empty HASH_ENTRIES 4) (le32 50) 500) as L.
  pose proof (hash_add_ret (rte_hash_empty HASH_ENTRIES 4) (le32 50) 500) as R.
  rewrite hash_lookup_law, L, hash_empty_law. destruct (Z.eqb_spec (rte_hash_add_key_data (rte_hash_empty HASH_ENTRIES 4) (le32 50) 500).1 0).
  - rewrite lookup_insert_eq. wp_steps. split; [done|]. by left.
  - rewrite lookup_empty. wp_steps. split; [done|]. right. split; [lia|done].
Qed.
End Hash.
End Hash.

(** ** timer/sample *)

Module Timer.
Section Timer.
Context {E : Env}.
Notation M := (M unit).
Definition TSTARTED : string := "Timer started.\n".
Definition RESTARTED : string := "Timer restarted.\n".
Definition SECOND : string := "Current second: %lu\n".

(** The variables of the loop; [n] is uninitialised until a number has been read. *)
Record timer := Tm { start_tsc : Z; started : bool; n : option Z }.

(** [scanf] leaves [n] alone when it reads no number; its result is ignored. *)
Definition loop_body (hz : Z) (l : timer) : M timer :=
  r <-- scanf_int ;;
  let n := match r with Some v => Some v | None => n l end in
  if negb (started l) then
    c <-- rte_get_timer_cycles ;;
    printf TSTARTED [] ;;
    ret (Tm c true n)
  else
    v <-- deref n ;;
    if v =? 0 then
      c <-- rte_get_timer_cycles ;;
      printf RESTARTED [] ;;
      ret (Tm c true n)
    else if v =? 9 then
      c <-- rte_get_timer_cycles ;;
      printf SECOND [PInt (u64 (c - start_tsc l) / hz)] ;;
      ret (Tm (start_tsc l) true n)
    else ret (Tm (start_tsc l) true n).

Definition main (k : nat) : M timer :=
  _ <-- call rte_eal_init ;;
  hz <-- rte_get_timer_hz ;;
  printf "Enter any number to start the timer.\n" [] ;;
  printf "  0 -> restart timer\n" [] ;;
  printf "  9 -> print current second\n" [] ;;
  forever k (loop_body hz) (Tm 0 false None).

(** The counter when the timer was last started or restarted. *)
Fixpoint last_start (t : trace) : option Z :=
  match t with
  | [] => None
  | EvPrintf f [] :: ((EvCycles c :: _) as t') => if String.eqb f TSTARTED || String.eqb f RESTARTED then Some c else last_start t'
  | _ :: t' => last_start t'
  end.
(** Every second that is printed is the time since the last start. *)
Fixpoint seconds_ok (t : trace) : Prop :=
  match t with
  | [] => True
  | EvPrintf f [PInt v] :: ((EvCycles c :: _) as t') =>
      (f = SECOND -> exists s, last_start t' = Some s /\ v = u64 (c - s) / env_hz) /\ seconds_ok t'
  | EvPrintf f [PInt v] :: t' => f <> SECOND /\ seconds_ok t'
  | _ :: t' => seconds_ok t'
  end.
(** How many times something was read from the user, and whether the first reading gave a number. *)
Fixpoint first_read (t : trace) : option (option Z) :=
  match t with
  | [] => None
  | EvScanfInt r :: t' => match first_read t' with Some x => Some x | None => Some r end
  | _ :: t' => first_read t'
  end.
End Timer.

Section Theorems.
Context {E : Env}.
(** The user begins with a number. *)
Definition number_first : Prop := forall t, first_read t = None -> is_Some (env_scanf_int t).

Record inv (l : timer) (s : unit) (t : trace) : Prop := {
  inv_ok : seconds_ok t;
  inv_read : if started l then is_Some (n l) /\ last_start t = Some (start_tsc l) else first_read t = None /\ last_start t = None }.

(** Whatever the user types after the first number, nothing faults and every second printed is the time since the
    last start or restart, in cycles modulo 2^64 divided by the frequency. *)
Theorem timer_correct k :
  number_first -> wp (main k) (fun _ _ t => seconds_ok t) (fun _ _ _ => False) tt [].
Proof.
  intros Hn. unfold main. wp_steps. eapply wp_mono; [apply (wp_forever inv _ (fun _ _ _ => False))| |done].
  - intros l s t [Ho Hr]. unfold loop_body. wp_step. unfold wp at 1, scanf_int. destruct (started l) eqn:Hs; simpl.
    + destruct Hr as [[v Hv] Hl]. set (rd := env_scanf_int t). assert (exists v', match rd with Some w => Some w | None => n l end = Some v') as [v' Hv'].
      { destruct rd as [w|]; [by exists w|by exists v]. }
      rewrite Hv'. simpl. wp_steps; (constructor; simpl; [try done|split; [by exists v'|done]]).
      split; [|done]. intros _. by exists (start_tsc l).
    + destruct Hr as [Hf Hl]. destruct (Hn t Hf) as [w ->]. wp_steps. constructor; simpl; [done|]. split; [by exists w|done].
  - by constructor.
  - by intros l s t [].
Qed.
End Theorems.
End Timer.

(** ** inter_process_comm/virtu_vhost_ipc *)

Definition NB_MBUF := 8192.
Definition MBUF_CACHE := 256.
Definition RTE_MBUF_DEFAULT_BUF_SIZE := 2176.

Module Backend.
Definition SOCK_PATH : string := "/tmp/vhost.sock".
Section Backend.
Context {E : Env} {St : Type}.
Notation M := (M St).

(** The result of the transmission is ignored. *)
Definition loop_body (u : unit) : M unit :=
  pkts <-- rte_eth_rx_burst 0 0 32 ;;
  when (negb (zlen pkts =? 0)) (_ <-- rte_eth_tx_burst 0 0 pkts ;; ret tt).

Definition main (n : nat) : M unit :=
  _ <-- call rte_eal_init ;;
  _ <-- call (api_call "unlink" []) ;;
  r <-- call (api_call "rte_vhost_driver_register" [0]) ;;
  when (r <? 0) (rte_exit EXIT_FAILURE) ;;
  r <-- call (api_call "rte_vhost_driver_start" []) ;;
  when (r <? 0) (rte_exit EXIT_FAILURE) ;;
  printf "Backend: vHost server started at %s\n" [PStr SOCK_PATH] ;;
  printf "Backend: waiting for frontend...\n" [] ;;
  mp <-- call (rte_pktmbuf_pool_create "MBUF_POOL" NB_MBUF MBUF_CACHE 0 RTE_MBUF_DEFAULT_BUF_SIZE) ;;
  when (mp =? 0) (rte_exit EXIT_FAILURE) ;;
  r <-- call (rte_eth_dev_configure 0 1 1) ;;
  when (r <? 0) (rte_exit EXIT_FAILURE) ;;
  r <-- call (rte_eth_rx_queue_setup 0 0 1024 mp) ;;
  when (r <? 0) (rte_exit EXIT_FAILURE) ;;
  r <-- call (rte_eth_tx_queue_setup 0 0 1024) ;;
  when (r <? 0) (rte_exit EXIT_FAILURE) ;;
  r <-- call (rte_eth_dev_start 0) ;;
  when (r <? 0) (rte_exit EXIT_FAILURE) ;;
  printf "Backend: port %u up, echoing packets\n" [PInt 0] ;;
  forever n loop_body tt.

(** Every packet is given back in the order in which it came, and exactly the refused ones are lost. *)
Theorem backend_correct n s :
  wp (main n) (fun _ _ t => given t = received t /\ owned (refused_ids t) t)
    (fun c _ t => c = EXIT_FAILURE /\ received t = []) s [].
Proof.
  unfold main. wp_steps; try done.
  eapply wp_mono; [apply (wp_forever (fun _ _ t => given t = received t /\ owned (refused_ids t) t) _ (fun _ _ _ => False))| |done].
  - intros [] s1 t1 [G O]. unfold loop_body. wp_step. apply wp_rx. intros bufs _ _.
    apply wp_when; intros Hz.
    + wp_step. apply wp_tx. intros k Hk. wp_steps. split; [simpl; by rewrite G|]. simpl. apply owned_tx.
      by apply (owned_rx _ 0 0 32 bufs).
    + apply negb_false_iff, Z.eqb_eq in Hz. destruct bufs; [|unfold zlen in Hz; simpl in Hz; lia]. split; [simpl; by rewrite app_nil_r|exact O].
  - split; [done|]. constructor.
  - done.
Qed.
End Backend.
End Backend.

Module Frontend.
Section Frontend.
Context {E : Env} {PM : Pktmbuf} {St : Type}.
Notation M := (M St).
Definition HELLO : string := "hello from frontend".
Definition ECHO : string := "Frontend: got echo packet\n".

(** The allocation and the transmission are not tested; [snprintf] writes at most 64 bytes, here all of
    the text and its terminating zero. *)
Definition loop_body (mp : Z) (u : unit) : M unit :=
  o <-- rte_pktmbuf_alloc mp ;;
  tx <-- deref o ;;
  tx <-- deref (rte_pktmbuf_append tx 64) ;;
  let tx := store_bytes tx 0 (str_bytes HELLO ++ [0]) in
  _ <-- rte_eth_tx_burst 0 0 [tx] ;;
  rx <-- rte_eth_rx_burst 0 0 32 ;;
  _ <-- for_each (fun m => printf ECHO [] ;; rte_pktmbuf_free m) rx ;;
  _ <-- call (api_call "sleep" [1]) ;;
  ret tt.

Definition main (n : nat) : M unit :=
  r <-- call rte_eal_init ;;
  when (r <? 0) (rte_exit EXIT_FAILURE) ;;
  mp <-- call (rte_pktmbuf_pool_create "MBUF_POOL" NB_MBUF MBUF_CACHE 0 RTE_MBUF_DEFAULT_BUF_SIZE) ;;
  when (mp =? 0) (rte_exit EXIT_FAILURE) ;;
  _ <-- call (rte_eth_dev_configure 0 1 1) ;;
  _ <-- call (rte_eth_rx_queue_setup 0 0 1024 mp) ;;
  _ <-- call (rte_eth_tx_queue_setup 0 0 1024) ;;
  _ <-- call (rte_eth_dev_start 0) ;;
  printf "Frontend: virtio-user port %u started\n" [PInt 0] ;;
  forever n (loop_body mp) tt.

(** A packet that says hello. *)
Definition greeting (m : mbuf) : Prop :=
  data_len m = 64 /\ pkt_len m = 64 /\ data_off m = 128 /\ load_bytes m 0 20 = str_bytes HELLO ++ [0].
End Frontend.

(** The pool never runs out. *)
Definition alloc_works {E : Env} : Prop := forall t mp, 0 <= pool_room t mp -> env_alloc t mp <> None.

Section Theorems.
Context {E : Env} {PM : Pktmbuf} {St : Type}.
Implicit Types (s : St) (t : trace).

Lemma greeting_new m :
  zlen (mb_buf m) = 2176 -> data_off m = 128 -> data_len m = 0 -> pkt_len m = 0 ->
  exists m', rte_pktmbuf_append m 64 = Some m' /\ mb_id (store_bytes m' 0 (str_bytes HELLO ++ [0])) = mb_id m /\
    greeting (store_bytes m' 0 (str_bytes HELLO ++ [0])).
Proof.
  intros Hz Ho Hd Hp. rewrite append_law by done. rewrite Hz, Ho, Hd, Hp. simpl Z.ltb. cbv iota. eexists. split; [done|].
  set (m' := resize m 128 (u16 (0 + 64)) (u32 (0 + 64))). set (bs := str_bytes HELLO ++ [0]).
  destruct (same_frame_store_bytes bs m' 0) as (F1 & F2 & F3 & F4 & F5).
  split; [by rewrite F1|]. unfold greeting. split_and!; [by rewrite F3|by rewrite F4|by rewrite F2|].
  apply bytes_at_load; [|done]. apply (bytes_at_store _ _ _ 64); [|done|done].
  unfold room, m'. simpl. rewrite Hz. lia.
Qed.

Definition inv (mp : Z) (u : unit) (s : St) (t : trace) : Prop :=
  pool_room t mp = RTE_MBUF_DEFAULT_BUF_SIZE /\ Forall greeting (given t) /\ owned (refused_ids t) t.

Lemma frontend_body_ok mp u s t :
  alloc_works -> inv mp u s t -> wp (loop_body mp u) (fun u' => inv mp u') (fun _ _ _ => False) s t.
Proof.
  intros Ha (Hp & Hg & Ho). unfold loop_body. wp_step. unfold wp at 1, rte_pktmbuf_alloc.
  pose proof (env_alloc_law t mp) as L. destruct (env_alloc t mp) as [m|] eqn:Hm; [|by destruct (Ha t mp); [rewrite Hp|]].
  destruct (L m eq_refl) as (_ & L2 & L3 & L4 & L5). rewrite Hp in *.
  destruct (greeting_new m L2 L3 L4 L5) as (m' & E1 & E2 & E3). wp_steps. eapply wp_deref; [done|]. wp_step.
  eapply wp_deref; [exact E1|]. set (g := store_bytes m' 0 _) in *. wp_step. apply wp_tx. intros k Hk. wp_step. apply wp_rx. intros rx _ _.
  apply (owned_alloc _ mp m) in Ho. rewrite <- E2 in Ho. change (mb_id g :: refused_ids t) with (ids [g] ++ refused_ids t) in Ho.
  apply (owned_tx _ 0 0 [g] k), (owned_rx _ 0 0 32 rx) in Ho.
  wp_step. eapply wp_mono; [apply (wp_for_each_consumed (fun _ t' => pool_room t' mp = RTE_MBUF_DEFAULT_BUF_SIZE /\ Forall greeting (given t'))
    (fun _ => True) _ rx [] (fun _ _ _ => False))| |done].
  - intros m0 s0 t0 _ [P0 G0]. wp_steps. split; [done|]. by eapply consumed_free.
  - by apply Forall_true.
  - split; [done|]. simpl. apply Forall_app. by split; [|constructor].
  - exact Ho.
  - intros rs s1 t1 [[P1 G1] O1]. by wp_steps.
Qed.

(** As long as the pool has mbufs, the frontend sends nothing but greetings of 64 bytes, frees every echo once,
    and loses exactly the packets that were refused. *)
Theorem frontend_correct n s :
  alloc_works ->
  wp (main n) (fun _ _ t => Forall greeting (given t) /\ owned (refused_ids t) t)
    (fun c _ t => c = EXIT_FAILURE /\ given t = []) s [].
Proof.
  intros Ha. unfold main. wp_steps; try done.
  eapply wp_mono; [apply (wp_forever (inv r0) _ (fun _ _ _ => False))| |done].
  - intros u s1 t1 I1. by apply frontend_body_ok.
  - split; [|by split; constructor]. simpl. by rewrite Z.eqb_refl.
  - intros [] s1 t1 (_ & ? & ?). done.
Qed.

(** Without: the first failing allocation is dereferenced. *)
Theorem frontend_null mp s t : env_alloc t mp = None -> exists s' t', loop_body mp tt s t = Fault s' t'.
Proof. intros Hn. unfold loop_body, bind, rte_pktmbuf_alloc. rewrite Hn. by do 2 eexists. Qed.
End Theorems.
End Frontend.

(** ** Witnesses *)

Definition first_script : script := Script (fun _ => 1) [[Mbuf 3 (repeat 0 200) 0 64 64]] 32 (fun t => Z.of_nat (length t)) true None 0.
#[local] Instance first_env : Env := sim_env first_script.
#[local] Instance first_pktmbuf : Pktmbuf := sim_pktmbuf.

Lemma timer_correct_witness :
  Timer.number_first /\
  (match Timer.main 3 tt [] with Done l _ t => Timer.started l | _ => false end) = true /\
  wp (Timer.main 3) (fun _ _ t => Timer.seconds_ok t) (fun _ _ _ => False) tt [].
Proof.
  assert (Timer.number_first) as Hn by (intros t _; by exists 0). split; [exact Hn|]. split; [by vm_compute|]. by apply Timer.timer_correct.
Defined.

Lemma frontend_correct_witness :
  Frontend.alloc_works /\
  wp (Frontend.main (St := unit) 2) (fun _ _ t => Forall Frontend.greeting (given t) /\ owned (refused_ids t) t)
    (fun c _ t => c = EXIT_FAILURE /\ given t = []) tt [].
Proof.
  assert (Frontend.alloc_works) as Ha.
  { intros t mp Hr. simpl. destruct (Z.eqb_spec (Z.max 0 (pool_room t mp)) (pool_room t mp)); [done|lia]. }
  split; [exact Ha|]. by apply Frontend.frontend_correct.
Defined.

Lemma frontend_null_witness :
  let e := sim_env (Script (fun _ => 1) [] 0 (fun _ => 0) false None 0) in
  @env_alloc e [] 1 = None /\ exists s t, @Frontend.loop_body e _ unit 1 tt tt [] = Fault s t.
Proof. split; [done|]. by apply Frontend.frontend_null. Defined.
