(* ===== verification/Cli.v ===== *)
(** * cli: commands typed by a user

    [ShowPort] (cli/sample), [Counting] (cli/new_core: on another lcore, with a counter)
    and [Socket] (cli/socket_cli: one client after the other over TCP).  The
    parser of rte_cmdline is a class: which instance a line matches, and the
    numbers in it. *)

From S2P Require Import Prelude Rte Env Ipc Sim.

Definition EXIT_FAILURE := 1.

(** Tokens of a command and what the library makes of a line: the position of the instance in the
    context and the values of its number tokens.  What an unknown line is answered is the library's. *)
Inductive token := STRING (s : string) | NUM16.
Definition is_num (t : token) : bool := match t with NUM16 => true | STRING _ => false end.
Definition cmdline_ctx := list (list token).

Class RteCmdline := {
  cmdline_parse : cmdline_ctx -> string -> option (nat * list Z);
  parse_law ctx line i vs : cmdline_parse ctx line = Some (i, vs) ->
    exists inst, ctx !! i = Some inst /\ Forall is_u16 vs /\
      length vs = length (List.filter is_num inst)
}.
Section Interact.
Context {E : Env} {RC : RteCmdline} {St : Type}.
Notation M := (M St).

(** cmdline_interact: the handler of each line, until one calls cmdline_quit or the input ends.
    A handler says whether it has. *)
Fixpoint cmdline_interact (ctx : cmdline_ctx) (handle : nat -> list Z -> M bool) (lines : list string) : M unit :=
  match lines with
  | [] => ret tt
  | l :: ls =>
      match cmdline_parse ctx l with
      | None => cmdline_interact ctx handle ls
      | Some (i, vs) => q <-- handle i vs ;; if q : bool then ret tt else cmdline_interact ctx handle ls
      end
  end.

(** The numbers of the commands at position [i] before the first one at position [quit]. *)
Fixpoint commands (ctx : cmdline_ctx) (i quit : nat) (lines : list string) : list (list Z) :=
  match lines with
  | [] => []
  | l :: ls =>
      match cmdline_parse ctx l with
      | None => commands ctx i quit ls
      | Some (j, vs) => if Nat.eqb j quit then [] else if Nat.eqb j i then vs :: commands ctx i quit ls else commands ctx i quit ls
      end
  end.

(** Two commands, the second of which quits: the first is handled for each line that says so. *)
Lemma wp_interact (N : nat) (I : list (list Z) -> St -> trace -> Prop) ctx handle X :
  length ctx = 2%nat ->
  (forall vs done s t, I done s t -> (length done < N)%nat -> Forall is_u16 vs -> (exists inst, ctx !! 0%nat = Some inst /\
       length vs = length (List.filter is_num inst)) ->
     wp (handle 0%nat vs) (fun q s' t' => q = false /\ I (done ++ [vs]) s' t') X s t) ->
  (forall vs done s t, I done s t -> wp (handle 1%nat vs) (fun q s' t' => q = true /\ I done s' t') X s t) ->
  forall lines done s t, I done s t -> (length done + length lines <= N)%nat ->
    wp (cmdline_interact ctx handle lines) (fun _ => I (done ++ commands ctx 0 1 lines)) X s t.
Proof.
  intros Hc H0 H1. induction lines as [|l ls IH]; intros ds s t HI HN; simpl in *; [by rewrite app_nil_r|].
  destruct (cmdline_parse ctx l) as [[i vs]|] eqn:K; [|apply IH; [done|lia]].
  destruct (parse_law _ _ _ _ K) as (inst & Hi & Hu & Hl). wp_step.
  destruct i as [|[|i]]; simpl.
  - eapply wp_mono; [apply H0; [done|lia|done|by exists inst]| |done]. intros q s' t' [-> I']. replace (ds ++ vs :: commands ctx 0 1 ls) with ((ds ++ [vs]) ++ commands ctx 0 1 ls) by (by rewrite <- app_assoc).
    apply IH; [done|]. rewrite length_app. simpl. lia.
  - eapply wp_mono; [by apply H1| |done]. intros q s' t' [-> I']. by rewrite app_nil_r.
  - apply lookup_lt_Some in Hi. lia.
Qed.

Lemma wp_interact_all (lines : list string) (I : list (list Z) -> St -> trace -> Prop) ctx handle X s t :
  length ctx = 2%nat ->
  (forall vs done s t, I done s t -> (length done < length lines)%nat -> Forall is_u16 vs -> (exists inst, ctx !! 0%nat = Some inst /\
       length vs = length (List.filter is_num inst)) ->
     wp (handle 0%nat vs) (fun q s' t' => q = false /\ I (done ++ [vs]) s' t') X s t) ->
  (forall vs done s t, I done s t -> wp (handle 1%nat vs) (fun q s' t' => q = true /\ I done s' t') X s t) ->
  I [] s t -> wp (cmdline_interact ctx handle lines) (fun _ => I (commands ctx 0 1 lines)) X s t.
Proof. intros Hc H0 H1 HI. by apply (wp_interact (length lines) I ctx handle X Hc H0 H1 lines []). Qed.
End Interact.

Definition show_ctx : cmdline_ctx := [[STRING "show"; STRING "port"; NUM16]; [STRING "exit"]].

(** A context whose first command has one number. *)
Lemma one_number {inst} {ctx : cmdline_ctx} (vs : list Z) : ctx !! 0%nat = Some inst ->
  length (List.filter is_num inst) = 1%nat ->
  (exists inst', ctx !! 0%nat = Some inst' /\ length vs = length (List.filter is_num inst')) ->
  exists n, vs = [n].
Proof. intros H1 H2 (inst' & H3 & H4). rewrite H1 in H3. injection H3 as <-. destruct vs as [|n [|]]; rewrite H2 in H4; try done. by exists n. Qed.

(** ** cli/sample *)

Module ShowPort.
Section Show.
Context {E : Env} {RC : RteCmdline} {St : Type}.
Notation M := (M St).
Definition ENTERED : string := "You entered: show port %u\n".

Definition cmd_show_port_parsed (port_id : Z) : M unit := printf ENTERED [PInt port_id].
Definition cmd_exit_parsed : M unit := printf "Exiting...\n" [].
Definition main_ctx (i : nat) (vs : list Z) : M bool :=
  match i, vs with
  | 0%nat, [port_id] => cmd_show_port_parsed port_id ;; ret false
  | _, _ => cmd_exit_parsed ;; ret true
  end.

(** [lines] is what the user types. *)
Definition main (lines : list string) : M Z :=
  r <-- call rte_eal_init ;;
  when (r <? 0) (rte_exit EXIT_FAILURE) ;;
  cl <-- call (api_call "cmdline_stdin_new" []) ;;
  when (cl =? 0) (rte_exit EXIT_FAILURE) ;;
  cmdline_interact show_ctx main_ctx lines ;;
  _ <-- call (api_call "cmdline_stdin_exit" [cl]) ;;
  ret 0.

(** Each "show port" before the first "exit" is answered with its number, and main returns 0. *)
Theorem show_correct lines s :
  wp (main lines) (fun r _ t => r = 0 /\ map (fun n => [n]) (shown ENTERED t) = commands show_ctx 0 1 lines)
    (fun c _ t => c = EXIT_FAILURE /\ shown ENTERED t = []) s [].
Proof.
  unfold main. wp_steps; try done.
  eapply wp_mono; [apply (wp_interact_all lines (fun ds _ t => map (fun n => [n]) (shown ENTERED t) = ds) show_ctx main_ctx (fun _ _ _ => False) _ _ eq_refl)| |done]; [| |done|].
  - intros vs ds s1 t1 H1 _ Hu Hx. destruct (one_number vs (eq_refl : show_ctx !! 0%nat = Some _) eq_refl Hx) as [n ->].
    unfold main_ctx, cmd_show_port_parsed. wp_steps. split; [done|]. cbn [shown]. rewrite String.eqb_refl, map_app. by rewrite H1.
  - intros vs ds s1 t1 H1. unfold main_ctx, cmd_exit_parsed. wp_steps. by split.
  - intros [] s1 t1 H1. wp_steps. by split.
Qed.
End Show.
End ShowPort.

(** ** cli/new_core *)

Module Counting.
Section Counting.
Context {E : Env} {RC : RteCmdline}.
(** The state is the global [a]. *)
Notation M := (M Z).
Definition ENTERED : string := "You entered: show port %u and data is %d\n".
Definition LCORE : string := "The lcore id is %d\n".

Definition cmd_show_port_parsed (lcore port_id : Z) : M unit :=
  printf LCORE [PInt lcore] ;;
  data <-- gets (fun a => a) ;;
  data' <-- deref (if in_int (data + 1) then Some (data + 1) else None) ;;
  modify (fun _ => data') ;;
  printf ENTERED [PInt port_id; PInt data].
Definition cmd_exit_parsed : M unit := printf "Exiting...\n" [].
Definition main_ctx (lcore : Z) (i : nat) (vs : list Z) : M bool :=
  match i, vs with
  | 0%nat, [port_id] => cmd_show_port_parsed lcore port_id ;; ret false
  | _, _ => cmd_exit_parsed ;; ret true
  end.
Definition launching (lcore : Z) (lines : list string) : M unit := cmdline_interact show_ctx (main_ctx lcore) lines.

(** The main lcore waits while lcore 1 talks to the user; the result of the launch is not tested. *)
Definition main (main_lcore : Z) (lines : list string) : M Z :=
  r <-- call rte_eal_init ;;
  when (r <? 0) (rte_exit EXIT_FAILURE) ;;
  cl <-- call (api_call "cmdline_stdin_new" []) ;;
  when (cl =? 0) (rte_exit EXIT_FAILURE) ;;
  printf LCORE [PInt main_lcore] ;;
  r <-- call (rte_eal_remote_launch "launching" 1) ;;
  when (r =? 0) (launching 1 lines) ;;
  _ <-- call rte_eal_mp_wait_lcore ;;
  _ <-- call (api_call "cmdline_stdin_exit" [cl]) ;;
  ret 0.

Fixpoint entered (t : trace) : list (Z * Z) :=
  match t with
  | [] => []
  | EvPrintf f [PInt n; PInt a] :: t' => if String.eqb f ENTERED then entered t' ++ [(n, a)] else entered t'
  | _ :: t' => entered t'
  end.
(** The commands with consecutive values of the counter. *)
Fixpoint numbered (k : Z) (l : list (list Z)) : list (Z * Z) :=
  match l with [] => [] | vs :: l' => (hd 0 vs, k) :: numbered (k + 1) l' end.
End Counting.

Section Theorems.
Context {E : Env} {RC : RteCmdline}.
Lemma numbered_app k a b : numbered k (a ++ b) = numbered k a ++ numbered (k + zlen a) b.
Proof.
  revert k. induction a as [|v a IH]; intros k; simpl; [by rewrite Z.add_0_r|]. rewrite IH. do 3 f_equal. unfold zlen. simpl. lia.
Qed.
Lemma commands_length ctx i q lines : (length (commands ctx i q lines) <= length lines)%nat.
Proof. induction lines as [|l ls IH]; simpl; [done|]. repeat case_match; simpl; lia. Qed.

(** Each "show port" before the first "exit" is answered with its number and the next value of the counter, from 42 on;
    nothing overflows with fewer than 2^31 - 43 lines. *)
Theorem counting_correct main_lcore lines :
  zlen lines < 2147483605 ->
  wp (main main_lcore lines) (fun r a t => r = 0 /\
      (entered t = [] /\ a = 42 \/
       entered t = numbered 42 (commands show_ctx 0 1 lines) /\ a = 42 + zlen (commands show_ctx 0 1 lines)))
    (fun c _ t => c = EXIT_FAILURE /\ entered t = []) 42 [].
Proof.
  intros Hlen. unfold main. wp_steps; try done; [|split; [done|]; by left].
  eapply wp_mono; [apply (wp_interact_all lines (fun ds a t => entered t = numbered 42 ds /\ a = 42 + zlen ds) show_ctx (main_ctx 1)
    (fun _ _ _ => False) _ _ eq_refl)| |done]; [| |done|].
  - intros vs ds a t1 [G1 Ga] HN Hu Hx. destruct (one_number vs (eq_refl : show_ctx !! 0%nat = Some _) eq_refl Hx) as [n ->].
    unfold main_ctx, cmd_show_port_parsed. wp_steps. eapply wp_deref.
    + assert (in_int (a + 1) = true) as ->; [|done]. unfold zlen in *. unfold in_int.
      destruct (Z.leb_spec (-2147483648) (a + 1)), (Z.leb_spec (a + 1) 2147483647); done || lia.
    + wp_steps. split; [done|]. rewrite numbered_app. cbn [entered]. rewrite String.eqb_refl, G1, Ga.
      split; [done|]. unfold zlen. rewrite length_app. simpl. lia.
  - intros vs ds s1 t1 G1. unfold main_ctx, cmd_exit_parsed. wp_steps. by split.
  - intros [] a t1 [G1 Ga]. wp_steps. split; [done|]. by right.
Qed.
End Theorems.
End Counting.

(** ** cli/socket_cli *)

Module Socket.
Section Socket.
Context {E : Env} {RC : RteCmdline} {St : Type}.
Notation M := (M St).
Definition HELLO : string := "Hello! You entered number: %u\n".
Definition BYE : string := "Bye!\n".
Definition hello_ctx : cmdline_ctx := [[STRING "hello"; NUM16]; [STRING "exit"]].

(** What goes to the client carries its descriptor. *)
Definition cmd_hello_parsed (fd number : Z) : M unit := printf HELLO [PInt fd; PInt number].
Definition cmd_exit_parsed (fd : Z) : M unit := printf BYE [PInt fd].
Definition main_ctx (fd : Z) (i : nat) (vs : list Z) : M bool :=
  match i, vs with
  | 0%nat, [number] => cmd_hello_parsed fd number ;; ret false
  | _, _ => cmd_exit_parsed fd ;; ret true
  end.
Definition close (fd : Z) : M unit := _ <-- call (api_call "close" [fd]) ;; ret tt.

(** One round of the loop: what accept returns, and what that client types. *)
Definition serve (client : Z * list string) : M unit :=
  let client_fd := client.1 in
  if client_fd <? 0 then printf "accept" []
  else
    printf "Client connected!\n" [] ;;
    cl <-- call (api_call "cmdline_new" [client_fd]) ;;
    if cl =? 0 then printf "cmdline creation failed\n" [] ;; close client_fd
    else
      cmdline_interact hello_ctx (main_ctx client_fd) client.2 ;;
      _ <-- call (api_call "cmdline_free" [cl]) ;;
      close client_fd ;;
      printf "Client disconnected\n" [].

(** The rounds of [while (1)] for the given clients; nothing in the file calls [cli_thread]. *)
Definition main (clients : list (Z * list string)) : M unit :=
  r <-- call rte_eal_init ;;
  when (r <? 0) (rte_exit EXIT_FAILURE) ;;
  server_fd <-- call (api_call "socket" []) ;;
  when (server_fd <? 0) (rte_exit EXIT_FAILURE) ;;
  _ <-- call (api_call "setsockopt" [server_fd; 1]) ;;
  r <-- call (api_call "bind" [server_fd; 9090]) ;;
  when (r <? 0) (rte_exit EXIT_FAILURE) ;;
  r <-- call (api_call "listen" [server_fd; 5]) ;;
  when (r <? 0) (rte_exit EXIT_FAILURE) ;;
  printf "Socket CLI running on port 9090...\n" [] ;;
  _ <-- for_each serve clients ;;
  ret tt.

Fixpoint closed (t : trace) : list Z :=
  match t with
  | [] => []
  | EvApi (api_call f [fd]) _ :: t' => if String.eqb f "close" then closed t' ++ [fd] else closed t'
  | _ :: t' => closed t'
  end.
Fixpoint answers (t : trace) : list (Z * Z) :=
  match t with
  | [] => []
  | EvPrintf f [PInt fd; PInt n] :: t' => if String.eqb f HELLO then answers t' ++ [(fd, n)] else answers t'
  | _ :: t' => answers t'
  end.
(** The answers that are due to a client if its command line could be made. *)
Definition due (client : Z * list string) (ok : bool) : list (Z * Z) :=
  if ok && (0 <=? client.1) then map (fun vs => (client.1, hd 0 vs)) (commands hello_ctx 0 1 client.2) else [].
End Socket.

Section Theorems.
Context {E : Env} {RC : RteCmdline} {St : Type}.
Implicit Types (s : St) (t : trace).

Lemma serve_ok client s t :
  wp (serve client) (fun _ _ t' => exists ok, answers t' = answers t ++ due client ok /\
      closed t' = closed t ++ (if 0 <=? client.1 then [client.1] else [])) (fun _ _ _ => False) s t.
Proof.
  unfold serve, close, due. destruct (Z.ltb_spec client.1 0) as [Hn|Hn].
  { wp_steps. exists false. rewrite (proj2 (Z.leb_gt _ _)) by lia. by rewrite !app_nil_r. }
  rewrite (proj2 (Z.leb_le _ _)) by lia. wp_steps.
  - exists false. simpl. by rewrite app_nil_r.
  - eapply wp_mono; [apply (wp_interact_all client.2 (fun ds _ t' => answers t' = answers t ++ map (fun vs => (client.1, hd 0 vs)) ds /\
      closed t' = closed t) hello_ctx (main_ctx client.1) (fun _ _ _ => False) _ _ eq_refl)| |done]; [| | |].
    + intros vs ds s1 t1 [G1 G2] _ _ Hx. destruct (one_number vs (eq_refl : hello_ctx !! 0%nat = Some _) eq_refl Hx) as [n ->].
      unfold main_ctx, cmd_hello_parsed. wp_steps. split; [done|]. cbn [answers closed]. rewrite String.eqb_refl, G1, map_app, <- app_assoc. by split.
    + intros vs ds s1 t1 G1. unfold main_ctx, cmd_exit_parsed. wp_steps. by split.
    + split; [by rewrite app_nil_r|done].
    + intros [] s1 t1 [G1 G2]. wp_steps. exists true. cbn [answers closed andb]. simpl String.eqb. simpl. by rewrite G1, G2.
Qed.

(** Every accepted connection is closed exactly once, in order, and every client whose command line could be
    made is answered each "hello" before its first "exit", on its own connection. *)
Theorem socket_correct clients s :
  wp (main clients) (fun _ _ t => closed t = filter (fun fd => 0 <= fd) (map fst clients) /\
      exists oks, length oks = length clients /\ answers t = concat (zip_with due clients oks))
    (fun c _ t => c = EXIT_FAILURE /\ closed t = [] /\ answers t = []) s [].
Proof.
  unfold main. wp_steps; try done.
  eapply wp_mono; [apply (wp_for_each (fun pre _ _ t => closed t = filter (fun fd => 0 <= fd) (map fst pre) /\
      exists oks, length oks = length pre /\ answers t = concat (zip_with due pre oks)) _ (fun _ _ _ => False))| |done].
  - intros pre client post rs s1 t1 _ [C1 (oks & L1 & A1)]. eapply wp_mono; [apply serve_ok| |done].
    intros _ s2 t2 (ok & A2 & C2). split.
    + rewrite C2, C1, map_app, filter_app. f_equal. simpl. rewrite filter_cons, filter_nil.
      destruct (Z.leb_spec 0 client.1); case_decide; done || lia.
    + exists (oks ++ [ok]). rewrite !length_app, L1. split; [done|].
      rewrite zip_with_app by done. rewrite concat_app, A2, A1. simpl. by rewrite app_nil_r.
  - split; [done|]. by exists [].
  - intros rs s1 t1 G1. by wp_steps.
Qed.
End Theorems.
End Socket.

(** ** Witnesses *)

(** A parser of single-digit commands: "1" stands for the first command with the number 1. *)
Definition digit_parse (ctx : cmdline_ctx) (line : string) : option (nat * list Z) :=
  match ctx !! 0%nat with
  | Some inst => if Nat.eqb (length (List.filter is_num inst)) 1 && String.eqb line "1" then Some (0%nat, [1]) else None
  | None => None
  end.
#[local] Instance digit_cmdline : RteCmdline.
Proof.
  refine {| cmdline_parse := digit_parse |}. intros ctx line i vs. unfold digit_parse.
  destruct (ctx !! 0%nat) as [inst|] eqn:K; [|done]. destruct (Nat.eqb_spec (length (List.filter is_num inst)) 1); [|done].
  simpl. destruct (String.eqb line "1"); [|done]. intros [= <- <-]. exists inst. split; [done|]. split; [by repeat constructor|done].
Defined.
#[local] Instance cli_env : Env :=
  sim_env (Script (fun a => match a with rte_eal_remote_launch _ _ => 0 | _ => 1 end) [] 0 (fun _ => 0) true None 0).

Lemma counting_correct_witness :
  zlen ["1"; "help"; "1"] < 2147483605 /\
  (match Counting.main 0 ["1"; "help"; "1"] 42 [] with Done _ _ t => Counting.entered t | _ => [] end) = [(1, 42); (1, 43)] /\
  wp (Counting.main 0 ["1"; "help"; "1"]) (fun r a t => r = 0 /\
      (Counting.entered t = [] /\ a = 42 \/
       Counting.entered t = Counting.numbered 42 (commands show_ctx 0 1 ["1"; "help"; "1"]) /\
       a = 42 + zlen (commands show_ctx 0 1 ["1"; "help"; "1"])))
    (fun c _ t => c = EXIT_FAILURE /\ Counting.entered t = []) 42 [].
Proof. split; [done|]. split; [by vm_compute|]. by apply Counting.counting_correct. Defined.
